(* ===== verification/_CoqProject ===== *)
-Q . S2P
Prelude.v
RustString.v
Http.v
NetAddr.v
Errors.v
Protocol.v
Streams.v
WebSocket.v
Links.v
Config.v
ConfigFile.v
Logging.v
Crypto.v
Auth.v
Framing.v
MuxTunnel.v
MuxRefine.v
UdpTunnel.v
Resource.v
VhostParse.v
Vhost.v
TcpGroup.v
ProxyManager.v
Hub.v
NatHole.v
Control.v
Server.v
TcpConn.v
UserConn.v
Routing.v
Network.v
ProxyKinds.v
ProxyLife.v
ProxyTasks.v
Dashboard.v
WebStream.v
Listener.v
ClientProxies.v
ClientTransport.v
ClientControl.v
ClientVisitors.v
ClientChannels.v
ClientSession.v
ClientServer.v
EndToEnd.v
ClientService.v
Base64.v
ClientAdmin.v
ClientCli.v
Main.v
UnitTests.v
