(* ===== verification/Prelude.v ===== *)
(** * ARP-Rust: a verified model of a reverse proxy

    ARP-Rust exposes services behind a NAT: a client logs in to the server over
    a control connection and registers proxies; the server opens a public port
    or a virtual host for each, asks the client for work connections when users
    come, and relays the bytes.  The sources are three Rust crates under
    src/crates: arp-common (messages, framing, crypto, authentication,
    configuration), arp-server and arp-client.

    ** How the code is translated

    Pure functions are functions.  Code that mutates state and can fail is in
    the monad [st S E A] of this file ([S -> S * result E A]; what was changed
    before an error stays changed).  A w-bit integer is a [Z] with the
    wrap-around of a build without overflow checks written out ([wrap],
    [swrap]); bytes are [list byte]; a Rust [String] is a Rocq [string] of
    UTF-8 bytes; a [DashMap] or [HashMap] is a [gmap], whose iteration order is
    a parameter ([DashIter]); an [Arc] that several parts share is an address
    into a heap; an mpsc channel is the list of what it holds, a oneshot
    channel an entry of a table.  Results of the network, of binding ports, the
    clock, UUIDs, nonces and what other tasks do meanwhile are arguments.
    Libraries that are not part of the repository are type classes with their
    documented laws: [Json] and [Serde] (serde_json), [Primitives] and
    [PrimLaws] (HMAC, SHA-256, AES-GCM, gzip), [UnicodeLower] (the non-ASCII
    part of lower-casing), [Framed] and [FramedSpec] (tokio_util), [Broadcast]
    and [BroadcastSpec] (tokio), [TlsLib] and [TlsLibSpec] (rustls, quinn).

    ** The parts, bottom up

    - Prelude: results, the monad, machine integers, big-endian bytes, the
      shared tactics and the hint and rewrite databases [arp].
    - RustString, NetAddr: what the sources use of [str] (trim, split, prefix
      tests, lines, UTF-8 validity, lower-casing) and of [std::net] (parsing
      and printing of socket addresses).
    - Http: what the two HTTP servers share of axum, methods, paths and routers.
    - Errors: error.rs.  The enum, its texts, the retry classification.
    - Protocol: protocol/.  Messages and the framed codec; a stream of messages
      survives any fragmentation, the decoder is bounded.
    - Streams: transport/mod.rs, prefixed.rs, throttle.rs.  The interface
      [AsyncRead]/[AsyncReadSpec], [PrefixedStream] as an instance over any
      other stream, the lossless hand-over of a connection from messages to
      raw bytes; the token bucket and its rate.
    - WebSocket: transport/ws_stream.rs.  The bridge between a program and a
      WebSocket as an instance of the same interface, under any interleaving of
      its tasks.
    - Links: writing, with the interface [AsyncWrite]/[AsyncWriteSpec], over
      prefixed, throttled and QUIC streams (quic_stream.rs); message transports
      over any stream that keeps the two contracts carry messages in order and
      then hand the stream over without losing a byte.
    - Config: config/.  The structs and the [validate] methods, characterised
      exactly.
    - ConfigFile: how a file becomes a configuration, with the defaults serde
      gives to fields and to sections.
    - Logging: logging.rs.  The set-up of the log and the purge of old files,
      over a map of directories: what is deleted, exactly.
    - Crypto: crypto/.  Signatures, packet and session ciphers: round trips.
    - Auth: auth/.  The trait [Authenticator] as a record; what logins and
      registrations [TokenAuth] accepts, exactly.
    - Framing: transport/mux.rs, udp_mux.rs, relay.rs.  The multiplexer frames
      and the encrypted STCP relay over streams that break at any byte.
    - MuxTunnel, MuxRefine: the TCP multiplexer of proxy/tcp.rs, with both its
      ends.  The tunnel (at each end the channel of frames, the connection
      and the channel of every stream) refines independent FIFO pipes.
    - UdpTunnel: proxy/udp.rs of the server and of the client.  A datagram and
      its answer across the tunnel under any other traffic.
    - Resource: resource/.  Port allocation; the interface [PortAllocator] and
      its laws [PortAllocatorSpec], against which the proxy manager is proved.
    - VhostParse, Vhost: proxy/vhost.rs.  The parsers of the TLS ClientHello
      and of the HTTP head (total, and right on well-formed input); the routing
      tables as a reachable-state invariant, round robin.
    - TcpGroup: the load-balanced groups of proxy/tcp.rs.
    - ProxyManager: proxy/mod.rs with the constructors and [close] methods of
      the proxies, one call after the other: registration is atomic, and its
      ports are those of the proxies.
    - Hub: metrics.rs, audit.rs, and the data and manager of control/mod.rs.
      [Hub] is everything the tasks of the server share.
    - NatHole: nathole.rs.  Hole punching for XTCP.
    - Control: control/mod.rs.  The handlers and the [select!] loop of a
      control connection; the pool of work connections under interleaving.
    - Server: service.rs.  Login, work connections, STCP visitors, and the step
      relation of the whole server with a turn of a control loop as one step; a
      login that ends leaves nothing behind.
    - TcpConn: the data plane of the server's proxy/tcp.rs and the per-proxy
      counters.  Accept loops with their backoff, the request for a work
      connection, plain and multiplexed connections; who was counted in is
      counted out.
    - UserConn: the listeners and connections of virtual hosts and the receive
      loop of UDP proxies; an HTTP user's connection on every branch.
    - Routing: which control connection every registered proxy, route, backend
      and STCP entry asks for work connections, and that each operation of the
      manager keeps these to their owners.
    - Network: all clients, users and visitors of a server as one step relation
      over the hub.  Under every interleaving a user is joined only with a work
      connection of the client that registered the proxy, and no connection or
      request is ever in two places; HTTP, HTTPS, TCP and STCP users in turn.
    - ProxyKinds: the trait [Proxy] as a class with an instance for each type
      that implements it, and what it reports of a proxy that was made.
    - ProxyLife: [run] and [close] of the TCP and UDP proxies as tasks with a
      clock.  When closing stops a listener, and that it comes to its end; three
      cases in which it does not, or not in time.
    - ProxyTasks: the calls of the proxy manager as programs of accesses to the
      shared maps, equal to those of ProxyManager when nothing interrupts them,
      and the tasks of all clients interleaving access by access.  Under every
      schedule a proxy belongs to a client that is there, a client that goes
      leaves none behind, and no port leaks; schedules that show what overlapping
      calls do break (a port that is freed under its proxy, a record that stays,
      a member of a group that nobody hears).
    - Dashboard: web/mod.rs.  The handlers, the page and the metrics text.
    - WebStream: the routes of web/mod.rs and its event stream over the bus of
      audit.rs.  What the stream sends delivers or counts every event; only a
      shutdown request changes the server.
    - Listener: the other half of service.rs.  Starting up, the accept loops of
      the three transports, the layers of a connection, graceful shutdown.
    - ClientProxies: the client's proxy/.  The trait with its implementations,
      the health check, the manager, the race for an XTCP peer.
    - ClientTransport: how control/mod.rs of the client picks a transport and
      connects with it; with TLS or QUIC the server's certificates are checked
      with the roots of the configured file.
    - ClientControl: control/mod.rs of the client.  Login, registration, the
      commands of the admin API and of the visitors, the message loop, work
      connections and their pool, visitors, reload.  ClientChannels has the
      states a control can be in and the invariant of its channels;
      ClientSession what registration, reload and the clean-up of a run do;
      ClientVisitors has the loops of the visitors and the exchange of an XTCP
      visitor with the message loop.
    - ClientServer: the two programs together.  A login of the client passes
      the check of the server, both sides agree on the mode of a work
      connection, an STCP visitor is joined with its provider.
    - EndToEnd: from the users that wait at the server to the proxies of the
      client, across both control loops; every user reaches its local service.
    - ClientService: service.rs of the client.  The reconnect loop.
    - Base64, ClientAdmin: the client's admin/ and cli/.  The hand-written
      base64, basic authentication, the admin API and the HTTP requests of the
      command line.
    - ClientCli: the routes of the admin API, and [arpc status] and [arpc check]
      as what they print; a check tells the state of the client it asks.
    - Main: main.rs of both programs, over all of the above; the service that
      runs is that of the file.
    - UnitTests: the repository's unit tests, run on the model.

    ** Bounds and fuel

    Recursion that is not structural has fuel that is shown to be enough: the
    drain loop of the decoder (length of the buffer), the two loops of the
    ClientHello parser (a [None] stands for an index out of bounds or for
    running out of fuel, and [parse_tls_sni_total] excludes both), the random
    port search (the 1000 attempts of the code), the relay (one turn per
    frame).  A loop that serves events takes the list of what it is served:
    the control loop of the server and the message loop of the client their
    turns, the reconnect loop its attempts, the accept loops their accepts, the
    graceful shutdown what each of its polls sees; [login_cleanup] and
    [reconnects_with_backoff] show that such a loop returns when a turn ends it.
    The loop of the throttle is shown to end after a computed number of turns.

    ** What is not modelled

    What the libraries do: TLS, WebSocket, KCP and QUIC on the wire, the parsers
    of TOML, JSON, HTTP requests and command line arguments, the file appender,
    date arithmetic, the ciphers and hashes; each is a parameter with the laws
    that are used of it.  Waiting on a full channel is not shown (sends are taken
    when there is room); time is a clock in ProxyLife and otherwise an event that
    a timeout or a tick is.  Flushing and
    shutting down a stream forward to the stream inside and have no definition;
    neither have the settings of KCP, accessors that return a field (which are
    the fields here), and the log messages.

    ** State of the development

    Every component of the three crates is modelled, the programs also
    together: EndToEnd follows a request through both, Network has any number
    of clients at the server.  What the server's side of Network takes for
    granted of a client is nothing: its messages and connections are arbitrary.
    Interleaving has two grains.  Server and Network take a turn of a control
    loop for one step and split what waits: the requests for work connections,
    the users and the visitors.  ProxyTasks splits the registrations and
    removals themselves; an iteration over a [DashMap] is one access there. *)
From stdpp Require Export base gmap list strings numbers pretty option fin_maps.
From Stdlib Require Export ZArith Lia Strings.Byte.


(** ** Scope, hint database and tactics of the development *)

Declare Scope arp_scope.
Delimit Scope arp_scope with arp.
Create HintDb arp.
Create Rewrite HintDb arp.

(** Break every [match] or [if] of the goal, closing the impossible branches. *)
Ltac split_matches := repeat (case_match; simplify_eq/=); try done.

(** Turn the boolean tests of the code into propositions. *)
Ltac bool_to_prop :=
  repeat match goal with
  | H : (_ =? _)%Z = true |- _ => apply Z.eqb_eq in H
  | H : (_ =? _)%Z = false |- _ => apply Z.eqb_neq in H
  | H : (_ <=? _)%Z = true |- _ => apply Z.leb_le in H
  | H : (_ <=? _)%Z = false |- _ => apply Z.leb_gt in H
  | H : (_ <? _)%Z = true |- _ => apply Z.ltb_lt in H
  | H : (_ <? _)%Z = false |- _ => apply Z.ltb_ge in H
  | H : (_ =? _)%nat = true |- _ => apply Nat.eqb_eq in H
  | H : (_ =? _)%nat = false |- _ => apply Nat.eqb_neq in H
  | H : (_ <=? _)%nat = true |- _ => apply Nat.leb_le in H
  | H : (_ <=? _)%nat = false |- _ => apply Nat.leb_gt in H
  | H : (_ <? _)%nat = true |- _ => apply Nat.ltb_lt in H
  | H : (_ <? _)%nat = false |- _ => apply Nat.ltb_ge in H
  | H : (_ =? _)%string = true |- _ => apply String.eqb_eq in H
  | H : (_ =? _)%string = false |- _ => apply String.eqb_neq in H
  | H : bool_decide _ = true |- _ => apply bool_decide_eq_true in H
  | H : bool_decide _ = false |- _ => apply bool_decide_eq_false in H
  | H : andb _ _ = true |- _ => apply andb_true_iff in H as [? ?]
  | H : orb _ _ = false |- _ => apply orb_false_iff in H as [? ?]
  | H : negb _ = true |- _ => apply negb_true_iff in H
  | H : negb _ = false |- _ => apply negb_false_iff in H
  end.

(** ** Results and the state-and-error monad *)

(** Rust's [Result<A, E>]. *)
Inductive result (E A : Type) : Type :=
| Ok (a : A)
| Err (e : E).
Arguments Ok {E A} a.
Arguments Err {E A} e.

#[global] Instance result_ret {E} : MRet (result E) := fun A a => Ok a.
#[global] Instance result_bind {E} : MBind (result E) := fun A B f m =>
  match m with Ok a => f a | Err e => Err e end.

Definition is_ok {E A} (r : result E A) : bool :=
  match r with Ok _ => true | Err _ => false end.

(** [Option::ok_or]. *)
Definition ok_or {E A} (e : E) (o : option A) : result E A :=
  match o with Some a => Ok a | None => Err e end.

(** Code that mutates a state of type [S] and returns a [Result]; what was
    mutated before an error stays mutated. *)
Definition st (S E A : Type) : Type := S → S * result E A.

#[global] Instance st_ret {S E} : MRet (st S E) := fun A a s => (s, Ok a).
#[global] Instance st_bind {S E} : MBind (st S E) := fun A B f m s =>
  match m s with
  | (s', Ok a) => f a s'
  | (s', Err e) => (s', Err e)
  end.

Lemma st_bind_Ok {S E A B} (m : st S E A) (f : A → st S E B) s s' b :
  (m ≫= f) s = (s', Ok b) → ∃ a s1, m s = (s1, Ok a) ∧ f a s1 = (s', Ok b).
Proof. unfold mbind, st_bind. destruct (m s) as [s1 [a|e]]; [eauto|done]. Qed.

Lemma ok_pair {S E A} (r : S * result E A) a : r.2 = Ok a → r = (r.1, Ok a).
Proof. destruct r. by intros [= ->]. Qed.

Definition st_get {S E} : st S E S := fun s => (s, Ok s).
Definition st_put {S E} (s' : S) : st S E unit := fun _ => (s', Ok tt).
Definition st_modify {S E} (f : S → S) : st S E unit := fun s => (f s, Ok tt).
Definition st_fail {S E A} (e : E) : st S E A := fun s => (s, Err e).
Definition st_lift {S E A} (r : result E A) : st S E A := fun s => (s, r).

(** [if cond { return Err(e) }]. *)
Definition st_guard {S E} (b : bool) (e : E) : st S E unit :=
  if b then st_fail e else mret tt.
Definition guard_err {E} (b : bool) (e : E) : result E unit :=
  if b then Err e else Ok tt.

(** Run code on a component of a larger state. *)
Definition zoom {S T E A} (get : S → T) (set : T → S → S) (m : st T E A) : st S E A :=
  fun s => let '(t, r) := m (get s) in (set t s, r).

Lemma bind_Ok {E A B} (m : result E A) (f : A → result E B) b :
  m ≫= f = Ok b ↔ ∃ a, m = Ok a ∧ f a = Ok b.
Proof. destruct m; simpl; naive_solver. Qed.

Lemma guard_err_Ok {E} b (e : E) u : guard_err b e = Ok u ↔ b = false.
Proof. destruct b, u; simpl; naive_solver. Qed.

Lemma guard_bind_Ok {E A} b (e : E) (k : unit → result E A) a :
  (guard_err b e ≫= k) = Ok a ↔ b = false ∧ k tt = Ok a.
Proof. destruct b; simpl; naive_solver. Qed.

(** ** Machine integers *)

Abbreviation bytes := (list byte).

(** [z as uN], and the wrap-around of atomic and release-mode arithmetic. *)
Definition wrap (w : Z) (z : Z) : Z := (z mod 2 ^ w)%Z.

(** Two's-complement reading of the low [w] bits. *)
Definition swrap (w : Z) (z : Z) : Z :=
  ((z + 2 ^ (w - 1)) mod 2 ^ w - 2 ^ (w - 1))%Z.

Definition in_u (w : Z) (z : Z) : Prop := (0 ≤ z < 2 ^ w)%Z.
Definition in_i (w : Z) (z : Z) : Prop := (- 2 ^ (w - 1) ≤ z < 2 ^ (w - 1))%Z.

Lemma wrap_small w z : in_u w z → wrap w z = z.
Proof. intros ?. by apply Z.mod_small. Qed.

Lemma wrap_range w z : (0 ≤ w)%Z → in_u w (wrap w z).
Proof. intros. apply Z.mod_pos_bound. lia. Qed.

Lemma swrap_small w z : in_i w z → swrap w z = z.
Proof.
  unfold in_i, swrap. intros [Hl Hu].
  assert (0 < w)%Z as Hw.
  { destruct (Z.le_gt_cases w 0); [|lia].
    rewrite Z.pow_neg_r in Hl, Hu by lia. lia. }
  assert (2 ^ w = 2 * 2 ^ (w - 1))%Z as Hd.
  { rewrite <- Z.pow_succ_r by lia. f_equal. lia. }
  rewrite Z.mod_small by lia. lia.
Qed.

#[export] Hint Resolve wrap_small wrap_range swrap_small : arp.

(** [i64] subtraction and [i64::abs] in a build without overflow checks. *)
Definition i64_sub (a b : Z) : Z := swrap 64 (a - b).
Definition i64_abs (a : Z) : Z := swrap 64 (Z.abs a).

(** Putting a high part and a low part of [n] bits together. *)
Lemma lor_shiftl h l n :
  (0 ≤ n)%Z → (0 ≤ l < 2 ^ n)%Z → Z.lor (Z.shiftl h n) l = (h * 2 ^ n + l)%Z.
Proof.
  intros Hn Hl. rewrite <- Z.add_nocarry_lor; [by rewrite Z.shiftl_mul_pow2|].
  apply Z.bits_inj'. intros i Hi. rewrite Z.land_spec, Z.bits_0, Z.shiftl_spec by done.
  destruct (decide (i < n)%Z).
  - by rewrite Z.testbit_neg_r by lia.
  - destruct (decide (l = 0)%Z) as [->|]; [by rewrite Z.bits_0, andb_false_r|].
    rewrite (Z.bits_above_log2 l i), andb_false_r; [done|lia|].
    apply Z.log2_lt_pow2; [lia|]. apply Z.lt_le_trans with (2 ^ n)%Z; [lia|].
    apply Z.pow_le_mono_r; lia.
Qed.

(** ** Bytes and big-endian integers *)

Definition bval (b : byte) : Z := Z.of_N (Byte.to_N b).

(** [z as u8]. *)
Definition byte_of (z : Z) : byte :=
  default x00 (Byte.of_N (Z.to_N (wrap 8 z))).

#[global] Instance byte_eq_dec : EqDecision byte.
Proof. refine (fun a b => cast_if (decide (Byte.to_N a = Byte.to_N b))).
  - apply (inj Some). by rewrite <- (Byte.of_to_N a), <- (Byte.of_to_N b), e.
  - congruence.
Defined.

Lemma bval_range b : (0 ≤ bval b < 256)%Z.
Proof. unfold bval. pose proof (Byte.to_N_bounded b). lia. Qed.

Lemma bval_byte_of z : bval (byte_of z) = wrap 8 z.
Proof.
  unfold bval, byte_of. pose proof (wrap_range 8 z ltac:(lia)) as [? ?].
  change (2 ^ 8)%Z with 256%Z in *.
  destruct (Byte.of_N (Z.to_N (wrap 8 z))) as [b|] eqn:E; simpl.
  - apply Byte.to_of_N in E. lia.
  - apply Byte.of_N_None_iff in E. lia.
Qed.

Lemma byte_of_bval b : byte_of (bval b) = b.
Proof.
  unfold byte_of. pose proof (bval_range b).
  rewrite wrap_small by (unfold in_u; lia).
  unfold bval. by rewrite N2Z.id, Byte.of_to_N.
Qed.

#[global] Instance bval_inj : Inj (=) (=) bval.
Proof. intros a b H. by rewrite <- (byte_of_bval a), H, byte_of_bval. Qed.

(** [n] bytes of [z], most significant first ([to_be_bytes], [put_u64], ...). *)
Fixpoint be_bytes (n : nat) (z : Z) : bytes :=
  match n with
  | O => []
  | S n' => byte_of (Z.shiftr z (8 * Z.of_nat n')) :: be_bytes n' z
  end.

(** [from_be_bytes]. *)
Definition be_val (bs : bytes) : Z :=
  foldl (fun acc b => acc * 256 + bval b)%Z 0%Z bs.

Lemma foldl_be_val bs acc :
  foldl (fun acc b => acc * 256 + bval b)%Z acc bs
  = (acc * 256 ^ Z.of_nat (length bs) + be_val bs)%Z.
Proof.
  unfold be_val. revert acc. induction bs as [|b bs IH]; intros acc; cbn [foldl length].
  - simpl. lia.
  - rewrite IH, (IH (0 * 256 + bval b)%Z), Nat2Z.inj_succ, Z.pow_succ_r by lia. lia.
Qed.

Lemma be_val_cons b bs :
  be_val (b :: bs) = (bval b * 256 ^ Z.of_nat (length bs) + be_val bs)%Z.
Proof. unfold be_val at 1. simpl. by rewrite foldl_be_val. Qed.

Lemma be_val_range bs : (0 ≤ be_val bs < 256 ^ Z.of_nat (length bs))%Z.
Proof.
  induction bs as [|b bs IH]; [by cbv|].
  rewrite be_val_cons. cbn [length]. rewrite Nat2Z.inj_succ, Z.pow_succ_r by lia.
  pose proof (bval_range b). nia.
Qed.

Lemma length_be_bytes n z : length (be_bytes n z) = n.
Proof. induction n; simpl; auto. Qed.

Lemma be_val_be_bytes n z : be_val (be_bytes n z) = (z mod 256 ^ Z.of_nat n)%Z.
Proof.
  induction n as [|n IH]; cbn [be_bytes].
  - by rewrite Z.mod_1_r.
  - rewrite be_val_cons, length_be_bytes, IH, bval_byte_of, Nat2Z.inj_succ, Z.pow_succ_r by lia.
    unfold wrap. rewrite Z.shiftr_div_pow2, Z.pow_mul_r by lia.
    change (2 ^ 8)%Z with 256%Z.
    rewrite (Z.mul_comm 256 (256 ^ _)), Z.rem_mul_r by lia. lia.
Qed.

Lemma be_val_be_bytes_small n z :
  (0 ≤ z < 256 ^ Z.of_nat n)%Z → be_val (be_bytes n z) = z.
Proof. intros. by rewrite be_val_be_bytes, Z.mod_small. Qed.

(** ** Byte strings *)

Definition to_bytes (s : string) : bytes := String.list_byte_of_string s.
Definition of_bytes (bs : bytes) : string := String.string_of_list_byte bs.

Lemma of_to_bytes s : of_bytes (to_bytes s) = s.
Proof. apply String.string_of_list_byte_of_string. Qed.
Lemma to_of_bytes bs : to_bytes (of_bytes bs) = bs.
Proof. apply String.list_byte_of_string_of_list_byte. Qed.

#[global] Instance to_bytes_inj : Inj (=) (=) to_bytes.
Proof. intros a b H. by rewrite <- (of_to_bytes a), H, of_to_bytes. Qed.

Lemma to_bytes_app s t : to_bytes (s +:+ t) = to_bytes s ++ to_bytes t.
Proof. induction s as [|c s IH]; [done|]. by apply (f_equal (cons (Ascii.byte_of_ascii c))) in IH. Qed.

Lemma string_app_assoc s t u : (s +:+ t) +:+ u = s +:+ t +:+ u.
Proof. rewrite <- (of_to_bytes (_ +:+ u)), !to_bytes_app, <- app_assoc, <- !to_bytes_app. by rewrite of_to_bytes. Qed.

(** The byte length of a string ([String::len]). *)
Definition slen (s : string) : Z := Z.of_nat (length (to_bytes s)).

(** ** Lists *)

Lemma take_app_exact {A} (l k : list A) n : n = length l → take n (l ++ k) = l.
Proof. intros ->. by rewrite take_app_length. Qed.
Lemma drop_app_exact {A} (l k : list A) n : n = length l → drop n (l ++ k) = k.
Proof. intros ->. by rewrite drop_app_length. Qed.

Lemma existsb_True {A} (f : A → bool) l : existsb f l = true ↔ ∃ x, x ∈ l ∧ f x = true.
Proof. rewrite List.existsb_exists. by setoid_rewrite list_elem_of_In. Qed.

Lemma existsb_False {A} (f : A → bool) l : existsb f l = false ↔ ∀ x, x ∈ l → f x = false.
Proof.
  rewrite <- not_true_iff_false, existsb_True. split.
  - intros H x Hx. apply not_true_iff_false. eauto.
  - intros H (x & Hx & E). by rewrite H in E.
Qed.

Lemma forallb_True {A} (f : A → bool) l : forallb f l = true ↔ ∀ x, x ∈ l → f x = true.
Proof. rewrite List.forallb_forall. by setoid_rewrite list_elem_of_In. Qed.

Lemma find_Some_elem {A} (f : A → bool) l x : List.find f l = Some x → x ∈ l ∧ f x = true.
Proof. intros H. apply List.find_some in H as [? ?]. by rewrite list_elem_of_In. Qed.

(** [Vec::is_empty]. *)
Definition is_nil {A} (l : list A) : bool := match l with [] => true | _ => false end.

Lemma is_nil_false {A} (l : list A) : is_nil l = false ↔ l ≠ [].
Proof. by destruct l. Qed.

Lemma elem_of_filter_b {A} (f : A → bool) l x : x ∈ List.filter f l ↔ f x = true ∧ x ∈ l.
Proof. rewrite !list_elem_of_In, List.filter_In. tauto. Qed.

Lemma find_is_Some {A} (f : A → bool) l : is_Some (List.find f l) ↔ existsb f l = true.
Proof.
  induction l as [|x l IH]; simpl; [by split; [intros [? ?]|]|].
  destruct (f x); simpl; [naive_solver|done].
Qed.

Lemma find_Some_first {A} (f : A → bool) l x :
  List.find f l = Some x ↔
  f x = true ∧ ∃ l1 l2, l = l1 ++ x :: l2 ∧ Forall (fun y => f y = false) l1.
Proof.
  induction l as [|y l IH]; simpl.
  - split; [done|]. by intros (_ & [|] & ? & ? & _).
  - destruct (f y) eqn:E.
    + split; [intros [= ->]; split; [done|]; by exists [], l|].
      intros (Hx & [|z l1] & l2 & Hl & Hf); simplify_eq/=; [done|]. apply Forall_cons in Hf as [Hz _]. congruence.
    + rewrite IH. split.
      * intros (Hx & l1 & l2 & -> & Hf). split; [done|]. exists (y :: l1), l2. by rewrite Forall_cons.
      * intros (Hx & [|z l1] & l2 & Hl & Hf); simplify_eq/=; [congruence|].
        apply Forall_cons in Hf as [_ Hf]. eauto.
Qed.

Lemma ok_or_Ok {E A} (e : E) (o : option A) a : ok_or e o = Ok a ↔ o = Some a.
Proof. destruct o; simpl; naive_solver. Qed.


#[global] Arguments be_bytes : simpl never.
#[global] Arguments be_val : simpl never.


#[export] Hint Rewrite @be_val_be_bytes_small length_be_bytes to_of_bytes of_to_bytes
  bval_byte_of byte_of_bval using (simpl in *; lia) : arp.
