(* ===== verification/RustString.v ===== *)
(** * The part of Rust's [str] API the program uses

    A Rust [String] is its UTF-8 byte sequence, here a Rocq [string] read as
    bytes through [to_bytes].  The operations of [str] and [String] that the
    sources call are defined on the bytes: [trim] removes Unicode
    [White_Space] characters by their UTF-8 encodings, [to_lowercase] is exact
    on ASCII text and takes the Unicode case tables as a parameter for the
    rest. *)
From S2P Require Import Prelude.
Local Open Scope Z_scope.

(** ** Tests on prefixes and suffixes *)

Fixpoint bytes_starts_with (p l : bytes) : bool :=
  match p, l with
  | [], _ => true
  | _ :: _, [] => false
  | a :: p', b :: l' => bool_decide (a = b) && bytes_starts_with p' l'
  end.

Definition starts_with (s p : string) : bool :=
  bytes_starts_with (to_bytes p) (to_bytes s).
Definition ends_with (s p : string) : bool :=
  bytes_starts_with (reverse (to_bytes p)) (reverse (to_bytes s)).

(** [str::strip_prefix]. *)
Definition strip_prefix (s p : string) : option string :=
  if starts_with s p then Some (of_bytes (drop (length (to_bytes p)) (to_bytes s))) else None.

Lemma bytes_starts_with_iff p l : bytes_starts_with p l = true ↔ ∃ k, l = p ++ k.
Proof.
  revert l. induction p as [|a p IH]; intros [|b l]; simpl.
  - naive_solver.
  - naive_solver.
  - split; [done|]. by intros [k ?].
  - rewrite andb_true_iff, bool_decide_eq_true, IH. naive_solver.
Qed.

Lemma starts_with_iff s p : starts_with s p = true ↔ ∃ k, s = p +:+ k.
Proof.
  unfold starts_with. rewrite bytes_starts_with_iff. split.
  - intros [k Hk]. exists (of_bytes k). apply (inj to_bytes).
    by rewrite to_bytes_app, to_of_bytes.
  - intros [k ->]. exists (to_bytes k). apply to_bytes_app.
Qed.

Lemma ends_with_iff s p : ends_with s p = true ↔ ∃ k, s = k +:+ p.
Proof.
  unfold ends_with. rewrite bytes_starts_with_iff. split.
  - intros [k Hk]. exists (of_bytes (reverse k)). apply (inj to_bytes).
    rewrite to_bytes_app, to_of_bytes. apply (inj reverse).
    by rewrite reverse_app, reverse_involutive.
  - intros [k ->]. exists (reverse (to_bytes k)). by rewrite to_bytes_app, reverse_app.
Qed.

(** ** Splitting *)

(** Split at the first byte equal to [c]. *)
Fixpoint bytes_split_once (c : byte) (l : bytes) : option (bytes * bytes) :=
  match l with
  | [] => None
  | b :: l' =>
      if bool_decide (b = c) then Some ([], l')
      else match bytes_split_once c l' with
           | Some (x, y) => Some (b :: x, y)
           | None => None
           end
  end.

(** [str::split_once] for an ASCII character. *)
Definition split_once (c : byte) (s : string) : option (string * string) :=
  match bytes_split_once c (to_bytes s) with
  | Some (x, y) => Some (of_bytes x, of_bytes y)
  | None => None
  end.

(** [str::rsplit_once] for an ASCII character. *)
Definition rsplit_once (c : byte) (s : string) : option (string * string) :=
  match bytes_split_once c (reverse (to_bytes s)) with
  | Some (x, y) => Some (of_bytes (reverse y), of_bytes (reverse x))
  | None => None
  end.

Definition bytes_contains (c : byte) (l : bytes) : bool :=
  existsb (fun b => bool_decide (b = c)) l.
Definition contains (c : byte) (s : string) : bool := bytes_contains c (to_bytes s).

Lemma bytes_contains_iff c l : bytes_contains c l = true ↔ c ∈ l.
Proof.
  unfold bytes_contains. rewrite existsb_True. split.
  - by intros (x & ? & ->%bool_decide_eq_true).
  - intros. exists c. by rewrite bool_decide_eq_true.
Qed.

Lemma bytes_contains_false c l : bytes_contains c l = false ↔ c ∉ l.
Proof. by rewrite <- bytes_contains_iff, not_true_iff_false. Qed.

Lemma bytes_split_once_app c x y :
  c ∉ x → bytes_split_once c (x ++ c :: y) = Some (x, y).
Proof.
  induction x as [|b x IH]; simpl; intros Hn; [by rewrite bool_decide_eq_true_2|].
  rewrite not_elem_of_cons in Hn.
  rewrite bool_decide_eq_false_2, IH; naive_solver.
Qed.

Lemma bytes_split_once_Some c l x y :
  bytes_split_once c l = Some (x, y) ↔ l = x ++ c :: y ∧ c ∉ x.
Proof.
  split; [|intros [-> ?]; by apply bytes_split_once_app].
  revert x. induction l as [|b l IH]; intros x; simpl; [done|].
  case_bool_decide as Hb; [intros [= <- <-]; subst; split; [done|apply not_elem_of_nil]|].
  destruct (bytes_split_once c l) as [[x' y']|]; [|done].
  intros [= <- <-]. destruct (IH x' eq_refl) as [-> ?]. by rewrite not_elem_of_cons.
Qed.

Lemma bytes_split_once_None c l : bytes_split_once c l = None ↔ c ∉ l.
Proof.
  induction l as [|b l IH]; simpl; [split; [intros _; apply not_elem_of_nil|done]|].
  rewrite not_elem_of_cons. case_bool_decide; [naive_solver|].
  destruct (bytes_split_once c l) as [[??]|]; naive_solver.
Qed.

(** [str::split] for an ASCII character: the pieces between the bytes [c]. *)
Fixpoint split_on (c : byte) (cur l : bytes) : list bytes :=
  match l with
  | [] => [reverse cur]
  | b :: l' => if bool_decide (b = c) then reverse cur :: split_on c [] l' else split_on c (b :: cur) l'
  end.

Lemma split_on_none c cur l : c ∉ l → split_on c cur l = [reverse cur ++ l].
Proof.
  revert cur. induction l as [|b l IH]; intros cur Hn; simpl; [by rewrite app_nil_r|].
  rewrite not_elem_of_cons in Hn. rewrite bool_decide_eq_false_2, IH by naive_solver.
  by rewrite reverse_cons, <- app_assoc.
Qed.

(** ** Case *)

Definition ascii_lower_byte (b : byte) : byte :=
  if (65 <=? bval b) && (bval b <=? 90) then byte_of (bval b + 32) else b.

Definition to_ascii_lowercase (s : string) : string :=
  of_bytes (ascii_lower_byte <$> to_bytes s).

(** [str::eq_ignore_ascii_case]. *)
Definition eq_ignore_ascii_case (s t : string) : bool :=
  bool_decide (to_ascii_lowercase s = to_ascii_lowercase t).

Definition is_ascii (s : string) : bool := forallb (fun b => bval b <? 128) (to_bytes s).

(** The lower-case mapping of text with non-ASCII characters: the Unicode
    tables of the standard library. *)
Class UnicodeLower := unicode_lower : string → string.

(** [str::to_lowercase]. *)
Definition to_lowercase `{UnicodeLower} (s : string) : string :=
  if is_ascii s then to_ascii_lowercase s else unicode_lower s.

(** ** Trimming *)

Definition is_ascii_ws (b : byte) : bool :=
  ((9 <=? bval b) && (bval b <=? 13)) || (bval b =? 32).

(** Whether three bytes encode a [White_Space] character of U+0800 and up. *)
Definition is_ws3 (a b c : byte) : bool :=
  let '(a, b, c) := (bval a, bval b, bval c) in
  ((a =? 225) && (b =? 154) && (c =? 128))                          (* U+1680 *)
  || ((a =? 226) && (b =? 128) && (128 <=? c) && (c <=? 138))       (* U+2000..200A *)
  || ((a =? 226) && (b =? 128) && ((c =? 168) || (c =? 169) || (c =? 175)))
  || ((a =? 226) && (b =? 129) && (c =? 159))                       (* U+205F *)
  || ((a =? 227) && (b =? 128) && (c =? 128)).                      (* U+3000 *)

Definition is_ws2 (a b : byte) : bool :=
  (bval a =? 194) && ((bval b =? 133) || (bval b =? 160)).          (* U+0085, U+00A0 *)

(** The bytes of the whitespace character the text starts with, 0 for none;
    [rev_ws_len] reads a reversed text, so the text's last character. *)
Definition ws_len (l : bytes) : nat :=
  match l with
  | a :: r =>
      if is_ascii_ws a then 1%nat else
      match r with
      | b :: r' =>
          if is_ws2 a b then 2%nat else
          match r' with c :: _ => if is_ws3 a b c then 3%nat else 0%nat | [] => 0%nat end
      | [] => 0%nat
      end
  | [] => 0%nat
  end.

Definition rev_ws_len (l : bytes) : nat :=
  match l with
  | a :: r =>
      if is_ascii_ws a then 1%nat else
      match r with
      | b :: r' =>
          if is_ws2 b a then 2%nat else
          match r' with c :: _ => if is_ws3 c b a then 3%nat else 0%nat | [] => 0%nat end
      | [] => 0%nat
      end
  | [] => 0%nat
  end.

Fixpoint drop_ws (len : bytes → nat) (fuel : nat) (l : bytes) : bytes :=
  match fuel with
  | O => l
  | S f => match len l with O => l | n => drop_ws len f (drop n l) end
  end.

Definition bytes_trim (l : bytes) : bytes :=
  let l1 := drop_ws ws_len (length l) l in
  reverse (drop_ws rev_ws_len (length l1) (reverse l1)).

(** [str::trim]. *)
Definition trim (s : string) : string := of_bytes (bytes_trim (to_bytes s)).

(** [str::trim_end_matches] for an ASCII character. *)
Fixpoint drop_byte (c : byte) (l : bytes) : bytes :=
  match l with
  | b :: l' => if bool_decide (b = c) then drop_byte c l' else l
  | [] => []
  end.
Definition trim_end_matches (c : byte) (s : string) : string :=
  of_bytes (reverse (drop_byte c (reverse (to_bytes s)))).

Definition is_empty (s : string) : bool := bool_decide (s = ""%string).

(** ** Lines *)

Definition strip_cr (rev_line : bytes) : bytes :=
  match rev_line with
  | x0d :: r => reverse r
  | _ => reverse rev_line
  end.

(** [str::lines]: split at line feeds, dropping one carriage return before each. *)
Fixpoint bytes_lines (cur : bytes) (l : bytes) : list bytes :=
  match l with
  | [] => match cur with [] => [] | _ => [reverse cur] end
  | b :: l' =>
      if bool_decide (b = x0a) then strip_cr cur :: bytes_lines [] l'
      else bytes_lines (b :: cur) l'
  end.

(** ** UTF-8 *)

Definition in_range (lo hi : Z) (b : byte) : bool := (lo <=? bval b) && (bval b <=? hi).
Definition is_cont (b : byte) : bool := in_range 128 191 b.

(** The bytes of the first well-formed UTF-8 character, 0 when there is none. *)
Definition utf8_len (l : bytes) : nat :=
  match l with
  | a :: r =>
      if bval a <? 128 then 1%nat else
      match r with
      | b :: r1 =>
          if in_range 194 223 a && is_cont b then 2%nat else
          match r1 with
          | c :: r2 =>
              if ((bval a =? 224) && in_range 160 191 b
                  || (in_range 225 236 a || in_range 238 239 a) && is_cont b
                  || (bval a =? 237) && in_range 128 159 b) && is_cont c then 3%nat else
              match r2 with
              | d :: _ =>
                  if ((bval a =? 240) && in_range 144 191 b
                      || in_range 241 243 a && is_cont b
                      || (bval a =? 244) && in_range 128 143 b) && is_cont c && is_cont d
                  then 4%nat else 0%nat
              | [] => 0%nat
              end
          | [] => 0%nat
          end
      | [] => 0%nat
      end
  | [] => 0%nat
  end.

Fixpoint utf8_go (fuel : nat) (l : bytes) : bool :=
  match l with
  | [] => true
  | _ :: _ =>
      match fuel with
      | O => false
      | S f => match utf8_len l with O => false | n => utf8_go f (drop n l) end
      end
  end.

(** Whether [String::from_utf8] accepts the bytes. *)
Definition utf8_valid (l : bytes) : bool := utf8_go (length l) l.
Definition from_utf8 (l : bytes) : option string :=
  if utf8_valid l then Some (of_bytes l) else None.

Lemma ascii_utf8_go l n :
  (length l ≤ n)%nat → forallb (fun b => bval b <? 128) l = true → utf8_go n l = true.
Proof.
  revert n. induction l as [|b l IH]; intros [|n] Hn Ha; simpl in *; try done; [lia|].
  apply andb_true_iff in Ha as [-> Ha]. simpl. rewrite drop_0. apply IH; [lia|done].
Qed.

(** ASCII text is valid UTF-8. *)
Lemma is_ascii_utf8 s : is_ascii s = true → utf8_valid (to_bytes s) = true.
Proof. by apply ascii_utf8_go. Qed.

Lemma from_utf8_to_bytes s : utf8_valid (to_bytes s) = true → from_utf8 (to_bytes s) = Some s.
Proof. unfold from_utf8. intros ->. by rewrite of_to_bytes. Qed.

(** ** [String::from_utf8_lossy] *)

(** How many bytes the decoder skips when no character starts here: the longest
    start of a well-formed character, or one byte. *)
Definition utf8_bad_len (l : bytes) : nat :=
  match l with
  | a :: b :: r =>
      if (bval a =? 224) && in_range 160 191 b || (in_range 225 236 a || in_range 238 239 a) && is_cont b
         || (bval a =? 237) && in_range 128 159 b then 2%nat
      else if (bval a =? 240) && in_range 144 191 b || in_range 241 243 a && is_cont b
              || (bval a =? 244) && in_range 128 143 b
      then match r with c :: _ => if is_cont c then 3%nat else 2%nat | [] => 2%nat end
      else 1%nat
  | _ => 1%nat
  end.

Definition replacement : bytes := [xef; xbf; xbd].

Fixpoint lossy_go (fuel : nat) (l : bytes) : bytes :=
  match fuel, l with
  | S f, _ :: _ => match utf8_len l with
                   | O => replacement ++ lossy_go f (drop (utf8_bad_len l) l)
                   | n => take n l ++ lossy_go f (drop n l)
                   end
  | _, _ => []
  end.
Definition from_utf8_lossy (l : bytes) : string := of_bytes (lossy_go (length l) l).

Lemma lossy_go_valid n l : utf8_go n l = true → lossy_go n l = l.
Proof.
  revert l. induction n as [|n IH]; intros [|b l] H; try done.
  cbn [utf8_go lossy_go] in *. destruct (utf8_len (b :: l)) as [|k]; [done|].
  rewrite IH by done. apply take_drop.
Qed.

Lemma from_utf8_lossy_valid s : utf8_valid (to_bytes s) = true → from_utf8_lossy (to_bytes s) = s.
Proof. intros H. unfold from_utf8_lossy. by rewrite lossy_go_valid, of_to_bytes. Qed.

Example trim_ex : trim "  ab c
 " = "ab c"%string.
Proof. reflexivity. Qed.
Example lines_ex :
  of_bytes <$> bytes_lines [] (to_bytes "a" ++ [x0d; x0a] ++ to_bytes "b" ++ [x0a; x0a] ++ to_bytes "c")
  = ["a"; "b"; ""; "c"]%string.
Proof. reflexivity. Qed.

Lemma is_empty_true s : is_empty s = true ↔ s = ""%string.
Proof. apply bool_decide_eq_true. Qed.
Lemma is_empty_false s : is_empty s = false ↔ s ≠ ""%string.
Proof. apply bool_decide_eq_false. Qed.

(** Trimming never makes a string longer. *)
Lemma length_drop_ws len fuel l : (length (drop_ws len fuel l) ≤ length l)%nat.
Proof.
  revert l. induction fuel as [|fuel IH]; intros l; simpl; [lia|]. destruct (len l) eqn:E; [lia|].
  etransitivity; [apply IH|]. rewrite length_drop. lia.
Qed.
Lemma length_bytes_trim l : (length (bytes_trim l) ≤ length l)%nat.
Proof.
  unfold bytes_trim. rewrite length_reverse. etransitivity; [apply length_drop_ws|].
  rewrite length_reverse. apply length_drop_ws.
Qed.
