(* ===== verification/Http.v ===== *)
(** * Requests to the two HTTP servers

    What crates/arp-server/src/web/mod.rs and crates/arp-client/src/admin/mod.rs
    share of axum: the method of a request, and the pieces of its path that a
    route is matched against, where a parameter takes one piece. *)
From S2P Require Import Prelude RustString.
Local Open Scope Z_scope.

(** A route for [get] also serves [HEAD]. *)
Inductive Method := GET | HEAD | POST | DELETE | OtherMethod.

(** The pieces of a path after its first slash. *)
Definition path_pieces (path : string) : option (list string) :=
  rest ← strip_prefix path "/"; Some (of_bytes <$> split_on "/"%byte [] (to_bytes rest)).

(** ** Routers *)

(** A piece of a pattern: a text, or a parameter, which takes one piece that is
    not empty. *)
Inductive Seg := Lit (s : string) | Param.

(** The pieces a pattern takes as parameters, when it matches. *)
Fixpoint match_route (pattern : list Seg) (pieces : list string) : option (list string) :=
  match pattern, pieces with
  | [], [] => Some []
  | Lit s :: pattern', x :: pieces' => if String.eqb x s then match_route pattern' pieces' else None
  | Param :: pattern', x :: pieces' => if is_empty x then None else cons x <$> match_route pattern' pieces'
  | _, _ => None
  end.

(** A pattern with its parameters filled in. *)
Fixpoint fill (pattern : list Seg) (params : list string) : list string :=
  match pattern, params with
  | [], _ => []
  | Lit s :: pattern', _ => s :: fill pattern' params
  | Param :: pattern', x :: params' => x :: fill pattern' params'
  | Param :: _, [] => []
  end.

Lemma match_route_fill pattern pieces params : match_route pattern pieces = Some params → pieces = fill pattern params.
Proof.
  revert pieces params. induction pattern as [|[s|] pattern IH]; intros [|x pieces] params; cbn [match_route fill]; try done.
  - destruct (String.eqb_spec x s) as [->|]; [|done]. intros E. by rewrite (IH _ _ E).
  - destruct (is_empty x); [done|]. destruct (match_route pattern pieces) as [ps|] eqn:E; [|done].
    intros [= <-]. by rewrite (IH _ _ E).
Qed.

Section Router.
Context {A E : Type}.
(** How axum decodes the escapes of a parameter, and its own responses. *)
Variable percent_decode : string → option string.
Variables not_found bad_request : E.
(** The routes: a pattern with what its handlers take the method and the parameters for. *)
Variable table : list (list Seg * (Method → list string → E + A)).

Fixpoint find_route (table : list (list Seg * (Method → list string → E + A))) (method : Method)
    (pieces : list string) : E + A :=
  match table with
  | [] => inl not_found
  | (pattern, f) :: rest =>
      match match_route pattern pieces with
      | Some params => match mapM percent_decode params with
                       | Some params => f method params
                       | None => inl bad_request
                       end
      | None => find_route rest method pieces
      end
  end.
Definition router (method : Method) (path : string) : E + A :=
  match path_pieces path with
  | Some pieces => find_route table method pieces
  | None => inl not_found
  end.

(** A request that is taken is taken by a route of the table. *)
Lemma router_inr method path a :
  router method path = inr a →
  ∃ pattern f pieces params decoded, (pattern, f) ∈ table ∧ path_pieces path = Some pieces ∧
    match_route pattern pieces = Some params ∧ mapM percent_decode params = Some decoded ∧ f method decoded = inr a.
Proof.
  unfold router. destruct (path_pieces path) as [pieces|]; [|done].
  induction table as [|[pattern f] rest IH]; cbn [find_route]; [done|].
  destruct (match_route pattern pieces) as [params|] eqn:Em.
  - destruct (mapM percent_decode params) as [decoded|] eqn:Ed; [|done]. intros Ef.
    exists pattern, f, pieces, params, decoded. split_and!; try done. by left.
  - intros (p & f' & ps & prs & ds & Hin & Hrest)%IH. exists p, f', ps, prs, ds. split; [by right|done].
Qed.
End Router.

(** A name that a path can carry as it is: one piece, and no escape. *)
Definition plain_name (percent_decode : string → option string) (name : string) : Prop :=
  name ≠ ""%string ∧ ("/"%byte ∉ to_bytes name) ∧ percent_decode name = Some name.

Lemma split_on_sep c cur a l : c ∉ a → split_on c cur (a ++ c :: l) = (reverse cur ++ a) :: split_on c [] l.
Proof.
  revert cur. induction a as [|b a IH]; intros cur Hn; cbn [app split_on].
  - by rewrite bool_decide_eq_true_2, app_nil_r.
  - rewrite not_elem_of_cons in Hn. rewrite bool_decide_eq_false_2, IH by naive_solver.
    by rewrite reverse_cons, <- app_assoc.
Qed.

Lemma path_pieces_of pieces :
  pieces ≠ [] → Forall (fun s => "/"%byte ∉ to_bytes s) pieces →
  path_pieces (foldr (fun s t => "/" +:+ s +:+ t) ""%string pieces) = Some pieces.
Proof.
  intros Hne Hp. unfold path_pieces. destruct pieces as [|s ss]; [done|]. cbn [foldr].
  assert (Hstrip : ∀ x, strip_prefix ("/" +:+ x) "/" = Some x).
  { intros x. unfold strip_prefix. rewrite (proj2 (starts_with_iff _ _)) by eauto.
    by rewrite to_bytes_app, drop_app_exact, of_to_bytes. }
  rewrite Hstrip. cbn [mbind option_bind]. f_equal. clear Hne Hstrip.
  revert s Hp. induction ss as [|t ss IH]; intros s [Hs Hp]%Forall_cons; rewrite to_bytes_app; cbn [foldr].
  - rewrite app_nil_r, split_on_none by done. cbn [fmap list_fmap]. by rewrite reverse_nil, app_nil_l, of_to_bytes.
  - rewrite to_bytes_app. change (to_bytes "/") with ["/"%byte]. cbn [app].
    rewrite split_on_sep by done. rewrite fmap_cons, IH by done. by rewrite reverse_nil, app_nil_l, of_to_bytes.
Qed.
