(* ===== verification/NetAddr.v ===== *)
(** * Socket addresses: the part of [std::net] the sources use

    [IpAddr] and [SocketAddr] with the parser of [FromStr] (dotted quads,
    IPv6 groups with [::] and an embedded IPv4 tail, bracketed IPv6 socket
    addresses with a scope id), the [Display] text, and the tests
    [is_unspecified] and [is_loopback]. *)
From S2P Require Import Prelude RustString.
Local Open Scope Z_scope.

Inductive IpAddr :=
| V4 (a b c d : Z)
| V6 (segments : list Z).                      (* eight 16-bit groups *)

Inductive SocketAddr :=
| SAV4 (a b c d port : Z)
| SAV6 (segments : list Z) (scope_id port : Z).

#[global] Instance IpAddr_eq_dec : EqDecision IpAddr.
Proof. solve_decision. Defined.
#[global] Instance SocketAddr_eq_dec : EqDecision SocketAddr.
Proof. solve_decision. Defined.

Definition ip (sa : SocketAddr) : IpAddr :=
  match sa with SAV4 a b c d _ => V4 a b c d | SAV6 s _ _ => V6 s end.
Definition port (sa : SocketAddr) : Z :=
  match sa with SAV4 _ _ _ _ p => p | SAV6 _ _ p => p end.

(** [SocketAddr::new]. *)
Definition new_socket_addr (i : IpAddr) (p : Z) : SocketAddr :=
  match i with V4 a b c d => SAV4 a b c d p | V6 s => SAV6 s 0 p end.

Definition is_unspecified (i : IpAddr) : bool :=
  match i with
  | V4 a b c d => (a =? 0) && (b =? 0) && (c =? 0) && (d =? 0)
  | V6 s => bool_decide (s = replicate 8 0)
  end.
Definition is_loopback (i : IpAddr) : bool :=
  match i with
  | V4 a _ _ _ => a =? 127
  | V6 s => bool_decide (s = replicate 7 0 ++ [1])
  end.

(** ** Parsing *)

(** [char::to_digit]. *)
Definition to_digit (radix : Z) (b : byte) : option Z :=
  let z := bval b in
  let d := if (48 <=? z) && (z <=? 57) then z - 48
           else if (97 <=? z) && (z <=? 102) then z - 87
           else if (65 <=? z) && (z <=? 70) then z - 55 else 99 in
  if d <? radix then Some d else None.

(** The longest run of digits and what follows it. *)
Fixpoint read_digits (radix : Z) (l : bytes) : list Z * bytes :=
  match l with
  | b :: l' =>
      match to_digit radix b with
      | Some d => let '(ds, r) := read_digits radix l' in (d :: ds, r)
      | None => ([], l)
      end
  | [] => ([], [])
  end.

Definition digits_val (radix : Z) (ds : list Z) : Z := foldl (fun acc d => acc * radix + d) 0 ds.

(** [Parser::read_number] for a type with largest value [max]. *)
Definition read_number (radix max : Z) (max_digits : option nat) (allow_zero_prefix : bool)
    (l : bytes) : option (Z * bytes) :=
  let '(ds, r) := read_digits radix l in
  let v := digits_val radix ds in
  match ds with
  | [] => None
  | d :: _ =>
      if match max_digits with Some m => (m <? length ds)%nat | None => false end then None
      else if negb allow_zero_prefix && (d =? 0) && (1 <? length ds)%nat then None
      else if v <=? max then Some (v, r) else None
  end.

Definition read_given_char (c : byte) (l : bytes) : option bytes :=
  match l with b :: l' => if bool_decide (b = c) then Some l' else None | [] => None end.

Definition read_ipv4_addr (l : bytes) : option (Z * Z * Z * Z * bytes) :=
  '(a, l) ← read_number 10 255 (Some 3%nat) false l;
  l ← read_given_char "."%byte l;
  '(b, l) ← read_number 10 255 (Some 3%nat) false l;
  l ← read_given_char "."%byte l;
  '(c, l) ← read_number 10 255 (Some 3%nat) false l;
  l ← read_given_char "."%byte l;
  '(d, l) ← read_number 10 255 (Some 3%nat) false l;
  Some (a, b, c, d, l).

Definition read_sep {A} (sep : byte) (first : bool) (inner : bytes → option A) (l : bytes) : option A :=
  if first then inner l else l ← read_given_char sep l; inner l.

(** [read_groups] with room for [limit] more groups: the groups read, whether
    the last two came from an IPv4 tail, and the remaining input. *)
Fixpoint read_groups (limit : nat) (first : bool) (l : bytes) : list Z * bool * bytes :=
  match limit with
  | O => ([], false, l)
  | S n =>
      match (match n with
             | O => None
             | _ => read_sep ":"%byte first read_ipv4_addr l
             end) with
      | Some (a, b, c, d, r) => ([a * 256 + b; c * 256 + d], true, r)
      | None =>
          match read_sep ":"%byte first (read_number 16 65535 (Some 4%nat) true) l with
          | Some (g, r) => let '(gs, v4, r') := read_groups n false r in (g :: gs, v4, r')
          | None => ([], false, l)
          end
      end
  end.

Definition read_ipv6_addr (l : bytes) : option (list Z * bytes) :=
  let '(hd, hd_v4, r) := read_groups 8 true l in
  if (length hd =? 8)%nat then Some (hd, r)
  else if hd_v4 then None
  else
    r ← read_given_char ":"%byte r;
    r ← read_given_char ":"%byte r;
    let '(tl, _, r) := read_groups (8 - (length hd + 1)) true r in
    Some (hd ++ replicate (8 - length hd - length tl) 0 ++ tl, r).

Definition at_end {A} (r : option (A * bytes)) : option A :=
  match r with Some (a, []) => Some a | _ => None end.

Definition read_ip_addr (l : bytes) : option (IpAddr * bytes) :=
  match read_ipv4_addr l with
  | Some (a, b, c, d, r) => Some (V4 a b c d, r)
  | None => '(s, r) ← read_ipv6_addr l; Some (V6 s, r)
  end.

(** [s.parse::<IpAddr>()]. *)
Definition parse_ip_addr (s : string) : option IpAddr := at_end (read_ip_addr (to_bytes s)).

Definition read_port (l : bytes) : option (Z * bytes) :=
  l ← read_given_char ":"%byte l; read_number 10 65535 None true l.

Definition read_scope_id (l : bytes) : option (Z * bytes) :=
  l ← read_given_char "%"%byte l; read_number 10 (2 ^ 32 - 1) None true l.

Definition read_socket_addr (l : bytes) : option (SocketAddr * bytes) :=
  match ('(a, b, c, d, r) ← read_ipv4_addr l; '(p, r) ← read_port r; Some (SAV4 a b c d p, r)) with
  | Some x => Some x
  | None =>
      l ← read_given_char "["%byte l;
      '(s, r) ← read_ipv6_addr l;
      let '(scope, r) := default (0, r) (read_scope_id r) in
      r ← read_given_char "]"%byte r;
      '(p, r) ← read_port r;
      Some (SAV6 s scope p, r)
  end.

(** [s.parse::<SocketAddr>()]. *)
Definition parse_socket_addr (s : string) : option SocketAddr :=
  at_end (read_socket_addr (to_bytes s)).

(** ** Printing *)

Definition hex_digit (z : Z) : byte := byte_of (if z <? 10 then 48 + z else 87 + z).

(** Lower-case hexadecimal of a 16-bit group, without leading zeros. *)
Definition hex16 (z : Z) : string :=
  of_bytes (let ds := [z / 4096 mod 16; z / 256 mod 16; z / 16 mod 16; z mod 16] in
            hex_digit <$> (if z =? 0 then [0]
                           else drop (if z <? 16 then 3%nat else if z <? 256 then 2%nat
                                      else if z <? 4096 then 1%nat else 0%nat) ds)).

(** The first longest run of zero groups, as (start, length). *)
Fixpoint zero_run (i cur_start cur_len best_start best_len : nat) (s : list Z) : nat * nat :=
  match s with
  | [] => (best_start, best_len)
  | g :: s' =>
      if g =? 0 then
        let cs := if (cur_len =? 0)%nat then i else cur_start in
        let cl := S cur_len in
        if (best_len <? cl)%nat then zero_run (S i) cs cl cs cl s'
        else zero_run (S i) cs cl best_start best_len s'
      else zero_run (S i) 0 0 best_start best_len s'
  end.

Fixpoint join (sep : string) (l : list string) : string :=
  match l with
  | [] => ""
  | [x] => x
  | x :: l' => x +:+ sep +:+ join sep l'
  end.

Definition ipv4_to_string (a b c d : Z) : string :=
  pretty a +:+ "." +:+ pretty b +:+ "." +:+ pretty c +:+ "." +:+ pretty d.

Definition ipv6_to_string (s : list Z) : string :=
  match s with
  | [0; 0; 0; 0; 0; 65535; ab; cd] =>
      "::ffff:" +:+ ipv4_to_string (ab / 256) (ab mod 256) (cd / 256) (cd mod 256)
  | _ =>
      let '(start, len) := zero_run 0 0 0 0 0 s in
      if (1 <? len)%nat then
        join ":" (hex16 <$> take start s) +:+ "::" +:+ join ":" (hex16 <$> drop (start + len) s)
      else join ":" (hex16 <$> s)
  end.

Definition socket_addr_to_string (sa : SocketAddr) : string :=
  match sa with
  | SAV4 a b c d p => ipv4_to_string a b c d +:+ ":" +:+ pretty p
  | SAV6 s scope p =>
      if scope =? 0 then "[" +:+ ipv6_to_string s +:+ "]:" +:+ pretty p
      else "[" +:+ ipv6_to_string s +:+ "%" +:+ pretty scope +:+ "]:" +:+ pretty p
  end.

Example parse_v6_ex :
  parse_socket_addr "[2001:db8::1%3]:443" = Some (SAV6 [8193; 3512; 0; 0; 0; 0; 0; 1] 3 443).
Proof. vm_compute. reflexivity. Qed.
Example show_v6_ex :
  socket_addr_to_string (SAV6 [8193; 3512; 0; 0; 1; 0; 0; 1] 0 443) = "[2001:db8::1:0:0:1]:443"%string.
Proof. vm_compute. reflexivity. Qed.
Example parse_bad_ex : parse_ip_addr "127.0.0.01" = None.
Proof. vm_compute. reflexivity. Qed.
