(* ===== verification/Errors.v ===== *)
(** * The error type of the workspace (crates/arp-common/src/error.rs)

    [Error.t] has the variants of the Rust enum; [error_to_string] is the
    [Display] text that [thiserror] derives, which the control plane sends to
    the peer; [is_retriable] drives the client's reconnect loop. *)
From S2P Require Import Prelude.

(** [std::io::Error]: what the sources look at. *)
Inductive ErrorKind := UnexpectedEof | WouldBlock | Interrupted | BrokenPipe | OtherKind.

Record IoError := mkIoError {
  io_kind : ErrorKind;
  raw_os_error : option Z;
  io_text : string;
}.

Module Error.
Inductive t :=
| Io (e : IoError)
| Protocol (s : string)
| Auth (s : string)
| Config (s : string)
| Transport (s : string)
| Codec (s : string)
| Proxy (s : string)
| Timeout (s : string)
| InvalidMessage (s : string)
| Json (s : string)
| Toml (s : string)
| ChannelSend
| ChannelRecv
| ConnectionClosed
| Other (s : string).
End Error.

Abbreviation Result := (result Error.t).

#[global] Instance ErrorKind_eq_dec : EqDecision ErrorKind.
Proof. solve_decision. Defined.
#[global] Instance IoError_eq_dec : EqDecision IoError.
Proof. solve_decision. Defined.
#[global] Instance Error_eq_dec : EqDecision Error.t.
Proof. solve_decision. Defined.
#[global] Instance result_eq_dec {E A} `{EqDecision E, EqDecision A} : EqDecision (result E A).
Proof. solve_decision. Defined.

Definition error_to_string (e : Error.t) : string :=
  match e with
  | Error.Io e => "IO error: " +:+ io_text e
  | Error.Protocol s => "Protocol error: " +:+ s
  | Error.Auth s => "Authentication failed: " +:+ s
  | Error.Config s => "Configuration error: " +:+ s
  | Error.Transport s => "Transport error: " +:+ s
  | Error.Codec s => "Codec error: " +:+ s
  | Error.Proxy s => "Proxy error: " +:+ s
  | Error.Timeout s => "Timeout: " +:+ s
  | Error.InvalidMessage s => "Invalid message type: " +:+ s
  | Error.Json s => "JSON error: " +:+ s
  | Error.Toml s => "TOML error: " +:+ s
  | Error.ChannelSend => "Channel send error"
  | Error.ChannelRecv => "Channel receive error"
  | Error.ConnectionClosed => "Connection closed"
  | Error.Other s => "Other error: " +:+ s
  end.

Definition is_retriable (e : Error.t) : bool :=
  match e with
  | Error.Io _ => true
  | Error.Transport _ => true
  | Error.Timeout _ => true
  | Error.ConnectionClosed => true
  | Error.ChannelSend | Error.ChannelRecv => true
  | Error.Auth _ | Error.Config _ | Error.Proxy _ => false
  | Error.Protocol _ | Error.Codec _ | Error.InvalidMessage _ => false
  | Error.Json _ | Error.Toml _ | Error.Other _ => false
  end.

(** No error is printed as the empty string, so an [error] field of a response
    is empty only on success. *)
Lemma error_to_string_nonempty e : error_to_string e ≠ ""%string.
Proof. by destruct e. Qed.
