(* ===== verification/Protocol.v ===== *)
(** * Messages and their wire format (crates/arp-common/src/protocol/)

    [Message] has the constructors of the Rust enum and the records its
    structs.  A message is framed as one type byte, an 8-byte big-endian
    length and the JSON text.  JSON itself ([serde_json]) is a parameter: the
    classes [Json] (the [Value] type as far as it is inspected) and [Serde]
    ([to_vec] and [from_slice]). *)
From S2P Require Import Prelude Errors.
Local Open Scope Z_scope.

(** ** [serde_json::Value] *)

Class Json := {
  Value : Type;
  as_object : Value → option (gmap string Value);
  as_str : Value → option string;
}.

Section Messages.
Context `{Json}.

Record LoginMsg := mkLoginMsg {
  lm_version : string; lm_hostname : string; lm_os : string; lm_arch : string;
  lm_user : string; lm_client_id : string; lm_timestamp : Z;
  lm_privilege_key : string; lm_run_id : string; lm_pool_count : Z;
}.

Record LoginRespMsg := mkLoginRespMsg {
  lr_version : string; lr_run_id : string; lr_error : string;
}.

Record NewProxyMsg := mkNewProxyMsg {
  np_proxy_name : string; np_proxy_type : string;
  np_use_encryption : bool; np_use_compression : bool;
  np_local_ip : string; np_local_port : Z; np_remote_port : Z;
  np_custom_domains : list string; np_subdomain : string;
  np_locations : list string; np_host_header_rewrite : string;
  np_sk : string; np_multiplexer : string; np_fallback_to_relay : bool;
  np_extra : Value;
}.

Record NewProxyRespMsg := mkNewProxyRespMsg {
  npr_proxy_name : string; npr_remote_addr : string; npr_error : string;
}.

Record CloseProxyMsg := mkCloseProxyMsg { cp_proxy_name : string }.
Record ReqWorkConnMsg := mkReqWorkConnMsg { rw_proxy_name : string }.
Record NewWorkConnMsg := mkNewWorkConnMsg { nw_run_id : string; nw_privilege_key : string }.

Record StartWorkConnMsg := mkStartWorkConnMsg {
  sw_proxy_name : string; sw_src_addr : string; sw_dst_addr : string; sw_error : string;
}.

Record PingMsg := mkPingMsg { ping_timestamp : Z }.
Record PongMsg := mkPongMsg { pong_timestamp : Z }.

Record UdpPacketMsg := mkUdpPacketMsg {
  up_content : bytes; up_local_addr : string; up_remote_addr : string;
}.

Record NatHoleVisitorMsg := mkNatHoleVisitorMsg { nv_proxy_name : string; nv_signed_msg : string }.
Record NatHoleClientMsg := mkNatHoleClientMsg { nc_proxy_name : string; nc_visitor_addr : string }.

Record NatHoleRespMsg := mkNatHoleRespMsg {
  nr_visitor_addr : string; nr_client_addr : string; nr_relay_addr : string; nr_error : string;
}.

Record StcpVisitorConnMsg := mkStcpVisitorConnMsg {
  sv_proxy_name : string; sv_sk_signature : string; sv_timestamp : Z;
}.

Inductive Message :=
| Login (m : LoginMsg)
| LoginResp (m : LoginRespMsg)
| NewProxy (m : NewProxyMsg)
| NewProxyResp (m : NewProxyRespMsg)
| CloseProxy (m : CloseProxyMsg)
| ReqWorkConn (m : ReqWorkConnMsg)
| NewWorkConn (m : NewWorkConnMsg)
| StartWorkConn (m : StartWorkConnMsg)
| Ping (m : PingMsg)
| Pong (m : PongMsg)
| UdpPacket (m : UdpPacketMsg)
| NatHoleVisitor (m : NatHoleVisitorMsg)
| NatHoleClient (m : NatHoleClientMsg)
| NatHoleResp (m : NatHoleRespMsg)
| StcpVisitorConn (m : StcpVisitorConnMsg).

Definition type_byte (m : Message) : byte :=
  match m with
  | Login _ => "o" | LoginResp _ => "1" | NewProxy _ => "p" | NewProxyResp _ => "2"
  | CloseProxy _ => "c" | ReqWorkConn _ => "r" | NewWorkConn _ => "w" | StartWorkConn _ => "s"
  | Ping _ => "h" | Pong _ => "4" | UdpPacket _ => "u" | NatHoleVisitor _ => "i"
  | NatHoleClient _ => "n" | NatHoleResp _ => "m" | StcpVisitorConn _ => "v"
  end%byte.

Definition from_type_byte (b : byte) : option string :=
  match b with
  | "o" => Some "Login"%string
  | "1" => Some "LoginResp"%string
  | "p" => Some "NewProxy"%string
  | "2" => Some "NewProxyResp"%string
  | "c" => Some "CloseProxy"%string
  | "r" => Some "ReqWorkConn"%string
  | "w" => Some "NewWorkConn"%string
  | "s" => Some "StartWorkConn"%string
  | "h" => Some "Ping"%string
  | "4" => Some "Pong"%string
  | "u" => Some "UdpPacket"%string
  | "i" => Some "NatHoleVisitor"%string
  | "n" => Some "NatHoleClient"%string
  | "m" => Some "NatHoleResp"%string
  | "v" => Some "StcpVisitorConn"%string
  | _ => None
  end%byte.

(** The serde tag of a message: the name of its variant. *)
Definition variant_name (m : Message) : string :=
  match m with
  | Login _ => "Login" | LoginResp _ => "LoginResp" | NewProxy _ => "NewProxy"
  | NewProxyResp _ => "NewProxyResp" | CloseProxy _ => "CloseProxy"
  | ReqWorkConn _ => "ReqWorkConn" | NewWorkConn _ => "NewWorkConn"
  | StartWorkConn _ => "StartWorkConn" | Ping _ => "Ping" | Pong _ => "Pong"
  | UdpPacket _ => "UdpPacket" | NatHoleVisitor _ => "NatHoleVisitor"
  | NatHoleClient _ => "NatHoleClient" | NatHoleResp _ => "NatHoleResp"
  | StcpVisitorConn _ => "StcpVisitorConn"
  end%string.

End Messages.

(** ** The codec *)

(** [serde_json::to_vec] and [serde_json::from_slice] at type [Message]; the
    error is the text of the [serde_json] error. *)
Class Serde `{Json} := {
  to_vec : Message → result string bytes;
  from_slice : bytes → result string Message;
}.

Section Codec.
Context `{Serde}.

Definition MAX_MESSAGE_SIZE : Z := 8 * 1024 * 1024.

Definition blen (b : bytes) : Z := Z.of_nat (length b).

(** The bytes [encode] appends for a message of type byte [t] with JSON text [json]. *)
Definition frame (t : byte) (json : bytes) : bytes := t :: be_bytes 8 (blen json) ++ json.

(** [Encoder::encode]: the buffer after the call and the result. *)
Definition encode (msg : Message) (dst : bytes) : bytes * Result unit :=
  match to_vec msg with
  | Err e => (dst, Err (Error.Codec ("Failed to serialize message: " +:+ e)))
  | Ok json =>
      if MAX_MESSAGE_SIZE <? blen json then
        (dst, Err (Error.Codec ("Message too large: " +:+ pretty (blen json) +:+ " > "
                                +:+ pretty MAX_MESSAGE_SIZE)))
      else (dst ++ frame (type_byte msg) json, Ok tt)
  end.

(** The sender encodes one message after the other into its buffer. *)
Fixpoint encode_all (msgs : list Message) (dst : bytes) : bytes * Result unit :=
  match msgs with
  | [] => (dst, Ok tt)
  | msg :: rest =>
      match encode msg dst with
      | (dst', Ok _) => encode_all rest dst'
      | (dst', Err e) => (dst', Err e)
      end
  end.

(** How [{:?}] prints the option of a type name. *)
Definition debug_opt_str (o : option string) : string :=
  match o with
  | Some s => "Some(" +:+ of_bytes [x22] +:+ s +:+ of_bytes [x22] +:+ ")"
  | None => "None"
  end.

(** [Decoder::decode]. *)
Definition decode (src : bytes) : bytes * Result (option Message) :=
  if blen src <? 9 then (src, Ok None) else
  let length := be_val (take 8 (drop 1 src)) in
  if MAX_MESSAGE_SIZE <? length then
    (src, Err (Error.Protocol ("message length " +:+ pretty length +:+ " exceeds max "
                               +:+ pretty MAX_MESSAGE_SIZE)))
  else if blen src <? 9 + length then (src, Ok None)
  else
    let type_byte := default x00 (head src) in
    let json_bytes := take (Z.to_nat length) (drop 9 src) in
    let src' := drop (Z.to_nat length) (drop 9 src) in
    match from_slice json_bytes with
    | Ok msg => (src', Ok (Some msg))
    | Err e =>
        (src', Err (Error.Codec ("Failed to deserialize message (type: "
                    +:+ debug_opt_str (from_type_byte type_byte) +:+ "): " +:+ e)))
    end.

(** What [Framed] does with the decoder: call it until it asks for more bytes
    or fails.  [fuel] bounds the calls; [S (length buf)] is enough because
    every decoded message consumes at least nine bytes. *)
Fixpoint drain (fuel : nat) (buf : bytes) : bytes * list Message * option Error.t :=
  match fuel with
  | O => (buf, [], None)
  | S f =>
      match decode buf with
      | (buf', Ok (Some m)) => let '(r, ms, e) := drain f buf' in (r, m :: ms, e)
      | (buf', Ok None) => (buf', [], None)
      | (buf', Err e) => (buf', [], Some e)
      end
  end.

(** Bytes arriving in chunks, each appended to what the decoder left. *)
Definition feed (s : bytes * list Message) (chunk : bytes) : bytes * list Message :=
  let '(buf, out) := s in
  let '(buf', ms, _) := drain (S (length (buf ++ chunk))) (buf ++ chunk) in
  (buf', out ++ ms).
Definition feed_all (chunks : list bytes) : bytes * list Message := foldl feed ([], []) chunks.

(** ** Lemmas *)

(** The JSON library gives back the message it printed. *)
Definition serde_ok (m : Message) : Prop :=
  ∃ json, to_vec m = Ok json ∧ blen json ≤ MAX_MESSAGE_SIZE ∧ from_slice json = Ok m.

Definition msg_frame (m : Message) : bytes :=
  match to_vec m with Ok json => frame (type_byte m) json | Err _ => [] end.

Lemma length_frame t json : length (frame t json) = (9 + length json)%nat.
Proof. unfold frame. rewrite length_cons, length_app, length_be_bytes. lia. Qed.

Lemma frame_app t json rest :
  frame t json ++ rest = (t :: be_bytes 8 (blen json)) ++ json ++ rest.
Proof. by rewrite (assoc_L (++)). Qed.

Lemma frame_header t json rest :
  blen json ≤ MAX_MESSAGE_SIZE → be_val (take 8 (drop 1 (frame t json ++ rest))) = blen json.
Proof.
  intros. rewrite frame_app, <- app_comm_cons. cbn [drop].
  rewrite drop_0, take_app_exact by by rewrite length_be_bytes.
  apply be_val_be_bytes_small. unfold blen, MAX_MESSAGE_SIZE in *. simpl. lia.
Qed.

Lemma decode_frame t json rest m :
  blen json ≤ MAX_MESSAGE_SIZE → from_slice json = Ok m →
  decode (frame t json ++ rest) = (rest, Ok (Some m)).
Proof.
  intros Hl Hm. unfold decode. rewrite frame_header by done.
  assert (blen (frame t json ++ rest) = 9 + blen json + blen rest) as Hb.
  { unfold blen. rewrite length_app, length_frame. lia. }
  assert (0 ≤ blen rest ∧ 0 ≤ blen json) as [??] by (unfold blen; lia).
  rewrite Hb, !(proj2 (Z.ltb_ge _ _)) by lia.
  assert (drop 9 (frame t json ++ rest) = json ++ rest) as ->.
  { rewrite frame_app. apply drop_app_exact. by rewrite length_cons, length_be_bytes. }
  rewrite take_app_exact, drop_app_exact by (unfold blen; lia). by rewrite Hm.
Qed.

(** More input does not change what was decoded. *)
Lemma decode_app buf buf' res rest :
  decode buf = (buf', res) → res ≠ Ok None → decode (buf ++ rest) = (buf' ++ rest, res).
Proof.
  unfold decode. destruct (blen buf <? 9) eqn:E9; [congruence|]. bool_to_prop.
  assert (blen (buf ++ rest) = blen buf + blen rest) as Hb
    by (unfold blen; rewrite length_app; lia).
  assert (0 ≤ blen rest) by (unfold blen; lia).
  assert (9 ≤ length buf)%nat by (unfold blen in *; lia).
  rewrite Hb, (proj2 (Z.ltb_ge (_ + _) _)) by lia.
  rewrite !drop_app_le, take_app_le by (rewrite ?length_drop; lia).
  set (n := be_val (take 8 (drop 1 buf))).
  assert (0 ≤ n) by apply be_val_range.
  destruct (MAX_MESSAGE_SIZE <? n); [congruence|].
  destruct (blen buf <? 9 + n) eqn:En; [congruence|]. bool_to_prop.
  rewrite (proj2 (Z.ltb_ge (_ + _) _)) by lia.
  rewrite take_app_le, drop_app_le by (rewrite length_drop; unfold blen in *; lia).
  assert (head (buf ++ rest) = head buf) as -> by by destruct buf.
  intros Hd _. by destruct (from_slice _); simplify_eq.
Qed.

Lemma decode_consumes buf buf' m :
  decode buf = (buf', Ok (Some m)) →
  ∃ n, 0 ≤ n ≤ MAX_MESSAGE_SIZE ∧ blen buf = 9 + n + blen buf'.
Proof.
  unfold decode. destruct (blen buf <? 9) eqn:E9; [done|]. bool_to_prop.
  set (n := be_val _). assert (0 ≤ n) by apply be_val_range.
  destruct (MAX_MESSAGE_SIZE <? n) eqn:?; [done|].
  destruct (blen buf <? 9 + n) eqn:?; [done|]. bool_to_prop. intros Hd. exists n.
  assert (buf' = drop (Z.to_nat n) (drop 9 buf)) as ->
    by (by destruct (from_slice _); simplify_eq).
  unfold blen in *. rewrite !length_drop. lia.
Qed.

Lemma drain_fuel f1 f2 buf :
  (length buf < f1)%nat → (length buf < f2)%nat → drain f1 buf = drain f2 buf.
Proof.
  revert f2 buf. induction f1 as [|f1 IH]; intros [|f2] buf H1 H2; try lia. simpl.
  destruct (decode buf) as [buf' [[m|]|e]] eqn:E; try done.
  destruct (decode_consumes _ _ _ E) as (n & ? & ?). unfold blen in *.
  by rewrite (IH f2 buf') by lia.
Qed.

Lemma drain_step f buf buf' m :
  decode buf = (buf', Ok (Some m)) →
  drain (S f) buf = (let '(r, ms, e) := drain f buf' in (r, m :: ms, e)).
Proof. intros E. simpl. by rewrite E. Qed.

Lemma drain_app f1 f2 buf rest r ms :
  (length buf < f1)%nat → (length (buf ++ rest) < f2)%nat →
  drain f1 buf = (r, ms, None) →
  drain f2 (buf ++ rest)
  = (let '(r', ms', e) := drain (S (length (r ++ rest))) (r ++ rest) in (r', ms ++ ms', e)).
Proof.
  revert f2 buf ms. induction f1 as [|f1 IH]; intros [|f2] buf ms H1 H2 Hd; try lia. simpl in Hd.
  destruct (decode buf) as [buf' [[m|]|e]] eqn:E.
  - destruct (decode_consumes _ _ _ E) as (n & ? & ?). unfold blen in *.
    destruct (drain f1 buf') as [[r1 ms1] e1] eqn:E1. injection Hd as -> <- ->.
    rewrite (drain_step f2 _ _ _ (decode_app _ _ _ rest E ltac:(done))).
    rewrite (IH f2 buf' ms1) by (rewrite ?length_app in *; auto; lia).
    by destruct (drain _ (r ++ rest)) as [[??]?].
  - injection Hd as -> <-. assert (buf = r) as ->.
    { revert E. unfold decode. intros E. split_matches. }
    rewrite (drain_fuel (S f2) (S (length (r ++ rest)))) by lia.
    by destruct (drain _ (r ++ rest)) as [[??]?].
  - done.
Qed.

Lemma serde_frame m : serde_ok m → ∃ json,
  msg_frame m = frame (type_byte m) json ∧ blen json ≤ MAX_MESSAGE_SIZE ∧ from_slice json = Ok m.
Proof. intros (json & Hv & ? & ?). exists json. unfold msg_frame. by rewrite Hv. Qed.

Lemma decode_msg_frame m rest :
  serde_ok m → decode (msg_frame m ++ rest) = (rest, Ok (Some m)).
Proof. intros (json & -> & ? & ?)%serde_frame. by apply decode_frame. Qed.

Lemma decode_short buf : blen buf < 9 → decode buf = (buf, Ok None).
Proof. intros. unfold decode. by rewrite (proj2 (Z.ltb_lt _ _)). Qed.

Lemma drain_frames ms f :
  Forall serde_ok ms → (length (concat (msg_frame <$> ms)) < f)%nat →
  drain f (concat (msg_frame <$> ms)) = ([], ms, None).
Proof.
  intros Hs. revert f. induction Hs as [|m ms Hm _ IH]; intros [|f] Hf; try lia.
  { cbn [drain fmap list_fmap concat]. by rewrite decode_short. }
  cbn [fmap list_fmap concat] in *. rewrite (drain_step f _ _ m) by by apply decode_msg_frame.
  rewrite IH; [done|]. rewrite length_app in Hf.
  destruct (serde_frame m Hm) as (json & Hj & _). rewrite Hj, length_frame in Hf. lia.
Qed.

Lemma drain_no_error f1 f2 buf rest :
  (length buf < f1)%nat → (length (buf ++ rest) < f2)%nat →
  (drain f2 (buf ++ rest)).2 = None → (drain f1 buf).2 = None.
Proof.
  revert f2 buf. induction f1 as [|f1 IH]; intros [|f2] buf H1 H2 Hd; try lia. simpl.
  destruct (decode buf) as [buf' [[m|]|e]] eqn:E; [|done|].
  - destruct (decode_consumes _ _ _ E) as (n & ? & ?). unfold blen in *.
    rewrite (drain_step f2 _ _ _ (decode_app _ _ _ rest E ltac:(done))) in Hd.
    specialize (IH f2 buf').
    destruct (drain f1 buf') as [[??]?], (drain f2 (buf' ++ rest)) as [[??]?].
    apply IH; rewrite ?length_app in *; auto; lia.
  - simpl in Hd. by rewrite (decode_app _ _ _ rest E) in Hd.
Qed.

(** Feeding chunk by chunk is one run of the decoder over all the bytes. *)
Lemma feed_all_drain chunks r ms :
  drain (S (length (concat chunks))) (concat chunks) = (r, ms, None) → feed_all chunks = (r, ms).
Proof.
  revert r ms. induction chunks as [|c chunks IH] using rev_ind; intros r ms.
  { simpl concat. simpl length. cbn [drain]. rewrite decode_short by done. by intros [= <- <-]. }
  rewrite concat_app. simpl concat. rewrite app_nil_r. intros Hd.
  pose proof (drain_no_error _ _ _ c (Nat.lt_succ_diag_r (length (concat chunks)))
    (Nat.lt_succ_diag_r _) (f_equal snd Hd)) as Hne.
  destruct (drain (S (length (concat chunks))) _) as [[r0 ms0] e0] eqn:E0. simpl in Hne. subst e0.
  rewrite (drain_app _ _ _ _ _ _ (Nat.lt_succ_diag_r _) (Nat.lt_succ_diag_r _) E0) in Hd.
  unfold feed_all. rewrite foldl_snoc. fold (feed_all chunks). rewrite (IH _ _ eq_refl).
  unfold feed. destruct (drain _ (r0 ++ c)) as [[??]?]. by simplify_eq.
Qed.

(** ** Properties *)

(** What [encode] appended, [decode] gives back: the same message, with the
    bytes that follow left in the buffer. *)
Theorem codec_roundtrip msg buf json rest :
  encode msg [] = (buf, Ok tt) → to_vec msg = Ok json → from_slice json = Ok msg →
  decode (buf ++ rest) = (rest, Ok (Some msg)).
Proof.
  unfold encode. intros He Hv Hs. rewrite Hv in He.
  destruct (MAX_MESSAGE_SIZE <? blen json) eqn:E; [done|]. apply (f_equal fst) in He. cbn [fst] in He.
  rewrite app_nil_l in He. bool_to_prop. rewrite <- He. by rewrite (decode_frame _ _ _ msg).
Qed.

Lemma encode_all_frames ms dst :
  Forall serde_ok ms → encode_all ms dst = (dst ++ concat (msg_frame <$> ms), Ok tt).
Proof.
  intros Hms. revert dst. induction Hms as [|m ms (json & Hv & Hl & _) _ IH]; intros dst; [by rewrite app_nil_r|].
  cbn [encode_all]. unfold encode. rewrite Hv, (proj2 (Z.ltb_ge _ _)), IH by done.
  csimpl. unfold msg_frame at 2. by rewrite Hv, <- app_assoc.
Qed.

(** C7: messages encoded one after the other, with the stream cut into chunks at
    any places, are decoded into exactly these messages, in order, and no byte
    is left over. *)
Theorem chunked_stream ms :
  Forall serde_ok ms →
  ∃ stream, encode_all ms [] = (stream, Ok tt) ∧
    ∀ chunks, concat chunks = stream → feed_all chunks = ([], ms).
Proof.
  intros Hs. eexists. split; [by apply encode_all_frames|]. intros chunks Hc. simpl in Hc.
  apply feed_all_drain. rewrite Hc. apply drain_frames; [done|lia].
Qed.

(** A frame cut short at any byte is neither an error nor a message: the
    decoder keeps the buffer and asks for more. *)
Theorem partial_frame msg n :
  serde_ok msg → (n < length (msg_frame msg))%nat →
  decode (take n (msg_frame msg)) = (take n (msg_frame msg), Ok None).
Proof.
  intros (json & -> & Hl & _)%serde_frame Hn. rewrite length_frame in Hn.
  assert (blen (take n (frame (type_byte msg) json)) = Z.of_nat n) as Hb.
  { unfold blen. rewrite length_take, length_frame. lia. }
  destruct (Z.lt_ge_cases (Z.of_nat n) 9) as [?|H9]; [apply decode_short; lia|].
  unfold decode. rewrite Hb, (proj2 (Z.ltb_ge _ _)) by lia.
  assert (take 8 (drop 1 (take n (frame (type_byte msg) json)))
          = take 8 (drop 1 (frame (type_byte msg) json ++ []))) as ->.
  { rewrite app_nil_r, skipn_firstn_comm, take_take. f_equal. lia. }
  rewrite frame_header, (proj2 (Z.ltb_ge _ (blen json))) by done.
  by rewrite (proj2 (Z.ltb_lt _ _)) by (unfold blen; lia).
Qed.

(** What one call of the decoder may do to the buffer: *)
Definition decode_contract (buf : bytes) : Prop :=
  let announced := be_val (take 8 (drop 1 buf)) in
  match decode buf with
  | (buf', Ok None) =>
      buf' = buf ∧ (blen buf < 9 ∨ announced ≤ MAX_MESSAGE_SIZE ∧ blen buf < 9 + announced)
  | (buf', Err (Error.Protocol _)) => buf' = buf ∧ 9 ≤ blen buf ∧ MAX_MESSAGE_SIZE < announced
  | (buf', _) =>
      announced ≤ MAX_MESSAGE_SIZE ∧ 9 + announced ≤ blen buf ∧
      buf' = drop (Z.to_nat (9 + announced)) buf
  end.

(** C28: every call of [decode] either waits with the buffer untouched, or
    rejects an announced length above 8 MiB with the buffer untouched, or takes
    exactly the announced frame off the buffer; no frame above the limit is
    ever accepted or buffered for. *)
Theorem decode_bounds buf : decode_contract buf.
Proof.
  unfold decode_contract, decode. pose proof (be_val_range (take 8 (drop 1 buf))).
  destruct (blen buf <? 9) eqn:E9; bool_to_prop; [by auto|].
  destruct (MAX_MESSAGE_SIZE <? _) eqn:Em; bool_to_prop; [by auto|].
  destruct (blen buf <? _) eqn:El; bool_to_prop; [by auto|].
  rewrite drop_drop. replace (9 + _)%nat with (Z.to_nat (9 + be_val (take 8 (drop 1 buf)))) by lia.
  by destruct (from_slice _).
Qed.

(** Distinct variants have distinct type bytes, and [from_type_byte] names the
    variant of a type byte. *)
Lemma from_type_byte_type_byte m : from_type_byte (type_byte m) = Some (variant_name m).
Proof. by destruct m. Qed.

End Codec.

(** ** A small concrete JSON, for the witnesses *)

Module Toy.
#[local] Instance json : Json := {|
  Value := unit; as_object := fun _ => None; as_str := fun _ => None |}.

(** Only pings have a text: their timestamp in eight bytes. *)
#[local] Instance serde : Serde := {|
  to_vec := fun m =>
    match m with
    | Ping p => Ok (be_bytes 8 (ping_timestamp p))
    | _ => Err "unsupported"%string
    end;
  from_slice := fun bs =>
    if Nat.eqb (length bs) 8 then Ok (Ping (mkPingMsg (be_val bs))) else Err "bad length"%string |}.

Definition ping (z : Z) : Message := Ping (mkPingMsg z).

Lemma codec_roundtrip_witness :
  decode ((encode (ping 123456) []).1 ++ [x01]) = ([x01], Ok (Some (ping 123456))).
Proof.
  apply (codec_roundtrip (ping 123456) _ (be_bytes 8 123456)); vm_compute; reflexivity.
Defined.

Lemma chunked_stream_witness :
  let stream := (encode_all [ping 5; ping 7] []).1 in
  feed_all [take 3 stream; take 17 (drop 3 stream); drop 20 stream] = ([], [ping 5; ping 7]).
Proof.
  destruct (chunked_stream [ping 5; ping 7]) as (stream & -> & Hchunks).
  - repeat constructor; [exists (be_bytes 8 5)|exists (be_bytes 8 7)]; vm_compute; repeat split; done.
  - apply Hchunks. cbn [fst concat]. change 20%nat with (3 + 17)%nat.
    by rewrite app_nil_r, <- (drop_drop stream 17 3), !take_drop.
Defined.

Lemma partial_frame_witness :
  decode (take 12 (msg_frame (ping 9))) = (take 12 (msg_frame (ping 9)), Ok None).
Proof.
  apply (partial_frame (ping 9)).
  - exists (be_bytes 8 9). vm_compute. repeat split; done.
  - vm_compute. lia.
Defined.
End Toy.
