(* ===== verification/Streams.v ===== *)
(** * Byte streams (crates/arp-common/src/transport/mod.rs, prefixed.rs, throttle.rs)

    The class [AsyncRead] is tokio's trait as far as reading goes: a read with
    room for [n] bytes.  [PrefixedStream] puts bytes that were read ahead in
    front of a stream; [MessageTransport] reads messages from a stream through
    [tokio_util]'s [Framed], which is a parameter ([Framed], with its
    documented laws [FramedSpec]), and gives the stream back with or without
    what was read ahead.  [Throttle] is the token bucket; its semaphore is the
    number of permits, and the ticks of its refill task are explicit. *)
From S2P Require Import Prelude Errors Protocol.
Local Open Scope Z_scope.

(** ** Reading *)

Class AsyncRead (S : Type) := {
  poll_read : nat → S → S * result IoError bytes;
  bytes_left : S → bytes;                           (* what the peer sent and was not read *)
}.

(** Reads hand out the bytes in order, at most [n], and at least one if there
    is one and room for it. *)
Class AsyncReadSpec (S : Type) `{AsyncRead S} := {
  poll_read_ok n s s' d : poll_read n s = (s', Ok d) →
    bytes_left s = d ++ bytes_left s' ∧ (length d ≤ n)%nat ∧
    ((0 < n)%nat → bytes_left s ≠ [] → d ≠ []);
}.

(** ** [PrefixedStream] *)

Section Prefixed.
Context {S : Type} `{AsyncRead S}.

Record PrefixedStream := mkPrefixedStream { ps_prefix : bytes; ps_position : nat; ps_inner : S }.

Definition prefixed_new (prefix : bytes) (inner : S) : PrefixedStream := mkPrefixedStream prefix 0 inner.

Definition prefixed_poll_read (remaining_mut : nat) (s : PrefixedStream)
  : PrefixedStream * result IoError bytes :=
  let total := length (ps_prefix s) in
  let pos := ps_position s in
  if (pos <? total)%nat && (0 <? remaining_mut)%nat then
    let remaining := (total - pos)%nat in
    let to_copy := (remaining `min` remaining_mut)%nat in
    let end_ := (pos + to_copy)%nat in
    (mkPrefixedStream (ps_prefix s) end_ (ps_inner s), Ok (take to_copy (drop pos (ps_prefix s))))
  else
    let '(inner, r) := poll_read remaining_mut (ps_inner s) in
    (mkPrefixedStream (ps_prefix s) pos inner, r).

#[export] Instance prefixed_read : AsyncRead PrefixedStream := {|
  poll_read := prefixed_poll_read;
  bytes_left := fun s => drop (ps_position s) (ps_prefix s) ++ bytes_left (ps_inner s) |}.

#[export] Instance prefixed_read_spec `{!AsyncReadSpec S} : AsyncReadSpec PrefixedStream.
Proof.
  split. intros n [p pos inner] s' d. unfold poll_read, bytes_left. simpl. unfold prefixed_poll_read. simpl.
  destruct (pos <? length p)%nat eqn:Epos; cbn [andb].
  1: destruct (0 <? n)%nat eqn:En.
  - intros [= <- <-]. bool_to_prop. simpl.
    set (k := ((length p - pos) `min` n)%nat).
    split; [by rewrite app_assoc, <- drop_drop, take_drop|].
    assert (length (take k (drop pos p)) = k) as Hk by (rewrite length_take, length_drop; lia).
    split; [lia|]. intros _ _ E. rewrite E in Hk. simpl in Hk. lia.
  - destruct (poll_read n inner) as [i r] eqn:E. intros [= <- ->]. bool_to_prop.
    apply poll_read_ok in E as (El & Hl & _). assert (n = 0%nat) as -> by lia. destruct d; [|simpl in Hl; lia].
    simpl in *. rewrite El. split; [done|]. split; [lia|]. lia.
  - destruct (poll_read n inner) as [i r] eqn:E. intros [= <- ->]. bool_to_prop. simpl.
    rewrite (drop_ge p pos) by lia. simpl. by apply poll_read_ok in E.
Qed.
End Prefixed.
Arguments PrefixedStream : clear implicits.

(** ** [MessageTransport] *)

(** [tokio_util::codec::Framed<S, MessageCodec>]. *)
Class Framed `{Serde} (S : Type) := {
  framed : Type;
  framed_new : S → framed;
  framed_next : framed → framed * option (Result Message);
  framed_into_parts : framed → S * bytes;             (* the stream and the read buffer *)
  framed_into_inner : framed → S;
}.

(** What the transport has not decoded yet. *)
Definition undecoded {S : Type} `{Framed S} `{!AsyncRead S} (f : framed) : bytes :=
  (framed_into_parts f).2 ++ bytes_left (framed_into_parts f).1.

Class FramedSpec {S : Type} `{Framed S} `{!AsyncRead S} := {
  framed_new_parts s : framed_into_parts (framed_new s) = (s, []);
  framed_inner_parts f : framed_into_inner f = (framed_into_parts f).1;
  framed_next_ok f f' m : framed_next f = (f', Some (Ok m)) →
    decode (undecoded f) = (undecoded f', Ok (Some m));
}.

Section Transport.
Context `{Serde} {S : Type} `{!AsyncRead S} `{!Framed S}.

Record MessageTransport := mkMessageTransport { mt_framed : framed }.

Definition from_stream (s : S) : MessageTransport := mkMessageTransport (framed_new s).

Definition recv (t : MessageTransport) : MessageTransport * Result (option Message) :=
  match framed_next (mt_framed t) with
  | (f, Some (Ok msg)) => (mkMessageTransport f, Ok (Some msg))
  | (f, Some (Err e)) => (mkMessageTransport f, Err e)
  | (f, None) => (mkMessageTransport f, Ok None)
  end.

Definition into_inner (t : MessageTransport) : S := framed_into_inner (mt_framed t).

Definition into_inner_with_read_buf (t : MessageTransport) : S * bytes :=
  framed_into_parts (mt_framed t).
End Transport.

(** ** Reading to the end *)

Section Reads.
Context {S : Type} `{AsyncRead S}.

(** Successive reads with the given capacities, up to the first error. *)
Fixpoint reads (caps : list nat) (s : S) : S * result IoError bytes :=
  match caps with
  | [] => (s, Ok [])
  | n :: rest =>
      match poll_read n s with
      | (s1, Ok d) => match reads rest s1 with
                      | (s2, Ok d') => (s2, Ok (d ++ d'))
                      | (s2, Err e) => (s2, Err e)
                      end
      | (s1, Err e) => (s1, Err e)
      end
  end.

Lemma reads_all `{!AsyncReadSpec S} caps s s' d :
  reads caps s = (s', Ok d) → Forall (fun n => (0 < n)%nat) caps →
  bytes_left s = d ++ bytes_left s' ∧
  ((length (bytes_left s) ≤ length caps)%nat → d = bytes_left s ∧ bytes_left s' = []).
Proof.
  revert s d. induction caps as [|n caps IH]; intros s d; simpl.
  - intros [= -> <-] _. split; [done|]. by destruct (bytes_left s'); simpl; [|lia].
  - destruct (poll_read n s) as [s1 [d1|e]] eqn:E1; [|done].
    destruct (reads caps s1) as [s2 [d2|e]] eqn:E2; [|done]. intros [= -> <-] [Hn Hcaps]%Forall_cons.
    apply poll_read_ok in E1 as (E1 & _ & Hprog). destruct (IH _ _ E2 Hcaps) as [E3 Hall].
    split; [by rewrite E1, E3, app_assoc|]. intros Hlen.
    assert (length (bytes_left s1) ≤ length caps)%nat as Hs1.
    { destruct (bytes_left s) as [|b bs] eqn:Eb.
      - destruct d1; [|done]. simpl in E1. rewrite <- E1. simpl. lia.
      - specialize (Hprog Hn ltac:(done)). rewrite E1, length_app in Hlen. destruct d1; [done|]. simpl in Hlen. lia. }
    destruct (Hall Hs1) as [-> ->]. by rewrite E1.
Qed.
End Reads.

(** ** [Throttle] *)

Section Throttle.
(** [Throttle::new]: the refill of a tick, and the permits of the semaphore. *)
Definition refill_amount (bytes_per_sec : Z) : Z := Z.max (bytes_per_sec / 10) 1.
Definition throttle_new (bytes_per_sec : Z) : Z := bytes_per_sec.

(** One tick of the refill task. *)
Definition refill (bytes_per_sec permits : Z) : Z :=
  let add := Z.min (refill_amount bytes_per_sec) (Z.max 0 (bytes_per_sec - permits)) in
  if 0 <? add then permits + add else permits.

(** What one turn of the loop of [consume] takes: [take] of the remaining
    bytes for [take as u32] permits. *)
Definition consume_take (bytes_per_sec remaining : Z) : Z := Z.min remaining bytes_per_sec.

(** Ticks of the refill task and turns of the [consume] loops of any number of
    tasks, each with its remaining bytes; [passed] counts the bytes that were
    let through. *)
Record ThrottleState := mkThrottleState { th_permits : Z; th_passed : Z; th_ticks : Z }.

Inductive throttle_step (bytes_per_sec : Z) (s : ThrottleState) : ThrottleState → Prop :=
| th_tick : throttle_step bytes_per_sec s
    (mkThrottleState (refill bytes_per_sec (th_permits s)) (th_passed s) (th_ticks s + 1))
| th_acquire remaining :
    0 < remaining →
    let take := consume_take bytes_per_sec remaining in
    wrap 32 take ≤ th_permits s →
    throttle_step bytes_per_sec s
      (mkThrottleState (th_permits s - wrap 32 take) (th_passed s + take) (th_ticks s)).

(** The loop of [consume] when every acquisition succeeds: the bytes still
    remaining after [fuel] turns. *)
Fixpoint consume_loop (fuel : nat) (bytes_per_sec remaining : Z) : Z :=
  match fuel with
  | O => remaining
  | S f => if 0 <? remaining
           then consume_loop f bytes_per_sec (remaining - consume_take bytes_per_sec remaining)
           else remaining
  end.

(** [consume] when it need not wait: the permits left, [None] when a turn finds
    too few.  [fuel] turns are enough when they cover the bytes
    ([consume_now_total]). *)
Fixpoint consume_now (fuel : nat) (bytes_per_sec permits remaining : Z) : option Z :=
  match fuel with
  | O => None
  | S f =>
      if 0 <? remaining then
        let take := consume_take bytes_per_sec remaining in
        if wrap 32 take <=? permits
        then consume_now f bytes_per_sec (permits - wrap 32 take) (remaining - take) else None
      else Some permits
  end.

Inductive throttle_reachable (bytes_per_sec : Z) : ThrottleState → Prop :=
| thr_new : throttle_reachable bytes_per_sec (mkThrottleState (throttle_new bytes_per_sec) 0 0)
| thr_step s s' : throttle_reachable bytes_per_sec s → throttle_step bytes_per_sec s s' →
    throttle_reachable bytes_per_sec s'.

Lemma throttle_inv bps s :
  0 ≤ bps < 2 ^ 32 → throttle_reachable bps s →
  0 ≤ th_permits s ≤ bps ∧ 0 ≤ th_ticks s ∧
  th_passed s + th_permits s ≤ bps + th_ticks s * refill_amount bps.
Proof.
  intros Hb. induction 1 as [|s s' _ (Hp & Ht & Hs) Hst]; [simpl; unfold throttle_new; lia|].
  assert (1 ≤ refill_amount bps) by (unfold refill_amount; lia).
  destruct Hst as [|rem Hrem tk Hle]; simpl.
  - unfold refill. destruct (Z.ltb_spec 0 (refill_amount bps `min` (0 `max` (bps - th_permits s)))); lia.
  - unfold tk, consume_take in *. rewrite wrap_small in * by (unfold in_u; lia). lia.
Qed.

Lemma consume_loop_done bps remaining fuel :
  0 < bps → 0 ≤ remaining → remaining ≤ Z.of_nat fuel * bps → consume_loop fuel bps remaining = 0.
Proof.
  intros Hb. revert remaining. induction fuel as [|f IH]; intros r Hr Hle; simpl; [lia|].
  destruct (Z.ltb_spec 0 r); [|lia]. apply IH; unfold consume_take; lia.
Qed.

(** With enough permits the call goes through at once and takes exactly as many
    as there are bytes. *)
Lemma consume_now_total bps permits bytes fuel :
  0 < bps < 2 ^ 32 → 0 ≤ bytes ≤ permits → bytes ≤ Z.of_nat fuel * bps →
  consume_now (S fuel) bps permits bytes = Some (permits - bytes).
Proof.
  intros Hb. revert permits bytes. induction fuel as [|f IH]; intros permits n Hn Hf.
  - assert (n = 0) as -> by lia. simpl. f_equal. lia.
  - change (consume_now (S (S f)) bps permits n) with
      (if 0 <? n then if wrap 32 (consume_take bps n) <=? permits
       then consume_now (S f) bps (permits - wrap 32 (consume_take bps n)) (n - consume_take bps n) else None
       else Some permits).
    destruct (Z.ltb_spec 0 n); [|f_equal; lia]. unfold consume_take in *.
    rewrite wrap_small by (unfold in_u; lia). destruct (Z.leb_spec (n `min` bps) permits); [|lia].
    rewrite IH by lia. f_equal. lia.
Qed.
End Throttle.

(** ** [ThrottledStream] *)

(** Reading forwards to the inner stream and, for what it read, spawns a task
    that consumes tokens; [ts_spawned] are the bytes of those tasks.  Writing
    only forwards. *)
Section Throttled.
Context {S : Type} `{AsyncRead S}.

Record ThrottledStream := mkThrottledStream { ts_inner : S; ts_spawned : list Z }.

Definition throttled_poll_read (n : nat) (s : ThrottledStream) : ThrottledStream * result IoError bytes :=
  match poll_read n (ts_inner s) with
  | (inner, Ok d) =>
      (mkThrottledStream inner
         (if (0 <? length d)%nat then ts_spawned s ++ [Z.of_nat (length d)] else ts_spawned s), Ok d)
  | (inner, Err e) => (mkThrottledStream inner (ts_spawned s), Err e)
  end.

#[export] Instance throttled_read : AsyncRead ThrottledStream := {|
  poll_read := throttled_poll_read; bytes_left := fun s => bytes_left (ts_inner s) |}.

#[export] Instance throttled_read_spec `{!AsyncReadSpec S} : AsyncReadSpec ThrottledStream.
Proof.
  split. intros n [inner sp] s' d. unfold poll_read, bytes_left. simpl. unfold throttled_poll_read. simpl.
  destruct (poll_read n inner) as [i [d'|e]] eqn:E; [|done]. intros [= <- <-]. by apply poll_read_ok in E.
Qed.

Definition charged (l : list Z) : Z := foldr Z.add 0 l.

Lemma charged_app l k : charged (l ++ k) = charged l + charged k.
Proof. induction l as [|x l IH]; simpl; [done|]. unfold charged in *. simpl. lia. Qed.

(** Every byte that is read is charged, but not before it is handed over: no
    read waits for tokens. *)
Lemma throttled_charges caps s s' d :
  reads caps s = (s', Ok d) → charged (ts_spawned s') = charged (ts_spawned s) + Z.of_nat (length d).
Proof.
  revert s d. induction caps as [|n caps IH]; intros s d; simpl; [intros [= <- <-]; simpl; lia|].
  unfold throttled_poll_read. destruct (poll_read n (ts_inner s)) as [inner [d1|e]]; [|done].
  destruct (reads caps _) as [s2 [d2|e]] eqn:E2; [|done]. intros [= <- <-].
  rewrite (IH _ _ E2), length_app. simpl.
  destruct (Nat.ltb_spec 0 (length d1)); [rewrite charged_app; unfold charged; simpl; lia|lia].
Qed.
End Throttled.
Arguments ThrottledStream : clear implicits.

(** ** A stream that arrives in chunks, and its framing *)

Module Chunks.

(** A read takes the next chunk, or as much of it as there is room for. *)
Fixpoint chunk_read (n : nat) (s : list bytes) : list bytes * result IoError bytes :=
  match s with
  | [] => ([], Ok [])
  | [] :: rest => chunk_read n rest
  | c :: rest => if (length c <=? n)%nat then (rest, Ok c) else (drop n c :: rest, Ok (take n c))
  end.

#[export] Instance chunks : AsyncRead (list bytes) := {| poll_read := chunk_read; bytes_left := @concat byte |}.
#[export] Instance chunks_spec : AsyncReadSpec (list bytes).
Proof.
  split. intros n s s' d. unfold poll_read, bytes_left. simpl. induction s as [|[|b c] rest IH].
  - intros [= <- <-]. split; [done|]. split; [simpl; lia|]. done.
  - apply IH.
  - cbn [chunk_read]. destruct (Nat.leb_spec (length (b :: c)) n) as [Hle|Hgt]; intros [= <- <-].
    + done.
    + cbn [concat]. split; [by rewrite app_assoc, take_drop|].
      rewrite length_take. split; [lia|]. intros Hn _. by destruct n; [lia|].
Qed.

Section ChunkFramed.
Context `{Serde}.

Fixpoint chunk_next (s : list bytes) (buf : bytes) : (list bytes * bytes) * option (Result Message) :=
  match decode buf with
  | (buf', Ok (Some m)) => ((s, buf'), Some (Ok m))
  | (buf', Err e) => ((s, buf'), Some (Err e))
  | (buf', Ok None) =>
      match s with
      | [] => (([], buf'), None)
      | c :: rest => chunk_next rest (buf' ++ c)
      end
  end.

#[export] Instance chunk_framed : Framed (list bytes) := {|
  framed := list bytes * bytes;
  framed_new := fun s => (s, []);
  framed_next := fun f => chunk_next f.1 f.2;
  framed_into_parts := fun f => f;
  framed_into_inner := fun f => f.1 |}.

Lemma decode_waits buf buf' : decode buf = (buf', Ok None) → buf' = buf.
Proof.
  unfold decode. destruct (blen buf <? 9); [congruence|]. cbv zeta. destruct (MAX_MESSAGE_SIZE <? _); [done|].
  destruct (blen buf <? _); [congruence|]. destruct (from_slice _); congruence.
Qed.

Lemma chunk_next_ok s buf s' buf' m :
  chunk_next s buf = ((s', buf'), Some (Ok m)) →
  decode (buf ++ concat s) = (buf' ++ concat s', Ok (Some m)).
Proof.
  revert buf. induction s as [|c s IH]; intros buf; cbn [chunk_next];
    destruct (decode buf) as [b [[x|]|e]] eqn:E; try done.
  - intros [= <- <- <-]. by apply decode_app.
  - intros [= <- <- <-]. by apply decode_app.
  - apply decode_waits in E as ->. intros E. apply IH in E. by rewrite <- app_assoc in E.
Qed.

#[export] Instance chunk_framed_spec : FramedSpec (S := list bytes).
Proof. split; try done. intros [s buf] [s' buf'] m. apply chunk_next_ok. Qed.
End ChunkFramed.
End Chunks.

(** ** Properties *)

(** A stream that is handed over after a message was received loses nothing:
    if the peer sent a message and then [data], however the network cut it,
    the stream that [into_inner_with_read_buf] and [PrefixedStream] give after
    the message was received delivers, by reads of any sizes, exactly [data]. *)
Theorem handoff_lossless `{Serde} {S : Type} `{!AsyncRead S} `{!Framed S}
    `{!AsyncReadSpec S} `{!FramedSpec} (s : S) msg data t :
  serde_ok msg → bytes_left s = msg_frame msg ++ data →
  recv (from_stream s) = (t, Ok (Some msg)) →
  let '(io, pre_read) := into_inner_with_read_buf t in
  let ps := prefixed_new pre_read io in
  bytes_left ps = data ∧
  ∀ caps ps' d, Forall (fun n => (0 < n)%nat) caps → reads caps ps = (ps', Ok d) →
    data = d ++ bytes_left ps' ∧ ((length data ≤ length caps)%nat → d = data).
Proof.
  intros Hmsg Hs. unfold recv, from_stream, into_inner_with_read_buf. simpl.
  destruct (framed_next (framed_new s)) as [f [[m|e]|]] eqn:E; [|done..]. intros [= <- ->]. simpl.
  apply framed_next_ok in E. unfold undecoded in E at 1. rewrite framed_new_parts in E. simpl in E.
  rewrite Hs, decode_msg_frame in E by done. injection E as E. unfold undecoded in E.
  destruct (framed_into_parts f) as [io pre]. simpl in E.
  assert (bytes_left (prefixed_new pre io) = data) as Hleft.
  { unfold bytes_left. simpl. by rewrite drop_0, <- E. }
  split; [done|]. intros caps ps' d Hcaps Hr.
  destruct (reads_all caps _ ps' d Hr Hcaps) as [H1' H2']. rewrite Hleft in *. split; [done|].
  intros Hlen. by apply H2'.
Qed.

(** The token bucket, for limits below 2^32: after [n] ticks of 100 ms at
    most the burst and [n] refills have passed, which for limits of at least 10
    is at most [bytes_per_sec] for every second plus one second's burst; and
    [consume] ends after as many turns as the limit fits into the bytes, plus
    one. *)
Theorem throttle_rate bps s bytes :
  0 < bps < 2 ^ 32 → throttle_reachable bps s → 0 ≤ bytes →
  th_passed s ≤ bps + th_ticks s * refill_amount bps ∧
  (10 ≤ bps → 10 * th_passed s ≤ (10 + th_ticks s) * bps) ∧
  consume_loop (Z.to_nat (bytes / bps + 1)) bps bytes = 0.
Proof.
  intros Hb Hr Hn. destruct (throttle_inv bps s ltac:(lia) Hr) as (Hp & Ht & Hs).
  split; [lia|]. split.
  - intros H10. assert (10 * refill_amount bps ≤ bps); [|nia].
    unfold refill_amount. Z.to_euclidean_division_equations. lia.
  - apply consume_loop_done; [lia|done|].
    assert (0 ≤ bytes / bps) by (apply Z.div_pos; lia). rewrite Z2Nat.id by lia.
    pose proof (Z.mod_pos_bound bytes bps ltac:(lia)). pose proof (Z.div_mod bytes bps ltac:(lia)). nia.
Qed.

(** With a limit of zero [consume] never ends: every turn takes nothing. *)
Theorem throttle_zero_spins fuel bytes : 0 < bytes → consume_loop fuel 0 bytes = bytes.
Proof.
  intros Hn. induction fuel as [|f IH]; [done|]. simpl. destruct (Z.ltb_spec 0 bytes); [|lia].
  unfold consume_take. rewrite Z.min_r by lia. by rewrite Z.sub_0_r.
Qed.

Import Chunks.

(** [into_inner] drops what was read ahead: when the message and the bytes that
    follow it arrive together, the stream it gives has none of those bytes. *)
Theorem into_inner_drops `{Serde} msg data :
  serde_ok msg →
  ∃ t, recv (from_stream [msg_frame msg ++ data]) = (t, Ok (Some msg)) ∧
    bytes_left (into_inner t) = [] ∧ (into_inner_with_read_buf t).2 = data.
Proof.
  intros Hmsg. pose proof (decode_msg_frame msg data Hmsg) as E. unfold recv, from_stream. simpl.
  rewrite ?(decode_short []) by done. simpl. rewrite E.
  eexists. split; [done|]. done.
Qed.

(** ** Witnesses *)

Module ToyStreams.
#[local] Existing Instances Toy.json Toy.serde.

Definition stream : bytes := msg_frame (Toy.ping 5) ++ [x41; x42; x43].

Lemma handoff_lossless_witness :
  let t := (recv (from_stream [take 4 stream; drop 4 stream])).1 in
  bytes_left (prefixed_new (into_inner_with_read_buf t).2 (into_inner_with_read_buf t).1) = [x41; x42; x43].
Proof.
  refine (proj1 (handoff_lossless [take 4 stream; drop 4 stream] (Toy.ping 5) [x41; x42; x43]
    ((recv (from_stream [take 4 stream; drop 4 stream])).1) _ _ _)).
  - exists (be_bytes 8 5). vm_compute. repeat split; discriminate.
  - vm_compute. reflexivity.
  - vm_compute. reflexivity.
Defined.

Lemma throttle_rate_witness : consume_loop 3 1000 2500 = 0.
Proof.
  refine (proj2 (proj2 (throttle_rate 1000 (mkThrottleState 1000 0 0) 2500 _ (thr_new 1000) _))); lia.
Defined.
End ToyStreams.
