(* ===== verification/WebSocket.v ===== *)
(** * Streams over a WebSocket (crates/arp-common/src/transport/ws_stream.rs)

    [websocket_to_stream] gives the program a byte stream: one end of an
    in-memory [duplex], whose other end two tasks bridge to the WebSocket.  A
    [WsPipe] is one direction between two programs: the duplex buffer the
    writer fills, the task that sends it as binary messages, the messages under
    way, the task that writes their payloads into the duplex buffer of the
    reader.  The tasks, the programs and the network interleave; the library
    may refuse a message or report the end of the connection at any time. *)
From S2P Require Import Prelude Errors Protocol Streams.
Local Open Scope Z_scope.

(** ** Data *)

(** [tungstenite::Message]; the text of [Text] is its UTF-8 bytes. *)
Inductive WsMessage :=
| Binary (data : bytes) | Text (text : bytes) | Ping_ (d : bytes) | Pong_ (d : bytes)
| Close_ (reason : bytes) | Frame_ (d : bytes).

Definition BRIDGE_BUF : Z := 256 * 1024.
Definition READ_BUF : Z := 16 * 1024.
Definition read_len : nat := Z.to_nat READ_BUF.

Lemma read_len_pos : (0 < read_len)%nat.
Proof. unfold read_len, READ_BUF. lia. Qed.
#[global] Opaque read_len.

(** One direction of [tokio::io::duplex(BRIDGE_BUF)]: either end may close it. *)
Record Simplex := mkSimplex { sx_buf : bytes; sx_closed : bool }.

Record WsPipe := mkWsPipe {
  wp_out : Simplex;               (* from the writing program to its bridge *)
  wp_sending : bool;              (* the task bridge → WebSocket runs *)
  wp_wire : list WsMessage;
  wp_receiving : bool;            (* the task WebSocket → bridge runs *)
  wp_pending : bytes;             (* what its [write_all] has not written yet *)
  wp_in : Simplex;                (* from the bridge to the reading program *)
}.

Definition websocket_to_stream : WsPipe :=
  mkWsPipe (mkSimplex [] false) true [] true [] (mkSimplex [] false).

(** ** The duplex *)

Definition room (x : Simplex) : nat := Z.to_nat (BRIDGE_BUF - Z.of_nat (length (sx_buf x))).

Lemma room_empty c : (0 < room (mkSimplex [] c))%nat.
Proof. unfold room, BRIDGE_BUF. simpl. lia. Qed.
#[global] Opaque room.

(** What a write takes: nothing once closed. *)
Definition sx_write (d : bytes) (x : Simplex) : Simplex * bytes :=
  if sx_closed x then (x, []) else (mkSimplex (sx_buf x ++ take (room x) d) false, take (room x) d).
Definition sx_read (n : nat) (x : Simplex) : Simplex * bytes :=
  (mkSimplex (drop n (sx_buf x)) (sx_closed x), take n (sx_buf x)).
Definition sx_close (x : Simplex) : Simplex := mkSimplex (sx_buf x) true.

(** ** The two tasks *)

(** A turn of the task bridge → WebSocket; [ok] is whether the library takes
    the message.  An open, empty buffer makes it wait. *)
Definition send_turn (ok : bool) (s : WsPipe) : WsPipe :=
  if wp_sending s then
    match sx_buf (wp_out s) with
    | [] => if sx_closed (wp_out s)
            then mkWsPipe (wp_out s) false (if ok then wp_wire s ++ [Close_ []] else wp_wire s)
                   (wp_receiving s) (wp_pending s) (wp_in s)
            else s
    | _ :: _ =>
        let '(out, chunk) := sx_read read_len (wp_out s) in
        if ok then mkWsPipe out true (wp_wire s ++ [Binary chunk]) (wp_receiving s) (wp_pending s) (wp_in s)
        else mkWsPipe out false (wp_wire s) (wp_receiving s) (wp_pending s) (wp_in s)
    end
  else s.

(** The task WebSocket → bridge leaves its loop and shuts the bridge down. *)
Definition recv_stop (s : WsPipe) : WsPipe :=
  mkWsPipe (wp_out s) (wp_sending s) (wp_wire s) false [] (sx_close (wp_in s)).

Definition recv_message (m : WsMessage) (wire : list WsMessage) (s : WsPipe) : WsPipe :=
  let s := mkWsPipe (wp_out s) (wp_sending s) wire (wp_receiving s) (wp_pending s) (wp_in s) in
  match m with
  | Binary data | Text data => mkWsPipe (wp_out s) (wp_sending s) wire (wp_receiving s) data (wp_in s)
  | Ping_ _ | Pong_ _ | Frame_ _ => s
  | Close_ _ => recv_stop s
  end.

(** A turn of that task: a write of its [write_all] if one is under way,
    otherwise the next message; [broken] is whether the library gives an error
    or the end of the connection instead. *)
Definition recv_turn (broken : bool) (s : WsPipe) : WsPipe :=
  if wp_receiving s then
    match wp_pending s with
    | _ :: _ =>
        if sx_closed (wp_in s) then recv_stop s
        else let '(in_, taken) := sx_write (wp_pending s) (wp_in s) in
             mkWsPipe (wp_out s) (wp_sending s) (wp_wire s) true (drop (length taken) (wp_pending s)) in_
    | [] =>
        if broken then recv_stop s
        else match wp_wire s with
             | [] => s
             | m :: wire => recv_message m wire s
             end
    end
  else s.

(** ** Interleavings *)

Inductive WsEvent :=
| AppWrite (d : bytes) | AppShutdown
| SendTurn (ok : bool) | Chatter (ping : bool) (d : bytes) | RecvTurn (broken : bool)
| AppRead (n : nat) | ReaderDrop | BridgeDrop.

(** A step: the new state, what was taken from the writer, what the reader got.
    [Chatter] is a ping or pong of the library, [ReaderDrop] the end of the
    reader's stream, [BridgeDrop] the end of the writer's bridge, which the two
    tasks of that side share. *)
Definition ws_step (e : WsEvent) (s : WsPipe) : WsPipe * bytes * bytes :=
  match e with
  | AppWrite d => let '(out, taken) := sx_write d (wp_out s) in
      (mkWsPipe out (wp_sending s) (wp_wire s) (wp_receiving s) (wp_pending s) (wp_in s), taken, [])
  | AppShutdown =>
      (mkWsPipe (sx_close (wp_out s)) (wp_sending s) (wp_wire s) (wp_receiving s) (wp_pending s) (wp_in s), [], [])
  | SendTurn ok => (send_turn ok s, [], [])
  | Chatter ping d =>
      (mkWsPipe (wp_out s) (wp_sending s) (wp_wire s ++ [if ping then Ping_ d else Pong_ d])
         (wp_receiving s) (wp_pending s) (wp_in s), [], [])
  | RecvTurn broken => (recv_turn broken s, [], [])
  | AppRead n => let '(in_, d) := sx_read n (wp_in s) in
      (mkWsPipe (wp_out s) (wp_sending s) (wp_wire s) (wp_receiving s) (wp_pending s) in_, [], d)
  | ReaderDrop =>
      (mkWsPipe (wp_out s) (wp_sending s) (wp_wire s) (wp_receiving s) (wp_pending s) (sx_close (wp_in s)), [], [])
  | BridgeDrop =>
      (if wp_sending s then s
       else mkWsPipe (sx_close (wp_out s)) false (wp_wire s) (wp_receiving s) (wp_pending s) (wp_in s), [], [])
  end.

Fixpoint ws_run (evs : list WsEvent) (s : WsPipe) : WsPipe * bytes * bytes :=
  match evs with
  | [] => (s, [], [])
  | e :: evs' => let '(s1, w1, r1) := ws_step e s in
                 let '(s2, w2, r2) := ws_run evs' s1 in (s2, w1 ++ w2, r1 ++ r2)
  end.

(** Nothing fails and the reader stays. *)
Definition faultless (e : WsEvent) : bool :=
  match e with SendTurn ok => ok | RecvTurn broken => negb broken | ReaderDrop => false | _ => true end.

(** The reader's next read gives 0 bytes. *)
Definition at_eof (s : WsPipe) : Prop := sx_buf (wp_in s) = [] ∧ sx_closed (wp_in s) = true.

(** ** What will still arrive *)

Definition is_close (m : WsMessage) : bool := match m with Close_ _ => true | _ => false end.
Definition payload (m : WsMessage) : bytes := match m with Binary d | Text d => d | _ => [] end.

Fixpoint wire_payload (w : list WsMessage) : bytes :=
  match w with
  | [] => []
  | m :: w' => if is_close m then [] else payload m ++ wire_payload w'
  end.
Definition has_close (w : list WsMessage) : bool := existsb is_close w.

(** Whether what the writer writes can still arrive. *)
Definition connected (s : WsPipe) : bool :=
  wp_receiving s && negb (sx_closed (wp_in s)) && (wp_sending s && negb (has_close (wp_wire s))).

Definition deliverable (s : WsPipe) : bytes :=
  sx_buf (wp_in s) ++
  (if wp_receiving s && negb (sx_closed (wp_in s))
   then wp_pending s ++ wire_payload (wp_wire s) ++
        (if wp_sending s && negb (has_close (wp_wire s)) then sx_buf (wp_out s) else [])
   else []).

Lemma take_drop_taken (k : nat) (l : bytes) : take k l ++ drop (length (take k l)) l = l.
Proof.
  rewrite length_take. destruct (decide (k ≤ length l)%nat).
  - by rewrite Nat.min_l, take_drop.
  - by rewrite Nat.min_r, take_ge, drop_ge, app_nil_r by lia.
Qed.

Lemma has_close_app w m : has_close (w ++ [m]) = has_close w || is_close m.
Proof. unfold has_close. rewrite existsb_app. simpl. by rewrite orb_false_r. Qed.

Lemma wire_payload_app w m :
  wire_payload (w ++ [m]) =
  if has_close w then wire_payload w else wire_payload w ++ (if is_close m then [] else payload m).
Proof.
  induction w as [|x w IH]; simpl; [by destruct (is_close m); rewrite ?app_nil_r|].
  unfold has_close in *. simpl. destruct (is_close x); [done|]. simpl. rewrite IH.
  by destruct (existsb is_close w); rewrite ?app_assoc.
Qed.

(** Without faults: the writer's shutdown travels to the reader in order. *)
Record ws_inv (s : WsPipe) : Prop := mkWsInv {
  wi_open : sx_closed (wp_out s) = false → wp_sending s = true;
  wi_sending : wp_sending s = true → wp_receiving s = true ∧ has_close (wp_wire s) = false;
  wi_sent : wp_sending s = false → wp_receiving s = true → has_close (wp_wire s) = true;
  wi_receiving : sx_closed (wp_in s) = negb (wp_receiving s);
}.

Lemma ws_inv_new : ws_inv websocket_to_stream.
Proof. by split. Qed.

(** Take a state apart, and compute a turn of a task on it. *)
Ltac ws_cases s := destruct s as [[ob oc] snd wire rcv pend [ib ic]]; simpl in *.

(** The tasks only move what can still arrive. *)
Lemma send_turn_deliverable s : deliverable (send_turn true s) = deliverable s.
Proof.
  unfold send_turn, sx_read, deliverable. ws_cases s. destruct snd; [|done].
  destruct ob as [|b ob]; [destruct oc; [|done]|]; simpl; rewrite ?has_close_app, ?wire_payload_app;
    destruct (has_close wire), (rcv && negb ic); simpl; rewrite ?app_nil_r; try done.
  by rewrite <- !app_assoc, (take_drop read_len (b :: ob)).
Qed.

Lemma recv_turn_deliverable s : deliverable (recv_turn false s) = deliverable s.
Proof.
  unfold recv_turn, recv_message, sx_write, deliverable. ws_cases s. destruct rcv; [|done]. simpl.
  destruct pend as [|b pend].
  - destruct wire as [|[d|d|d|d|d|d] wire], ic; simpl; rewrite ?app_nil_r, ?andb_false_r, <- ?app_assoc; try done.
    by rewrite app_nil_r.
  - destruct ic; simpl; [done|]. by rewrite <- !app_assoc, (app_assoc (take _ _)), take_drop_taken.
Qed.

Lemma send_turn_inv s : ws_inv s → ws_inv (send_turn true s).
Proof.
  intros [H1 H2 H3 H4]. unfold send_turn, sx_read. ws_cases s.
  destruct snd; [|done]. destruct (H2 eq_refl) as [-> Hc]. subst ic.
  destruct ob as [|b ob]; [destruct oc; [|done]|]; split; simpl; rewrite ?has_close_app, ?Hc; done.
Qed.

Lemma recv_turn_inv s : ws_inv s → ws_inv (recv_turn false s).
Proof.
  intros [H1 H2 H3 H4]. unfold recv_turn, recv_message, sx_write. ws_cases s.
  destruct rcv; [|done]. subst ic. destruct pend as [|b pend]; [|by split].
  destruct wire as [|[d|d|d|d|d|d] wire]; try by split. destruct snd; [by destruct (H2 eq_refl)|]. by split.
Qed.

Lemma ws_step_ok e s s' w r :
  ws_inv s → faultless e = true → ws_step e s = (s', w, r) →
  ws_inv s' ∧ deliverable s ++ w = r ++ deliverable s'.
Proof.
  intros Hi Hf. pose proof Hi as [H1 H2 H3 H4]. destruct e; simpl in *; try done.
  - unfold sx_write, deliverable. ws_cases s. destruct oc; intros [= <- <- <-]; simpl.
    + by rewrite app_nil_r.
    + specialize (H1 eq_refl) as ->. destruct (H2 eq_refl) as [-> Hc]. subst ic. rewrite Hc. simpl.
      split; [done|]. by rewrite <- !app_assoc.
  - intros [= <- <- <-]. rewrite app_nil_r. by split; [split|].
  - destruct ok; [|done]. intros [= <- <- <-]. rewrite app_nil_r. by split; [apply send_turn_inv|rewrite send_turn_deliverable].
  - intros [= <- <- <-]. unfold deliverable. simpl. rewrite has_close_app, wire_payload_app.
    assert (is_close (if ping then Ping_ d else Pong_ d) = false) as E by by destruct ping.
    assert (payload (if ping then Ping_ d else Pong_ d) = []) as E' by by destruct ping.
    rewrite E, E', orb_false_r, !app_nil_r. split; [|by destruct (has_close _)].
    split; simpl; try done; by rewrite has_close_app, E, orb_false_r.
  - destruct broken; [done|]. intros [= <- <- <-]. rewrite app_nil_r. by split; [apply recv_turn_inv|rewrite recv_turn_deliverable].
  - unfold sx_read, deliverable. ws_cases s. intros [= <- <- <-]. simpl. split; [done|].
    by rewrite app_nil_r, (app_assoc (take n ib)), take_drop.
  - destruct (wp_sending s) eqn:E; intros [= <- <- <-]; rewrite app_nil_r; [done|].
    split; [split; simpl; try done; intros _; by apply H3|]. unfold deliverable. simpl. by rewrite E.
Qed.

Lemma ws_run_ok evs s s' w r :
  ws_inv s → forallb faultless evs = true → ws_run evs s = (s', w, r) →
  ws_inv s' ∧ deliverable s ++ w = r ++ deliverable s'.
Proof.
  revert s w r. induction evs as [|e evs IH]; intros s w r Hi; simpl.
  - intros _ [= <- <- <-]. by rewrite app_nil_r.
  - intros [He Hevs]%andb_true_iff. destruct (ws_step e s) as [[s1 w1] r1] eqn:E1.
    destruct (ws_run evs s1) as [[s2 w2] r2] eqn:E2. intros [= <- <- <-].
    destruct (ws_step_ok _ _ _ _ _ Hi He E1) as [Hi1 Hd1]. destruct (IH _ _ _ Hi1 Hevs E2) as [Hi2 Hd2].
    split; [done|]. by rewrite app_assoc, Hd1, <- !app_assoc, Hd2.
Qed.

(** With faults: what can still arrive is what was written, up to the fault. *)
Definition ws_prefix (s : WsPipe) (w r : bytes) : Prop :=
  if connected s then w = r ++ deliverable s else r ++ deliverable s `prefix_of` w.

(** A step of a task, where [s] is before it and [s'] after it. *)
Lemma ws_prefix_task s s' w r :
  (connected s' = true → connected s = true) → deliverable s' `prefix_of` deliverable s →
  (connected s' = true → deliverable s' = deliverable s) → ws_prefix s w r → ws_prefix s' w r.
Proof.
  unfold ws_prefix. intros Hc Hp He H. destruct (connected s') eqn:E.
  - rewrite Hc in H by done. by rewrite He.
  - etrans; [by apply prefix_app|]. destruct (connected s); [by subst|done].
Qed.

Lemma connected_stop s : connected (recv_stop s) = false.
Proof. done. Qed.

Lemma stop_prefix s : deliverable (recv_stop s) `prefix_of` deliverable s.
Proof. unfold deliverable, recv_stop. simpl. rewrite app_nil_r. by apply prefix_app_r. Qed.

Lemma send_turn_prefix ok s w r : ws_prefix s w r → ws_prefix (send_turn ok s) w r.
Proof.
  unfold send_turn. destruct (wp_sending s) eqn:E; [|done]. apply ws_prefix_task; ws_cases s; subst snd;
    unfold connected, deliverable, sx_read; destruct ob as [|b ob], oc, ok;
    simpl; rewrite ?has_close_app, ?wire_payload_app, ?orb_true_r, ?orb_false_r, ?andb_false_r; try done;
    destruct rcv, ic, (has_close wire) eqn:Hc; simpl; rewrite ?app_nil_r; try done.
  all: try (rewrite <- ?app_assoc, ?(take_drop read_len (b :: ob)); done).
  all: repeat apply prefix_app; by apply prefix_app_r.
Qed.

Lemma recv_turn_prefix broken s w r : ws_prefix s w r → ws_prefix (recv_turn broken s) w r.
Proof.
  intros H. unfold recv_turn. destruct (wp_receiving s) eqn:Er; [|done].
  assert (ws_prefix (recv_stop s) w r) as Hstop.
  { eapply ws_prefix_task; [..|exact H]; try done. apply stop_prefix. }
  destruct (wp_pending s) as [|b p] eqn:Ep; [destruct broken; [done|]; destruct (wp_wire s) as [|m ms] eqn:Ew; [done|]|].
  - revert H. unfold recv_message. destruct m; simpl; apply ws_prefix_task; ws_cases s; subst rcv pend;
      subst; unfold connected, deliverable; simpl; try done;
      destruct ic, snd; simpl; rewrite ?app_nil_r, ?andb_false_r, <- ?app_assoc; try done.
    all: by apply prefix_app_r.
  - destruct (sx_closed (wp_in s)) eqn:Ec; [done|]. revert H. unfold sx_write. rewrite Ec.
    apply ws_prefix_task; ws_cases s; subst; unfold connected, deliverable; simpl; try done;
      rewrite <- app_assoc, (app_assoc (take _ _)), take_drop_taken; done.
Qed.

Lemma ws_step_prefix e s s' w r w0 r0 :
  ws_prefix s w0 r0 → ws_step e s = (s', w, r) → ws_prefix s' (w0 ++ w) (r0 ++ r).
Proof.
  intros H. destruct e; simpl.
  - unfold sx_write, ws_prefix, connected, deliverable in *. ws_cases s.
    destruct oc; intros [= <- <- <-]; simpl; rewrite ?app_nil_r; [done|].
    destruct (rcv && negb ic) eqn:E1, (snd && negb (has_close wire)) eqn:E2; simpl in *; subst;
      rewrite ?app_nil_r, <- ?app_assoc in *; try done; by apply prefix_app_r.
  - intros [= <- <- <-]. by rewrite !app_nil_r.
  - intros [= <- <- <-]. rewrite !app_nil_r. by apply send_turn_prefix.
  - intros [= <- <- <-]. rewrite !app_nil_r. unfold ws_prefix, connected, deliverable in *. simpl.
    rewrite has_close_app, wire_payload_app.
    assert (is_close (if ping then Ping_ d else Pong_ d) = false) as -> by by destruct ping.
    assert (payload (if ping then Ping_ d else Pong_ d) = []) as -> by by destruct ping.
    rewrite orb_false_r, app_nil_r. by destruct (has_close (wp_wire s)).
  - intros [= <- <- <-]. rewrite !app_nil_r. by apply recv_turn_prefix.
  - unfold sx_read. intros [= <- <- <-]. rewrite app_nil_r. unfold ws_prefix, connected, deliverable in *. simpl.
    by rewrite <- (app_assoc r0), (app_assoc (take n _)), take_drop.
  - intros [= <- <- <-]. rewrite !app_nil_r. eapply ws_prefix_task; [..|exact H]; unfold connected, deliverable; simpl;
      rewrite ?andb_false_r; try done. rewrite app_nil_r. by apply prefix_app_r.
  - intros [= <- <- <-]. rewrite !app_nil_r. destruct (wp_sending s) eqn:E; [done|].
    unfold ws_prefix, connected, deliverable in *. simpl. by rewrite E in H.
Qed.

Lemma ws_run_prefix evs s s' w r w0 r0 :
  ws_prefix s w0 r0 → ws_run evs s = (s', w, r) → ws_prefix s' (w0 ++ w) (r0 ++ r).
Proof.
  revert s w r w0 r0. induction evs as [|e evs IH]; intros s w r w0 r0 H; simpl.
  - intros [= <- <- <-]. by rewrite !app_nil_r.
  - destruct (ws_step e s) as [[s1 w1] r1] eqn:E1. destruct (ws_run evs s1) as [[s2 w2] r2] eqn:E2.
    intros [= <- <- <-]. rewrite !app_assoc. eapply IH; [|done]. by eapply ws_step_prefix.
Qed.

(** ** Progress *)

Fixpoint wire_work (w : list WsMessage) : nat :=
  match w with [] => 0 | m :: w' => 3 * length (payload m) + 1 + wire_work w' end.

(** A measure that every turn of a task that does something decreases. *)
Definition work (s : WsPipe) : nat :=
  5 * length (sx_buf (wp_out s)) + wire_work (wp_wire s) + 2 * length (wp_pending s) +
  length (sx_buf (wp_in s)) + (if wp_sending s then 2 else 0).

Lemma wire_work_app w m : wire_work (w ++ [m]) = (wire_work w + 3 * length (payload m) + 1)%nat.
Proof. induction w as [|x w IH]; simpl; [|rewrite IH]; lia. Qed.

Lemma send_turn_work s :
  (work (send_turn true s) ≤ work s)%nat ∧
  (wp_sending s = true → sx_buf (wp_out s) ≠ [] ∨ sx_closed (wp_out s) = true →
   (work (send_turn true s) < work s)%nat).
Proof.
  unfold send_turn, work, sx_read. ws_cases s. destruct snd; [|done].
  destruct ob as [|b ob]; [destruct oc; simpl|]; rewrite ?wire_work_app; simpl; [split; lia|split; [lia|]; by intros _ [|]|].
  pose proof read_len_pos. rewrite wire_work_app. cbn [payload]. rewrite length_drop, length_take. simpl. split; lia.
Qed.

Lemma recv_turn_work s :
  (work (recv_turn false s) ≤ work s)%nat ∧
  (wp_receiving s = true → wp_pending s ≠ [] ∨ wp_wire s ≠ [] → sx_buf (wp_in s) = [] →
   (work (recv_turn false s) < work s)%nat).
Proof.
  unfold recv_turn, recv_message, sx_write, work. ws_cases s. destruct rcv; [|done].
  destruct pend as [|b pend]; [destruct wire as [|[] wire]|destruct ic]; simpl; try (split; [lia|by intros _ [|]]); try (split; lia).
  rewrite length_app, length_drop, length_take. simpl. split; [lia|]. intros _ _ ->.
  pose proof (room_empty false). simpl. lia.
Qed.

(** One round: each task has a turn, and the reader reads. *)
Definition ws_round (n : nat) : list WsEvent := [SendTurn true; RecvTurn false; AppRead n].

Definition finished (s : WsPipe) : Prop := wp_receiving s = false ∧ sx_buf (wp_in s) = [].

Lemma in_grows s : sx_buf (wp_in s) ≠ [] → sx_buf (wp_in (recv_turn false (send_turn true s))) ≠ [].
Proof.
  intros H. assert (wp_in (send_turn true s) = wp_in s) as E.
  { unfold send_turn, sx_read. destruct (wp_sending s), (sx_buf (wp_out s)), (sx_closed (wp_out s)); done. }
  rewrite <- E in H. revert H. generalize (send_turn true s). clear. intros s H.
  unfold recv_turn, recv_message, sx_write. ws_cases s. destruct rcv; [|done].
  destruct pend as [|b pend]; [destruct wire as [|[] wire]|destruct ic]; simpl; try done. by destruct ib.
Qed.

Lemma round_progress n s s' w r :
  (0 < n)%nat → ws_inv s → sx_closed (wp_out s) = true → ws_run (ws_round n) s = (s', w, r) →
  sx_closed (wp_out s') = true ∧ w = [] ∧ (work s' ≤ work s)%nat ∧ (finished s ∨ (work s' < work s)%nat).
Proof.
  intros Hn Hi Hc. simpl. set (s1 := send_turn true s). set (s2 := recv_turn false s1).
  intros [= <- <- _].
  assert (sx_closed (wp_out s2) = true) as Hc2.
  { unfold s2, s1, recv_turn, recv_message, send_turn, sx_read, sx_write. ws_cases s. subst oc.
    destruct snd, ob, rcv, pend, wire as [|[] ?], ic; done. }
  pose proof (send_turn_work s) as [Hs1 Hs1']. pose proof (recv_turn_work s1) as [Hs2 Hs2'].
  fold s1 in Hs1, Hs1'. fold s2 in Hs2, Hs2'.
  assert (work (mkWsPipe (wp_out s2) (wp_sending s2) (wp_wire s2) (wp_receiving s2) (wp_pending s2)
    (sx_read n (wp_in s2)).1) = work s2 - length (take n (sx_buf (wp_in s2))))%nat as Hw.
  { unfold work. simpl. rewrite length_drop, length_take. lia. }
  unfold sx_read in Hw. simpl in Hw. rewrite Hw. split; [done|]. split; [done|]. split; [lia|].
  destruct (sx_buf (wp_in s)) as [|b l] eqn:Ei.
  - destruct (wp_receiving s) eqn:Er; [|by left]. right. destruct (wp_sending s) eqn:Es.
    + specialize (Hs1' eq_refl (or_intror Hc)). lia.
    + assert (s1 = s) as E1 by (unfold s1, send_turn; by rewrite Es). rewrite E1 in *.
      assert (wp_wire s ≠ []) as Hwire by (intros E; pose proof (wi_sent s Hi Es Er) as F; by rewrite E in F).
      specialize (Hs2' Er (or_intror Hwire) Ei). lia.
  - right. assert (sx_buf (wp_in s2) ≠ []) as Hne by (apply in_grows; by rewrite Ei).
    assert (length (sx_buf (wp_in s2)) ≤ work s2)%nat by (unfold work; lia).
    rewrite length_take. destruct (sx_buf (wp_in s2)); [done|]. simpl in *. lia.
Qed.

Lemma round_finished n s : ws_inv s → finished s → ws_run (ws_round n) s = (s, [], []).
Proof.
  intros [H1 H2 H3 H4] [Hr Hb]. ws_cases s. subst. destruct snd; [by destruct (H2 eq_refl)|].
  unfold send_turn, recv_turn, sx_read. simpl. by rewrite take_nil, drop_nil.
Qed.

Fixpoint rounds (k n : nat) : list WsEvent :=
  match k with O => [] | S k' => ws_round n ++ rounds k' n end.

Lemma ws_run_app e1 e2 s :
  ws_run (e1 ++ e2) s =
  let '(s1, w1, r1) := ws_run e1 s in let '(s2, w2, r2) := ws_run e2 s1 in (s2, w1 ++ w2, r1 ++ r2).
Proof.
  revert s. induction e1 as [|e e1 IH]; intros s; simpl.
  - by destruct (ws_run e2 s) as [[s2 w2] r2].
  - destruct (ws_step e s) as [[s1 w1] r1]. rewrite IH. destruct (ws_run e1 s1) as [[s2 w2] r2].
    destruct (ws_run e2 s2) as [[s3 w3] r3]. by rewrite !app_assoc.
Qed.

Lemma round_faultless n : forallb faultless (ws_round n) = true.
Proof. done. Qed.

Lemma finished_deliverable s : finished s → deliverable s = [].
Proof. intros [Hr Hb]. unfold deliverable. by rewrite Hr, Hb. Qed.

Lemma rounds_finish_aux k n s s' w r :
  (0 < n)%nat → ws_inv s → sx_closed (wp_out s) = true → finished s ∨ (work s ≤ k)%nat →
  ws_run (rounds k n) s = (s', w, r) → finished s' ∧ ws_inv s' ∧ w = [] ∧ r = deliverable s.
Proof.
  intros Hn. revert s w r. induction k as [|k IH]; intros s w r Hi Hc Hk.
  - intros [= <- <- <-]. assert (finished s) as Hf; [|by rewrite finished_deliverable].
    destruct Hk as [|Hk]; [done|]. unfold work in Hk. destruct Hi as [H1 H2 H3 H4]. ws_cases s.
    destruct ob, wire, pend, ib, snd; simpl in Hk; try lia. by destruct rcv; [specialize (H3 eq_refl eq_refl)|].
  - cbn [rounds]. rewrite ws_run_app. destruct (ws_run (ws_round n) s) as [[s1 w1] r1] eqn:E1.
    destruct (ws_run (rounds k n) s1) as [[s2 w2] r2] eqn:E2. intros [= <- <- <-].
    destruct (round_progress n s s1 w1 r1 Hn Hi Hc E1) as (Hc1 & -> & Hle & Hlt).
    destruct (ws_run_ok _ _ _ _ _ Hi (round_faultless n) E1) as [Hi1 Hd]. rewrite app_nil_r in Hd. rewrite Hd.
    assert (finished s → s1 = s) as Hs1 by (intros Hf; rewrite round_finished in E1 by done; congruence).
    destruct (IH s1 w2 r2 Hi1 Hc1) as (Hf & Hi2 & -> & ->); [|done..].
    destruct (decide (work s1 ≤ k)%nat); [by right|]. left.
    destruct Hlt as [Hf|]; [by rewrite Hs1|]. destruct Hk as [Hf|]; [by rewrite Hs1|lia].
Qed.

(** ** The reader's end as a byte stream *)

(** A read waits until its buffer has something or nothing can come; meanwhile
    the two tasks have their turns. *)
Fixpoint settle (k : nat) (s : WsPipe) : WsPipe :=
  match k, sx_buf (wp_in s) with
  | S k', [] => settle k' (recv_turn false (send_turn true s))
  | _, _ => s
  end.

Lemma settle_deliverable k s : deliverable (settle k s) = deliverable s.
Proof.
  revert s. induction k as [|k IH]; intros s; simpl; [done|]. destruct (sx_buf (wp_in s)); [|done].
  by rewrite IH, recv_turn_deliverable, send_turn_deliverable.
Qed.

Lemma settle_ready k s :
  (work s ≤ k)%nat → deliverable s ≠ [] → sx_buf (wp_in (settle k s)) ≠ [].
Proof.
  revert s. induction k as [|k IH]; intros s Hk Hd; simpl.
  - unfold work, deliverable in *. ws_cases s. destruct ob, wire, pend, ib, snd; simpl in *; try lia.
    by destruct (rcv && negb ic).
  - destruct (sx_buf (wp_in s)) as [|b l] eqn:Ei; [|by rewrite Ei]. apply IH.
    2: by rewrite recv_turn_deliverable, send_turn_deliverable.
    set (s1 := send_turn true s).
    pose proof (send_turn_work s) as [Hs1 Hs1']. pose proof (recv_turn_work s1) as [Hs2 Hs2']. fold s1 in Hs1, Hs1'.
    cut (work s1 < work s ∨ work (recv_turn false s1) < work s1)%nat; [lia|].
    unfold deliverable in Hd. rewrite Ei in Hd. simpl in Hd.
    destruct (wp_receiving s) eqn:Er; [|done]. destruct (sx_closed (wp_in s)); [done|]. simpl in Hd.
    destruct (decide (wp_sending s = true ∧ sx_buf (wp_out s) ≠ [])) as [[Hs Ho]|Hn]; [left; auto|right].
    assert (wp_receiving s1 = true ∧ wp_pending s1 = wp_pending s ∧ sx_buf (wp_in s1) = [] ∧
      (wp_wire s ≠ [] → wp_wire s1 ≠ [])) as (Er1 & Ep1 & Ei1 & Ew1).
    { unfold s1, send_turn, sx_read. ws_cases s. subst. destruct snd, ob, oc; simpl; repeat split; try done; by destruct wire. }
    apply Hs2'; [done| |done]. rewrite Ep1. destruct (wp_pending s); [right; apply Ew1|by left].
    intros E. rewrite E in Hd. simpl in Hd. destruct (wp_sending s); simpl in Hd; [|done]. by apply Hn.
Qed.

#[export] Instance ws_read : AsyncRead WsPipe := {|
  poll_read := fun n s =>
    let s1 := settle (work s) s in
    let '(in_, d) := sx_read n (wp_in s1) in
    (mkWsPipe (wp_out s1) (wp_sending s1) (wp_wire s1) (wp_receiving s1) (wp_pending s1) in_, Ok d);
  bytes_left := deliverable |}.

#[export] Instance ws_read_spec : AsyncReadSpec WsPipe.
Proof.
  split. intros n s s' d. unfold poll_read, bytes_left. simpl. intros [= <- <-].
  rewrite <- (settle_deliverable (work s) s). split.
  - unfold deliverable. simpl. by rewrite (app_assoc (take n _)), take_drop.
  - rewrite length_take. split; [lia|]. intros Hn Hne E.
    rewrite settle_deliverable in Hne. pose proof (settle_ready (work s) s ltac:(lia) Hne) as Hr.
    destruct (sx_buf _); [done|]. by destruct n; [lia|].
Qed.

(** ** Properties *)

Lemma at_eof_finished s : ws_inv s → at_eof s ↔ finished s.
Proof.
  intros Hi. unfold at_eof, finished. rewrite (wi_receiving s Hi).
  destruct (wp_receiving s); naive_solver.
Qed.

(** C34: a stream over a WebSocket is a byte stream.  However the programs, the
    tasks of the two bridges and the library interleave, and whatever fails,
    what the reader has got is a prefix of what the writer's stream has taken.
    As long as nothing fails, everything else is still on its way: the reader
    sees the end of the stream only when it has read all of it, and when the
    writer shuts down, a number of turns that can be computed from the state
    brings over the rest and then the end of the stream. *)
Theorem websocket_carries_bytes evs n :
  (0 < n)%nat →
  let '(s, w, r) := ws_run evs websocket_to_stream in
  r `prefix_of` w ∧
  (forallb faultless evs = true →
     w = r ++ deliverable s ∧ (at_eof s → r = w) ∧
     ∃ s', ws_run (AppShutdown :: rounds (work s) n) s = (s', [], deliverable s) ∧ at_eof s').
Proof.
  intros Hn. destruct (ws_run evs websocket_to_stream) as [[s w] r] eqn:E. split.
  - apply (ws_run_prefix _ _ _ _ _ [] []) in E; [|done]. unfold ws_prefix in E. simpl in E.
    destruct (connected s); [subst; by apply prefix_app_r|]. etrans; [|done]. by apply prefix_app_r.
  - intros Hf. destruct (ws_run_ok _ _ _ _ _ ws_inv_new Hf E) as [Hi Hw]. change (w = r ++ deliverable s) in Hw.
    split; [done|]. split.
    { intros He%at_eof_finished; [|done]. by rewrite Hw, (finished_deliverable s He), app_nil_r. }
    destruct (ws_step AppShutdown s) as [[s1 w1] r1] eqn:E1.
    destruct (ws_step_ok AppShutdown _ _ _ _ Hi eq_refl E1) as [Hi1 Hd]. injection E1 as E1 <- <-.
    rewrite app_nil_r in Hd. simpl in Hd.
    destruct (ws_run (rounds (work s) n) s1) as [[s2 w2] r2] eqn:E2.
    assert (sx_closed (wp_out s1) = true ∧ (work s1 ≤ work s)%nat) as [Hc1 Hk] by by subst s1.
    destruct (rounds_finish_aux _ _ _ _ _ _ Hn Hi1 Hc1 (or_intror Hk) E2) as (Hf2 & Hi2 & -> & ->).
    exists s2. split; [|by apply at_eof_finished]. cbn [ws_run ws_step]. rewrite E1, E2. by rewrite Hd.
Qed.

(** A connection that breaks looks like one that ends: the reader sees the end
    of the stream and has not read what was under way. *)
Lemma websocket_truncates m :
  let '(s, w, r) := ws_run [AppWrite [m]; SendTurn true; RecvTurn false; RecvTurn false; AppRead 1;
                            AppWrite [m]; SendTurn true; RecvTurn true] websocket_to_stream in
  at_eof s ∧ w = [m; m] ∧ r = [m].
Proof. by vm_compute. Qed.

(** ** Witnesses *)

Module ToyWebSocket.
Definition evs : list WsEvent :=
  [AppWrite [x41; x42]; SendTurn true; Chatter true []; RecvTurn false; RecvTurn false; AppRead 1; AppWrite [x43]].
Definition after : WsPipe := mkWsPipe (mkSimplex [x43] false) true [Ping_ []] true [] (mkSimplex [x42] false).

Lemma evs_run : ws_run evs websocket_to_stream = (after, [x41; x42; x43], [x41]).
Proof. vm_compute. reflexivity. Qed.

Lemma websocket_carries_bytes_witness :
  ∃ s', ws_run (AppShutdown :: rounds (work after) 1) after = (s', [], [x42; x43]) ∧ at_eof s'.
Proof.
  pose proof (websocket_carries_bytes evs 1 (le_n 1)) as H. rewrite evs_run in H.
  destruct H as [_ H]. destruct (H eq_refl) as (_ & _ & H1). exact H1.
Defined.
End ToyWebSocket.
