(* ===== verification/Links.v ===== *)
(** * Writing, and messages from one end to the other
    (crates/arp-common/src/transport/{mod,prefixed,throttle,quic_stream}.rs)

    The class [AsyncWrite] is tokio's trait as far as writing goes.  The
    adapters of the sources ([PrefixedStream], [ThrottledStream],
    [QuicBiStream]) forward their writes.  [MessageTransport::send] writes a
    message through [tokio_util]'s [Framed], whose sending half is the class
    [FramedSink] with its documented laws; what one end sends the other end
    receives, whatever the streams in between. *)
From S2P Require Import Prelude Errors Protocol Streams WebSocket.
Local Open Scope Z_scope.

(** ** Writing *)

Class AsyncWrite (S : Type) := {
  poll_write : bytes → S → S * result IoError nat;
  bytes_out : S → bytes;                            (* what was written so far *)
}.

(** A write takes a prefix of what it is given; a failed write takes nothing. *)
Class AsyncWriteSpec (S : Type) `{AsyncWrite S} := {
  poll_write_ok d s s' n : poll_write d s = (s', Ok n) →
    (n ≤ length d)%nat ∧ bytes_out s' = bytes_out s ++ take n d;
  poll_write_err d s s' e : poll_write d s = (s', Err e) → bytes_out s' = bytes_out s;
}.

(** ** The adapters *)

Section Adapters.
Context {S : Type} `{AsyncWrite S}.

(** [PrefixedStream] and [ThrottledStream]: writes forward to the inner stream. *)
Definition prefixed_poll_write `{!AsyncRead S} (d : bytes) (s : PrefixedStream S)
  : PrefixedStream S * result IoError nat :=
  let '(inner, r) := poll_write d (ps_inner s) in
  (mkPrefixedStream (ps_prefix s) (ps_position s) inner, r).

#[export] Instance prefixed_write `{!AsyncRead S} : AsyncWrite (PrefixedStream S) := {|
  poll_write := prefixed_poll_write; bytes_out := fun s => bytes_out (ps_inner s) |}.

Definition throttled_poll_write `{!AsyncRead S} (d : bytes) (s : ThrottledStream S)
  : ThrottledStream S * result IoError nat :=
  let '(inner, r) := poll_write d (ts_inner s) in (mkThrottledStream inner (ts_spawned s), r).

#[export] Instance throttled_write `{!AsyncRead S} : AsyncWrite (ThrottledStream S) := {|
  poll_write := throttled_poll_write; bytes_out := fun s => bytes_out (ts_inner s) |}.

#[export] Instance prefixed_write_spec `{!AsyncRead S} `{!AsyncWriteSpec S} : AsyncWriteSpec (PrefixedStream S).
Proof.
  split; intros d [p pos inner] s' r; unfold poll_write, bytes_out; simpl; unfold prefixed_poll_write; simpl;
    destruct (poll_write d inner) as [i r'] eqn:E; intros [= <- ->].
  - by apply poll_write_ok in E.
  - by apply poll_write_err in E.
Qed.

#[export] Instance throttled_write_spec `{!AsyncRead S} `{!AsyncWriteSpec S} : AsyncWriteSpec (ThrottledStream S).
Proof.
  split; intros d [inner sp] s' r; unfold poll_write, bytes_out; simpl; unfold throttled_poll_write; simpl;
    destruct (poll_write d inner) as [i r'] eqn:E; intros [= <- ->].
  - by apply poll_write_ok in E.
  - by apply poll_write_err in E.
Qed.
End Adapters.

(** [QuicBiStream]: the two streams of a QUIC connection as one; the library's
    error [e] of a write becomes [std::io::Error::other(e)].  The connection
    and the endpoint it keeps alive have no operations here. *)
Section Quic.
Context {R W : Type} `{AsyncRead R} `{AsyncWrite W}.

Record QuicBiStream := mkQuicBiStream { qs_recv : R; qs_send : W }.

Definition io_other (e : IoError) : IoError := mkIoError OtherKind None (io_text e).

Definition quic_poll_read (n : nat) (s : QuicBiStream) : QuicBiStream * result IoError bytes :=
  let '(recv, r) := poll_read n (qs_recv s) in (mkQuicBiStream recv (qs_send s), r).

Definition quic_poll_write (d : bytes) (s : QuicBiStream) : QuicBiStream * result IoError nat :=
  match poll_write d (qs_send s) with
  | (send, Ok n) => (mkQuicBiStream (qs_recv s) send, Ok n)
  | (send, Err e) => (mkQuicBiStream (qs_recv s) send, Err (io_other e))
  end.

#[export] Instance quic_read : AsyncRead QuicBiStream := {|
  poll_read := quic_poll_read; bytes_left := fun s => bytes_left (qs_recv s) |}.
#[export] Instance quic_write : AsyncWrite QuicBiStream := {|
  poll_write := quic_poll_write; bytes_out := fun s => bytes_out (qs_send s) |}.

#[export] Instance quic_read_spec `{!AsyncReadSpec R} : AsyncReadSpec QuicBiStream.
Proof.
  split. intros n [rc sd] s' d. unfold poll_read, bytes_left. simpl. unfold quic_poll_read. simpl.
  destruct (poll_read n rc) as [i r] eqn:E. intros [= <- ->]. by apply poll_read_ok in E.
Qed.

#[export] Instance quic_write_spec `{!AsyncWriteSpec W} : AsyncWriteSpec QuicBiStream.
Proof.
  split; intros d [rc sd] s' r; unfold poll_write, bytes_out; simpl; unfold quic_poll_write; simpl;
    destruct (poll_write d sd) as [i [n|e]] eqn:E; intros [= <- <-].
  - by apply poll_write_ok in E.
  - by apply poll_write_err in E.
Qed.
End Quic.
Arguments QuicBiStream : clear implicits.

(** ** [MessageTransport::send] *)

(** The sending half of [Framed<S, MessageCodec>]: [feed] and [flush]. *)
Class FramedSink `{Serde} (S : Type) `{!Framed S} := {
  framed_send : Message → framed → framed * Result unit;
}.

(** A message that was sent is on the stream as [Encoder::encode] gives it,
    behind what was sent before; sending does not touch the receiving half. *)
Class FramedSinkSpec {S : Type} `{FramedSink S} `{!AsyncRead S} `{!AsyncWrite S} := {
  framed_send_ok m f f' : framed_send m f = (f', Ok tt) →
    (encode m []).2 = Ok tt ∧
    bytes_out (framed_into_parts f').1 = bytes_out (framed_into_parts f).1 ++ (encode m []).1;
  framed_send_undecoded m f f' r : framed_send m f = (f', r) → undecoded f' = undecoded f;
}.

(** A stream whose reads do not fail, and that [next] then reads until the
    decoder has a message. *)
Class AsyncReadTotal (S : Type) `{AsyncRead S} := {
  poll_read_total n s : ∃ s' d, poll_read n s = (s', Ok d);
}.
Class FramedLive {S : Type} `{Framed S} `{!AsyncRead S} := {
  framed_next_live f rest m : AsyncReadTotal S → decode (undecoded f) = (rest, Ok (Some m)) →
    ∃ f', framed_next f = (f', Some (Ok m));
}.

Section Send.
Context `{Serde} {S : Type} `{!AsyncRead S} `{!AsyncWrite S} `{!Framed S} `{!FramedSink S}.

Definition send (msg : Message) : st MessageTransport Error.t unit := fun t =>
  match framed_send msg (mt_framed t) with
  | (f, Ok _) => (mkMessageTransport f, Ok tt)
  | (f, Err e) =>
      (mkMessageTransport f, Err (Error.Transport ("Failed to send message: " +:+ error_to_string e)))
  end.

Fixpoint send_all (msgs : list Message) : st MessageTransport Error.t unit :=
  match msgs with
  | [] => mret tt
  | m :: rest => _ ← send m; send_all rest
  end.

(** Receive [n] messages. *)
Fixpoint recv_all (n : nat) : st MessageTransport Error.t (list Message) :=
  match n with
  | O => mret []
  | Datatypes.S n' =>
      m ← recv;
      match m with
      | Some m => ms ← recv_all n'; mret (m :: ms)
      | None => st_fail Error.ConnectionClosed
      end
  end.

Definition wire_out (t : MessageTransport) : bytes := bytes_out (framed_into_parts (mt_framed t)).1.

Lemma encode_msg_frame m : (encode m []).2 = Ok tt → (encode m []).1 = msg_frame m.
Proof. unfold encode, msg_frame. destruct (to_vec m); [|done]. by destruct (_ <? _). Qed.

Lemma send_all_out `{!FramedSinkSpec} msgs t t' :
  send_all msgs t = (t', Ok tt) →
  wire_out t' = wire_out t ++ concat (msg_frame <$> msgs) ∧
  undecoded (mt_framed t') = undecoded (mt_framed t).
Proof.
  revert t. induction msgs as [|m msgs IH]; intros t; simpl.
  - intros [= <-]. by rewrite app_nil_r.
  - cbv [mbind st_bind]. unfold send. destruct (framed_send m (mt_framed t)) as [f [[]|e]] eqn:E; [|done].
    intros [IH1 IH2]%IH. apply framed_send_undecoded in E as Eu. apply framed_send_ok in E as [Ee Eo].
    rewrite IH1, IH2. unfold wire_out. simpl. rewrite Eo, encode_msg_frame by done. by rewrite app_assoc.
Qed.
End Send.

Section Receive.
Context `{Serde} {S : Type} `{!AsyncRead S} `{!Framed S}.

Lemma recv_all_frames `{!FramedSpec} `{!FramedLive} msgs rest t :
  AsyncReadTotal S → Forall serde_ok msgs →
  undecoded (mt_framed t) = concat (msg_frame <$> msgs) ++ rest →
  ∃ t', recv_all (length msgs) t = (t', Ok msgs) ∧ undecoded (mt_framed t') = rest.
Proof.
  intros Ht Hm. revert t. induction Hm as [|m msgs Hm _ IH]; intros t Hu; simpl.
  - by exists t.
  - cbn [fmap list_fmap concat] in Hu. rewrite <- app_assoc in Hu.
    pose proof (decode_msg_frame m (concat (msg_frame <$> msgs) ++ rest) Hm) as Ed. rewrite <- Hu in Ed.
    destruct (framed_next_live (mt_framed t) _ m Ht Ed) as [f' En].
    pose proof (framed_next_ok _ _ _ En) as Ed'. rewrite Ed in Ed'. injection Ed' as Ed'.
    destruct (IH (mkMessageTransport f')) as (t' & Er & Eu); [done|]. exists t'. split; [|done].
    cbv [mbind st_bind]. unfold recv. rewrite En. by rewrite Er.
Qed.
End Receive.

(** ** A [Framed] over any stream *)

(** The laws above hold of a buffer that is filled by reads of up to 8 KiB and
    of writes that are repeated until the frame is out, over every stream whose
    writes leave its reads alone. *)
Module Buffered.

Class Duplex (S : Type) `{AsyncRead S} `{AsyncWrite S} := {
  poll_write_left d s s' r : poll_write d s = (s', r) → bytes_left s' = bytes_left s;
}.

Section Buffered.
Context `{Serde} {S : Type} `{!AsyncRead S}.

Definition INITIAL_CAPACITY : nat := Z.to_nat 8192.

Lemma capacity_pos : (0 < INITIAL_CAPACITY)%nat.
Proof. unfold INITIAL_CAPACITY. lia. Qed.
#[global] Opaque INITIAL_CAPACITY.

Fixpoint next_loop (k : nat) (s : S) (buf : bytes) : (S * bytes) * option (Result Message) :=
  match decode buf with
  | (buf', Ok (Some m)) => ((s, buf'), Some (Ok m))
  | (buf', Err e) => ((s, buf'), Some (Err e))
  | (buf', Ok None) =>
      match k with
      | O => ((s, buf'), None)
      | Datatypes.S k' =>
          match poll_read INITIAL_CAPACITY s with
          | (s', Ok []) => ((s', buf'), None)
          | (s', Ok d) => next_loop k' s' (buf' ++ d)
          | (s', Err e) => ((s', buf'), Some (Err (Error.Io e)))
          end
      end
  end.

#[export] Instance buffered : Framed S := {|
  framed := S * bytes;
  framed_new := fun s => (s, []);
  framed_next := fun f => next_loop (length (bytes_left f.1)) f.1 f.2;
  framed_into_parts := fun f => f;
  framed_into_inner := fun f => f.1 |}.

Context `{!AsyncReadSpec S}.

Lemma next_loop_ok k s buf s' buf' m :
  next_loop k s buf = ((s', buf'), Some (Ok m)) →
  decode (buf ++ bytes_left s) = (buf' ++ bytes_left s', Ok (Some m)).
Proof.
  revert s buf. induction k as [|k IH]; intros s buf; cbn [next_loop];
    destruct (decode buf) as [b [[x|]|e]] eqn:E; try done.
  - intros [= <- <- <-]. by apply decode_app.
  - intros [= <- <- <-]. by apply decode_app.
  - apply Chunks.decode_waits in E as ->. destruct (poll_read _ s) as [s1 [[|c d]|e]] eqn:Er; try done.
    apply poll_read_ok in Er as (-> & _). intros En%IH. by rewrite <- app_assoc in En.
Qed.

#[export] Instance buffered_spec : FramedSpec (S := S).
Proof. split; try done. intros [s buf] [s' buf'] m. apply next_loop_ok. Qed.

Lemma next_loop_live k s buf rest m :
  AsyncReadTotal S → (length (bytes_left s) ≤ k)%nat →
  decode (buf ++ bytes_left s) = (rest, Ok (Some m)) →
  ∃ f, next_loop k s buf = (f, Some (Ok m)).
Proof.
  intros Ht. revert s buf. induction k as [|k IH]; intros s buf Hk Hd; cbn [next_loop];
    destruct (decode buf) as [b [[x|]|e]] eqn:E.
  1,4: rewrite (decode_app _ _ _ (bytes_left s) E) in Hd by done; simplify_eq; eauto.
  2,4: by rewrite (decode_app _ _ _ (bytes_left s) E) in Hd.
  - assert (bytes_left s = []) as Hn by (destruct (bytes_left s); [done|simpl in Hk; lia]).
    by rewrite Hn, app_nil_r, E in Hd.
  - destruct (poll_read_total INITIAL_CAPACITY s) as (s1 & d & Er). rewrite Er.
    apply Chunks.decode_waits in E as E'. subst b.
    apply poll_read_ok in Er as (Hs & _ & Hp). destruct d as [|c d].
    + destruct (bytes_left s) eqn:Eb; [by rewrite app_nil_r, E in Hd|].
      by destruct (Hp capacity_pos ltac:(done)).
    + apply IH; [rewrite Hs, length_app in Hk; simpl in Hk; lia|]. by rewrite <- app_assoc, <- Hs.
Qed.

#[export] Instance buffered_live : FramedLive (S := S).
Proof. split. intros [s buf] rest m Ht Hd. by eapply next_loop_live. Qed.

Context `{!AsyncWrite S}.

(** The frame is written until it is out. *)
Definition write_zero : IoError := mkIoError OtherKind None "failed to write frame to transport".

Fixpoint write_loop (fuel : nat) (d : bytes) (s : S) : S * Result unit :=
  match d, fuel with
  | [], _ => (s, Ok tt)
  | _, O => (s, Err (Error.Io write_zero))
  | _, Datatypes.S f =>
      match poll_write d s with
      | (s', Ok O) => (s', Err (Error.Io write_zero))
      | (s', Ok n) => write_loop f (drop n d) s'
      | (s', Err e) => (s', Err (Error.Io e))
      end
  end.

#[export] Instance buffered_sink : FramedSink S := {|
  framed_send := fun m f =>
    match encode m [] with
    | (d, Ok _) => let '(s, r) := write_loop (length d) d f.1 in ((s, f.2), r)
    | (_, Err e) => (f, Err e)
    end |}.

Lemma write_loop_out `{!AsyncWriteSpec S} fuel d s s' :
  write_loop fuel d s = (s', Ok tt) → bytes_out s' = bytes_out s ++ d.
Proof.
  revert d s. induction fuel as [|f IH]; intros [|c d] s; simpl; try done; try (intros [= <-]; by rewrite app_nil_r).
  destruct (poll_write (c :: d) s) as [s1 [[|n]|e]] eqn:Ew; try done.
  intros E%IH. apply poll_write_ok in Ew as [_ Eo].
  rewrite E, Eo, <- app_assoc. cbn [take drop]. by rewrite <- app_comm_cons, take_drop.
Qed.

Lemma write_loop_left `{!Duplex S} fuel d s s' r :
  write_loop fuel d s = (s', r) → bytes_left s' = bytes_left s.
Proof.
  revert d s. induction fuel as [|f IH]; intros [|c d] s; simpl; try (by intros [= <- <-]).
  destruct (poll_write (c :: d) s) as [s1 [[|n]|e]] eqn:Ew; apply poll_write_left in Ew; try (by intros [= <- <-]).
  intros ->%IH. done.
Qed.

#[export] Instance buffered_sink_spec `{!AsyncWriteSpec S} `{!Duplex S} : FramedSinkSpec (S := S).
Proof.
  split.
  - intros m [s buf] f' E. simpl in E. destruct (encode m []) as [d [[]|e]] eqn:Ee; [|done].
    destruct (write_loop (length d) d s) as [s1 r] eqn:Ew. injection E as <- ->. split; [done|].
    simpl. by apply write_loop_out in Ew.
  - intros m [s buf] f' r E. simpl in E. unfold undecoded. destruct (encode m []) as [d [[]|e]] eqn:Ee.
    + destruct (write_loop (length d) d s) as [s1 r1] eqn:Ew. injection E as <- <-. simpl.
      by rewrite (write_loop_left _ _ _ _ _ Ew).
    + by injection E as <- <-.
Qed.
End Buffered.
End Buffered.

(** ** Streams that do not fail *)

#[export] Existing Instances Chunks.chunks Chunks.chunks_spec.

#[export] Instance chunks_total : AsyncReadTotal (list bytes).
Proof.
  split. intros n s. induction s as [|[|b c] rest IH]; [by eexists _, _|exact IH|].
  unfold poll_read. simpl. case_match; by eexists _, _.
Qed.

#[export] Instance ws_total : AsyncReadTotal WsPipe.
Proof. split. intros n s. by eexists _, _. Qed.

#[export] Instance prefixed_total {S} `{AsyncReadTotal S} : AsyncReadTotal (PrefixedStream S).
Proof.
  split. intros n [p pos inner]. unfold poll_read. simpl. unfold prefixed_poll_read. simpl.
  destruct (_ && _); [by eexists _, _|]. destruct (poll_read_total n inner) as (s' & d & ->). by eexists _, _.
Qed.

(** ** Properties *)

(** C36: messages, and then bytes, from one end to the other.  What is sent over
    one end of a connection and followed by [data], the other end receives:
    exactly the messages, in order, and then, through [into_inner_with_read_buf]
    and [PrefixedStream] and by reads of any sizes, exactly [data]; the streams
    of the two ends, and how the connection cuts what it carries, do not
    matter. *)
Theorem messages_then_bytes `{Serde} {A B : Type} `{!AsyncRead A} `{!AsyncWrite A} `{!Framed A} `{!FramedSink A}
    `{!AsyncRead B} `{!Framed B} `{!FramedSpec (S := A)} `{!FramedSinkSpec (S := A)}
    `{!AsyncReadSpec B} `{!AsyncReadTotal B} `{!FramedSpec (S := B)} `{!FramedLive (S := B)}
    (a : A) (b : B) msgs data ta :
  Forall serde_ok msgs → bytes_out a = [] → send_all msgs (from_stream a) = (ta, Ok tt) →
  bytes_left b = wire_out ta ++ data →
  ∃ tb, recv_all (length msgs) (from_stream b) = (tb, Ok msgs) ∧
    let '(io, pre_read) := into_inner_with_read_buf tb in
    let ps := prefixed_new pre_read io in
    bytes_left ps = data ∧
    ∀ caps, Forall (fun n => (0 < n)%nat) caps → (length data ≤ length caps)%nat →
      ∀ ps' d, reads caps ps = (ps', Ok d) → d = data.
Proof.
  intros Hm Ha Hs Hb. apply send_all_out in Hs as [Ho _].
  unfold wire_out, from_stream in Ho. simpl in Ho. rewrite framed_new_parts in Ho. simpl in Ho.
  rewrite Ha in Ho. simpl in Ho.
  destruct (recv_all_frames (S := B) msgs data (from_stream b)) as (tb & Hr & Hu); [done|done|..].
  { unfold undecoded. simpl. rewrite framed_new_parts. simpl. by rewrite Hb, <- Ho. }
  exists tb. split; [done|]. unfold into_inner_with_read_buf. unfold undecoded in Hu.
  destruct (framed_into_parts (mt_framed tb)) as [io pre]. simpl in Hu.
  assert (bytes_left (prefixed_new pre io) = data) as Hleft by (unfold bytes_left; simpl; by rewrite drop_0).
  split; [done|]. intros caps Hc Hl ps' d Hd.
  destruct (reads_all caps _ ps' d Hd Hc) as [_ H2']. rewrite Hleft in H2'. by apply H2'.
Qed.

(** ** Witnesses *)

(** Two pings over a QUIC stream that writes five bytes at a time, received from
    a WebSocket that has the first part in the reader's buffer, the second under
    way and the third not sent yet. *)
Module ToyLinks.
#[local] Existing Instances Toy.json Toy.serde Buffered.buffered Buffered.buffered_spec Buffered.buffered_live Buffered.buffered_sink Buffered.buffered_sink_spec.

Definition out : Type := bytes.
#[local] Instance short_writes : AsyncWrite out := {|
  poll_write := fun d s => (s ++ take 5 d, Ok (5 `min` length d)%nat); bytes_out := fun s => s |}.
#[local] Instance short_writes_spec : AsyncWriteSpec out.
Proof.
  split; cbv [poll_write bytes_out short_writes]; [|done]. intros d s s' n E.
  assert (n = (5 `min` length d)%nat ∧ s' = s ++ take 5 d) as [-> ->] by (split; congruence).
  split; [lia|]. f_equal. destruct (decide (5 ≤ length d)%nat); [by rewrite Nat.min_l|].
  by rewrite Nat.min_r, !take_ge by lia.
Qed.
#[local] Instance duplex : Buffered.Duplex (QuicBiStream (list bytes) out).
Proof. split. intros d [rc sd] s' r E. by injection E as <- _. Qed.

Definition quic : QuicBiStream (list bytes) out := mkQuicBiStream [] [].
Definition stream : bytes := msg_frame (Toy.ping 5) ++ msg_frame (Toy.ping 7) ++ [x41; x42].
Definition ws : WsPipe :=
  mkWsPipe (mkSimplex (drop 20 stream) false) true [Ping_ []; Binary (take 15 (drop 5 stream))] true []
    (mkSimplex (take 5 stream) false).

Lemma ping_ok z : in_u 64 z → serde_ok (Toy.ping z).
Proof.
  intros Hz. exists (be_bytes 8 z). split; [done|].
  assert (length (be_bytes 8 z) = 8%nat) as E by apply length_be_bytes. unfold blen. rewrite E. split; [done|].
  cbn [from_slice Toy.serde]. rewrite E. cbn [Nat.eqb]. rewrite be_val_be_bytes_small; [done|]. unfold in_u in Hz. lia.
Qed.

Lemma messages_then_bytes_witness :
  ∃ tb, recv_all 2 (from_stream ws) = (tb, Ok [Toy.ping 5; Toy.ping 7]) ∧
    bytes_left (prefixed_new (into_inner_with_read_buf tb).2 (into_inner_with_read_buf tb).1) = [x41; x42].
Proof.
  destruct (messages_then_bytes quic ws [Toy.ping 5; Toy.ping 7] [x41; x42]
    (send_all [Toy.ping 5; Toy.ping 7] (from_stream quic)).1) as (tb & Hr & Ht).
  - repeat constructor; apply ping_ok; unfold in_u; lia.
  - reflexivity.
  - vm_compute. reflexivity.
  - vm_compute. reflexivity.
  - exists tb. split; [exact Hr|]. destruct (into_inner_with_read_buf tb) as [io pre]. exact (proj1 Ht).
Defined.
End ToyLinks.
