(* ===== verification/Config.v ===== *)
(** * Configuration (crates/arp-common/src/config/mod.rs)

    The configuration structs with their fields, the defaults the sources give
    them, and the [validate] methods.  Reading and parsing the TOML file is
    the [toml] crate's and is not modelled: a configuration is a value. *)
From S2P Require Import Prelude RustString NetAddr Errors Protocol.
Local Open Scope Z_scope.

Inductive ProxyType := Tcp | Http | Https | Udp | Stcp | Sudp | Xtcp.

#[global] Instance ProxyType_eq_dec : EqDecision ProxyType.
Proof. solve_decision. Defined.

(** [impl Display for ProxyType]. *)
Definition proxy_type_to_string (t : ProxyType) : string :=
  match t with
  | Tcp => "tcp" | Http => "http" | Https => "https" | Udp => "udp"
  | Stcp => "stcp" | Sudp => "sudp" | Xtcp => "xtcp"
  end.

Inductive TransportProtocol := TpTcp | TpKcp | TpQuic | TpWebsocket.

#[global] Instance TransportProtocol_eq_dec : EqDecision TransportProtocol.
Proof. solve_decision. Defined.

Definition transport_protocol_to_string (t : TransportProtocol) : string :=
  match t with
  | TpTcp => "tcp" | TpKcp => "kcp" | TpQuic => "quic" | TpWebsocket => "websocket"
  end.

Record PortRange := mkPortRange { pr_start : Z; pr_end : Z; pr_single : Z }.

Record AuthRule := mkAuthRule {
  ar_token : string;
  ar_allow_proxy_types : list string;
  ar_allow_ports : list PortRange;
  ar_allow_domain_suffixes : list string;
  ar_allow_subdomain_prefixes : list string;
  ar_max_pool_count : Z;
  ar_max_connections : Z;
  ar_bandwidth_limit_bytes : Z;
}.

Record OidcConfig := mkOidcConfig {
  oidc_client_id : string; oidc_client_secret : string; oidc_audience : string;
  oidc_issuer : string; oidc_token_endpoint_url : string;
}.

Record AuthConfig := mkAuthConfig {
  ac_method : string;
  ac_token : string;
  ac_additional_tokens : list string;
  ac_rules : list AuthRule;
  ac_oidc : OidcConfig;
}.

Record TlsConfig := mkTlsConfig {
  tls_enable : bool; tls_cert_file : string; tls_key_file : string;
  tls_trusted_ca_file : string; tls_server_name : string;
}.

Record TransportConfig := mkTransportConfig {
  tc_protocol : TransportProtocol;
  tc_tcp_mux : bool;
  tc_tcp_mux_keepalive_interval : Z;
  tc_pool_count : Z;
  tc_heartbeat_interval : Z;
  tc_heartbeat_timeout : Z;
  tc_tls : TlsConfig;
}.

Record HealthCheckConfig := mkHealthCheckConfig {
  hc_enable : bool; hc_check_type : string; hc_timeout_seconds : Z;
  hc_max_failed : Z; hc_interval_seconds : Z; hc_path : string;
}.

Record LoadBalancerConfig := mkLoadBalancerConfig { lb_group : string; lb_group_key : string }.

Record PluginConfig := mkPluginConfig {
  plugin_type : string; plugin_params : gmap string string;
}.

Record ProxyConfig := mkProxyConfig {
  pc_name : string;
  pc_proxy_type : ProxyType;
  pc_local_ip : string;
  pc_local_port : Z;
  pc_remote_port : Z;
  pc_use_encryption : bool;
  pc_use_compression : bool;
  pc_custom_domains : list string;
  pc_subdomain : string;
  pc_locations : list string;
  pc_host_header_rewrite : string;
  pc_http_user : string;
  pc_http_pwd : string;
  pc_sk : string;
  pc_fallback_to_relay : bool;
  pc_multiplexer : string;
  pc_bandwidth_limit : string;
  pc_bandwidth_limit_mode : string;
  pc_health_check : HealthCheckConfig;
  pc_load_balancer : LoadBalancerConfig;
  pc_plugin : PluginConfig;
}.

Record VisitorConfig := mkVisitorConfig {
  vc_name : string; vc_visitor_type : string; vc_server_name : string; vc_sk : string;
  vc_bind_addr : string; vc_bind_port : Z; vc_fallback_to_relay : bool;
  vc_xtcp_punch_timeout_secs : Z;
}.

Record ServerConfig `{Json} := mkServerConfig {
  sc_bind_addr : string;
  sc_bind_port : Z;
  sc_kcp_bind_port : Z;
  sc_quic_bind_port : Z;
  sc_vhost_http_port : Z;
  sc_vhost_https_port : Z;
  sc_dashboard_addr : string;
  sc_dashboard_port : Z;
  sc_dashboard_user : string;
  sc_dashboard_pwd : string;
  sc_log_level : string;
  sc_log_file : string;
  sc_log_max_days : Z;
  sc_auth : AuthConfig;
  sc_transport : TransportConfig;
  sc_allow_ports : list PortRange;
  sc_max_pool_count : Z;
  sc_max_ports_per_client : Z;
  sc_subdomain_host : string;
  sc_tcp_mux : bool;
  sc_custom : gmap string Value;
}.

Record ClientConfig := mkClientConfig {
  cc_server_addr : string;
  cc_server_port : Z;
  cc_client_id : string;
  cc_log_level : string;
  cc_log_file : string;
  cc_log_max_days : Z;
  cc_auth : AuthConfig;
  cc_transport : TransportConfig;
  cc_admin_addr : string;
  cc_admin_port : Z;
  cc_admin_user : string;
  cc_admin_pwd : string;
  cc_proxies : list ProxyConfig;
  cc_visitors : list VisitorConfig;
}.

(** ** Defaults *)

(** The derived [Default] of the structs that derive it. *)
Definition OidcConfig_default : OidcConfig := mkOidcConfig "" "" "" "" "".
Definition AuthConfig_default : AuthConfig := mkAuthConfig "" "" [] [] OidcConfig_default.
Definition TlsConfig_default : TlsConfig := mkTlsConfig false "" "" "" "".
Definition HealthCheckConfig_default : HealthCheckConfig := mkHealthCheckConfig false "" 0 0 0 "".
Definition LoadBalancerConfig_default : LoadBalancerConfig := mkLoadBalancerConfig "" "".
Definition PluginConfig_default : PluginConfig := mkPluginConfig "" ∅.

Definition default_protocol : TransportProtocol := TpTcp.
Definition default_tcp_mux : bool := true.

(** [impl Default for TransportConfig]. *)
Definition TransportConfig_default : TransportConfig :=
  mkTransportConfig default_protocol default_tcp_mux 60 1 30 90 TlsConfig_default.

(** ** Validation *)

Definition config_err {A} (s : string) : Result A := Err (Error.Config s).

Fixpoint validate_rules (idx : Z) (rules : list AuthRule) : Result unit :=
  match rules with
  | [] => Ok tt
  | rule :: rest =>
      if is_empty (trim (ar_token rule)) then
        config_err ("auth.rules[" +:+ pretty idx +:+ "].token cannot be empty")
      else validate_rules (idx + 1) rest
  end.

(** [AuthConfig::validate]. *)
Definition auth_validate (c : AuthConfig) : Result unit :=
  if bool_decide (ac_method c = "token"%string) then
    if is_empty (trim (ac_token c)) && bool_decide (ac_additional_tokens c = [])
       && (match ac_rules c with [] => true | _ => false end)
    then config_err "token auth requires token, additional_tokens, or rules"
    else validate_rules 0 (ac_rules c)
  else config_err ("unsupported auth.method: " +:+ ac_method c).

(** [ProxyConfig::validate]. *)
Definition proxy_validate (p : ProxyConfig) : Result unit :=
  guard_err (is_empty (pc_name p)) (Error.Config "proxy name cannot be empty") ≫= fun _ =>
  guard_err (pc_local_port p =? 0)
    (Error.Config ("proxy " +:+ pc_name p +:+ " local_port cannot be 0")) ≫= fun _ =>
  guard_err ((bool_decide (pc_proxy_type p = Http) || bool_decide (pc_proxy_type p = Https))
             && bool_decide (pc_custom_domains p = []) && is_empty (trim (pc_subdomain p)))
    (Error.Config ("proxy " +:+ pc_name p +:+ " of type " +:+ proxy_type_to_string (pc_proxy_type p)
                   +:+ " requires custom_domains or subdomain")) ≫= fun _ =>
  guard_err (pc_use_encryption p && is_empty (trim (pc_sk p)))
    (Error.Config ("proxy " +:+ pc_name p +:+ " enables encryption but sk is empty")) ≫= fun _ =>
  guard_err ((match pc_proxy_type p with Stcp | Sudp | Xtcp => true | _ => false end)
             && is_empty (trim (pc_sk p)))
    (Error.Config ("proxy " +:+ pc_name p +:+ " of type " +:+ proxy_type_to_string (pc_proxy_type p)
                   +:+ " requires sk")).

Fixpoint validate_proxies (ps : list ProxyConfig) : Result unit :=
  match ps with
  | [] => Ok tt
  | p :: rest => proxy_validate p ≫= fun _ => validate_proxies rest
  end.

(** [ServerConfig::validate]. *)
Definition server_validate `{Json} (c : ServerConfig) : Result unit :=
  let tls := tc_tls (sc_transport c) in
  let proto := tc_protocol (sc_transport c) in
  let no_pair := is_empty (tls_cert_file tls) || is_empty (tls_key_file tls) in
  guard_err (sc_bind_port c =? 0) (Error.Config "bind_port cannot be 0") ≫= fun _ =>
  auth_validate (sc_auth c) ≫= fun _ =>
  guard_err (bool_decide (proto = TpQuic) && no_pair)
    (Error.Config "quic transport requires transport.tls.cert_file and transport.tls.key_file") ≫= fun _ =>
  guard_err (bool_decide (proto = TpWebsocket) && tls_enable tls && no_pair)
    (Error.Config "websocket + tls requires transport.tls.cert_file and transport.tls.key_file").

(** [ClientConfig::validate]. *)
Definition client_validate (c : ClientConfig) : Result unit :=
  let tls := tc_tls (cc_transport c) in
  let proto := tc_protocol (cc_transport c) in
  let proto_label := if bool_decide (proto = TpWebsocket) then "websocket + tls"%string
                     else transport_protocol_to_string proto in
  guard_err (is_empty (cc_server_addr c)) (Error.Config "server_addr cannot be empty") ≫= fun _ =>
  auth_validate (cc_auth c) ≫= fun _ =>
  guard_err (cc_server_port c =? 0) (Error.Config "server_port cannot be 0") ≫= fun _ =>
  guard_err ((bool_decide (proto = TpQuic)
              || (bool_decide (proto = TpWebsocket) && tls_enable tls)
              || (bool_decide (proto = TpTcp) && tls_enable tls))
             && is_empty (trim (tls_trusted_ca_file tls)))
    (Error.Config (proto_label +:+ " transport requires transport.tls.trusted_ca_file")) ≫= fun _ =>
  guard_err ((bool_decide (proto = TpQuic)
              || (bool_decide (proto = TpWebsocket) && tls_enable tls))
             && bool_decide (is_Some (parse_ip_addr (cc_server_addr c)))
             && is_empty (trim (tls_server_name tls)))
    (Error.Config (proto_label +:+ " transport with IP server_addr requires transport.tls.server_name")) ≫= fun _ =>
  validate_proxies (cc_proxies c).

(** ** What a valid configuration promises *)

Definition blank (s : string) : Prop := trim s = ""%string.

Definition auth_config_ok (c : AuthConfig) : Prop :=
  ac_method c = "token"%string ∧
  (¬ blank (ac_token c) ∨ ac_additional_tokens c ≠ [] ∨ ac_rules c ≠ []) ∧
  Forall (fun r => ¬ blank (ar_token r)) (ac_rules c).

Definition proxy_config_ok (p : ProxyConfig) : Prop :=
  pc_name p ≠ ""%string ∧ pc_local_port p ≠ 0 ∧
  (pc_proxy_type p = Http ∨ pc_proxy_type p = Https →
     pc_custom_domains p ≠ [] ∨ ¬ blank (pc_subdomain p)) ∧
  (pc_use_encryption p = true ∨ pc_proxy_type p ∈ [Stcp; Sudp; Xtcp] → ¬ blank (pc_sk p)).

(** Whether the client's transport runs over TLS. *)
Definition secured (t : TransportConfig) : Prop :=
  tc_protocol t = TpQuic ∨ tls_enable (tc_tls t) = true ∧ tc_protocol t ≠ TpKcp.

Definition client_config_ok (c : ClientConfig) : Prop :=
  let t := cc_transport c in
  cc_server_addr c ≠ ""%string ∧ cc_server_port c ≠ 0 ∧ auth_config_ok (cc_auth c) ∧
  (secured t → ¬ blank (tls_trusted_ca_file (tc_tls t))) ∧
  (secured t → tc_protocol t ≠ TpTcp → is_Some (parse_ip_addr (cc_server_addr c)) →
     ¬ blank (tls_server_name (tc_tls t))) ∧
  Forall proxy_config_ok (cc_proxies c).

Lemma validate_rules_Ok idx rules u :
  validate_rules idx rules = Ok u ↔ Forall (fun r => ¬ blank (ar_token r)) rules.
Proof.
  revert idx. induction rules as [|r rules IH]; intros idx; simpl.
  - destruct u. naive_solver.
  - rewrite Forall_cons, <- (IH (idx + 1)). unfold blank.
    destruct (is_empty _) eqn:E; [apply is_empty_true in E|apply is_empty_false in E]; naive_solver.
Qed.

Lemma auth_validate_Ok c u : auth_validate c = Ok u ↔ auth_config_ok c.
Proof.
  unfold auth_validate, auth_config_ok. case_bool_decide as Hm; [|naive_solver].
  rewrite <- (validate_rules_Ok 0 _ u). unfold is_empty, blank.
  destruct (ac_rules c), (ac_additional_tokens c); simpl; repeat case_bool_decide; naive_solver.
Qed.

Lemma proxy_validate_Ok p u : proxy_validate p = Ok u ↔ proxy_config_ok p.
Proof.
  unfold proxy_validate, proxy_config_ok. rewrite !guard_bind_Ok, guard_err_Ok.
  unfold is_empty, blank. rewrite Z.eqb_neq.
  destruct (pc_proxy_type p), (pc_use_encryption p); simpl; repeat case_bool_decide; simpl;
    rewrite ?elem_of_cons, ?elem_of_nil; naive_solver.
Qed.

Lemma validate_proxies_Ok ps u : validate_proxies ps = Ok u ↔ Forall proxy_config_ok ps.
Proof.
  induction ps as [|p ps IH]; simpl; [destruct u; naive_solver|].
  rewrite Forall_cons, <- IH, bind_Ok. setoid_rewrite proxy_validate_Ok. naive_solver.
Qed.

(** [ClientConfig::validate] accepts exactly the configurations that name a
    server, an authentication with a usable token, a CA for every transport
    that runs over TLS, a server name where the certificate cannot be checked
    against an IP address, and only well-formed proxies (names, ports, domains
    for virtual hosts, secrets for the secret types). *)
Theorem client_validate_spec c : client_validate c = Ok tt ↔ client_config_ok c.
Proof.
  unfold client_validate, client_config_ok, secured.
  rewrite guard_bind_Ok. cbv beta. rewrite bind_Ok. setoid_rewrite auth_validate_Ok.
  repeat (setoid_rewrite guard_bind_Ok; cbv beta).
  setoid_rewrite validate_proxies_Ok. setoid_rewrite Z.eqb_neq. setoid_rewrite is_empty_false.
  unfold is_empty, blank.
  destruct (tc_protocol _), (tls_enable _); simpl; repeat case_bool_decide; simpl; naive_solver.
Qed.
