(* ===== verification/ConfigFile.v ===== *)
(** * Configuration files (crates/arp-common/src/config/mod.rs)

    How a configuration file becomes a configuration: [from_file] and the
    [Deserialize] implementations that serde derives from the structs and their
    [#[serde(default ...)]] attributes.  The parser of the [toml] crate is a
    parameter that gives the tree of a document; which of several errors in a
    document is reported is the library's.  The other notations serde takes for
    a struct or an enum (an array of the fields, a table with the variant) count
    as errors here. *)
From S2P Require Import Prelude RustString NetAddr Errors Protocol Config.
Local Open Scope Z_scope.

(** ** Documents *)

(** A TOML value; [TOther] is a float or a date. *)
#[warnings="-register-all"] Inductive Toml :=
| TString (s : string) | TInteger (z : Z) | TBoolean (b : bool) | TOther
| TArray (l : list Toml) | TTable (kvs : list (string * Toml)).

(** What is wrong: a value of the wrong type or out of range, an unknown variant
    of an enum, or a field that is missing. *)
Inductive TomlError := InvalidValue | UnknownVariant (s : string) | MissingField (name : string).

Abbreviation De A := (result TomlError A).

Definition de_string (t : Toml) : De string := match t with TString s => Ok s | _ => Err InvalidValue end.
Definition de_bool (t : Toml) : De bool := match t with TBoolean b => Ok b | _ => Err InvalidValue end.

(** An unsigned integer of [w] bits. *)
Definition de_uint (w : Z) (t : Toml) : De Z :=
  match t with
  | TInteger z => if (0 <=? z) && (z <? 2 ^ w) then Ok z else Err InvalidValue
  | _ => Err InvalidValue
  end.

Fixpoint de_all {A} (de : Toml → De A) (l : list Toml) : De (list A) :=
  match l with
  | [] => Ok []
  | t :: rest => a ← de t; as_ ← de_all de rest; Ok (a :: as_)
  end.
Definition de_list {A} (de : Toml → De A) (t : Toml) : De (list A) :=
  match t with TArray l => de_all de l | _ => Err InvalidValue end.

Definition de_table (t : Toml) : De (list (string * Toml)) :=
  match t with TTable kvs => Ok kvs | _ => Err InvalidValue end.

(** A [HashMap] with string keys. *)
Fixpoint de_entries {A} (de : Toml → De A) (kvs : list (string * Toml)) : De (gmap string A) :=
  match kvs with
  | [] => Ok ∅
  | (k, t) :: rest => a ← de t; m ← de_entries de rest; Ok (<[k := a]> m)
  end.
Definition de_map {A} (de : Toml → De A) (t : Toml) : De (gmap string A) :=
  kvs ← de_table t; de_entries de kvs.

(** ** Fields *)

Fixpoint get_key (name : string) (kvs : list (string * Toml)) : option Toml :=
  match kvs with
  | [] => None
  | (k, t) :: rest => if bool_decide (k = name) then Some t else get_key name rest
  end.

(** [#[serde(default)]] and [#[serde(default = "...")]]. *)
Definition field {A} (kvs : list (string * Toml)) (name : string) (de : Toml → De A) (default : A) : De A :=
  match get_key name kvs with None => Ok default | Some t => de t end.
(** A field without a default. *)
Definition required {A} (kvs : list (string * Toml)) (name : string) (de : Toml → De A) : De A :=
  match get_key name kvs with None => Err (MissingField name) | Some t => de t end.

Definition str (kvs : list (string * Toml)) (name : string) : De string := field kvs name de_string ""%string.
Definition uint (w : Z) (kvs : list (string * Toml)) (name : string) : De Z := field kvs name (de_uint w) 0.
Definition flag (kvs : list (string * Toml)) (name : string) : De bool := field kvs name de_bool false.
Definition strs (kvs : list (string * Toml)) (name : string) : De (list string) :=
  field kvs name (de_list de_string) [].

(** ** Defaults of single fields *)

Definition default_bind_addr : string := "0.0.0.0".
Definition default_bind_port : Z := 7000.
Definition default_server_addr : string := "127.0.0.1".
Definition default_server_port : Z := 7000.
Definition default_local_ip : string := "127.0.0.1".
Definition default_auth_method : string := "token".
Definition default_health_check_type : string := "tcp".
Definition default_true : bool := true.
Definition default_xtcp_punch_timeout_secs : Z := 12.
Definition default_log_max_days : Z := 1.

(** ** The structs *)

(** [#[serde(rename_all = "lowercase")]]. *)
Definition de_proxy_type (t : Toml) : De ProxyType :=
  s ← de_string t;
  match List.find (fun p => bool_decide (proxy_type_to_string p = s)) [Tcp; Http; Https; Udp; Stcp; Sudp; Xtcp] with
  | Some p => Ok p | None => Err (UnknownVariant s)
  end.
Definition de_transport_protocol (t : Toml) : De TransportProtocol :=
  s ← de_string t;
  match List.find (fun p => bool_decide (transport_protocol_to_string p = s)) [TpTcp; TpKcp; TpQuic; TpWebsocket] with
  | Some p => Ok p | None => Err (UnknownVariant s)
  end.

Definition de_port_range (t : Toml) : De PortRange :=
  kvs ← de_table t;
  start ← uint 16 kvs "start"; end_ ← uint 16 kvs "end"; single ← uint 16 kvs "single";
  Ok (mkPortRange start end_ single).

Definition de_auth_rule (t : Toml) : De AuthRule :=
  kvs ← de_table t;
  token ← str kvs "token";
  types ← strs kvs "allow_proxy_types";
  ports ← field kvs "allow_ports" (de_list de_port_range) [];
  suffixes ← strs kvs "allow_domain_suffixes";
  prefixes ← strs kvs "allow_subdomain_prefixes";
  pool ← uint 32 kvs "max_pool_count"; conns ← uint 32 kvs "max_connections";
  bandwidth ← uint 64 kvs "bandwidth_limit_bytes";
  Ok (mkAuthRule token types ports suffixes prefixes pool conns bandwidth).

Definition de_oidc (t : Toml) : De OidcConfig :=
  kvs ← de_table t;
  id ← str kvs "client_id"; secret ← str kvs "client_secret"; audience ← str kvs "audience";
  issuer ← str kvs "issuer"; url ← str kvs "token_endpoint_url";
  Ok (mkOidcConfig id secret audience issuer url).

Definition de_auth (t : Toml) : De AuthConfig :=
  kvs ← de_table t;
  method ← field kvs "method" de_string default_auth_method;
  token ← str kvs "token"; additional ← strs kvs "additional_tokens";
  rules ← field kvs "rules" (de_list de_auth_rule) [];
  oidc ← field kvs "oidc" de_oidc OidcConfig_default;
  Ok (mkAuthConfig method token additional rules oidc).

Definition de_tls (t : Toml) : De TlsConfig :=
  kvs ← de_table t;
  enable ← flag kvs "enable"; cert ← str kvs "cert_file"; key ← str kvs "key_file";
  ca ← str kvs "trusted_ca_file"; name ← str kvs "server_name";
  Ok (mkTlsConfig enable cert key ca name).

Definition de_transport (t : Toml) : De TransportConfig :=
  kvs ← de_table t;
  protocol ← field kvs "protocol" de_transport_protocol default_protocol;
  tcp_mux ← field kvs "tcp_mux" de_bool default_tcp_mux;
  keepalive ← uint 64 kvs "tcp_mux_keepalive_interval"; pool ← uint 32 kvs "pool_count";
  interval ← uint 64 kvs "heartbeat_interval"; timeout ← uint 64 kvs "heartbeat_timeout";
  tls ← field kvs "tls" de_tls TlsConfig_default;
  Ok (mkTransportConfig protocol tcp_mux keepalive pool interval timeout tls).

Definition de_health_check (t : Toml) : De HealthCheckConfig :=
  kvs ← de_table t;
  enable ← flag kvs "enable"; check_type ← field kvs "check_type" de_string default_health_check_type;
  timeout ← uint 64 kvs "timeout_seconds"; failed ← uint 32 kvs "max_failed";
  interval ← uint 64 kvs "interval_seconds"; path ← str kvs "path";
  Ok (mkHealthCheckConfig enable check_type timeout failed interval path).

Definition de_load_balancer (t : Toml) : De LoadBalancerConfig :=
  kvs ← de_table t; group ← str kvs "group"; key ← str kvs "group_key"; Ok (mkLoadBalancerConfig group key).

Definition de_plugin (t : Toml) : De PluginConfig :=
  kvs ← de_table t; ty ← str kvs "plugin_type"; params ← field kvs "plugin_params" (de_map de_string) ∅;
  Ok (mkPluginConfig ty params).

Definition de_proxy (t : Toml) : De ProxyConfig :=
  kvs ← de_table t;
  name ← required kvs "name" de_string; ty ← required kvs "type" de_proxy_type;
  local_ip ← field kvs "local_ip" de_string default_local_ip;
  local_port ← uint 16 kvs "local_port"; remote_port ← uint 16 kvs "remote_port";
  encryption ← flag kvs "use_encryption"; compression ← flag kvs "use_compression";
  domains ← strs kvs "custom_domains"; subdomain ← str kvs "subdomain"; locations ← strs kvs "locations";
  rewrite_ ← str kvs "host_header_rewrite"; user ← str kvs "http_user"; pwd ← str kvs "http_pwd";
  sk ← str kvs "sk"; fallback ← field kvs "fallback_to_relay" de_bool default_true;
  mux ← str kvs "multiplexer"; limit ← str kvs "bandwidth_limit"; mode ← str kvs "bandwidth_limit_mode";
  health ← field kvs "health_check" de_health_check HealthCheckConfig_default;
  balancer ← field kvs "load_balancer" de_load_balancer LoadBalancerConfig_default;
  plugin ← field kvs "plugin" de_plugin PluginConfig_default;
  Ok (mkProxyConfig name ty local_ip local_port remote_port encryption compression domains subdomain locations
        rewrite_ user pwd sk fallback mux limit mode health balancer plugin).

Definition de_visitor (t : Toml) : De VisitorConfig :=
  kvs ← de_table t;
  name ← required kvs "name" de_string; ty ← required kvs "type" de_string;
  server ← str kvs "server_name"; sk ← str kvs "sk"; addr ← str kvs "bind_addr"; port ← uint 16 kvs "bind_port";
  fallback ← field kvs "fallback_to_relay" de_bool default_true;
  secs ← field kvs "xtcp_punch_timeout_secs" (de_uint 64) default_xtcp_punch_timeout_secs;
  Ok (mkVisitorConfig name ty server sk addr port fallback secs).

Section Files.
Context `{Json}.
(** A TOML value as a JSON value. *)
Variable to_json : Toml → Value.

Definition de_server (t : Toml) : De ServerConfig :=
  kvs ← de_table t;
  bind_addr ← field kvs "bind_addr" de_string default_bind_addr;
  bind_port ← field kvs "bind_port" (de_uint 16) default_bind_port;
  kcp ← uint 16 kvs "kcp_bind_port"; quic ← uint 16 kvs "quic_bind_port";
  http ← uint 16 kvs "vhost_http_port"; https ← uint 16 kvs "vhost_https_port";
  dash_addr ← str kvs "dashboard_addr"; dash_port ← uint 16 kvs "dashboard_port";
  dash_user ← str kvs "dashboard_user"; dash_pwd ← str kvs "dashboard_pwd";
  log_level ← str kvs "log_level"; log_file ← str kvs "log_file";
  log_days ← field kvs "log_max_days" (de_uint 32) default_log_max_days;
  auth ← field kvs "auth" de_auth AuthConfig_default;
  transport ← field kvs "transport" de_transport TransportConfig_default;
  allow_ports ← field kvs "allow_ports" (de_list de_port_range) [];
  max_pool ← uint 32 kvs "max_pool_count"; max_ports ← uint 32 kvs "max_ports_per_client";
  subdomain_host ← str kvs "subdomain_host"; tcp_mux ← flag kvs "tcp_mux";
  custom ← field kvs "custom" (de_map (fun t => Ok (to_json t))) ∅;
  Ok (mkServerConfig _ bind_addr bind_port kcp quic http https dash_addr dash_port dash_user dash_pwd
        log_level log_file log_days auth transport allow_ports max_pool max_ports subdomain_host tcp_mux custom).

Definition de_client (t : Toml) : De ClientConfig :=
  kvs ← de_table t;
  server_addr ← field kvs "server_addr" de_string default_server_addr;
  server_port ← field kvs "server_port" (de_uint 16) default_server_port;
  client_id ← str kvs "client_id"; log_level ← str kvs "log_level"; log_file ← str kvs "log_file";
  log_days ← field kvs "log_max_days" (de_uint 32) default_log_max_days;
  auth ← field kvs "auth" de_auth AuthConfig_default;
  transport ← field kvs "transport" de_transport TransportConfig_default;
  admin_addr ← str kvs "admin_addr"; admin_port ← uint 16 kvs "admin_port";
  admin_user ← str kvs "admin_user"; admin_pwd ← str kvs "admin_pwd";
  proxies ← field kvs "proxies" (de_list de_proxy) [];
  visitors ← field kvs "visitors" (de_list de_visitor) [];
  Ok (mkClientConfig server_addr server_port client_id log_level log_file log_days auth transport
        admin_addr admin_port admin_user admin_pwd proxies visitors).

(** ** [from_file] *)

(** The parser, and how it prints its own errors and those of decoding. *)
Variable parse : string → result string Toml.
Variable error_text : TomlError → string.

(** [read] is what reading the file gives (or the text of the error). *)
Definition from_file {A} (de : Toml → De A) (read : result string string) : Result A :=
  match read with
  | Err e => Err (Error.Config ("Failed to read config file: " +:+ e))
  | Ok content =>
      match parse content with
      | Err e => Err (Error.Config ("Failed to parse config: " +:+ e))
      | Ok t => match de t with
                | Err e => Err (Error.Config ("Failed to parse config: " +:+ error_text e))
                | Ok a => Ok a
                end
      end
  end.
Definition server_from_file : result string string → Result ServerConfig := from_file de_server.
Definition client_from_file : result string string → Result ClientConfig := from_file de_client.
End Files.

(** Take a decoder apart. *)
Ltac de_invert :=
  repeat match goal with
  | H : (_ ≫= _) = Ok _ |- _ => apply bind_Ok in H as (? & ? & H)
  end; simplify_eq/=.

(** ** Properties *)

Lemma de_client_sections kvs c :
  de_client (TTable kvs) = Ok c →
  field kvs "auth" de_auth AuthConfig_default = Ok (cc_auth c) ∧
  field kvs "transport" de_transport TransportConfig_default = Ok (cc_transport c).
Proof. intros E. unfold de_client in E. by de_invert. Qed.

(** Leaving a section out is not the same as leaving its fields out: without
    [[transport]] the client keeps one work connection ready and has heartbeats
    of 30 and 90 seconds, with a [[transport]] section that does not mention
    them all three are 0; without [[auth]] the method is empty, which no
    validation accepts, with an empty section it is [token]. *)
Theorem missing_section_differs kvs c :
  de_client (TTable kvs) = Ok c →
  (get_key "transport" kvs = None → cc_transport c = TransportConfig_default ∧ tc_pool_count (cc_transport c) = 1) ∧
  (get_key "transport" kvs = Some (TTable []) → tc_pool_count (cc_transport c) = 0 ∧
     tc_heartbeat_interval (cc_transport c) = 0 ∧ tc_heartbeat_timeout (cc_transport c) = 0) ∧
  (get_key "auth" kvs = None → client_validate c ≠ Ok tt) ∧
  (get_key "auth" kvs = Some (TTable []) → ac_method (cc_auth c) = "token"%string).
Proof.
  intros [Ha Ht]%de_client_sections. unfold field in Ha, Ht. split_and!; intros Hk; rewrite Hk in *.
  - injection Ht as Ht. by rewrite <- Ht.
  - injection Ht as Ht. by rewrite <- Ht.
  - injection Ha as Ha. rewrite client_validate_spec. intros (_ & _ & (Hm & _) & _). by rewrite <- Ha in Hm.
  - injection Ha as Ha. by rewrite <- Ha.
Qed.

(** A file that only gives a token makes a valid client. *)
Lemma minimal_client_file token :
  ¬ blank token →
  ∃ c, de_client (TTable [("auth"%string, TTable [("token"%string, TString token)])]) = Ok c ∧
       client_validate c = Ok tt ∧ cc_server_addr c = "127.0.0.1"%string ∧ cc_server_port c = 7000.
Proof.
  intros Ht. eexists. split; [reflexivity|]. split; [|done]. apply client_validate_spec. simpl.
  split_and!; try done; [by split_and!; [|left|constructor]|by intros [|[? _]]..].
Qed.

(** ** Witnesses *)

Module ToyConfigFile.
(** A document of two lines, and one with a port that does not fit. *)
Definition parse (text : string) : result string Toml :=
  if bool_decide (text = "ok"%string)
  then Ok (TTable [("server_port"%string, TInteger 7001); ("auth"%string, TTable [("token"%string, TString "t")])])
  else if bool_decide (text = "big"%string) then Ok (TTable [("server_port"%string, TInteger 70000)])
  else Err "expected a key"%string.

Example from_file_ex :
  client_from_file parse (fun _ => "bad value"%string) (Ok "big"%string)
  = Err (Error.Config "Failed to parse config: bad value") ∧
  ∃ c, client_from_file parse (fun _ => ""%string) (Ok "ok"%string) = Ok c ∧ cc_server_port c = 7001.
Proof. split; [reflexivity|]. eexists. by split. Qed.

Lemma missing_section_differs_witness :
  ∃ c, client_from_file parse (fun _ => ""%string) (Ok "ok"%string) = Ok c ∧
    cc_transport c = TransportConfig_default ∧ tc_pool_count (cc_transport c) = 1.
Proof.
  eexists. split; [reflexivity|].
  refine (proj1 (missing_section_differs
    [("server_port"%string, TInteger 7001); ("auth"%string, TTable [("token"%string, TString "t")])] _ eq_refl) _).
  reflexivity.
Defined.
End ToyConfigFile.
