(* ===== verification/Logging.v ===== *)
(** * Logging (crates/arp-common/src/logging.rs)

    [init_logging] and [purge_old_logs].  The date arithmetic of [chrono] (class
    [Chrono]), the log filter and the rolling file appender are parameters; the
    file system is a map from the path of a directory to its entries, and an
    error in the monad is a panic of one of the libraries. *)
From S2P Require Import Prelude RustString.
Local Open Scope Z_scope.

(** ** [std::path::Path], as far as it is used *)

Inductive Component := RootDir | CurDir | ParentDir | Normal (name : string).
#[global] Instance Component_eq_dec : EqDecision Component.
Proof. solve_decision. Defined.
#[global] Instance Component_countable : Countable Component.
Proof.
  refine (inj_countable'
    (fun c => match c with RootDir => inl 0%nat | CurDir => inl 1%nat | ParentDir => inl 2%nat | Normal s => inr s end)
    (fun x => match x with inl 0%nat => RootDir | inl 1%nat => CurDir | inl _ => ParentDir | inr s => Normal s end) _).
  by intros [].
Defined.
Abbreviation Path := (list Component).

Definition component (first : bool) (piece : bytes) : option Component :=
  if bool_decide (piece = []) then None
  else if bool_decide (piece = to_bytes ".") then if first then Some CurDir else None
  else if bool_decide (piece = to_bytes "..") then Some ParentDir
  else Some (Normal (of_bytes piece)).

(** [Path::new(s).components()]: a dot counts at the start of a relative path only. *)
Definition components (s : string) : Path :=
  match split_on "/"%byte [] (to_bytes s) with
  | [] => []
  | first :: rest =>
      (if bool_decide (first = []) then if is_nil rest then [] else [RootDir] else option_list (component true first))
      ++ omap (component false) rest
  end.

Definition parent (p : Path) : option Path :=
  match last p with
  | Some (Normal _) | Some CurDir | Some ParentDir => Some (take (length p - 1) p)
  | Some RootDir | None => None
  end.

(** [Path::file_stem]: the name up to its last dot, unless that is its first byte. *)
Definition file_stem (p : Path) : option string :=
  match last p with
  | Some (Normal name) =>
      Some (match rsplit_once "."%byte name with
            | Some (before, _) => if is_empty before then name else before
            | None => name
            end)
  | _ => None
  end.

(** ** Directories *)

(** An entry of a directory, and whether [remove_file] deletes it (a directory
    or a file without the permission is not deleted). *)
Record Entry := mkEntry { en_name : bytes; en_removable : bool }.
#[global] Instance Entry_eq_dec : EqDecision Entry.
Proof. solve_decision. Defined.

Abbreviation FS := (gmap Path (list Entry)).

(** A library panics. *)
Inductive Panic := Panicked (message : string).

Definition remove_file (dir : Path) (name : bytes) : st FS Panic unit := st_modify (fun fs =>
  match fs !! dir with
  | None => fs
  | Some es => <[dir := List.filter (fun e => negb (bool_decide (en_name e = name) && en_removable e)) es]> fs
  end).

(** ** Dates *)

(** A moment is a number of nanoseconds and a date a number of days, both since
    1970; [datetime_min] is the first moment a [DateTime] can be. *)
Class Chrono := {
  parse_ymd : string → option Z;
  datetime_min : Z;
}.
Definition day_ns : Z := 86400 * 10 ^ 9.

Section Logging.
Context `{Chrono}.

(** [Utc::now() - Duration::days(max_days as i64)]: the subtraction panics below
    the first moment there is. *)
Definition cutoff_of (now max_days : Z) : result Panic Z :=
  let t := now - max_days * day_ns in
  if t <? datetime_min then Err (Panicked "`DateTime - TimeDelta` overflowed") else Ok t.

(** The body of the loop: whether it comes to [remove_file]. *)
Definition doomed (prefix : string) (cutoff : Z) (name : bytes) : bool :=
  let name_str := from_utf8_lossy name in
  if negb (starts_with name_str prefix) then false
  else match rsplit_once "."%byte name_str with
       | None => false
       | Some (_, date_str) =>
           match parse_ymd date_str with
           | None => false
           | Some file_date => file_date * day_ns <? cutoff
           end
       end.

Fixpoint purge_loop (dir : Path) (prefix : string) (cutoff : Z) (read_dir : list Entry) : st FS Panic unit :=
  match read_dir with
  | [] => mret tt
  | entry :: rest =>
      _ ← (if doomed prefix cutoff (en_name entry) then remove_file dir (en_name entry) else mret tt);
      purge_loop dir prefix cutoff rest
  end.

Definition purge_old_logs (now : Z) (dir : Path) (prefix : string) (max_days : Z) : st FS Panic unit :=
  cutoff ← st_lift (cutoff_of now max_days);
  fs ← st_get;
  match fs !! dir with
  | None => mret tt
  | Some read_dir => purge_loop dir prefix cutoff read_dir
  end.

(** ** Setting up the subscriber *)

Record LogConfig := mkLogConfig { lc_log_level : string; lc_log_file : string; lc_log_max_days : Z }.

(** Where the events go: to the standard output, with colours, or to the files
    of the appender in a directory. *)
Inductive Writer := Stdout | Rolling (dir : Path) (prefix : string).

Section Init.
(** What the environment variable says, the filter of a level, whether
    [create_dir_all] succeeds, and the appender, which opens the file of the day
    or panics. *)
Context {EnvFilter : Type}.
Variable default_env : option EnvFilter.
Variable filter_new : string → EnvFilter.
Variable can_create : Path → bool.
Variable rolling_daily : Path → string → FS → FS * result Panic unit.
Variable now : Z.

(** [create_dir_all]; the empty path is a success that creates nothing. *)
Definition create_dir_all (dir : Path) : st FS Panic unit := st_modify (fun fs =>
  if is_nil dir || bool_decide (is_Some (fs !! dir)) || negb (can_create dir) then fs else <[dir := []]> fs).

Record Subscriber := mkSubscriber { sub_filter : EnvFilter; sub_writer : Writer; sub_ansi : bool }.

(** The path of the log file as the directory and the start of the names in it. *)
Definition log_dir (log_file : string) : Path := default [CurDir] (parent (components log_file)).
Definition log_prefix (log_file : string) : string := default "app"%string (file_stem (components log_file)).

(** The guard that is returned is there exactly when the writer is a file. *)
Definition init_logging (cfg : LogConfig) : st FS Panic Subscriber :=
  let level := if is_empty (lc_log_level cfg) then "info"%string else lc_log_level cfg in
  let filter := default (filter_new level) default_env in
  if is_empty (lc_log_file cfg) then mret (mkSubscriber filter Stdout true)
  else
    let dir := log_dir (lc_log_file cfg) in
    let prefix := log_prefix (lc_log_file cfg) in
    _ ← create_dir_all dir;
    _ ← rolling_daily dir prefix;
    _ ← (if 0 <? lc_log_max_days cfg then purge_old_logs now dir prefix (lc_log_max_days cfg) else mret tt);
    mret (mkSubscriber filter (Rolling dir prefix) false).
End Init.

(** ** What a purge deletes *)

(** A name is that of an old log: it starts with the prefix, and the text after
    its last dot is a date that began before the cutoff. *)
Definition old_log (prefix : string) (cutoff : Z) (name : string) : Prop :=
  (∃ rest, (name = prefix +:+ rest)) ∧
  ∃ before date day, (name = before +:+ "." +:+ date) ∧ ("."%byte ∉ to_bytes date) ∧
    parse_ymd date = Some day ∧ day * day_ns < cutoff.

Lemma rsplit_once_Some c s x y :
  rsplit_once c s = Some (x, y) ↔ to_bytes s = to_bytes x ++ c :: to_bytes y ∧ c ∉ to_bytes y.
Proof.
  unfold rsplit_once. split.
  - destruct (bytes_split_once _ _) as [[a b]|] eqn:E; [|done]. intros [= <- <-].
    apply bytes_split_once_Some in E as [E Hc]. rewrite !to_of_bytes, elem_of_reverse. split; [|done].
    apply (inj reverse). by rewrite E, reverse_app, reverse_cons, !reverse_involutive, <- app_assoc.
  - intros [-> Hc]. rewrite reverse_app, reverse_cons, <- app_assoc. simpl.
    rewrite bytes_split_once_app by (by rewrite elem_of_reverse). by rewrite !reverse_involutive, !of_to_bytes.
Qed.

Lemma doomed_iff prefix cutoff name : doomed prefix cutoff name = true ↔ old_log prefix cutoff (from_utf8_lossy name).
Proof.
  unfold doomed, old_log. set (s := from_utf8_lossy name). rewrite <- starts_with_iff.
  destruct (starts_with s prefix); simpl; [|naive_solver].
  split.
  - destruct (rsplit_once _ s) as [[x y]|] eqn:E; [|done]. apply rsplit_once_Some in E as [E Hc].
    destruct (parse_ymd y) as [day|] eqn:Ed; [|done]. intros Hlt%Z.ltb_lt. split; [done|].
    exists x, y, day. split; [|done]. apply (inj to_bytes). by rewrite E, !to_bytes_app.
  - intros (_ & x & y & day & E & Hc & Ed & Hlt). rewrite (proj2 (rsplit_once_Some _ s x y)).
    + rewrite Ed. by apply Z.ltb_lt.
    + by rewrite E, !to_bytes_app.
Qed.

#[export] Instance old_log_dec prefix cutoff name : Decision (old_log prefix cutoff (from_utf8_lossy name)).
Proof. refine (cast_if (decide (doomed prefix cutoff name = true))); by rewrite <- doomed_iff. Defined.

(** What stays of a directory: what is not an old log, or cannot be deleted. *)
Definition kept (prefix : string) (cutoff : Z) (e : Entry) : Prop :=
  ¬ (old_log prefix cutoff (from_utf8_lossy (en_name e)) ∧ en_removable e = true).

Lemma sublist_filter_b {A} (f : A → bool) l : sublist (List.filter f l) l.
Proof. induction l as [|x l IH]; simpl; [done|]. destruct (f x); by constructor. Qed.

Lemma list_filter_ext_in {A} (f g : A → bool) l : (∀ x, x ∈ l → f x = g x) → List.filter f l = List.filter g l.
Proof. intros E. apply List.filter_ext_in. intros x Hx. by apply E, list_elem_of_In. Qed.

Lemma filter_filter_b {A} (f g : A → bool) l : List.filter f (List.filter g l) = List.filter (fun x => g x && f x) l.
Proof. induction l as [|x l IH]; simpl; [done|]. destruct (g x); simpl; [by rewrite IH|done]. Qed.

(** The loop over the entries [todo] deletes those of them that are old logs. *)
Lemma purge_loop_spec dir prefix cutoff todo fs es :
  fs !! dir = Some es →
  purge_loop dir prefix cutoff todo fs =
  (<[dir := List.filter (fun e => negb (doomed prefix cutoff (en_name e) && en_removable e
                           && existsb (fun t => bool_decide (en_name e = en_name t)) todo)) es]> fs, Ok tt).
Proof.
  revert fs es. induction todo as [|t todo IH]; intros fs es Hes.
  - cbn [purge_loop existsb]. cbv [mret st_ret]. f_equal. symmetry. apply insert_id. rewrite Hes. f_equal. symmetry.
    rewrite (List.filter_ext _ (fun _ => true)); [|intros e; by rewrite andb_false_r].
    clear Hes. induction es as [|e es IH]; simpl; [done|by rewrite IH].
  - cbn [purge_loop]. cbv [mbind st_bind]. destruct (doomed prefix cutoff (en_name t)) eqn:Et.
    + cbv [remove_file st_modify]. rewrite Hes. rewrite (IH _ _ (lookup_insert_eq _ _ _)), insert_insert_eq.
      f_equal. f_equal. rewrite filter_filter_b. apply List.filter_ext. intros e. cbn [existsb].
      case_bool_decide as He; [|done]. rewrite He, Et. by destruct (en_removable e).
    + cbv [mret st_ret]. rewrite (IH _ es Hes). f_equal. f_equal. apply List.filter_ext. intros e. cbn [existsb].
      case_bool_decide as He; [|done]. by rewrite He, Et.
Qed.

(** The whole directory: what stays is what is not deletable or not an old log. *)
Lemma purge_dir dir prefix cutoff fs es :
  fs !! dir = Some es →
  purge_loop dir prefix cutoff es fs =
  (<[dir := List.filter (fun e => negb (doomed prefix cutoff (en_name e) && en_removable e)) es]> fs, Ok tt).
Proof.
  intros Hes. rewrite (purge_loop_spec _ _ _ _ _ es Hes). f_equal. f_equal. apply list_filter_ext_in.
  intros e He. rewrite (proj2 (existsb_True _ _)); [by rewrite andb_true_r|].
  exists e. by rewrite bool_decide_eq_true.
Qed.

Lemma purge_result now dir prefix max_days fs fs' :
  purge_old_logs now dir prefix max_days fs = (fs', Ok tt) →
  datetime_min ≤ now - max_days * day_ns ∧
  (fs !! dir = None ∧ fs' = fs ∨
   ∃ es, fs !! dir = Some es ∧
     fs' = <[dir := List.filter (fun e => negb (doomed prefix (now - max_days * day_ns) (en_name e)
                                               && en_removable e)) es]> fs).
Proof.
  unfold purge_old_logs, cutoff_of. cbv [mbind st_bind st_lift st_get].
  destruct (Z.ltb_spec (now - max_days * day_ns) datetime_min); [done|]. intros E. split; [done|].
  destruct (fs !! dir) as [es|] eqn:Hes.
  - rewrite (purge_dir _ _ _ _ es Hes) in E. injection E as <-. eauto.
  - injection E as <-. by left.
Qed.

(** A purge deletes exactly the old logs of one directory.  It finishes
    without a panic exactly when the number of days does not reach before the
    first date there is.  Then an entry of the directory stays unless its name
    starts with the prefix, what follows its last dot is a date that began more
    than that many days ago, and the file can be deleted; no other directory
    changes, and nothing appears. *)
Theorem purge_exact now dir prefix max_days fs :
  (is_ok (purge_old_logs now dir prefix max_days fs).2 = true ↔ datetime_min ≤ now - max_days * day_ns) ∧
  ∀ fs', purge_old_logs now dir prefix max_days fs = (fs', Ok tt) →
    (∀ d, d ≠ dir → fs' !! d = fs !! d) ∧ (is_Some (fs' !! dir) ↔ is_Some (fs !! dir)) ∧
    ∀ es es', fs !! dir = Some es → fs' !! dir = Some es' →
      sublist es' es ∧ ∀ e, e ∈ es' ↔ e ∈ es ∧ kept prefix (now - max_days * day_ns) e.
Proof.
  split.
  - unfold purge_old_logs, cutoff_of. cbv [mbind st_bind st_lift st_get].
    destruct (Z.ltb_spec (now - max_days * day_ns) datetime_min); [simpl; split; [done|lia]|].
    split; [done|intros _]. destruct (fs !! dir) as [es|] eqn:Hes; [|done]. by rewrite (purge_dir _ _ _ _ es Hes).
  - intros fs' [_ [[Hn ->]|(es & Hes & ->)]]%purge_result.
    + rewrite Hn. naive_solver.
    + split_and!.
      * intros d Hd. by rewrite lookup_insert_ne.
      * rewrite lookup_insert_eq, Hes. by split; eauto.
      * intros es0 es'. rewrite lookup_insert_eq, Hes. intros [= <-] [= <-]. split; [apply sublist_filter_b|].
        intros e. rewrite elem_of_filter_b, negb_true_iff, <- not_true_iff_false, andb_true_iff, doomed_iff.
        unfold kept. tauto.
Qed.

(** A file the appender named is an old log exactly when its day began before the cutoff. *)
Lemma own_log_old prefix cutoff date day :
  ("."%byte ∉ to_bytes date) → parse_ymd date = Some day →
  old_log prefix cutoff (prefix +:+ "." +:+ date) ↔ day * day_ns < cutoff.
Proof.
  intros Hc Hd. split.
  - intros (_ & x & y & day' & E & Hy & Hd' & Hlt).
    assert (Hs : ∀ a b, ("."%byte ∉ to_bytes b) → rsplit_once "."%byte (a +:+ "." +:+ b) = Some (a, b)).
    { intros a b Hb. apply rsplit_once_Some. by rewrite !to_bytes_app. }
    assert (Some (prefix, date) = Some (x, y)) as [= -> ->].
    { rewrite <- (Hs prefix date Hc), E. by apply Hs. }
    by simplify_eq.
  - intros Hlt. split; [eauto|]. exists prefix, date, day. done.
Qed.

(** ** Properties of the set-up *)

(** A name without a slash is one component. *)
Lemma bare_components s :
  ("/"%byte ∉ to_bytes s) → s ∉ [""; "."; ".."]%string → components s = [Normal s].
Proof.
  intros Hs Hn. unfold components. rewrite split_on_none by done. simpl.
  assert (Hne : ∀ t, s ≠ t → to_bytes s ≠ to_bytes t) by (intros t Ht E; by apply Ht, (inj to_bytes)).
  unfold component.
  rewrite (bool_decide_eq_false_2 (to_bytes s = [])) by (apply (Hne ""%string); set_solver).
  rewrite !bool_decide_eq_false_2 by (apply Hne; set_solver). by rewrite of_to_bytes.
Qed.

Section InitSpec.
Context {EnvFilter : Type}.
Variable default_env : option EnvFilter.
Variable filter_new : string → EnvFilter.
Variable can_create : Path → bool.
Variable rolling_daily : Path → string → FS → FS * result Panic unit.
Variable now : Z.
Abbreviation init := (init_logging default_env filter_new can_create rolling_daily now).

(** The levels: the environment decides, then the configuration, then [info]. *)
Lemma init_filter cfg fs fs' sub :
  init cfg fs = (fs', Ok sub) →
  sub_filter sub = match default_env with
                   | Some f => f
                   | None => filter_new (if is_empty (lc_log_level cfg) then "info"%string else lc_log_level cfg)
                   end.
Proof.
  unfold init_logging. cbv [mbind st_bind mret st_ret create_dir_all st_modify].
  destruct default_env; simpl; intros E; repeat case_match; by simplify_eq/=.
Qed.

Lemma init_file cfg fs fs' sub :
  lc_log_file cfg ≠ ""%string → init cfg fs = (fs', Ok sub) →
  let dir := log_dir (lc_log_file cfg) in let prefix := log_prefix (lc_log_file cfg) in
  sub_writer sub = Rolling dir prefix ∧ sub_ansi sub = false ∧
  ∃ fs1, rolling_daily dir prefix (create_dir_all can_create dir fs).1 = (fs1, Ok tt) ∧
    (if 0 <? lc_log_max_days cfg then purge_old_logs now dir prefix (lc_log_max_days cfg) fs1 else (fs1, Ok tt))
    = (fs', Ok tt).
Proof.
  intros Hf E. unfold init_logging in E. rewrite (proj2 (is_empty_false _) Hf) in E.
  cbv [mbind st_bind mret st_ret] in E. set (r := create_dir_all _ _ _) in E.
  destruct (create_dir_all can_create (log_dir (lc_log_file cfg)) fs) as [fs0 r0] eqn:E0.
  assert (r0 = Ok tt) as -> by (by injection E0). subst r. cbv beta iota zeta in E.
  destruct (rolling_daily _ _ fs0) as [fs1 [[]|]] eqn:E1; [|done].
  destruct (0 <? lc_log_max_days cfg); [destruct (purge_old_logs _ _ _ _ fs1) as [fs2 [[]|]] eqn:E2; [|done]|];
    injection E as <- <-; (split; [done|]); (split; [done|]); exists fs1; rewrite E0; by split.
Qed.

(** Starting the log keeps the log that is being written and drops the stale
    ones.  When the appender has opened the file of today, named after the
    prefix and the date, then after [init_logging] that file is still there;
    every deletable file of an earlier day that ended more than [log_max_days]
    days ago is gone, unless [log_max_days] is 0, which keeps everything. *)
Theorem logs_rotated cfg fs fs' sub fs1 es :
  let dir := log_dir (lc_log_file cfg) in let prefix := log_prefix (lc_log_file cfg) in
  lc_log_file cfg ≠ ""%string → 0 ≤ lc_log_max_days cfg → init cfg fs = (fs', Ok sub) →
  rolling_daily dir prefix (create_dir_all can_create dir fs).1 = (fs1, Ok tt) → fs1 !! dir = Some es →
  ∃ es', fs' !! dir = Some es' ∧
  ∀ date day removable,
    ("."%byte ∉ to_bytes date) → parse_ymd date = Some day →
    let name := prefix +:+ "." +:+ date in
    utf8_valid (to_bytes name) = true → mkEntry (to_bytes name) removable ∈ es →
    (day * day_ns ≤ now < (day + 1) * day_ns → mkEntry (to_bytes name) removable ∈ es') ∧
    (lc_log_max_days cfg = 0 → es' = es) ∧
    (0 < lc_log_max_days cfg → removable = true → day * day_ns < now - lc_log_max_days cfg * day_ns →
     mkEntry (to_bytes name) removable ∉ es').
Proof.
  intros dir prefix Hf Hmax E E1 Hes.
  destruct (init_file cfg fs fs' sub Hf E) as (_ & _ & fs1' & E1' & Ep). fold dir prefix in E1', Ep.
  rewrite E1 in E1'. injection E1' as <-.
  destruct (Z.ltb_spec 0 (lc_log_max_days cfg)) as [Hpos|].
  - apply purge_result in Ep as [_ [[? _]|(es0 & Hes0 & ->)]]; [congruence|].
    rewrite Hes in Hes0. injection Hes0 as <-. rewrite lookup_insert_eq. eexists. split; [done|].
    intros date day removable Hc Hd name Hu He.
    rewrite elem_of_filter_b. cbn [en_name en_removable].
    rewrite negb_true_iff, <- not_true_iff_false, andb_true_iff, doomed_iff, from_utf8_lossy_valid by done.
    unfold name. rewrite own_log_old by done. fold name. split_and!; [|lia|naive_solver].
    intros Hnow. split; [|done]. unfold day_ns in *. intros [? _]. lia.
  - injection Ep as <-. exists es. split; [done|]. intros. split_and!; [done|done|lia].
Qed.

(** A log file given by a bare name is never purged.  [Path::parent] of a name
    without a directory is the empty path and not nothing, so the fallback to
    the current directory does not apply; the empty path names no directory, and
    the purge ends before it looks at a file, whatever [log_max_days] says. *)
Theorem bare_log_file_never_purged cfg fs fs' sub :
  ("/"%byte ∉ to_bytes (lc_log_file cfg)) → lc_log_file cfg ∉ [""; "."; ".."]%string →
  (∀ dir prefix fs0 fs1, fs0 !! [] = None → rolling_daily dir prefix fs0 = (fs1, Ok tt) → fs1 !! [] = None) →
  fs !! [] = None → init cfg fs = (fs', Ok sub) →
  log_dir (lc_log_file cfg) = [] ∧ rolling_daily [] (log_prefix (lc_log_file cfg)) fs = (fs', Ok tt).
Proof.
  intros Hs Hn Hr Hfs E. pose proof (bare_components _ Hs Hn) as Hc.
  assert (Hd : log_dir (lc_log_file cfg) = []) by (unfold log_dir; by rewrite Hc).
  split; [done|]. assert (Hf : lc_log_file cfg ≠ ""%string) by set_solver.
  destruct (init_file cfg fs fs' sub Hf E) as (_ & _ & fs1 & E1 & Ep). rewrite Hd in E1, Ep.
  change (create_dir_all can_create [] fs).1 with fs in E1. rewrite E1.
  destruct (0 <? _); [|by injection Ep as <-].
  apply purge_result in Ep as [_ [[_ ->]|(es & Hes & _)]]; [done|]. by rewrite (Hr _ _ _ _ Hfs E1) in Hes.
Qed.
End InitSpec.
End Logging.

(** ** Witnesses *)

Module ToyLogging.
(** Dates of two digits, the day after 1970; time starts at 0. *)
#[export] Instance toy_chrono : Chrono := {|
  parse_ymd := fun s => match to_bytes s with
                        | [a; b] => if in_range 48 57 a && in_range 48 57 b
                                    then Some (10 * (bval a - 48) + (bval b - 48)) else None
                        | _ => None
                        end;
  datetime_min := 0 |}.

Definition entry (name : string) : Entry := mkEntry (to_bytes name) true.
(** The appender on day 20. *)
Definition append (dir : Path) (prefix : string) (fs : FS) : FS * result Panic unit :=
  match fs !! dir with
  | Some es => (<[dir := entry (prefix +:+ ".20") :: es]> fs, Ok tt)
  | None => (fs, Ok tt)
  end.
Definition noon : Z := 20 * day_ns + day_ns / 2.
Definition logs : Path := components "/var//log/./arp".
Definition fs0 : FS := {[ logs := entry <$> ["arps.20"; "arps.17"; "arps.txt"; "arp.17"; "arp.19"; "other.17"]%string ]}.
Definition cfg : LogConfig := mkLogConfig "" "/var//log/./arp/arp.log" 2.
Definition init := init_logging None (fun s : string => s) (fun _ => true) append noon.

Example paths_ex :
  components "/var//log/./arp" = [RootDir; Normal "var"; Normal "log"; Normal "arp"] ∧
  file_stem (components "a/arp.tar.gz") = Some "arp.tar"%string ∧ file_stem (components "a/.arp") = Some ".arp"%string ∧
  parent (components "/") = None ∧ parent (components "arp.log") = Some [].
Proof. by vm_compute. Qed.

(** The purge for the prefix [arp] also deletes [arps.17], a log of the server. *)
Example other_program_purged :
  (init cfg fs0).1 !! logs = Some (entry <$> ["arp.20"; "arps.20"; "arps.txt"; "arp.19"; "other.17"]%string).
Proof. by vm_compute. Qed.

(** A number of days that reaches before the first date is a panic. *)
Example too_many_days : (purge_old_logs noon logs "arp" 30 fs0).2 = Err (Panicked "`DateTime - TimeDelta` overflowed").
Proof. by vm_compute. Qed.

Definition opened : FS := (append (log_dir (lc_log_file cfg)) (log_prefix (lc_log_file cfg))
  (create_dir_all (fun _ => true) (log_dir (lc_log_file cfg)) fs0).1).1.

Lemma logs_rotated_witness :
  ∃ es', (init cfg fs0).1 !! log_dir (lc_log_file cfg) = Some es' ∧ entry "arp.20" ∈ es' ∧ entry "arp.17" ∉ es'.
Proof.
  destruct (logs_rotated None (fun s : string => s) (fun _ => true) append noon cfg fs0 (init cfg fs0).1
              (mkSubscriber "info"%string (Rolling logs "arp") false) opened
              (entry <$> ["arp.20"; "arps.20"; "arps.17"; "arps.txt"; "arp.17"; "arp.19"; "other.17"]%string))
    as (es' & E & Hes); [done|done|apply ok_pair; vm_compute; reflexivity..|vm_compute; reflexivity|].
  exists es'. split; [exact E|]. clear E. split.
  - refine (proj1 (Hes "20"%string 20 true _ _ _ _) _); [by apply (bool_decide_unpack _)|done|done| |].
    + apply (bool_decide_unpack _). vm_compute. exact I.
    + split; [discriminate|reflexivity].
  - refine (proj2 (proj2 (Hes "17"%string 17 true _ _ _ _)) _ _ _); [by apply (bool_decide_unpack _)|done|done| |done|done|].
    + apply (bool_decide_unpack _). vm_compute. exact I.
    + reflexivity.
Defined.

Lemma bare_log_file_never_purged_witness :
  let c := mkLogConfig "" "arp.log" 2 in
  log_dir (lc_log_file c) = [] ∧ append [] (log_prefix (lc_log_file c)) fs0 = ((init c fs0).1, Ok tt).
Proof.
  apply (bare_log_file_never_purged None (fun s : string => s) (fun _ => true) append noon
           (mkLogConfig "" "arp.log" 2) fs0 _ (mkSubscriber "info"%string (Rolling [] "arp") false)).
  - by apply (bool_decide_unpack _).
  - by apply (bool_decide_unpack _).
  - intros dir prefix fs fs1 Hn. unfold append. destruct (fs !! dir) eqn:E; intros [= <-]; [|done].
    rewrite lookup_insert_ne; [done|congruence].
  - vm_compute. reflexivity.
  - apply ok_pair. vm_compute. reflexivity.
Defined.
End ToyLogging.
