(* ===== verification/Crypto.v ===== *)
(** * Signatures, packet encryption and compression (crates/arp-common/src/crypto/mod.rs)

    The primitives (HMAC-SHA256, SHA-256, AES-256-GCM, gzip) are third-party
    crates: the class [Primitives] has them as parameters and [PrimLaws] states
    the documented behaviour the theorems rely on.  Modelled from the source
    are the hexadecimal signature and its comparison loop, the
    nonce-and-ciphertext packet format, the key derivation and the session
    cipher.  A fresh random nonce is an argument. *)
From S2P Require Import Prelude RustString Errors.
Local Open Scope Z_scope.

Class Primitives := {
  hmac_sha256 : bytes → bytes → bytes;                        (* key, message *)
  sha256 : bytes → bytes;
  Aes256Gcm : Type;
  aes_new_from_slice : bytes → result string Aes256Gcm;
  aes_encrypt : Aes256Gcm → bytes → bytes → result string bytes;   (* nonce, plaintext *)
  aes_decrypt : Aes256Gcm → bytes → bytes → result string bytes;   (* nonce, ciphertext *)
  GzEncoder : Type;
  gz_write_all : bytes → result string GzEncoder;             (* into a new encoder *)
  gz_finish : GzEncoder → result string bytes;
  gz_decompress : bytes → result string bytes;
}.

Class PrimLaws `{Primitives} := {
  length_hmac k m : length (hmac_sha256 k m) = 32%nat;
  length_sha256 m : length (sha256 m) = 32%nat;
  aes_key_ok k : length k = 32%nat → ∃ c, aes_new_from_slice k = Ok c;
  aes_decrypt_encrypt c n d e : aes_encrypt c n d = Ok e → aes_decrypt c n e = Ok d;
  length_aes c n d e : aes_encrypt c n d = Ok e → length e = (length d + 16)%nat;
  aes_encrypt_ok c n d : length n = 12%nat → Z.of_nat (length d) < 2 ^ 36 →
    ∃ e, aes_encrypt c n d = Ok e;
  gz_roundtrip d enc z :
    gz_write_all d = Ok enc → gz_finish enc = Ok z → gz_decompress z = Ok d;
}.

Definition map_transport_err {A} (what : string) (r : result string A) : Result A :=
  match r with Ok a => Ok a | Err e => Err (Error.Transport (what +:+ e)) end.

(** ** Hexadecimal *)

Definition nibble (z : Z) : byte := byte_of (if z <? 10 then 48 + z else 87 + z).

(** [format!("{:02x}", b)]. *)
Definition hex2 (b : byte) : bytes := [nibble (bval b / 16); nibble (bval b mod 16)].

Definition hex_encode (data : bytes) : string := of_bytes (concat (hex2 <$> data)).

Section Crypto.
Context `{Primitives}.

(** ** [Compressor] *)

Definition compress (data : bytes) : Result bytes :=
  encoder ← map_transport_err "Compression failed: " (gz_write_all data);
  map_transport_err "Compression finish failed: " (gz_finish encoder).
Definition decompress (data : bytes) : Result bytes :=
  map_transport_err "Decompression failed: " (gz_decompress data).

(** ** [AuthSigner] *)

Definition sign (token message : string) : string :=
  hex_encode (hmac_sha256 (to_bytes token) (to_bytes message)).

(** The loop [for (a, b) in expected.bytes().zip(..) { diff |= a ^ b }]. *)
Definition diff_loop (xs ys : bytes) : Z :=
  foldl (fun diff '(a, b) => Z.lor diff (Z.lxor (bval a) (bval b))) 0 (zip xs ys).

Definition verify (token message signature_hex : string) : bool :=
  let expected := sign token message in
  if negb (slen expected =? slen signature_hex) then false
  else diff_loop (to_bytes expected) (to_bytes signature_hex) =? 0.

(** ** [PacketCipher] *)

Definition derive_key (secret : string) : bytes := take 32 (sha256 (to_bytes secret)).

Definition encrypt_with (cipher : Aes256Gcm) (nonce data : bytes) : Result bytes :=
  encrypted ← map_transport_err "encrypt failed: " (aes_encrypt cipher nonce data);
  Ok (nonce ++ encrypted).

Definition decrypt_with (cipher : Aes256Gcm) (data : bytes) : Result bytes :=
  map_transport_err "decrypt failed: " (aes_decrypt cipher (take 12 data) (drop 12 data)).

Definition packet_encrypt (nonce data : bytes) (secret : string) : Result bytes :=
  if is_empty secret then Err (Error.Transport "encryption secret cannot be empty") else
  cipher ← map_transport_err "cipher init failed: " (aes_new_from_slice (derive_key secret));
  encrypt_with cipher nonce data.

Definition packet_decrypt (data : bytes) (secret : string) : Result bytes :=
  if is_empty secret then Err (Error.Transport "encryption secret cannot be empty") else
  if (length data <? 12)%nat then Err (Error.Transport "encrypted payload too short") else
  cipher ← map_transport_err "cipher init failed: " (aes_new_from_slice (derive_key secret));
  decrypt_with cipher data.

(** ** [SessionCipher] *)

Record SessionCipher := mkSessionCipher { sc_cipher : Aes256Gcm }.

(** [SessionCipher::new]; [None] is the panic of its [expect]. *)
Definition session_new (secret : string) : option SessionCipher :=
  match aes_new_from_slice (derive_key secret) with
  | Ok c => Some (mkSessionCipher c)
  | Err _ => None
  end.

Definition session_encrypt (s : SessionCipher) (nonce data : bytes) : Result bytes :=
  encrypt_with (sc_cipher s) nonce data.

Definition session_decrypt (s : SessionCipher) (data : bytes) : Result bytes :=
  if (length data <? 12)%nat then Err (Error.Transport "encrypted payload too short") else
  decrypt_with (sc_cipher s) data.

(** ** Lemmas *)

Lemma foldl_lor_xor ps acc :
  0 ≤ acc →
  (foldl (fun diff '(a, b) => Z.lor diff (Z.lxor (bval a) (bval b))) acc ps = 0
   ↔ acc = 0 ∧ Forall (fun '(a, b) => a = b) ps).
Proof.
  revert acc. induction ps as [|[a b] ps IH]; intros acc Hacc; simpl.
  - naive_solver.
  - pose proof (bval_range a). pose proof (bval_range b).
    rewrite IH by (apply Z.lor_nonneg; split; [done|apply Z.lxor_nonneg; lia]).
    rewrite Z.lor_eq_0_iff, Z.lxor_eq_0_iff, Forall_cons. split; [|naive_solver].
    intros [[? ?%(inj bval)] ?]. done.
Qed.

Lemma diff_loop_eq xs ys : length xs = length ys → diff_loop xs ys = 0 ↔ xs = ys.
Proof.
  intros Hl. unfold diff_loop. rewrite foldl_lor_xor by done.
  revert ys Hl. induction xs as [|x xs IH]; intros [|y ys] Hl; simplify_eq/=; [naive_solver|].
  specialize (IH ys Hl). rewrite Forall_cons. naive_solver.
Qed.

Lemma nibble_inj a b : 0 ≤ a < 16 → 0 ≤ b < 16 → nibble a = nibble b → a = b.
Proof.
  unfold nibble. intros Ha Hb E. apply (f_equal bval) in E. rewrite !bval_byte_of in E.
  destruct (a <? 10) eqn:?, (b <? 10) eqn:?; bool_to_prop;
    rewrite !wrap_small in E by (unfold in_u; simpl; lia); lia.
Qed.

Lemma hex2_inj a b : hex2 a = hex2 b → a = b.
Proof.
  unfold hex2. intros [= E1 E2]. pose proof (bval_range a). pose proof (bval_range b).
  pose proof (Z.mod_pos_bound (bval a) 16). pose proof (Z.mod_pos_bound (bval b) 16).
  pose proof (Z.div_pos (bval a) 16). pose proof (Z.div_pos (bval b) 16).
  pose proof (Z.div_lt_upper_bound (bval a) 16 16). pose proof (Z.div_lt_upper_bound (bval b) 16 16).
  apply nibble_inj in E1; [|lia..]. apply nibble_inj in E2; [|lia..].
  apply (inj bval).
  pose proof (Z.div_mod (bval a) 16). pose proof (Z.div_mod (bval b) 16). lia.
Qed.

Lemma hex_encode_inj xs ys : hex_encode xs = hex_encode ys → xs = ys.
Proof.
  unfold hex_encode. intros E%(f_equal to_bytes). rewrite !to_of_bytes in E.
  revert ys E. induction xs as [|x xs IH]; intros [|y ys] E; simplify_eq/=; [done|].
  f_equal; [|by apply IH]. apply hex2_inj. unfold hex2. congruence.
Qed.

Lemma length_hex_encode xs : slen (hex_encode xs) = 2 * Z.of_nat (length xs).
Proof.
  unfold slen, hex_encode. rewrite to_of_bytes.
  induction xs as [|x xs IH]; [done|].
  cbn [concat fmap list_fmap]. rewrite length_app, Nat2Z.inj_add, IH. cbn [length hex2]. lia.
Qed.

Lemma verify_iff token message sig : verify token message sig = true ↔ sig = sign token message.
Proof.
  unfold verify. destruct (slen _ =? slen sig) eqn:E; cbn [negb]; bool_to_prop.
  - rewrite Z.eqb_eq, diff_loop_eq by (unfold slen in E; lia).
    split; [intros ?%(inj to_bytes); done|by intros ->].
  - split; [done|]. by intros ->.
Qed.

Lemma decompress_compress `{!PrimLaws} data z : compress data = Ok z → decompress z = Ok data.
Proof.
  unfold compress, decompress. destruct (gz_write_all data) as [enc|] eqn:E1; simpl; [|done].
  destruct (gz_finish enc) as [x|] eqn:E2; simpl; [|done]. intros [= ->].
  by rewrite (gz_roundtrip _ _ _ E1 E2).
Qed.

Lemma decrypt_encrypt_with `{!PrimLaws} nonce data e cipher :
  length nonce = 12%nat → encrypt_with cipher nonce data = Ok e →
  decrypt_with cipher e = Ok data ∧ length e = (length data + 28)%nat.
Proof.
  intros Hn. unfold encrypt_with, decrypt_with.
  destruct (aes_encrypt cipher nonce data) as [c|] eqn:E; simpl; [intros [= <-]|done].
  rewrite take_app_exact, drop_app_exact by done. rewrite (aes_decrypt_encrypt _ _ _ _ E).
  split; [done|]. rewrite length_app, (length_aes _ _ _ _ E). lia.
Qed.

Lemma encrypt_with_ok `{!PrimLaws} nonce data cipher :
  length nonce = 12%nat → Z.of_nat (length data) < 2 ^ 36 →
  ∃ e, encrypt_with cipher nonce data = Ok e.
Proof.
  intros Hn Hd. destruct (aes_encrypt_ok cipher nonce data Hn Hd) as [x Hx].
  exists (nonce ++ x). unfold encrypt_with. by rewrite Hx.
Qed.

(** [SessionCipher::new] never panics. *)
Lemma session_new_ok `{!PrimLaws} secret :
  ∃ c, aes_new_from_slice (derive_key secret) = Ok c ∧
       session_new secret = Some (mkSessionCipher c).
Proof.
  unfold session_new. destruct (aes_key_ok (derive_key secret)) as [c Hc]; [|by exists c; rewrite Hc].
  unfold derive_key. rewrite length_take, length_sha256. done.
Qed.

Lemma session_decrypt_encrypt `{!PrimLaws} nonce data s e :
  length nonce = 12%nat → session_encrypt s nonce data = Ok e →
  session_decrypt s e = Ok data.
Proof.
  intros Hn He. destruct (decrypt_encrypt_with _ _ _ _ Hn He) as [Hd Hl].
  unfold session_decrypt. rewrite (proj2 (Nat.ltb_ge _ _)) by lia. done.
Qed.

(** ** Properties *)

(** The comparison loop of [AuthSigner::verify], which never branches on
    the signature's bytes, accepts a signature exactly when it is the
    hexadecimal HMAC of the message under the token; with a 32-byte HMAC that
    is 64 characters, and the signature determines the HMAC. *)
Theorem verify_spec token message sig :
  (verify token message sig = true ↔ sig = sign token message) ∧
  (∀ t' m', sign token message = sign t' m' →
     hmac_sha256 (to_bytes token) (to_bytes message) = hmac_sha256 (to_bytes t') (to_bytes m')) ∧
  slen (sign token message) = 2 * Z.of_nat (length (hmac_sha256 (to_bytes token) (to_bytes message))).
Proof.
  split; [apply verify_iff|]. split; [|apply length_hex_encode].
  intros t' m' E. by apply hex_encode_inj.
Qed.

(** For every non-empty secret the per-packet cipher and the session cipher
    are interchangeable: creating the session cipher does not panic, encryption
    of a packet within the AES-GCM limit succeeds and gives the same bytes in
    both, 28 more than the packet, and either of them decrypts those bytes to
    the packet. *)
Theorem packet_session_roundtrip `{!PrimLaws} nonce data secret :
  length nonce = 12%nat → Z.of_nat (length data) < 2 ^ 36 → secret ≠ ""%string →
  ∃ s e, session_new secret = Some s ∧
    packet_encrypt nonce data secret = Ok e ∧ session_encrypt s nonce data = Ok e ∧
    packet_decrypt e secret = Ok data ∧ session_decrypt s e = Ok data ∧
    length e = (length data + 28)%nat.
Proof.
  intros Hn Hd Hs. destruct (session_new_ok secret) as (c & Hc & Hnew).
  destruct (encrypt_with_ok nonce data c Hn Hd) as [e He].
  destruct (decrypt_encrypt_with _ _ _ _ Hn He) as [Hdec Hl].
  exists (mkSessionCipher c), e. unfold packet_encrypt, packet_decrypt.
  apply is_empty_false in Hs. rewrite Hs, Hc, (proj2 (Nat.ltb_ge _ _)) by lia.
  by split_and!; try apply (session_decrypt_encrypt nonce).
Qed.

End Crypto.

(** ** Concrete primitives, for the witnesses *)

Module ToyCrypto.

(** Pad or cut to [n] bytes. *)
Definition fit (n : nat) (l : bytes) : bytes := take n (l ++ replicate n x00).

Lemma length_fit n l : length (fit n l) = n.
Proof. unfold fit. rewrite length_take, length_app, length_replicate. lia. Qed.

#[export] Instance prims : Primitives := {|
  hmac_sha256 := fun k m => fit 32 (k ++ x3a :: m);
  sha256 := fit 32;
  Aes256Gcm := bytes;
  aes_new_from_slice := fun k =>
    if Nat.eqb (length k) 32 then Ok k else Err "Invalid Length"%string;
  aes_encrypt := fun _ n d => Ok (d ++ fit 16 n);
  aes_decrypt := fun _ _ c => Ok (take (length c - 16) c);
  GzEncoder := bytes;
  gz_write_all := fun d => Ok d;
  gz_finish := fun d => Ok d;
  gz_decompress := fun d => Ok d |}.

#[export] Instance laws : PrimLaws.
Proof.
  split; simpl.
  - intros. apply (length_fit 32).
  - intros. apply (length_fit 32).
  - intros k ->. simpl. eauto.
  - intros _ n d e [= <-]. rewrite length_app, (length_fit 16), Nat.add_sub.
    by rewrite take_app_length.
  - intros _ n d e [= <-]. by rewrite length_app, (length_fit 16).
  - eauto.
  - by intros d enc z [= <-] [= <-].
Qed.

Lemma packet_session_roundtrip_witness :
  ∃ s e, session_new "key" = Some s ∧
    packet_encrypt (replicate 12 x07) (to_bytes "hello") "key" = Ok e ∧
    session_encrypt s (replicate 12 x07) (to_bytes "hello") = Ok e ∧
    packet_decrypt e "key" = Ok (to_bytes "hello") ∧
    session_decrypt s e = Ok (to_bytes "hello") ∧ length e = (5 + 28)%nat.
Proof.
  apply (packet_session_roundtrip (replicate 12 x07) (to_bytes "hello") "key");
    [reflexivity|vm_compute; reflexivity|done].
Defined.
End ToyCrypto.
