(* ===== verification/Auth.v ===== *)
(** * Authentication and token rules (crates/arp-common/src/auth/mod.rs)

    [TokenAuth] decides who may log in (an HMAC over the login timestamp,
    under the main token, an additional token or the token of a rule) and
    which proxies a logged-in client may register (the rule of its token).
    The trait [Authenticator] is a record of operations; the server's
    components take any authenticator, and [token_authenticator] is the one
    the program has.  The clock reading is an argument. *)
From S2P Require Import Prelude RustString Errors Protocol Config Crypto.
Local Open Scope Z_scope.

Definition MAX_TIMESTAMP_SKEW : Z := 300.

Definition check_timestamp (now ts : Z) : Result unit :=
  guard_err (MAX_TIMESTAMP_SKEW <? i64_abs (i64_sub now ts))
    (Error.Auth ("timestamp skew too large: client=" +:+ pretty ts +:+ ", server=" +:+ pretty now
                 +:+ ", diff=" +:+ pretty (i64_abs (i64_sub now ts)) +:+ "s, max="
                 +:+ pretty MAX_TIMESTAMP_SKEW +:+ "s")).

Definition port_in_range (port : Z) (range : PortRange) : bool :=
  if 0 <? pr_single range then port =? pr_single range
  else (pr_start range <=? port) && (port <=? pr_end range).

Definition port_in_ranges (port : Z) (ranges : list PortRange) : bool :=
  existsb (port_in_range port) ranges.

Section Auth.
Context `{Json} `{Primitives} `{UnicodeLower}.

(** The trait; [verify_login] gets the time of the call. *)
Record Authenticator := mkAuthenticator {
  auth_verify_login : Z → LoginMsg → Result string;
  auth_verify_new_work_conn : NewWorkConnMsg → Result unit;
  auth_verify_ping : PingMsg → Result unit;
  auth_authorize_proxy : string → Z → NewProxyMsg → Result unit;
}.

Record TokenAuth := mkTokenAuth {
  ta_token : string; ta_additional_tokens : list string; ta_rules : list AuthRule;
}.

Definition token_auth_new (config : AuthConfig) : TokenAuth :=
  mkTokenAuth (ac_token config) (ac_additional_tokens config) (ac_rules config).

Definition find_matching_token (a : TokenAuth) (signature message : string) : option string :=
  if verify (ta_token a) message signature then Some (ta_token a) else
  match List.find (fun t => verify t message signature) (ta_additional_tokens a) with
  | Some t => Some t
  | None =>
      match List.find (fun rule => verify (ar_token rule) message signature) (ta_rules a) with
      | Some rule => Some (ar_token rule)
      | None => None
      end
  end.

Definition matching_rule (a : TokenAuth) (token : string) : option AuthRule :=
  List.find (fun rule => bool_decide (ar_token rule = token)) (ta_rules a).

Definition pool_count_err (pool_count max : Z) : Error.t :=
  Error.Auth ("pool_count " +:+ pretty pool_count +:+ " exceeds token rule max_pool_count "
              +:+ pretty max).

Definition validate_rule_login (rule : AuthRule) (msg : LoginMsg) : Result unit :=
  guard_err ((0 <? ar_max_pool_count rule) && (ar_max_pool_count rule <? lm_pool_count msg))
    (pool_count_err (lm_pool_count msg) (ar_max_pool_count rule)).

Definition normalize_host (host : string) : string :=
  to_lowercase (trim_end_matches "."%byte (trim host)).

Definition domain_allowed (rule : AuthRule) (domain : string) : bool :=
  existsb (fun suffix => ends_with (normalize_host domain) (normalize_host suffix))
    (ar_allow_domain_suffixes rule).

Fixpoint check_domains (rule : AuthRule) (domains : list string) : Result unit :=
  match domains with
  | [] => Ok tt
  | domain :: rest =>
      if negb (domain_allowed rule domain) then
        Err (Error.Auth ("domain " +:+ domain +:+ " is not allowed for this token"))
      else check_domains rule rest
  end.

Definition subdomain_allowed (rule : AuthRule) (subdomain : string) : bool :=
  existsb (fun prefix => starts_with (to_lowercase (trim subdomain)) (to_lowercase (trim prefix)))
    (ar_allow_subdomain_prefixes rule).

Definition validate_rule_proxy (rule : AuthRule) (pool_count : Z) (msg : NewProxyMsg) : Result unit :=
  guard_err ((0 <? ar_max_pool_count rule) && (ar_max_pool_count rule <? pool_count))
    (pool_count_err pool_count (ar_max_pool_count rule)) ≫= fun _ =>
  guard_err (negb (is_nil (ar_allow_proxy_types rule))
             && negb (existsb (fun item => eq_ignore_ascii_case item (np_proxy_type msg))
                        (ar_allow_proxy_types rule)))
    (Error.Auth ("proxy type " +:+ np_proxy_type msg +:+ " is not allowed for this token")) ≫= fun _ =>
  guard_err (negb (is_nil (ar_allow_ports rule)) && (np_remote_port msg =? 0))
    (Error.Auth "this token rule requires a fixed remote_port within allowed ranges") ≫= fun _ =>
  guard_err (negb (is_nil (ar_allow_ports rule))
             && negb (port_in_ranges (np_remote_port msg) (ar_allow_ports rule)))
    (Error.Auth ("remote_port " +:+ pretty (np_remote_port msg) +:+ " is not allowed for this token")) ≫= fun _ =>
  (if negb (is_nil (ar_allow_domain_suffixes rule))
   then check_domains rule (np_custom_domains msg) else Ok tt) ≫= fun _ =>
  guard_err (negb (is_empty (trim (np_subdomain msg)))
             && negb (is_nil (ar_allow_subdomain_prefixes rule))
             && negb (subdomain_allowed rule (np_subdomain msg)))
    (Error.Auth ("subdomain " +:+ np_subdomain msg +:+ " is not allowed for this token")).

Definition verify_login (a : TokenAuth) (now : Z) (msg : LoginMsg) : Result string :=
  check_timestamp now (lm_timestamp msg) ≫= fun _ =>
  let ts_str := pretty (lm_timestamp msg) in
  ok_or (Error.Auth "Invalid token (HMAC mismatch)")
    (find_matching_token a (lm_privilege_key msg) ts_str) ≫= fun raw_token =>
  (match matching_rule a raw_token with
   | Some rule => validate_rule_login rule msg
   | None => Ok tt
   end) ≫= fun _ => Ok raw_token.

Definition verify_new_work_conn (a : TokenAuth) (msg : NewWorkConnMsg) : Result unit :=
  guard_err (negb (bool_decide (is_Some (find_matching_token a (nw_privilege_key msg) (nw_run_id msg)))))
    (Error.Auth "Invalid token (HMAC mismatch)").

Definition verify_ping (a : TokenAuth) (_ : PingMsg) : Result unit := Ok tt.

Definition authorize_proxy (a : TokenAuth) (privilege_key : string) (pool_count : Z)
    (msg : NewProxyMsg) : Result unit :=
  let is_known := bool_decide (privilege_key = ta_token a)
                  || existsb (fun t => bool_decide (t = privilege_key)) (ta_additional_tokens a)
                  || existsb (fun r => bool_decide (ar_token r = privilege_key)) (ta_rules a) in
  guard_err (negb is_known) (Error.Auth "Invalid token") ≫= fun _ =>
  match matching_rule a privilege_key with
  | Some rule => validate_rule_proxy rule pool_count msg
  | None => Ok tt
  end.

Definition token_authenticator (a : TokenAuth) : Authenticator :=
  mkAuthenticator (verify_login a) (verify_new_work_conn a) (verify_ping a) (authorize_proxy a).

Definition create_authenticator (config : AuthConfig) : Result Authenticator :=
  if bool_decide (ac_method config = "token"%string)
  then Ok (token_authenticator (token_auth_new config))
  else Err (Error.Config ("unsupported auth.method: " +:+ ac_method config)).

(** ** What the rules promise *)

(** Every token the server knows, in the order they are tried. *)
Definition known_tokens (a : TokenAuth) : list string :=
  ta_token a :: ta_additional_tokens a ++ (ar_token <$> ta_rules a).

(** A limit of zero means no limit. *)
Definition within_limit (limit n : Z) : Prop := 0 < limit → n ≤ limit.

Definition port_allowed (ranges : list PortRange) (p : Z) : Prop :=
  ∃ r, r ∈ ranges ∧
    (0 < pr_single r ∧ p = pr_single r ∨ pr_single r ≤ 0 ∧ pr_start r ≤ p ≤ pr_end r).

Definition rule_permits (rule : AuthRule) (pool_count : Z) (msg : NewProxyMsg) : Prop :=
  within_limit (ar_max_pool_count rule) pool_count ∧
  (ar_allow_proxy_types rule ≠ [] →
     ∃ t, t ∈ ar_allow_proxy_types rule ∧
          to_ascii_lowercase t = to_ascii_lowercase (np_proxy_type msg)) ∧
  (ar_allow_ports rule ≠ [] →
     np_remote_port msg ≠ 0 ∧ port_allowed (ar_allow_ports rule) (np_remote_port msg)) ∧
  (ar_allow_domain_suffixes rule ≠ [] →
     ∀ d, d ∈ np_custom_domains msg →
       ∃ x k, x ∈ ar_allow_domain_suffixes rule ∧ normalize_host d = k +:+ normalize_host x) ∧
  (trim (np_subdomain msg) ≠ ""%string → ar_allow_subdomain_prefixes rule ≠ [] →
     ∃ x k, x ∈ ar_allow_subdomain_prefixes rule ∧
       to_lowercase (trim (np_subdomain msg)) = to_lowercase (trim x) +:+ k).

(** ** Lemmas *)

Lemma port_in_ranges_iff p ranges : port_in_ranges p ranges = true ↔ port_allowed ranges p.
Proof.
  unfold port_in_ranges, port_allowed. rewrite existsb_True. apply exist_proper; intros r.
  unfold port_in_range. destruct (0 <? pr_single r) eqn:E; bool_to_prop.
  - rewrite Z.eqb_eq. naive_solver lia.
  - rewrite andb_true_iff, !Z.leb_le. naive_solver lia.
Qed.

Lemma domain_allowed_iff rule d :
  domain_allowed rule d = true ↔
  ∃ x k, x ∈ ar_allow_domain_suffixes rule ∧ normalize_host d = k +:+ normalize_host x.
Proof. unfold domain_allowed. rewrite existsb_True. setoid_rewrite ends_with_iff. naive_solver. Qed.

Lemma subdomain_allowed_iff rule s :
  subdomain_allowed rule s = true ↔
  ∃ x k, x ∈ ar_allow_subdomain_prefixes rule ∧
    to_lowercase (trim s) = to_lowercase (trim x) +:+ k.
Proof. unfold subdomain_allowed. rewrite existsb_True. setoid_rewrite starts_with_iff. naive_solver. Qed.

Lemma check_domains_Ok rule ds u :
  check_domains rule ds = Ok u ↔ ∀ d, d ∈ ds → domain_allowed rule d = true.
Proof.
  induction ds as [|d ds IH]; simpl.
  - destruct u. split; [intros _ d Hd; by apply not_elem_of_nil in Hd|done].
  - setoid_rewrite elem_of_cons. destruct (domain_allowed rule d) eqn:E; simpl; [naive_solver|].
    split; [done|]. intros Ha. specialize (Ha d). rewrite E in Ha. naive_solver.
Qed.

(** A guard whose condition is conjoined with a test. *)
Lemma guarded_test (b c : bool) : b && negb c = false ↔ (b = true → c = true).
Proof. destruct b, c; naive_solver. Qed.

Lemma limit_test limit n : (0 <? limit) && (limit <? n) = false ↔ within_limit limit n.
Proof.
  unfold within_limit. rewrite andb_false_iff, !Z.ltb_ge. lia.
Qed.

Lemma not_nil_test {A} (l : list A) : negb (is_nil l) = true ↔ l ≠ [].
Proof. by rewrite negb_true_iff, is_nil_false. Qed.

Lemma domains_check_Ok rule ds u :
  (if negb (is_nil (ar_allow_domain_suffixes rule)) then check_domains rule ds else Ok tt) = Ok u ↔
  (ar_allow_domain_suffixes rule ≠ [] → ∀ d, d ∈ ds →
     ∃ x k, x ∈ ar_allow_domain_suffixes rule ∧ normalize_host d = k +:+ normalize_host x).
Proof.
  setoid_rewrite <- domain_allowed_iff. rewrite <- (check_domains_Ok _ _ u).
  destruct u, (ar_allow_domain_suffixes rule); simpl; naive_solver.
Qed.

Lemma validate_rule_proxy_Ok rule n msg :
  validate_rule_proxy rule n msg = Ok tt ↔ rule_permits rule n msg.
Proof.
  unfold validate_rule_proxy, rule_permits. rewrite !guard_bind_Ok, limit_test, !guarded_test.
  rewrite bind_Ok. setoid_rewrite guard_err_Ok. setoid_rewrite guarded_test.
  setoid_rewrite domains_check_Ok. setoid_rewrite subdomain_allowed_iff.
  setoid_rewrite andb_true_iff. setoid_rewrite not_nil_test. setoid_rewrite negb_true_iff.
  setoid_rewrite is_empty_false. rewrite existsb_True, port_in_ranges_iff.
  unfold eq_ignore_ascii_case. setoid_rewrite bool_decide_eq_true.
  rewrite andb_false_iff, Z.eqb_neq, negb_false_iff.
  destruct (ar_allow_ports rule); simpl; naive_solver.
Qed.

Lemma matching_rule_Some a t r :
  matching_rule a t = Some r → r ∈ ta_rules a ∧ ar_token r = t.
Proof.
  unfold matching_rule. intros [? ?%bool_decide_eq_true]%find_Some_elem. done.
Qed.

(** The tokens are tried in order, the main one first. *)
Lemma find_matching_token_find a sig m :
  find_matching_token a sig m = List.find (fun t => verify t m sig) (known_tokens a).
Proof.
  unfold find_matching_token, known_tokens. simpl. destruct (verify _ _ _); [done|].
  induction (ta_additional_tokens a) as [|t ts IH]; simpl; [|by destruct (verify t m sig)].
  induction (ta_rules a) as [|r rs IH]; simpl; [done|]. by destruct (verify (ar_token r) m sig).
Qed.

Lemma find_matching_token_Some a sig m t :
  find_matching_token a sig m = Some t → t ∈ known_tokens a ∧ sig = sign t m.
Proof.
  rewrite find_matching_token_find. by intros [? ?%verify_iff]%find_Some_elem.
Qed.

Lemma find_matching_token_None a sig m :
  find_matching_token a sig m = None ↔ ∀ t, t ∈ known_tokens a → sig ≠ sign t m.
Proof.
  rewrite find_matching_token_find, eq_None_not_Some, find_is_Some, not_true_iff_false, existsb_False.
  by setoid_rewrite <- not_true_iff_false; setoid_rewrite verify_iff.
Qed.

Lemma is_known_iff a t :
  bool_decide (t = ta_token a)
  || existsb (fun x => bool_decide (x = t)) (ta_additional_tokens a)
  || existsb (fun r => bool_decide (ar_token r = t)) (ta_rules a) = true
  ↔ t ∈ known_tokens a.
Proof.
  unfold known_tokens. rewrite !orb_true_iff, !existsb_True, elem_of_cons, elem_of_app, list_elem_of_fmap.
  setoid_rewrite bool_decide_eq_true. naive_solver.
Qed.

Lemma check_timestamp_Ok now ts u :
  0 ≤ now < 2 ^ 62 → in_i 64 ts →
  check_timestamp now ts = Ok u ↔ Z.abs (now - ts) ≤ 300 ∨ now - ts = 2 ^ 63.
Proof.
  intros Hn Ht. unfold check_timestamp. rewrite guard_err_Ok, Z.ltb_ge.
  unfold i64_abs, i64_sub, swrap, in_i, MAX_TIMESTAMP_SKEW in *. simpl in *.
  Z.to_euclidean_division_equations. lia.
Qed.

Lemma match_rule_Ok {E} (o : option AuthRule) (f : AuthRule → result E unit) :
  match o with Some r => f r | None => Ok tt end = Ok tt ↔ ∀ r, o = Some r → f r = Ok tt.
Proof. destruct o; naive_solver. Qed.

Lemma verify_new_work_conn_Ok a msg :
  verify_new_work_conn a msg = Ok tt ↔
  ∃ t, t ∈ known_tokens a ∧ nw_privilege_key msg = sign t (nw_run_id msg).
Proof.
  unfold verify_new_work_conn. rewrite guard_err_Ok, negb_false_iff, bool_decide_eq_true.
  rewrite find_matching_token_find, find_is_Some, existsb_True. by setoid_rewrite verify_iff.
Qed.

Lemma authorize_proxy_Ok a key n msg :
  authorize_proxy a key n msg = Ok tt ↔
  key ∈ known_tokens a ∧ ∀ r, matching_rule a key = Some r → rule_permits r n msg.
Proof.
  unfold authorize_proxy. cbv zeta.
  rewrite guard_bind_Ok, negb_false_iff, is_known_iff, match_rule_Ok.
  by setoid_rewrite validate_rule_proxy_Ok.
Qed.

(** The token a login is accepted under: the first known one whose HMAC of the
    timestamp the client sent. *)
Definition first_signer (a : TokenAuth) (msg : LoginMsg) (t : string) : Prop :=
  lm_privilege_key msg = sign t (pretty (lm_timestamp msg)) ∧
  ∃ l1 l2, known_tokens a = l1 ++ t :: l2 ∧
    Forall (fun t' => lm_privilege_key msg ≠ sign t' (pretty (lm_timestamp msg))) l1.

Lemma find_matching_token_first a msg t :
  find_matching_token a (lm_privilege_key msg) (pretty (lm_timestamp msg)) = Some t ↔
  first_signer a msg t.
Proof.
  rewrite find_matching_token_find, find_Some_first. unfold first_signer.
  rewrite verify_iff. setoid_rewrite <- not_true_iff_false. by setoid_rewrite verify_iff.
Qed.

Lemma validate_rule_login_Ok r msg u :
  validate_rule_login r msg = Ok u ↔ within_limit (ar_max_pool_count r) (lm_pool_count msg).
Proof. unfold validate_rule_login. by rewrite guard_err_Ok, limit_test. Qed.

(** ** Properties *)

(** C16: with a server clock between 1970 and year 10^11, a login is accepted
    under token [t] exactly when the client's timestamp is within 300 seconds
    of the server's clock or exactly 2^63 seconds before it (the subtraction
    and [abs] wrap around there), [t] is the first known token whose HMAC of
    the timestamp is the privilege key, and the requested pool is within the
    limit of the rule of [t], if it has one. *)
Theorem verify_login_spec a now msg t :
  0 ≤ now < 2 ^ 62 → in_i 64 (lm_timestamp msg) →
  verify_login a now msg = Ok t ↔
  (Z.abs (now - lm_timestamp msg) ≤ 300 ∨ now - lm_timestamp msg = 2 ^ 63) ∧
  first_signer a msg t ∧
  (∀ r, matching_rule a t = Some r → within_limit (ar_max_pool_count r) (lm_pool_count msg)).
Proof.
  intros Hn Ht. unfold verify_login. cbv zeta.
  setoid_rewrite bind_Ok. setoid_rewrite bind_Ok. setoid_rewrite bind_Ok.
  setoid_rewrite (check_timestamp_Ok _ _ _ Hn Ht).
  setoid_rewrite ok_or_Ok. setoid_rewrite find_matching_token_first.
  setoid_rewrite <- (validate_rule_login_Ok _ _ tt). setoid_rewrite <- match_rule_Ok.
  split; [by intros ([] & ? & t' & ? & [] & ? & [= ->])|].
  intros (? & ? & ?). exists tt. split; [done|]. exists t. split; [done|]. by exists tt.
Qed.

(** C17: a proxy registration is authorised exactly when the client's token is
    one the server knows and, if the token has a rule, the registration is
    within the rule: pool limit, proxy type, a fixed remote port in the
    allowed ranges, every custom domain ending in an allowed suffix and the
    subdomain starting with an allowed prefix. *)
Theorem authorize_proxy_spec a key n msg :
  authorize_proxy a key n msg = Ok tt ↔
  key ∈ known_tokens a ∧ ∀ r, matching_rule a key = Some r → rule_permits r n msg.
Proof. apply authorize_proxy_Ok. Qed.

(** A configuration that gives only rules (or additional tokens) and
    leaves the main token empty passes validation, and then a client that
    signs with the empty token logs in and may register any proxy at all, the
    rules notwithstanding. *)
Theorem empty_token_login c now msg :
  auth_validate c = Ok tt → ac_token c = ""%string →
  check_timestamp now (lm_timestamp msg) = Ok tt →
  lm_privilege_key msg = sign "" (pretty (lm_timestamp msg)) →
  let a := token_auth_new c in
  verify_login a now msg = Ok ""%string ∧ ∀ n pmsg, authorize_proxy a "" n pmsg = Ok tt.
Proof.
  intros (_ & _ & Hrules)%auth_validate_Ok Htok Hts Hkey a.
  assert (matching_rule a "" = None) as Hnone.
  { destruct (matching_rule a "") as [r|] eqn:Hr; [|done].
    apply matching_rule_Some in Hr as [Hin Hr].
    rewrite Forall_forall in Hrules. destruct (Hrules r Hin). by rewrite Hr. }
  split.
  - unfold verify_login. rewrite Hts. cbv zeta. simpl.
    assert (find_matching_token a (lm_privilege_key msg) (pretty (lm_timestamp msg)) = Some ""%string)
      as ->.
    { apply find_matching_token_first. split; [done|]. exists [], (tail (known_tokens a)).
      by unfold known_tokens; simpl; rewrite Htok. }
    simpl. by rewrite Hnone.
  - intros n pmsg. apply authorize_proxy_Ok. rewrite Hnone. split; [|done].
    unfold known_tokens. simpl. rewrite Htok. apply elem_of_cons. by left.
Qed.

End Auth.

(** ** Witnesses *)

Module ToyAuth.
Import ToyCrypto.
#[local] Instance json : Json := {|
  Value := unit; as_object := fun _ => None; as_str := fun _ => None |}.
#[local] Instance lower : UnicodeLower := fun s => s.

Definition rule : AuthRule := mkAuthRule "scoped" ["tcp"] [mkPortRange 6000 6010 0] [] [] 2 0 0.
Definition config : AuthConfig := mkAuthConfig "token" "root" ["extra"] [rule] OidcConfig_default.
Definition rules_only : AuthConfig := mkAuthConfig "token" "" [] [rule] OidcConfig_default.
Definition login (token : string) (ts pool : Z) : LoginMsg :=
  mkLoginMsg "" "" "" "" "" "c" ts (sign token (pretty ts)) "" pool.

Lemma verify_login_spec_witness :
  verify_login (token_auth_new config) 1700000100 (login "scoped" 1700000000 2) = Ok "scoped"%string.
Proof.
  apply (verify_login_spec (token_auth_new config) 1700000100 (login "scoped" 1700000000 2) "scoped").
  - lia.
  - split; vm_compute; congruence.
  - split; [left; vm_compute; congruence|]. split.
    + split; [reflexivity|]. exists ["root"; "extra"]%string, []. split; [reflexivity|].
      repeat constructor; intros E; vm_compute in E; congruence.
    + intros r Hr. vm_compute in Hr. injection Hr as <-. intros _. vm_compute. congruence.
Defined.

Lemma empty_token_login_witness :
  verify_login (token_auth_new rules_only) 50 (login "" 40 9) = Ok ""%string ∧
  ∀ n pmsg, authorize_proxy (token_auth_new rules_only) "" n pmsg = Ok tt.
Proof.
  apply (empty_token_login rules_only 50 (login "" 40 9)); vm_compute; reflexivity.
Defined.
End ToyAuth.
