(* ===== verification/Framing.v ===== *)
(** * Framed byte streams (crates/arp-common/src/transport/{mux,udp_mux,relay}.rs)

    The TCP multiplexer's frames, the UDP multiplexer's frames and the
    length-prefixed encrypted frames of the STCP relay, written to and read
    from byte streams that may end or fail at any byte.  [relay_stcp] has its
    two directions as loops over the reads of the local socket and over the
    bytes of the work connection. *)
From S2P Require Import Prelude RustString Errors Protocol Crypto.
Local Open Scope Z_scope.

(** ** Byte streams *)

(** What a reader will still deliver, and the error it ends with ([None] is
    end of file). *)
Record Reader := mkReader { rd_bytes : bytes; rd_end : option IoError }.

(** What a writer has accepted; [wr_fail] is [Some (k, e)] when it accepts [k]
    more bytes and then fails with [e]. *)
Record Writer := mkWriter { wr_out : bytes; wr_fail : option (nat * IoError) }.

Definition eof_error (text : string) : IoError := mkIoError UnexpectedEof None text.

(** Read exactly [n] bytes, or fail having consumed what there was. *)
Definition read_bytes (text : string) (n : nat) : st Reader IoError bytes := fun r =>
  if (n <=? length (rd_bytes r))%nat
  then (mkReader (drop n (rd_bytes r)) (rd_end r), Ok (take n (rd_bytes r)))
  else (mkReader [] (rd_end r), Err (default (eof_error text) (rd_end r))).

(** [.map_err(Error::Io)]. *)
Definition map_io {T A} (m : st T IoError A) : st T Error.t A := fun s =>
  match m s with (s', Ok a) => (s', Ok a) | (s', Err e) => (s', Err (Error.Io e)) end.

Definition read_exact (n : nat) : st Reader Error.t bytes := map_io (read_bytes "early eof" n).
(** [read_u8], [read_u16] and [read_u32]: [n] bytes, big-endian. *)
Definition read_uint (n : nat) : st Reader Error.t Z :=
  bs ← map_io (read_bytes "unexpected end of file" n); mret (be_val bs).

Definition write_bytes (bs : bytes) : st Writer IoError unit := fun w =>
  match wr_fail w with
  | None => (mkWriter (wr_out w ++ bs) None, Ok tt)
  | Some (k, e) =>
      if (length bs <=? k)%nat then (mkWriter (wr_out w ++ bs) (Some ((k - length bs)%nat, e)), Ok tt)
      else (mkWriter (wr_out w ++ take k bs) (Some (0%nat, e)), Err e)
  end.

(** Flushing or shutting down a broken writer fails. *)
Definition settle_writer : st Writer IoError unit := fun w =>
  match wr_fail w with Some (O, e) => (w, Err e) | _ => (w, Ok tt) end.

Definition write_all (bs : bytes) : st Writer Error.t unit := map_io (write_bytes bs).
Definition write_uint (n : nat) (z : Z) : st Writer Error.t unit := write_all (be_bytes n z).
Definition flush : st Writer Error.t unit := map_io settle_writer.
Definition shutdown : st Writer Error.t unit := map_io settle_writer.

Definition st_protocol_err {T A} (s : string) : st T Error.t A := st_fail (Error.Protocol s).

(** ** The TCP multiplexer *)

Inductive MuxFrame :=
| MOpen (stream_id : Z)
| MData (stream_id : Z) (payload : bytes)
| MClose (stream_id : Z)
| MPing
| MPong.

Definition FRAME_OPEN : Z := 1.
Definition FRAME_DATA : Z := 2.
Definition FRAME_CLOSE : Z := 3.
Definition FRAME_PING : Z := 4.
Definition FRAME_PONG : Z := 5.
Definition MAX_FRAME_PAYLOAD : Z := 1024 * 1024.

Definition write_mux_frame (frame : MuxFrame) : st Writer Error.t unit :=
  _ ← (match frame with
       | MOpen stream_id => _ ← write_uint 1 FRAME_OPEN; write_uint 4 stream_id
       | MData stream_id payload =>
           _ ← write_uint 1 FRAME_DATA; _ ← write_uint 4 stream_id;
           _ ← write_uint 4 (blen payload); write_all payload
       | MClose stream_id => _ ← write_uint 1 FRAME_CLOSE; write_uint 4 stream_id
       | MPing => write_uint 1 FRAME_PING
       | MPong => write_uint 1 FRAME_PONG
       end);
  flush.

Definition read_mux_frame : st Reader Error.t MuxFrame :=
  frame_type ← read_uint 1;
  if frame_type =? FRAME_OPEN then stream_id ← read_uint 4; mret (MOpen stream_id)
  else if frame_type =? FRAME_DATA then
    stream_id ← read_uint 4;
    len ← read_uint 4;
    if MAX_FRAME_PAYLOAD <? len then
      st_protocol_err ("mux payload too large: " +:+ pretty len +:+ " > " +:+ pretty MAX_FRAME_PAYLOAD)
    else payload ← read_exact (Z.to_nat len); mret (MData stream_id payload)
  else if frame_type =? FRAME_CLOSE then stream_id ← read_uint 4; mret (MClose stream_id)
  else if frame_type =? FRAME_PING then mret MPing
  else if frame_type =? FRAME_PONG then mret MPong
  else st_protocol_err ("unknown mux frame type: " +:+ pretty frame_type).

(** ** The UDP multiplexer *)

Inductive UdpMuxFrame :=
| UReq (request_id : Z) (src_addr : string) (payload : bytes)
| UResp (request_id : Z) (payload : bytes)
| UPing
| UPong.

Definition UDP_FRAME_REQ : Z := 1.
Definition UDP_FRAME_RESP : Z := 2.
Definition UDP_FRAME_PING : Z := 3.
Definition UDP_FRAME_PONG : Z := 4.
Definition MAX_ADDR_LEN : Z := 1024.
Definition MAX_PAYLOAD_LEN : Z := 1024 * 1024.

Definition write_udp_mux_frame (frame : UdpMuxFrame) : st Writer Error.t unit :=
  _ ← (match frame with
       | UReq request_id src_addr payload =>
           if MAX_ADDR_LEN <? slen src_addr then st_protocol_err "udp mux src_addr too long" else
           _ ← write_uint 1 UDP_FRAME_REQ; _ ← write_uint 4 request_id;
           _ ← write_uint 2 (slen src_addr); _ ← write_all (to_bytes src_addr);
           _ ← write_uint 4 (blen payload); write_all payload
       | UResp request_id payload =>
           _ ← write_uint 1 UDP_FRAME_RESP; _ ← write_uint 4 request_id;
           _ ← write_uint 4 (blen payload); write_all payload
       | UPing => write_uint 1 UDP_FRAME_PING
       | UPong => write_uint 1 UDP_FRAME_PONG
       end);
  flush.

Definition read_udp_payload : st Reader Error.t bytes :=
  payload_len ← read_uint 4;
  if MAX_PAYLOAD_LEN <? payload_len then st_protocol_err "udp mux payload too large"
  else read_exact (Z.to_nat payload_len).

(** [utf8_error] is the text of the [FromUtf8Error]. *)
Definition read_udp_mux_frame (utf8_error : bytes → string) : st Reader Error.t UdpMuxFrame :=
  frame_type ← read_uint 1;
  if frame_type =? UDP_FRAME_REQ then
    request_id ← read_uint 4;
    addr_len ← read_uint 2;
    if MAX_ADDR_LEN <? addr_len then st_protocol_err "udp mux src_addr too long" else
    addr ← read_exact (Z.to_nat addr_len);
    payload ← read_udp_payload;
    match from_utf8 addr with
    | Some src_addr => mret (UReq request_id src_addr payload)
    | None => st_protocol_err ("invalid udp mux src_addr: " +:+ utf8_error addr)
    end
  else if frame_type =? UDP_FRAME_RESP then
    request_id ← read_uint 4;
    payload ← read_udp_payload;
    mret (UResp request_id payload)
  else if frame_type =? UDP_FRAME_PING then mret UPing
  else if frame_type =? UDP_FRAME_PONG then mret UPong
  else st_protocol_err ("unknown udp mux frame type: " +:+ pretty frame_type).

(** ** The STCP relay *)

Definition write_frame (data : bytes) : st Writer Error.t unit :=
  _ ← write_uint 4 (blen data); _ ← write_all data; flush.

Definition read_frame_optional : st Reader Error.t (option bytes) := fun r =>
  match read_bytes "early eof" 4 r with
  | (r1, Err e) =>
      if bool_decide (io_kind e = UnexpectedEof) then (r1, Ok None) else (r1, Err (Error.Io e))
  | (r1, Ok len_buf) =>
      let len := be_val len_buf in
      if 1024 * 1024 <? len then (r1, Err (Error.Protocol "stcp frame too large"))
      else (data ← read_exact (Z.to_nat len); mret (Some data)) r1
  end.

Section Relay.
Context `{Primitives}.

(** The task from the local socket to the work connection.  [reads] are the
    results of the successive [local_r.read] calls (an empty one is end of
    file) with the nonce each encryption draws; [None] while the task waits
    for another read. *)
Fixpoint stcp_send (cipher : SessionCipher) (reads : list (result IoError bytes * bytes))
    (total : Z) (work_w : Writer) : Writer * option (Result Z) :=
  match reads with
  | [] => (work_w, None)
  | (Err e, _) :: _ => (work_w, Some (Err (Error.Io e)))
  | (Ok buf, nonce) :: reads' =>
      match buf with
      | [] =>
          let '(w, r) := shutdown work_w in
          (w, Some (r ≫= fun _ => Ok total))
      | _ :: _ =>
          let total := wrap 64 (total + blen buf) in
          match session_encrypt cipher nonce buf with
          | Err e => (work_w, Some (Err e))
          | Ok encrypted =>
              match write_frame encrypted work_w with
              | (w, Err e) => (w, Some (Err e))
              | (w, Ok _) => stcp_send cipher reads' total w
              end
          end
      end
  end.

(** The task from the work connection to the local socket.  Each iteration
    consumes the four bytes of a length, so [S (length (rd_bytes work_r))]
    iterations are enough; [None] is running out of them. *)
Fixpoint stcp_recv_loop (fuel : nat) (cipher : SessionCipher) (total : Z)
    (work_r : Reader) (local_w : Writer) : Writer * option (Result Z) :=
  match fuel with
  | O => (local_w, None)
  | S fuel' =>
      match read_frame_optional work_r with
      | (_, Err e) => (local_w, Some (Err e))
      | (_, Ok None) =>
          let '(w, r) := shutdown local_w in
          (w, Some (r ≫= fun _ => Ok total))
      | (work_r', Ok (Some frame)) =>
          match session_decrypt cipher frame with
          | Err e => (local_w, Some (Err e))
          | Ok plain =>
              match write_all plain local_w with
              | (w, Err e) => (w, Some (Err e))
              | (w, Ok _) => stcp_recv_loop fuel' cipher (wrap 64 (total + blen plain)) work_r' w
              end
          end
      end
  end.

Definition stcp_recv (cipher : SessionCipher) (work_r : Reader) (local_w : Writer)
  : Writer * option (Result Z) :=
  stcp_recv_loop (S (length (rd_bytes work_r))) cipher 0 work_r local_w.

(** The join of the two tasks; [Err] of a task is a [JoinError]. *)
Definition relay_join (ra rb : result string (Result Z)) : Result (Z * Z) :=
  match ra, rb with
  | Ok (Ok bytes_in), Ok (Ok bytes_out) => Ok (bytes_in, bytes_out)
  | Ok (Err e), _ => Err e
  | _, Ok (Err e) => Err e
  | Err e, _ => Err (Error.Transport ("stcp task join failed: " +:+ e))
  | _, Err e => Err (Error.Transport ("stcp task join failed: " +:+ e))
  end.

(** Both directions with their streams; [None] when creating the cipher panics
    or a task has not finished. *)
Definition relay_stcp (secret : string) (local_reads : list (result IoError bytes * bytes))
    (work_r : Reader) (local_w work_w : Writer) : Writer * Writer * option (Result (Z * Z)) :=
  match session_new secret with
  | None => (local_w, work_w, None)
  | Some cipher =>
      let '(work_w', ra) := stcp_send cipher local_reads 0 work_w in
      let '(local_w', rb) := stcp_recv cipher work_r local_w in
      (local_w', work_w',
       match ra, rb with
       | Some a, Some b => Some (relay_join (Ok a) (Ok b))
       | _, _ => None
       end)
  end.
End Relay.

(** ** Reading what was written *)

Lemma read_bytes_app text bs rest e :
  read_bytes text (length bs) (mkReader (bs ++ rest) e) = (mkReader rest e, Ok bs).
Proof.
  unfold read_bytes. simpl. rewrite (proj2 (Nat.leb_le _ _)) by (rewrite length_app; lia).
  by rewrite take_app_length, drop_app_length.
Qed.

Lemma read_exact_bind {A} n bs rest e (k : bytes → st Reader Error.t A) :
  n = length bs →
  (read_exact n ≫= k) (mkReader (bs ++ rest) e) = k bs (mkReader rest e).
Proof. intros ->. unfold read_exact, map_io, mbind, st_bind. by rewrite read_bytes_app. Qed.

Lemma read_uint_bind {A} n z rest e (k : Z → st Reader Error.t A) :
  0 ≤ z < 256 ^ Z.of_nat n →
  (read_uint n ≫= k) (mkReader (be_bytes n z ++ rest) e) = k z (mkReader rest e).
Proof.
  intros Hz. unfold read_uint, map_io, mbind, st_bind.
  rewrite <- (length_be_bytes n z) at 1. rewrite read_bytes_app. simpl.
  by rewrite be_val_be_bytes_small.
Qed.

(** [writes m bs]: when [m] succeeds it has written [bs], and otherwise a
    proper part of it. *)
Definition writes (m : st Writer Error.t unit) (bs : bytes) : Prop :=
  ∀ w, match m w with
       | (w', Ok _) => wr_out w' = wr_out w ++ bs
       | (w', Err _) => ∃ k, wr_out w' = wr_out w ++ take k bs
       end.

(** A writer without failures accepts everything. *)
Definition total_writes (m : st Writer Error.t unit) (bs : bytes) : Prop :=
  ∀ out, m (mkWriter out None) = (mkWriter (out ++ bs) None, Ok tt).

Lemma write_all_writes bs : writes (write_all bs) bs.
Proof.
  intros w. unfold write_all, map_io, write_bytes. destruct (wr_fail w) as [[k e]|]; [|done].
  destruct (_ <=? _)%nat; simpl; eauto.
Qed.

Lemma settle_writes : writes flush [].
Proof.
  intros w. unfold flush, map_io, settle_writer.
  destruct (wr_fail w) as [[[|k] e]|]; simpl; rewrite ?app_nil_r; [exists 0%nat|..]; by rewrite ?app_nil_r.
Qed.

Lemma writes_bind m1 m2 bs1 bs2 :
  writes m1 bs1 → writes m2 bs2 → writes (m1 ≫= fun _ => m2) (bs1 ++ bs2).
Proof.
  intros H1 H2 w. unfold mbind, st_bind. specialize (H1 w). destruct (m1 w) as [w1 [[]|e]].
  - specialize (H2 w1). destruct (m2 w1) as [w2 [?|e]]; [by rewrite H2, H1, app_assoc|].
    destruct H2 as [k ->]. exists (length bs1 + k)%nat.
    by rewrite H1, take_app_add', app_assoc.
  - destruct H1 as [k ->]. exists (k `min` length bs1)%nat.
    rewrite take_app_le by lia. destruct (decide (k ≤ length bs1)%nat).
    + by rewrite Nat.min_l.
    + by rewrite Nat.min_r, !take_ge by lia.
Qed.

Lemma total_writes_bind m1 m2 bs1 bs2 :
  total_writes m1 bs1 → total_writes m2 bs2 → total_writes (m1 ≫= fun _ => m2) (bs1 ++ bs2).
Proof. intros H1 H2 out. unfold mbind, st_bind. by rewrite H1, H2, app_assoc. Qed.

Lemma write_all_total bs : total_writes (write_all bs) bs.
Proof. by intros out. Qed.
Lemma flush_total : total_writes flush [].
Proof. intros out. by rewrite app_nil_r. Qed.

Create HintDb framing.
#[export] Hint Resolve write_all_writes settle_writes writes_bind
  write_all_total flush_total total_writes_bind : framing.

(** ** The bytes of the frames *)

Definition mux_bytes (f : MuxFrame) : bytes :=
  match f with
  | MOpen i => be_bytes 1 FRAME_OPEN ++ be_bytes 4 i
  | MData i p => be_bytes 1 FRAME_DATA ++ be_bytes 4 i ++ be_bytes 4 (blen p) ++ p
  | MClose i => be_bytes 1 FRAME_CLOSE ++ be_bytes 4 i
  | MPing => be_bytes 1 FRAME_PING
  | MPong => be_bytes 1 FRAME_PONG
  end ++ [].

Definition udp_mux_bytes (f : UdpMuxFrame) : bytes :=
  match f with
  | UReq i a p => be_bytes 1 UDP_FRAME_REQ ++ be_bytes 4 i ++ be_bytes 2 (slen a) ++ to_bytes a
                  ++ be_bytes 4 (blen p) ++ p
  | UResp i p => be_bytes 1 UDP_FRAME_RESP ++ be_bytes 4 i ++ be_bytes 4 (blen p) ++ p
  | UPing => be_bytes 1 UDP_FRAME_PING
  | UPong => be_bytes 1 UDP_FRAME_PONG
  end ++ [].

(** The frames the readers accept. *)
Definition mux_frame_ok (f : MuxFrame) : Prop :=
  match f with
  | MOpen i | MClose i => in_u 32 i
  | MData i p => in_u 32 i ∧ blen p ≤ MAX_FRAME_PAYLOAD
  | MPing | MPong => True
  end.

Definition udp_mux_frame_ok (f : UdpMuxFrame) : Prop :=
  match f with
  | UReq i a p =>
      in_u 32 i ∧ slen a ≤ MAX_ADDR_LEN ∧ utf8_valid (to_bytes a) = true ∧ blen p ≤ MAX_PAYLOAD_LEN
  | UResp i p => in_u 32 i ∧ blen p ≤ MAX_PAYLOAD_LEN
  | UPing | UPong => True
  end.

Lemma write_mux_frame_writes f : writes (write_mux_frame f) (mux_bytes f).
Proof. destruct f; unfold write_mux_frame, write_uint; apply writes_bind; auto with framing. Qed.

Lemma write_udp_mux_frame_writes f :
  udp_mux_frame_ok f → writes (write_udp_mux_frame f) (udp_mux_bytes f).
Proof.
  intros Hf. destruct f; unfold write_udp_mux_frame, write_uint; apply writes_bind; auto with framing.
  rewrite (proj2 (Z.ltb_ge _ _)) by apply Hf. auto 10 with framing.
Qed.

Lemma read_mux_bytes f rest e :
  mux_frame_ok f → read_mux_frame (mkReader (mux_bytes f ++ rest) e) = (mkReader rest e, Ok f).
Proof.
  unfold mux_frame_ok, mux_bytes, in_u, MAX_FRAME_PAYLOAD. rewrite app_nil_r.
  intros Hf. destruct f; unfold read_mux_frame; rewrite <- ?app_assoc, read_uint_bind by done; cbn [Z.eqb Pos.eqb FRAME_OPEN FRAME_DATA FRAME_CLOSE FRAME_PING FRAME_PONG];
    rewrite ?read_uint_bind by (simpl; lia); try done.
  unfold blen in *. rewrite read_uint_bind by (simpl; lia).
  rewrite (proj2 (Z.ltb_ge _ _)) by (unfold MAX_FRAME_PAYLOAD; lia). by rewrite read_exact_bind by lia.
Qed.

Lemma read_udp_payload_bind {A} p rest e (k : bytes → st Reader Error.t A) :
  blen p ≤ MAX_PAYLOAD_LEN →
  (read_udp_payload ≫= k) (mkReader (be_bytes 4 (blen p) ++ p ++ rest) e) = k p (mkReader rest e).
Proof.
  intros Hp. unfold read_udp_payload, blen, MAX_PAYLOAD_LEN in *.
  unfold mbind at 1, st_bind at 1. rewrite read_uint_bind by (simpl; lia).
  rewrite (proj2 (Z.ltb_ge _ _)) by lia.
  unfold read_exact, map_io. replace (Z.to_nat _) with (length p) by lia. by rewrite read_bytes_app.
Qed.

Lemma read_udp_mux_bytes ue f rest e :
  udp_mux_frame_ok f →
  read_udp_mux_frame ue (mkReader (udp_mux_bytes f ++ rest) e) = (mkReader rest e, Ok f).
Proof.
  unfold udp_mux_frame_ok, udp_mux_bytes, in_u. rewrite app_nil_r.
  intros Hf. destruct f; unfold read_udp_mux_frame; rewrite <- ?app_assoc, read_uint_bind by done;
    cbn [Z.eqb Pos.eqb UDP_FRAME_REQ UDP_FRAME_RESP UDP_FRAME_PING UDP_FRAME_PONG]; try done.
  - destruct Hf as (? & ? & Hu & ?). unfold slen, MAX_ADDR_LEN in *.
    rewrite !read_uint_bind by (simpl; lia). rewrite (proj2 (Z.ltb_ge _ _)) by lia.
    rewrite read_exact_bind, read_udp_payload_bind by lia. by rewrite from_utf8_to_bytes.
  - rewrite read_uint_bind by (simpl; lia). by rewrite read_udp_payload_bind by apply Hf.
Qed.

(** Write a sequence of frames, and read [n] of them. *)
Fixpoint write_seq {F} (write : F → st Writer Error.t unit) (fs : list F) : st Writer Error.t unit :=
  match fs with [] => mret tt | f :: fs' => _ ← write f; write_seq write fs' end.

Fixpoint read_seq {F} (read : st Reader Error.t F) (n : nat) : st Reader Error.t (list F) :=
  match n with O => mret [] | S n' => f ← read; fs ← read_seq read n'; mret (f :: fs) end.

Section Seq.
Context {F} (write : F → st Writer Error.t unit) (read : st Reader Error.t F).
Context (fbytes : F → bytes) (frame_ok : F → Prop).
Hypothesis Hw : ∀ f, frame_ok f → writes (write f) (fbytes f).
Hypothesis Hr : ∀ f rest e,
  frame_ok f → read (mkReader (fbytes f ++ rest) e) = (mkReader rest e, Ok f).

Lemma write_seq_writes fs :
  Forall frame_ok fs → writes (write_seq write fs) (concat (fbytes <$> fs)).
Proof.
  induction 1 as [|f fs Hf Hfs IH]; simpl; [intros w; simpl; by rewrite app_nil_r|].
  apply writes_bind; auto.
Qed.

Lemma read_seq_bytes fs rest e :
  Forall frame_ok fs →
  read_seq read (length fs) (mkReader (concat (fbytes <$> fs) ++ rest) e) = (mkReader rest e, Ok fs).
Proof.
  induction 1 as [|f fs Hf Hfs IH]; csimpl; [done|]. unfold mbind, st_bind.
  rewrite <- app_assoc, Hr by done. by rewrite IH.
Qed.

Lemma seq_roundtrip fs w w' rest e :
  Forall frame_ok fs → write_seq write fs w = (w', Ok tt) →
  read_seq read (length fs) (mkReader (drop (length (wr_out w)) (wr_out w') ++ rest) e)
  = (mkReader rest e, Ok fs).
Proof.
  intros Hfs E. pose proof (write_seq_writes fs Hfs w) as Hout. rewrite E in Hout.
  rewrite Hout, drop_app_length. by apply read_seq_bytes.
Qed.
End Seq.

(** ** The relay *)

Section RelayLemmas.
Context `{Primitives} `{!PrimLaws}.

Lemma write_frame_total data : total_writes (write_frame data) (be_bytes 4 (blen data) ++ data).
Proof.
  unfold write_frame, write_uint. rewrite <- (app_nil_r data) at 3. auto with framing.
Qed.

Lemma read_frame_bytes data rest e :
  blen data ≤ 1024 * 1024 →
  read_frame_optional (mkReader (be_bytes 4 (blen data) ++ data ++ rest) e)
  = (mkReader rest e, Ok (Some data)).
Proof.
  intros Hd. unfold read_frame_optional, blen in *.
  pose proof (read_bytes_app "early eof" (be_bytes 4 (Z.of_nat (length data))) (data ++ rest) e) as E.
  rewrite length_be_bytes in E. rewrite E.
  rewrite be_val_be_bytes_small by (simpl; lia). cbv zeta.
  rewrite (proj2 (Z.ltb_ge _ _)) by lia. by rewrite read_exact_bind by lia.
Qed.

(** What the sending side puts on the wire for one read. *)
Definition sealed (s : SessionCipher) (chunk nonce : bytes) : bytes :=
  match session_encrypt s nonce chunk with
  | Ok c => be_bytes 4 (blen c) ++ c
  | Err _ => []
  end.

(** A read of the local socket: between one byte and the 16 KiB buffer, with a
    12-byte nonce. *)
Definition chunk_ok (c : bytes * bytes) : Prop :=
  1 ≤ blen c.1 ≤ 16 * 1024 ∧ length c.2 = 12%nat.

Lemma encrypt_chunk s c :
  chunk_ok c → ∃ e, session_encrypt s c.2 c.1 = Ok e ∧ session_decrypt s e = Ok c.1 ∧
    blen e ≤ 1024 * 1024.
Proof.
  unfold chunk_ok, blen. intros [Hl Hn].
  destruct (encrypt_with_ok c.2 c.1 (sc_cipher s) Hn) as [e He]; [lia|].
  exists e. split; [done|]. split; [by apply (session_decrypt_encrypt c.2)|].
  destruct (decrypt_encrypt_with _ _ _ _ Hn He) as [_ ->]. lia.
Qed.

Definition as_reads (cs : list (bytes * bytes)) : list (result IoError bytes * bytes) :=
  (fun c => (Ok c.1, c.2)) <$> cs.

Definition total_len (cs : list (bytes * bytes)) : Z := blen (concat (fst <$> cs)).

Lemma sealed_eq s chunk nonce e :
  session_encrypt s nonce chunk = Ok e → sealed s chunk nonce = be_bytes 4 (blen e) ++ e.
Proof. unfold sealed. by intros ->. Qed.

Lemma stcp_send_chunks s cs nonce total out :
  Forall chunk_ok cs →
  stcp_send s (as_reads cs ++ [(Ok [], nonce)]) total (mkWriter out None)
  = (mkWriter (out ++ concat ((fun c => sealed s c.1 c.2) <$> cs)) None,
     Some (Ok (foldl (fun t c => wrap 64 (t + blen c.1)) total cs))).
Proof.
  intros Hcs. revert total out. induction Hcs as [|c cs Hc Hcs IH]; intros total out.
  { simpl. by rewrite app_nil_r. }
  cbn [as_reads fmap list_fmap app stcp_send concat foldl].
  destruct (encrypt_chunk s c Hc) as (e & He & _ & _).
  rewrite (sealed_eq _ _ _ _ He). rewrite He, (write_frame_total e).
  destruct c as [[|b chunk] n]; [by destruct Hc as [[? _] _]|].
  by rewrite IH, <- !app_assoc.
Qed.

Lemma stcp_recv_chunks s cs total out fuel :
  Forall chunk_ok cs → (length cs < fuel)%nat →
  stcp_recv_loop fuel s total (mkReader (concat ((fun c => sealed s c.1 c.2) <$> cs)) None)
    (mkWriter out None)
  = (mkWriter (out ++ concat (fst <$> cs)) None,
     Some (Ok (foldl (fun t c => wrap 64 (t + blen c.1)) total cs))).
Proof.
  intros Hcs. revert total out fuel. induction Hcs as [|c cs Hc Hcs IH]; intros total out [|fuel] Hf;
    simpl in Hf; try lia; cbn [stcp_recv_loop concat fmap list_fmap].
  { simpl. by rewrite app_nil_r. }
  destruct (encrypt_chunk s c Hc) as (e & He & Hd & Hl). rewrite (sealed_eq _ _ _ _ He).
  rewrite <- app_assoc, read_frame_bytes, Hd by done.
  rewrite write_all_total, IH, app_assoc by lia. done.
Qed.

Lemma length_sealed s c : chunk_ok c → (1 ≤ length (sealed s c.1 c.2))%nat.
Proof.
  intros Hc. destruct (encrypt_chunk s c Hc) as (e & He & _ & _). 
  rewrite (sealed_eq _ _ _ _ He), length_app, length_be_bytes. lia.
Qed.

Lemma length_wire s cs :
  Forall chunk_ok cs → (length cs ≤ length (concat ((fun c => sealed s c.1 c.2) <$> cs)))%nat.
Proof.
  induction 1 as [|c cs Hc Hcs IH]; csimpl; [lia|].
  rewrite length_app. pose proof (length_sealed s c Hc). lia.
Qed.

Lemma foldl_total cs t :
  0 ≤ t → t + total_len cs < 2 ^ 64 →
  foldl (fun t c => wrap 64 (t + blen c.1)) t cs = t + total_len cs.
Proof.
  unfold total_len, blen. revert t. induction cs as [|c cs IH]; intros t Ht Hb; cbn [foldl concat fmap list_fmap] in *.
  - simpl. lia.
  - rewrite length_app in *. rewrite IH; rewrite wrap_small by (unfold in_u; lia); lia.
Qed.
End RelayLemmas.

(** ** Properties *)

(** A sequence of multiplexer frames that was written without an error
    (stream ids of 32 bits, payloads up to 1 MiB) is read back frame by frame,
    in order, and the bytes after them are left in the stream. *)
Theorem mux_roundtrip fs w w' rest e :
  Forall mux_frame_ok fs → write_seq write_mux_frame fs w = (w', Ok tt) →
  read_seq read_mux_frame (length fs) (mkReader (drop (length (wr_out w)) (wr_out w') ++ rest) e)
  = (mkReader rest e, Ok fs).
Proof.
  apply (seq_roundtrip write_mux_frame read_mux_frame mux_bytes).
  - intros f _. apply write_mux_frame_writes.
  - intros. by apply read_mux_bytes.
Qed.

(** The same for the frames of the UDP multiplexer, whose source addresses
    are UTF-8 text of at most 1024 bytes. *)
Theorem udp_mux_roundtrip utf8_error fs w w' rest e :
  Forall udp_mux_frame_ok fs → write_seq write_udp_mux_frame fs w = (w', Ok tt) →
  read_seq (read_udp_mux_frame utf8_error) (length fs)
    (mkReader (drop (length (wr_out w)) (wr_out w') ++ rest) e)
  = (mkReader rest e, Ok fs).
Proof.
  apply (seq_roundtrip write_udp_mux_frame (read_udp_mux_frame utf8_error) udp_mux_bytes).
  - apply write_udp_mux_frame_writes.
  - intros. by apply read_udp_mux_bytes.
Qed.

(** C6: two STCP peers that share a secret: whatever the sending side reads
    from its local socket, in whatever pieces, the receiving side writes to its
    local socket in the same order, both sides return the number of bytes, 
    neither side panics and the receiving loop finishes; this holds as long as fewer than 2^64 bytes
    are sent. *)
Theorem stcp_end_to_end `{Primitives} `{!PrimLaws} secret cs nonce :
  Forall chunk_ok cs → total_len cs < 2 ^ 64 →
  ∃ s wire, session_new secret = Some s ∧
    stcp_send s (as_reads cs ++ [(Ok [], nonce)]) 0 (mkWriter [] None)
    = (mkWriter wire None, Some (Ok (total_len cs))) ∧
    stcp_recv s (mkReader wire None) (mkWriter [] None)
    = (mkWriter (concat (fst <$> cs)) None, Some (Ok (total_len cs))).
Proof.
  intros Hcs Hlen. destruct (session_new_ok secret) as (c & _ & Hs).
  revert Hs. generalize (mkSessionCipher c). intros s Hs. exists s. eexists. split; [done|].
  rewrite stcp_send_chunks by done.
  rewrite foldl_total by (unfold blen; lia). split; [reflexivity|].
  unfold stcp_recv. rewrite app_nil_l. cbn [rd_bytes].
  rewrite stcp_recv_chunks; [|done|pose proof (length_wire s cs Hcs); lia].
  by rewrite foldl_total by (unfold blen; lia).
Qed.

(** A work connection that breaks off inside a length header (after one to
    three of its bytes) is taken for a clean shutdown: the frame reader returns
    [None] and the receiving side of the relay ends successfully, while a break
    inside the frame's payload is an error. *)
Theorem truncated_header_is_clean `{Primitives} s bs data e :
  (length bs < 4)%nat → blen data ≤ 1024 * 1024 → (length e < length data)%nat →
  read_frame_optional (mkReader bs None) = (mkReader [] None, Ok None) ∧
  stcp_recv s (mkReader bs None) (mkWriter [] None) = (mkWriter [] None, Some (Ok 0)) ∧
  read_frame_optional (mkReader (be_bytes 4 (blen data) ++ e) None)
  = (mkReader [] None, Err (Error.Io (eof_error "early eof"))).
Proof.
  intros Hbs Hd He. assert (read_frame_optional (mkReader bs None) = (mkReader [] None, Ok None)) as E.
  { unfold read_frame_optional, read_bytes. simpl rd_bytes.
    by rewrite (proj2 (Nat.leb_gt _ _)) by lia. }
  split; [done|]. split.
  { unfold stcp_recv. cbn [stcp_recv_loop]. by rewrite E. }
  unfold read_frame_optional. pose proof (read_bytes_app "early eof" (be_bytes 4 (blen data)) e None) as R.
  rewrite length_be_bytes in R. rewrite R.
  unfold blen in *. rewrite be_val_be_bytes_small by (simpl; lia). cbv zeta.
  rewrite (proj2 (Z.ltb_ge _ _)) by lia.
  unfold read_exact, map_io, mbind, st_bind, read_bytes. simpl rd_bytes.
  by rewrite (proj2 (Nat.leb_gt _ _)) by lia.
Qed.

(** ** Witnesses *)

Module ToyFraming.
Import ToyCrypto.

Lemma mux_roundtrip_witness :
  read_seq read_mux_frame 2
    (mkReader (mux_bytes (MOpen 7) ++ mux_bytes (MData 7 [x61; x62]) ++ [x01]) None)
  = (mkReader [x01] None, Ok [MOpen 7; MData 7 [x61; x62]]).
Proof.
  apply (mux_roundtrip [MOpen 7; MData 7 [x61; x62]] (mkWriter [] None)
           (mkWriter (mux_bytes (MOpen 7) ++ mux_bytes (MData 7 [x61; x62])) None) [x01] None).
  - repeat constructor; vm_compute; congruence.
  - vm_compute. reflexivity.
Defined.

Lemma udp_mux_roundtrip_witness :
  read_seq (read_udp_mux_frame (fun _ => ""%string)) 2
    (mkReader (udp_mux_bytes (UReq 9 "1.2.3.4:5" [x61]) ++ udp_mux_bytes UPong ++ []) None)
  = (mkReader [] None, Ok [UReq 9 "1.2.3.4:5" [x61]; UPong]).
Proof.
  apply (udp_mux_roundtrip _ [UReq 9 "1.2.3.4:5" [x61]; UPong] (mkWriter [] None)
           (mkWriter (udp_mux_bytes (UReq 9 "1.2.3.4:5" [x61]) ++ udp_mux_bytes UPong) None) [] None).
  - repeat constructor; vm_compute; congruence.
  - vm_compute. reflexivity.
Defined.

Definition cipher : SessionCipher := @mkSessionCipher prims (derive_key "k").

Definition chunks : list (bytes * bytes) :=
  [(to_bytes "hello ", replicate 12 x01); (to_bytes "world", replicate 12 x02)].

Lemma stcp_end_to_end_witness :
  ∃ s wire, session_new "k" = Some s ∧
    stcp_send s (as_reads chunks ++ [(Ok [], [])]) 0 (mkWriter [] None)
    = (mkWriter wire None, Some (Ok 11)) ∧
    stcp_recv s (mkReader wire None) (mkWriter [] None)
    = (mkWriter (to_bytes "hello world") None, Some (Ok 11)).
Proof.
  apply (stcp_end_to_end "k" chunks []).
  - repeat constructor; vm_compute; congruence.
  - vm_compute. reflexivity.
Defined.

Lemma truncated_header_is_clean_witness :
  read_frame_optional (mkReader [x00; x00] None) = (mkReader [] None, Ok None) ∧
  stcp_recv cipher (mkReader [x00; x00] None) (mkWriter [] None)
  = (mkWriter [] None, Some (Ok 0)) ∧
  read_frame_optional (mkReader (be_bytes 4 5 ++ [x61]) None)
  = (mkReader [] None, Err (Error.Io (eof_error "early eof"))).
Proof.
  apply (truncated_header_is_clean cipher [x00; x00] (to_bytes "hello") [x61]);
    vm_compute; [lia|congruence|lia].
Defined.
End ToyFraming.
