(* ===== verification/MuxTunnel.v ===== *)
(** * The TCP multiplexer tunnel (MuxTunnel and relay_mux_stream of the server's
      proxy/tcp.rs, handle_mux_work_conn and handle_local_stream of the client's)

    Many user connections share one work connection.  Both ends keep a channel
    of frames that a writer task empties onto the connection, a reader loop
    that hands the payloads to the channels of the streams, and per stream a
    task that reads the user's (or the local service's) socket and a task, the
    pump, that writes what comes out of the channel of the stream.  The tasks
    of both ends and the network interleave: [tunnel_step] runs one task up to
    its next [await] that others can observe.

    The contract: the tunnel is one FIFO pipe of bytes per stream and
    direction, independent of the others, which can be cut (and then loses a
    suffix of what was sent) but never reorders, mixes, repeats or skips. *)
From S2P Require Import Prelude Errors Protocol Framing.
Local Open Scope Z_scope.

Inductive Side := Srv | Cli.
#[global] Instance Side_eq_dec : EqDecision Side.
Proof. solve_decision. Defined.

Definition other (s : Side) : Side := match s with Srv => Cli | Cli => Srv end.

(** ** One end *)

(** Where the task of a stream is: the server's [open_stream] between its two
    awaits, the client's connect, the read loop, the end of the read loop
    between its two awaits, or done. *)
Inductive Phase := Opening | Connecting | Relaying | Closing | Finished.
#[global] Instance Phase_eq_dec : EqDecision Phase.
Proof. solve_decision. Defined.

(** A stream at one end: its channel, whether the receiver still exists, and
    the task. *)
Record MuxConn := mkMuxConn {
  mc_id : Z; mc_buf : list bytes; mc_rx : bool; mc_phase : Phase;
}.

Record Endpoint := mkEndpoint {
  ep_frames : list MuxFrame;               (* the channel [frame_tx]/[frame_rx] *)
  ep_tx : bool;                            (* the writer task holds [frame_rx] *)
  ep_reader : bool;                        (* the reader loop runs *)
  ep_in : bytes;                           (* received, not yet read *)
  ep_end : option (option IoError);        (* how the reading side has ended *)
  ep_streams : gmap Z nat;                 (* [streams]: a sender is the index of its stream *)
  ep_conns : list MuxConn;
  ep_next : Z;                             (* [next_stream_id], of the server *)
}.

Definition ep_new : Endpoint := mkEndpoint [] true true [] None ∅ [] 1.

Definition set_frames fs tx (e : Endpoint) : Endpoint :=
  mkEndpoint fs tx (ep_reader e) (ep_in e) (ep_end e) (ep_streams e) (ep_conns e) (ep_next e).
Definition set_in reader inp ended (e : Endpoint) : Endpoint :=
  mkEndpoint (ep_frames e) (ep_tx e) reader inp ended (ep_streams e) (ep_conns e) (ep_next e).
Definition set_streams ss (e : Endpoint) : Endpoint :=
  mkEndpoint (ep_frames e) (ep_tx e) (ep_reader e) (ep_in e) (ep_end e) ss (ep_conns e) (ep_next e).
Definition set_conns cs (e : Endpoint) : Endpoint :=
  mkEndpoint (ep_frames e) (ep_tx e) (ep_reader e) (ep_in e) (ep_end e) (ep_streams e) cs (ep_next e).
Definition set_next n (e : Endpoint) : Endpoint :=
  mkEndpoint (ep_frames e) (ep_tx e) (ep_reader e) (ep_in e) (ep_end e) (ep_streams e) (ep_conns e) n.

Definition set_phase p (c : MuxConn) : MuxConn := mkMuxConn (mc_id c) (mc_buf c) (mc_rx c) p.
Definition set_buf b (c : MuxConn) : MuxConn := mkMuxConn (mc_id c) b (mc_rx c) (mc_phase c).
(** Dropping the receiver of a channel drops what it holds. *)
Definition drop_rx (c : MuxConn) : MuxConn := mkMuxConn (mc_id c) [] false (mc_phase c).

Definition alter_conn (a : nat) (f : MuxConn → MuxConn) (e : Endpoint) : Endpoint :=
  set_conns (alter f a (ep_conns e)) e.
Definition remove_stream (id : Z) (e : Endpoint) : Endpoint :=
  set_streams (delete id (ep_streams e)) e.

(** [frame_tx.send(frame)]: fails once the writer task is gone. *)
Definition send_frame (f : MuxFrame) (e : Endpoint) : Endpoint * bool :=
  if ep_tx e then (set_frames (ep_frames e ++ [f]) true e, true) else (e, false).
Definition send_frame_ (f : MuxFrame) (e : Endpoint) : Endpoint := (send_frame f e).1.

(** A new stream with its channel, entered in [streams]. *)
Definition insert_stream (id : Z) (p : Phase) (e : Endpoint) : Endpoint :=
  set_streams (<[id := length (ep_conns e)]> (ep_streams e))
    (set_conns (ep_conns e ++ [mkMuxConn id [] true p]) e).

(** [MuxTunnel::open_stream], up to and after the send of the frame; when the
    send fails the receiver is dropped with the error. *)
Definition open_stream_alloc (e : Endpoint) : Endpoint :=
  set_next (wrap 32 (ep_next e + 1)) (insert_stream (ep_next e) Opening e).
Definition open_stream_send (a : nat) (id : Z) (e : Endpoint) : Endpoint :=
  let '(e1, ok) := send_frame (MOpen id) e in
  alter_conn a (if ok then set_phase Relaying else set_phase Finished ∘ drop_rx) e1.

(** [MuxTunnel::send_data]. *)
Definition send_data (id : Z) (payload : bytes) (e : Endpoint) : Endpoint * Result unit :=
  let '(e1, ok) := send_frame (MData id payload) e in
  (e1, if ok then Ok tt else Err (Error.Transport "tcp_mux frame channel closed")).

(** [MuxTunnel::is_alive]. *)
Definition is_alive (e : Endpoint) : bool := ep_tx e.

(** One turn of the writer task; [fail] is where the connection breaks. *)
Definition writer_step (fail : option (nat * IoError)) (e : Endpoint) : Endpoint * bytes :=
  match ep_tx e, ep_frames e with
  | true, f :: fs =>
      match write_mux_frame f (mkWriter [] fail) with
      | (w, Ok _) => (set_frames fs true e, wr_out w)
      | (w, Err _) => (set_frames [] false e, wr_out w)
      end
  | _, _ => (e, [])
  end.

(** A [Data] frame in the reader loop of either end. *)
Definition on_data (id : Z) (payload : bytes) (e : Endpoint) : Endpoint :=
  match ep_streams e !! id with
  | Some a =>
      match ep_conns e !! a with
      | Some c => if mc_rx c then alter_conn a (set_buf (mc_buf c ++ [payload])) e
                  else remove_stream id e
      | None => remove_stream id e
      end
  | None => send_frame_ (MClose id) e
  end.

(** The reader loop of [MuxTunnel::new]. *)
Definition server_on_frame (f : MuxFrame) (e : Endpoint) : Endpoint :=
  match f with
  | MData id payload => on_data id payload e
  | MClose id => remove_stream id e
  | MPing => send_frame_ MPong e
  | MPong => e
  | MOpen _ => e
  end.

(** The loop of [handle_mux_work_conn]. *)
Definition client_on_frame (f : MuxFrame) (e : Endpoint) : Endpoint :=
  match f with
  | MOpen id => insert_stream id Connecting e
  | MData id payload => on_data id payload e
  | MClose id => remove_stream id e
  | MPing => send_frame_ MPong e
  | MPong => e
  end.

Definition on_frame (s : Side) : MuxFrame → Endpoint → Endpoint :=
  match s with Srv => server_on_frame | Cli => client_on_frame end.

(** The read waits while the connection is open and the frame incomplete. *)
Definition read_waits (err : Error.t) (e : Endpoint) : bool :=
  match err, ep_end e with Error.Io _, None => true | _, _ => false end.

(** One turn of the reader loop of the server, and of the client: an error ends
    it and clears [streams]. *)
Definition reader_exit (e : Endpoint) : Endpoint :=
  set_streams ∅ (set_in false (ep_in e) (ep_end e) e).

Definition server_reader_step (e : Endpoint) : Endpoint :=
  if ep_reader e then
    match read_mux_frame (mkReader (ep_in e) (default None (ep_end e))) with
    | (r, Ok f) => server_on_frame f (set_in true (rd_bytes r) (ep_end e) e)
    | (_, Err err) => if read_waits err e then e else reader_exit e
    end
  else e.

Definition client_reader_step (e : Endpoint) : Endpoint :=
  if ep_reader e then
    match read_mux_frame (mkReader (ep_in e) (default None (ep_end e))) with
    | (r, Ok f) => client_on_frame f (set_in true (rd_bytes r) (ep_end e) e)
    | (_, Err err) => if read_waits err e then e else reader_exit e
    end
  else e.

Definition reader_step (s : Side) : Endpoint → Endpoint :=
  match s with Srv => server_reader_step | Cli => client_reader_step end.

(** Data was read from the socket: a failed send returns early and leaves the
    pump running. *)
Definition forward_read (a : nat) (c : MuxConn) (bs : bytes) (e : Endpoint) : Endpoint :=
  match send_data (mc_id c) bs e with
  | (e1, Ok _) => e1
  | (e1, Err _) => alter_conn a (set_phase Finished) e1
  end.

(** The read loop of [relay_mux_stream] gets [r]; at the end of the file it
    goes on to [close_stream], whose first half is here. *)
Definition relay_read (a : nat) (c : MuxConn) (r : result IoError bytes) (e : Endpoint) : Endpoint :=
  match r with
  | Err _ => alter_conn a (set_phase Finished) e
  | Ok [] => alter_conn a (set_phase Closing) (remove_stream (mc_id c) e)
  | Ok bs => forward_read a c bs e
  end.

(** The rest of [close_stream] and the abort of the pump. *)
Definition relay_finish (a : nat) (c : MuxConn) (e : Endpoint) : Endpoint :=
  alter_conn a (set_phase Finished ∘ drop_rx) (send_frame_ (MClose (mc_id c)) e).

(** [handle_local_stream]: the connect, the read loop, and removing the stream
    and aborting the pump at the end. *)
Definition local_connect (a : nat) (ok : bool) (e : Endpoint) : Endpoint :=
  alter_conn a (if ok then set_phase Relaying else set_phase Finished ∘ drop_rx) e.

Definition local_read (a : nat) (c : MuxConn) (r : result IoError bytes) (e : Endpoint) : Endpoint :=
  match r with
  | Err _ => alter_conn a (set_phase Finished) e
  | Ok [] => alter_conn a (set_phase Closing) (send_frame_ (MClose (mc_id c)) e)
  | Ok bs => forward_read a c bs e
  end.

Definition local_finish (a : nat) (c : MuxConn) (e : Endpoint) : Endpoint :=
  alter_conn a (set_phase Finished ∘ drop_rx) (remove_stream (mc_id c) e).

Definition stream_read (s : Side) : nat → MuxConn → result IoError bytes → Endpoint → Endpoint :=
  match s with Srv => relay_read | Cli => local_read end.
Definition finish_stream (s : Side) : nat → MuxConn → Endpoint → Endpoint :=
  match s with Srv => relay_finish | Cli => local_finish end.

(** A sender of the channel of stream [a] exists. *)
Definition has_sender (a : nat) (e : Endpoint) : bool :=
  existsb (fun x => x.2 =? a)%nat (map_to_list (ep_streams e)).

(** One turn of the pump: it writes the next payload, of which the socket takes
    [k] bytes when [fail] is [Some k]; or it ends with the channel. *)
Definition pump_step (a : nat) (c : MuxConn) (fail : option nat) (e : Endpoint) : Endpoint * option (bytes * bytes) :=
  match mc_buf c with
  | data :: rest =>
      match fail with
      | None => (alter_conn a (set_buf rest) e, Some (data, data))
      | Some k => (alter_conn a drop_rx e, Some (data, take k data))
      end
  | [] => (if has_sender a e then e else alter_conn a drop_rx e, None)
  end.

(** ** Both ends and the network *)

(** [t_bytes_in], [t_bytes_out]: the proxy's counters. *)
Record Tunnel := mkTunnel {
  t_srv : Endpoint; t_cli : Endpoint;
  t_to_srv : bytes; t_to_cli : bytes;
  t_bytes_in : Z; t_bytes_out : Z;
}.

Definition mux_new : Tunnel := mkTunnel ep_new ep_new [] [] 0 0.

Definition ep (s : Side) (t : Tunnel) : Endpoint := match s with Srv => t_srv t | Cli => t_cli t end.
Definition net (s : Side) (t : Tunnel) : bytes := match s with Srv => t_to_srv t | Cli => t_to_cli t end.
Definition set_ep (s : Side) (e : Endpoint) (t : Tunnel) : Tunnel :=
  match s with
  | Srv => mkTunnel e (t_cli t) (t_to_srv t) (t_to_cli t) (t_bytes_in t) (t_bytes_out t)
  | Cli => mkTunnel (t_srv t) e (t_to_srv t) (t_to_cli t) (t_bytes_in t) (t_bytes_out t)
  end.
Definition set_net (s : Side) (b : bytes) (t : Tunnel) : Tunnel :=
  match s with
  | Srv => mkTunnel (t_srv t) (t_cli t) b (t_to_cli t) (t_bytes_in t) (t_bytes_out t)
  | Cli => mkTunnel (t_srv t) (t_cli t) (t_to_srv t) b (t_bytes_in t) (t_bytes_out t)
  end.
(** The server counts what its streams read and what its pumps take. *)
Definition count (s : Side) (bytes_in bytes_out : Z) (t : Tunnel) : Tunnel :=
  match s with
  | Srv => mkTunnel (t_srv t) (t_cli t) (t_to_srv t) (t_to_cli t)
             (wrap 64 (t_bytes_in t + bytes_in)) (wrap 64 (t_bytes_out t + bytes_out))
  | Cli => t
  end.

Inductive Event :=
| EAlloc
| ESendOpen (a : nat)
| EConnect (a : nat) (ok : bool)
| ERead (s : Side) (a : nat) (r : result IoError bytes)
| EFinish (s : Side) (a : nat)
| EPump (s : Side) (a : nat) (fail : option nat)
| EWriter (s : Side) (fail : option (nat * IoError))
| ENet (s : Side) (n : nat)
| EEnd (s : Side) (how : option IoError)
| EReader (s : Side).

(** What the sockets at the two ends see, per stream and direction. *)
Inductive PLabel := New | Push (bs : bytes) | Pop (bs : bytes).
Abbreviation Label := (Side * Z * PLabel)%type.

Definition in_phase (ps : list Phase) (c : MuxConn) : bool := bool_decide (mc_phase c ∈ ps).

(** Run [f] on stream [a] of side [s] if its task is in one of [ps]. *)
Definition with_conn (s : Side) (a : nat) (ps : list Phase) (t : Tunnel)
    (f : MuxConn → Tunnel * list Label) : Tunnel * list Label :=
  match ep_conns (ep s t) !! a with
  | Some c => if in_phase ps c then f c else (t, [])
  | None => (t, [])
  end.

Definition tunnel_step (ev : Event) (t : Tunnel) : Tunnel * list Label :=
  match ev with
  | EAlloc => (set_ep Srv (open_stream_alloc (t_srv t)) t, [(Srv, ep_next (t_srv t), New)])
  | ESendOpen a =>
      with_conn Srv a [Opening] t (fun c =>
        (set_ep Srv (open_stream_send a (mc_id c) (t_srv t)) t, [(Cli, mc_id c, New)]))
  | EConnect a ok =>
      with_conn Cli a [Connecting] t (fun c =>
        (set_ep Cli (local_connect a ok (t_cli t)) t, []))
  | ERead s a r =>
      with_conn s a [Relaying] t (fun c =>
        match r with
        | Ok ((_ :: _) as bs) =>
            if blen bs <=? 16 * 1024 then
              (count s (blen bs) 0 (set_ep s (stream_read s a c r (ep s t)) t),
               [(other s, mc_id c, Push bs)])
            else (t, [])
        | _ => (set_ep s (stream_read s a c r (ep s t)) t, [])
        end)
  | EFinish s a => with_conn s a [Closing] t (fun c => (set_ep s (finish_stream s a c (ep s t)) t, []))
  | EPump s a fail =>
      with_conn s a [Relaying; Closing; Finished] t (fun c =>
        if mc_rx c then
          let '(e, out) := pump_step a c fail (ep s t) in
          match out with
          | Some (data, written) => (count s 0 (blen data) (set_ep s e t), [(s, mc_id c, Pop written)])
          | None => (set_ep s e t, [])
          end
        else (t, []))
  | EWriter s fail =>
      let '(e, bs) := writer_step fail (ep s t) in
      (set_net (other s) (net (other s) t ++ bs) (set_ep s e t), [])
  | ENet s n =>
      let e := ep s t in
      match ep_end e with
      | None => (set_net s (drop n (net s t))
                   (set_ep s (set_in (ep_reader e) (ep_in e ++ take n (net s t)) None e) t), [])
      | Some _ => (t, [])
      end
  | EEnd s how =>
      let e := ep s t in
      match ep_end e with
      | None => (set_ep s (set_in (ep_reader e) (ep_in e) (Some how) e) t, [])
      | Some _ => (t, [])
      end
  | EReader s => (set_ep s (reader_step s (ep s t)) t, [])
  end.

Fixpoint tunnel_run (evs : list Event) (t : Tunnel) : Tunnel * list Label :=
  match evs with
  | [] => (t, [])
  | ev :: evs' =>
      let '(t1, l1) := tunnel_step ev t in
      let '(t2, l2) := tunnel_run evs' t1 in
      (t2, l1 ++ l2)
  end.

(** ** The contract: independent pipes *)

Record Pipe := mkPipe { p_queue : bytes; p_open : bool }.

(** A pipe is created empty and open, takes bytes at its tail while it is open,
    gives bytes from its head, and may be cut once and for all, keeping some
    prefix of what it held. *)
Inductive pipe_run : list PLabel → option Pipe → option Pipe → Prop :=
| run_done p : pipe_run [] p p
| run_new ls p : pipe_run ls (Some (mkPipe [] true)) p → pipe_run (New :: ls) None p
| run_push bs ls q p :
    pipe_run ls (Some (mkPipe (q ++ bs) true)) p → pipe_run (Push bs :: ls) (Some (mkPipe q true)) p
| run_lost bs ls q p :
    pipe_run ls (Some (mkPipe q false)) p → pipe_run (Push bs :: ls) (Some (mkPipe q false)) p
| run_pop bs ls q o p :
    pipe_run ls (Some (mkPipe q o)) p → pipe_run (Pop bs :: ls) (Some (mkPipe (bs ++ q) o)) p
| run_cut q' ls q o p :
    q' `prefix_of` q → pipe_run ls (Some (mkPipe q' false)) p → pipe_run ls (Some (mkPipe q o)) p.

(** The labels of one pipe. *)
Definition project (s : Side) (id : Z) (ls : list Label) : list PLabel :=
  omap (fun l => if bool_decide (l.1 = (s, id)) then Some l.2 else None) ls.
