(* ===== verification/MuxRefine.v ===== *)
(** * The multiplexer tunnel implements independent pipes

    Proof of the contract of MuxTunnel.  The abstraction of a state reads each
    pipe off the receiving end: what the channel of the stream will hold once
    the frames under way (the frames on the connection, of which the last may
    be incomplete, and those queued at the sending end) have been read.  The
    reader loops then leave the pipes alone, sending appends to them, the pumps
    take from them, and everything else cuts at most. *)
From S2P Require Import Prelude Errors Protocol Framing MuxTunnel.
Local Open Scope Z_scope.

(** ** Complete and incomplete frames *)

(** [m] reads exactly [bs] and gives [a]; on less than [bs] it runs into the
    end of the stream. *)
Definition parses {A} (m : st Reader Error.t A) (bs : bytes) (a : A) : Prop :=
  (∀ rest e, m (mkReader (bs ++ rest) e) = (mkReader rest e, Ok a)) ∧
  (∀ k e, (k < length bs)%nat → ∃ r io, m (mkReader (take k bs) e) = (r, Err (Error.Io io))).

Lemma parses_ret {A} (a : A) : parses (mret a) [] a.
Proof. split; [done|]. simpl. lia. Qed.

Lemma parses_bind {A B} (m : st Reader Error.t A) (f : A → st Reader Error.t B) bs1 bs2 a b :
  parses m bs1 a → parses (f a) bs2 b → parses (m ≫= f) (bs1 ++ bs2) b.
Proof.
  intros [H1 F1] [H2 F2]. split.
  - intros rest e. unfold mbind, st_bind. by rewrite <- app_assoc, H1, H2.
  - intros k e Hk. rewrite length_app in Hk. unfold mbind, st_bind.
    destruct (decide (k < length bs1)%nat) as [Hlt|].
    + destruct (F1 k e Hlt) as (r & io & E). rewrite take_app_le by lia. rewrite E. eauto.
    + rewrite take_app_ge by lia. rewrite H1. apply F2. lia.
Qed.

Lemma read_bytes_short text n bs e :
  (length bs < n)%nat → ∃ io, read_bytes text n (mkReader bs e) = (mkReader [] e, Err io).
Proof. intros Hn. unfold read_bytes. simpl. rewrite (proj2 (Nat.leb_gt _ _)) by done. eauto. Qed.

Lemma parses_exact n bs : n = length bs → parses (read_exact n) bs bs.
Proof.
  intros ->. unfold read_exact, map_io. split.
  - intros rest e. by rewrite read_bytes_app.
  - intros k e Hk. destruct (read_bytes_short "early eof" (length bs) (take k bs) e) as [io ->]; [|eauto].
    rewrite length_take. lia.
Qed.

Lemma parses_uint n z : 0 ≤ z < 256 ^ Z.of_nat n → parses (read_uint n) (be_bytes n z) z.
Proof.
  intros Hz. unfold read_uint, map_io, mbind, st_bind. split.
  - intros rest e. rewrite <- (length_be_bytes n z) at 1. rewrite read_bytes_app. simpl.
    by rewrite be_val_be_bytes_small.
  - intros k e Hk. rewrite length_be_bytes in Hk.
    destruct (read_bytes_short "unexpected end of file" n (take k (be_bytes n z)) e) as [io ->]; [|eauto].
    rewrite length_take, length_be_bytes. lia.
Qed.
#[export] Hint Resolve parses_ret parses_exact parses_uint : framing.

Lemma parses_mux f : mux_frame_ok f → parses read_mux_frame (mux_bytes f) f.
Proof.
  unfold mux_frame_ok, mux_bytes, in_u, MAX_FRAME_PAYLOAD.
  destruct f; intros Hf; unfold read_mux_frame; rewrite <- ?app_assoc;
    (eapply parses_bind; [by apply parses_uint|]);
    cbn [Z.eqb Pos.eqb FRAME_OPEN FRAME_DATA FRAME_CLOSE FRAME_PING FRAME_PONG]; auto with framing;
    (eapply parses_bind; [apply parses_uint; simpl; lia|]); auto with framing.
  unfold blen in *.
  eapply parses_bind; [apply parses_uint; simpl; lia|].
  rewrite (proj2 (Z.ltb_ge _ _)) by (unfold MAX_FRAME_PAYLOAD; lia).
  eapply parses_bind; [apply parses_exact; lia|auto with framing].
Qed.

(** ** One stream seen from the receiving end *)

(** No stream yet, one that takes payloads, or one that only has its channel
    left to empty. *)
Inductive View := VNone | VLive (b : list bytes) | VDead (b : list bytes).

Definition vbuf (v : View) : list bytes := match v with VNone => [] | VLive b | VDead b => b end.
Definition vlive (v : View) : bool := match v with VLive _ => true | _ => false end.

Definition view (e : Endpoint) (id : Z) : View :=
  match list_find (fun c => mc_id c = id) (ep_conns e) with
  | Some (a, c) =>
      if mc_rx c && bool_decide (ep_streams e !! id = Some a) then VLive (mc_buf c) else VDead (mc_buf c)
  | None => VNone
  end.

(** What a frame does to the view of stream [id] at side [s]. *)
Definition vstep (s : Side) (id : Z) (v : View) (f : MuxFrame) : View :=
  match f, v with
  | MOpen i, VNone => if bool_decide (s = Cli ∧ i = id) then VLive [] else v
  | MData i p, VLive b => if i =? id then VLive (b ++ [p]) else v
  | MClose i, VLive b => if i =? id then VDead b else v
  | _, _ => v
  end.

Definition vrun (s : Side) (id : Z) : View → list MuxFrame → View := foldl (vstep s id).

(** The pipe of a stream: its view once the frames under way are read. *)
Definition pipe_at (s : Side) (id : Z) (v : View) (flow : list MuxFrame) (up : bool) : Pipe :=
  mkPipe (concat (vbuf (vrun s id v flow))) (vlive (vrun s id v flow) && up).

(** [p'] is [p], perhaps cut. *)
Definition pipe_le (p' p : Pipe) : Prop :=
  p' = p ∨ (p_queue p' `prefix_of` p_queue p ∧ p_open p' = false).
Definition view_le (v' v : View) : Prop :=
  v' = v ∨ (vbuf v' `prefix_of` vbuf v ∧ ∃ b, v' = VDead b).

Lemma concat_prefix {A} (l k : list (list A)) : l `prefix_of` k → concat l `prefix_of` concat k.
Proof. intros [m ->]. rewrite concat_app. by apply prefix_app_r. Qed.

Lemma vrun_cons s id v f fs : vrun s id v (f :: fs) = vrun s id (vstep s id v f) fs.
Proof. done. Qed.

Lemma vrun_app s id v fs gs : vrun s id v (fs ++ gs) = vrun s id (vrun s id v fs) gs.
Proof. apply foldl_app. Qed.

Lemma vrun_dead s id b fs : vrun s id (VDead b) fs = VDead b.
Proof. induction fs as [|[] fs IH]; done. Qed.

Lemma vstep_grows s id v f : vbuf v `prefix_of` vbuf (vstep s id v f).
Proof.
  destruct f, v; simpl; try case_match; try done; try apply prefix_nil. by apply prefix_app_r.
Qed.

Lemma vrun_grows s id v fs : vbuf v `prefix_of` vbuf (vrun s id v fs).
Proof.
  revert v. induction fs as [|f fs IH]; intros v; [done|]. rewrite vrun_cons.
  etrans; [apply vstep_grows|apply IH].
Qed.

(** Taking from the head of the channel commutes with reading frames. *)
Definition vcons (d : bytes) (v : View) : View :=
  match v with VNone => VDead [d] | VLive b => VLive (d :: b) | VDead b => VDead (d :: b) end.

Lemma vbuf_vcons d v : vbuf (vcons d v) = d :: vbuf v.
Proof. by destruct v. Qed.
Lemma vlive_vcons d v : vlive (vcons d v) = vlive v.
Proof. by destruct v. Qed.

Lemma vrun_pop s id d b fs : vrun s id (VLive (d :: b)) fs = vcons d (vrun s id (VLive b) fs).
Proof.
  revert b. induction fs as [|f fs IH]; intros b; [done|].
  rewrite !vrun_cons. destruct f; cbn [vstep]; try apply IH;
    (destruct (_ =? _); [|apply IH]); [apply IH|by rewrite !vrun_dead].
Qed.

Lemma pipe_le_refl p : pipe_le p p.
Proof. by left. Qed.
#[export] Hint Resolve pipe_le_refl : arp.

Lemma pipe_le_view s id v v' flow up :
  view_le v' v → pipe_le (pipe_at s id v' flow up) (pipe_at s id v flow up).
Proof.
  intros [->|(Hb & b & ->)]; [by left|]. right. unfold pipe_at. simpl. rewrite vrun_dead. simpl.
  split; [|done]. apply concat_prefix. etrans; [exact Hb|apply vrun_grows].
Qed.

Lemma pipe_le_flow s id v flow flow' up :
  flow' `prefix_of` flow → pipe_le (pipe_at s id v flow' false) (pipe_at s id v flow up).
Proof.
  intros [g ->]. right. unfold pipe_at. simpl. rewrite andb_false_r. split; [|done].
  rewrite vrun_app. apply concat_prefix, vrun_grows.
Qed.

Lemma pipe_le_trans p1 p2 p3 : pipe_le p1 p2 → pipe_le p2 p3 → pipe_le p1 p3.
Proof.
  intros [->|[Hp Ho]] [->|[Hp' Ho']]; [by left|by right|by right|].
  right. split; [by etrans|done].
Qed.

(** A [Close], [Ping] or [Pong] more cuts at most. *)
Lemma pipe_le_frame s id v flow up f :
  match f with MClose _ | MPing | MPong => True | _ => False end →
  pipe_le (pipe_at s id v (flow ++ [f]) up) (pipe_at s id v flow up).
Proof.
  intros Hf. unfold pipe_at. rewrite vrun_app. simpl.
  destruct f; try done; destruct (vrun s id v flow); simpl; try (by left).
  case_match; simpl; [by right|by left].
Qed.

(** ** Runs of a pipe *)

Lemma run_tau p p' : pipe_le p' p → pipe_run [] (Some p) (Some p').
Proof.
  destruct p as [q o], p' as [q' o']. intros [->|[Hp Ho]]; [constructor|].
  simpl in *. subst. eapply run_cut; [done|constructor].
Qed.

Lemma pipe_run_app l1 l2 p1 p2 p3 : pipe_run l1 p1 p2 → pipe_run l2 p2 p3 → pipe_run (l1 ++ l2) p1 p3.
Proof. induction 1; intros; simpl; [done|..]; econstructor; eauto. Qed.

Lemma run_push_le bs q (o : bool) p' :
  pipe_le p' (mkPipe (if o then q ++ bs else q) o) → pipe_run [Push bs] (Some (mkPipe q o)) (Some p').
Proof. intros Hp. destruct o; constructor; by apply run_tau. Qed.

Lemma run_pop_le bs q o p' :
  pipe_le p' (mkPipe q o) → pipe_run [Pop bs] (Some (mkPipe (bs ++ q) o)) (Some p').
Proof. intros Hp. constructor. by apply run_tau. Qed.

Lemma run_new_le p' : p_queue p' = [] → pipe_run [New] None (Some p').
Proof.
  destruct p' as [q o]. simpl. intros ->. constructor. apply run_tau. destruct o; [by left|by right].
Qed.

(** ** Views of an endpoint *)

(** Streams have distinct ids, and a sender belongs to the stream it is filed
    under. *)
Record ep_ok (e : Endpoint) : Prop := {
  ok_ids : NoDup (mc_id <$> ep_conns e);
  ok_streams : ∀ id a, ep_streams e !! id = Some a →
    ∃ c, ep_conns e !! a = Some c ∧ mc_id c = id;
}.

Definition keeps_id (g : MuxConn → MuxConn) : Prop := ∀ c, mc_id (g c) = mc_id c.

Lemma ids_alter g (a : nat) (cs : list MuxConn) : keeps_id g → mc_id <$> alter g a cs = mc_id <$> cs.
Proof.
  intros Hg. revert a. induction cs as [|c cs IH]; intros [|a]; csimpl; [done..| |]; f_equal; auto.
Qed.

Lemma ep_ok_alter g a e : keeps_id g → ep_ok e → ep_ok (alter_conn a g e).
Proof.
  intros Hg [Hi Hs]. split; simpl; [by rewrite ids_alter|].
  intros id b Hb. destruct (Hs id b Hb) as (c & Hc & E).
  destruct (decide (a = b)) as [->|].
  - exists (g c). rewrite list_lookup_alter_eq, Hc. simpl. by rewrite Hg.
  - exists c. by rewrite list_lookup_alter_ne.
Qed.

Lemma ep_ok_remove id e : ep_ok e → ep_ok (remove_stream id e).
Proof.
  intros [Hi Hs]. split; simpl; [done|]. intros i a [_ H]%lookup_delete_Some. by apply Hs.
Qed.

Lemma ep_ok_insert id p e :
  id ∉ mc_id <$> ep_conns e → ep_ok e → ep_ok (insert_stream id p e).
Proof.
  intros Hid [Hi Hs]. split; simpl.
  - rewrite fmap_app. apply NoDup_app. split; [done|]. split; [|apply NoDup_singleton].
    intros x Hx ->%list_elem_of_singleton. done.
  - intros i a [[<- <-]|[Hne Ha]]%lookup_insert_Some.
    + exists (mkMuxConn id [] true p). by rewrite list_lookup_middle.
    + destruct (Hs i a Ha) as (c & Hc & E). exists c. split; [|done].
      rewrite lookup_app_l; [done|]. by eapply lookup_lt_Some.
Qed.

(** The view of a stream that exists, and of one that does not. *)
Lemma view_conn e a c :
  ep_ok e → ep_conns e !! a = Some c →
  view e (mc_id c) = if mc_rx c && bool_decide (ep_streams e !! mc_id c = Some a)
                     then VLive (mc_buf c) else VDead (mc_buf c).
Proof.
  intros [Hi _] Hc. unfold view.
  assert (list_find (fun c' => mc_id c' = mc_id c) (ep_conns e) = Some (a, c)) as ->; [|done].
  apply list_find_Some. split; [done|]. split; [done|]. intros j y Hj Hlt E.
  assert (j = a); [|lia]. eapply NoDup_lookup; [exact Hi|..]; rewrite list_lookup_fmap.
  - by rewrite Hj; simpl; rewrite E.
  - by rewrite Hc.
Qed.

Lemma view_none e id : id ∉ mc_id <$> ep_conns e → view e id = VNone.
Proof.
  intros Hid. unfold view. destruct (list_find _ _) as [[a c]|] eqn:E; [|done].
  apply list_find_Some in E as (Hc & Hi & _). destruct Hid. subst.
  apply list_elem_of_fmap. exists c. split; [done|]. by eapply list_elem_of_lookup_2.
Qed.

Lemma list_find_alter_ne {A} (P : A → Prop) `{∀ x, Decision (P x)} (g : A → A) a l x :
  l !! a = Some x → ¬ P x → ¬ P (g x) → list_find P (alter g a l) = list_find P l.
Proof.
  intros Hx Hn Hn'. revert a Hx. induction l as [|y l IH]; intros [|a] Hx; simpl in *; simplify_eq.
  - by rewrite !decide_False.
  - change (list_alter g a l) with (alter g a l). by rewrite (IH a Hx).
Qed.

Lemma view_alter_ne e a c g id :
  keeps_id g → ep_conns e !! a = Some c → mc_id c ≠ id → view (alter_conn a g e) id = view e id.
Proof.
  intros Hg Hc Hne. unfold view. simpl.
  rewrite (list_find_alter_ne _ _ _ _ c); [done..|]. by rewrite Hg.
Qed.

Lemma view_alter_eq e a c g :
  keeps_id g → ep_ok e → ep_conns e !! a = Some c →
  view (alter_conn a g e) (mc_id c)
  = if mc_rx (g c) && bool_decide (ep_streams e !! mc_id c = Some a)
    then VLive (mc_buf (g c)) else VDead (mc_buf (g c)).
Proof.
  intros Hg Hok Hc. rewrite <- (Hg c). rewrite (view_conn _ a); simpl; [by rewrite Hg|by apply ep_ok_alter|].
  by rewrite list_lookup_alter_eq, Hc.
Qed.

Definition kill (v : View) : View := match v with VLive b => VDead b | _ => v end.

Lemma view_remove e i id :
  view (remove_stream i e) id = if i =? id then kill (view e id) else view e id.
Proof.
  unfold view. simpl. destruct (list_find _ _) as [[a c]|]; [|by destruct (_ =? _)].
  destruct (Z.eqb_spec i id) as [->|Hne].
  - rewrite lookup_delete_eq. rewrite (bool_decide_eq_false_2 (None = _)) by done.
    rewrite andb_false_r. by destruct (_ && _).
  - by rewrite lookup_delete_ne.
Qed.

Lemma view_insert e i p id :
  ep_ok e → i ∉ mc_id <$> ep_conns e →
  view (insert_stream i p e) id = if i =? id then VLive [] else view e id.
Proof.
  intros Hok Hi. pose proof (ep_ok_insert i p e Hi Hok) as Hok'.
  destruct (Z.eqb_spec i id) as [<-|Hne].
  - change i with (mc_id (mkMuxConn i [] true p)) at 2.
    rewrite (view_conn _ (length (ep_conns e))); [|done|simpl; by rewrite list_lookup_middle].
    simpl. rewrite lookup_insert_eq. by rewrite bool_decide_eq_true_2.
  - unfold view. simpl. rewrite lookup_insert_ne by done.
    destruct (list_find _ (ep_conns e)) as [[a c]|] eqn:E.
    + by rewrite (list_find_app_l _ _ _ _ _ E).
    + rewrite (list_find_app_r _ _ _ E). simpl. by rewrite decide_False.
Qed.

(** ** What the tasks do to an endpoint *)

(** The part of a stream that says whether its [Open] was sent. *)
Definition mc_sig (c : MuxConn) : Z * bool := (mc_id c, bool_decide (mc_phase c = Opening)).

(** Frames that only cut. *)
Definition quiet (f : MuxFrame) : Prop := match f with MClose _ | MPing | MPong => True | _ => False end.

(** [e'] is [e] after steps of its tasks that neither make streams nor move
    bytes, with [gs] sent. *)
Record calm (e e' : Endpoint) (gs : list MuxFrame) : Prop := {
  calm_sig : mc_sig <$> ep_conns e' = mc_sig <$> ep_conns e;
  calm_streams : ep_streams e' ⊆ ep_streams e;
  calm_in : ep_in e' = ep_in e;
  calm_end : ep_end e' = ep_end e;
  calm_next : ep_next e' = ep_next e;
  calm_tx : ep_tx e' = ep_tx e;
  calm_frames : ep_frames e' = ep_frames e ++ gs;
}.

Lemma calm_refl e : calm e e [].
Proof. split; try done. by rewrite app_nil_r. Qed.

Lemma calm_trans e1 e2 e3 gs hs : calm e1 e2 gs → calm e2 e3 hs → calm e1 e3 (gs ++ hs).
Proof.
  intros [] []. split; try congruence; [by etrans|].
  rewrite app_assoc. congruence.
Qed.

Lemma sig_alter g a e : (∀ c, ep_conns e !! a = Some c → mc_sig (g c) = mc_sig c) →
  mc_sig <$> ep_conns (alter_conn a g e) = mc_sig <$> ep_conns e.
Proof.
  simpl. generalize (ep_conns e) as cs. intros cs. revert a.
  induction cs as [|c cs IH]; intros [|a] Hg; csimpl; [done..| |]; f_equal; auto.
Qed.

Lemma calm_alter g a e : (∀ c, ep_conns e !! a = Some c → mc_sig (g c) = mc_sig c) → calm e (alter_conn a g e) [].
Proof. intros Hg. split; try done; [by apply sig_alter|by rewrite app_nil_r]. Qed.

Lemma calm_remove id e : calm e (remove_stream id e) [].
Proof. split; try done; [apply delete_subseteq|by rewrite app_nil_r]. Qed.

Lemma calm_send f e : calm e (send_frame_ f e) (if ep_tx e then [f] else []).
Proof.
  unfold send_frame_, send_frame. destruct (ep_tx e) eqn:E; [|apply calm_refl].
  split; simpl; try done; by rewrite E.
Qed.

Lemma calm_ep_ok e e' gs : calm e e' gs → ep_ok e → ep_ok e'.
Proof.
  intros [Hs Hss _ _ _ _ _] [Hi Hst].
  assert (mc_id <$> ep_conns e' = mc_id <$> ep_conns e) as Hids.
  { apply (f_equal (fmap (M := list) fst)) in Hs. by rewrite <- !list_fmap_compose in Hs. }
  split; [by rewrite Hids|]. intros id a Ha. destruct (Hst id a) as (c & Hc & E).
  { by eapply lookup_weaken. }
  apply (f_equal (fun l => l !! a)) in Hids. rewrite !list_lookup_fmap, Hc in Hids. simpl in Hids.
  destruct (ep_conns e' !! a) as [c'|]; [|done]. exists c'. split; [done|]. simplify_eq/=. congruence.
Qed.

(** Reading a frame does to the view of a stream what [vstep] says, and sends
    at most a quiet frame about the same stream. *)
Lemma view_on_data e i p id : ep_ok e →
  view (on_data i p e) id = vstep Srv id (view e id) (MData i p).
Proof.
  intros Hok. unfold on_data. destruct (ep_streams e !! i) as [a|] eqn:Es.
  - destruct (ok_streams e Hok i a Es) as (c & Hc & <-). rewrite Hc. destruct (mc_rx c) eqn:Hrx.
    + destruct (Z.eqb_spec (mc_id c) id) as [<-|Hne].
      * rewrite (view_alter_eq e a c), (view_conn e a c) by done. simpl. rewrite Hrx, Es.
        rewrite bool_decide_eq_true_2 by done. simpl. by rewrite Z.eqb_refl.
      * rewrite (view_alter_ne e a c) by done. simpl. destruct (view e id); try done.
        by rewrite (proj2 (Z.eqb_neq _ _)).
    + rewrite view_remove. simpl. destruct (Z.eqb_spec (mc_id c) id) as [<-|]; [|by destruct (view e id)].
      rewrite (view_conn e a c) by done. by rewrite Hrx.
  - transitivity (view e id); [by unfold send_frame_, send_frame; destruct (ep_tx e)|].
    simpl. destruct (view e id) as [|b|b] eqn:Ev; try done.
    destruct (Z.eqb_spec i id) as [->|]; [|done]. exfalso. revert Ev. unfold view.
    destruct (list_find _ _) as [[a c]|]; [|done]. rewrite Es, bool_decide_eq_false_2, andb_false_r; done.
Qed.

Lemma view_on_frame s f e id :
  ep_ok e → (∀ i, s = Cli → f = MOpen i → i ∉ mc_id <$> ep_conns e) →
  view (on_frame s f e) id = vstep s id (view e id) f.
Proof.
  intros Hok Hopen.
  assert (∀ g, view (send_frame_ g e) id = view e id) as Hsend.
  { intros g. by unfold send_frame_, send_frame; destruct (ep_tx e). }
  destruct f as [i|i p|i| |], s; simpl; rewrite ?view_remove, ?Hsend;
    try (rewrite view_on_data by done); try done; try (by destruct (view e id)).
  - rewrite view_insert by auto. destruct (Z.eqb_spec i id) as [<-|].
    + rewrite view_none by auto. by rewrite bool_decide_eq_true_2.
    + destruct (view e id); [|done..]. by rewrite bool_decide_eq_false_2 by naive_solver.
  - by destruct (view e id), (_ =? _).
  - by destruct (view e id), (_ =? _).
Qed.

Lemma calm_on_frame s f e :
  (∀ i, s = Cli → f ≠ MOpen i) →
  ∃ gs, calm e (on_frame s f e) gs ∧
    (gs = [] ∨ gs = [MPong] ∨ ∃ i p, f = MData i p ∧ gs = [MClose i]).
Proof.
  intros Hopen. assert (∀ g, ∃ gs, calm e (send_frame_ g e) gs ∧ (gs = [] ∨ gs = [g])) as Hsend.
  { intros g. eexists. split; [apply calm_send|]. destruct (ep_tx e); auto. }
  assert (∀ i p, ∃ gs, calm e (on_data i p e) gs ∧ (gs = [] ∨ gs = [MClose i])) as Hdata.
  { intros i p. unfold on_data. destruct (ep_streams e !! i); [|apply Hsend].
    exists []. split; [|by left]. do 2 (case_match; try apply calm_remove). by apply calm_alter. }
  destruct f as [i|i p|i| |], s; simpl;
    try (exists []; split; [first [apply calm_refl|apply calm_remove]|by left]);
    try (destruct (Hdata i p) as (gs & ? & ?); exists gs; split; [done|]; naive_solver);
    try (destruct (Hsend MPong) as (gs & ? & ?); exists gs; split; [done|]; naive_solver).
  by destruct (Hopen i).
Qed.

(** ** The invariant and the abstraction *)

Definition ended (e : Endpoint) : bool := match ep_end e with None => false | Some _ => true end.

Definition no_open (f : MuxFrame) : Prop := match f with MOpen _ => False | _ => True end.
Definition open_id (f : MuxFrame) : option Z := match f with MOpen i => Some i | _ => None end.
(** The ids the client has or will hear of. *)
Definition open_ids (t : Tunnel) (fs : list MuxFrame) : list Z :=
  (mc_id <$> ep_conns (t_cli t)) ++ omap open_id (fs ++ ep_frames (t_srv t)).

(** A frame about one of the [n] streams the server has opened. *)
Definition frame_in (n : nat) (f : MuxFrame) : Prop :=
  match f with
  | MOpen i | MClose i => 1 ≤ i ≤ Z.of_nat n
  | MData i p => 1 ≤ i ≤ Z.of_nat n ∧ blen p ≤ 16 * 1024
  | MPing | MPong => True
  end.

Definition incomplete (bs : bytes) : Prop :=
  ∃ f k, mux_frame_ok f ∧ (k < length (mux_bytes f))%nat ∧ bs = take k (mux_bytes f).

(** The bytes that [s] can still read are the frames [fs] and perhaps a part of
    one whose writer broke. *)
Definition wire (t : Tunnel) (s : Side) (fs : list MuxFrame) : Prop :=
  ∃ p, incomplete p ∧
    (if ended (ep s t) then ep_in (ep s t) else ep_in (ep s t) ++ net s t)
      = concat (mux_bytes <$> fs) ++ p ∧
    (ended (ep s t) = false → ep_tx (ep (other s) t) = true → p = []).

(** Stream [id] of direction [s] exists, for the socket that feeds it. *)
Definition is_opened (t : Tunnel) (s : Side) (id : Z) : bool :=
  existsb (fun x => (x.1 =? id) && (bool_decide (s = Srv) || negb x.2)) (mc_sig <$> ep_conns (t_srv t)).

Definition nconns (t : Tunnel) : nat := length (ep_conns (t_srv t)).

(** [fs s] are the frames on the connection towards [s]. *)
Record tunnel_inv (t : Tunnel) (fs : Side → list MuxFrame) : Prop := {
  inv_next : ep_next (t_srv t) = wrap 32 (1 + Z.of_nat (nconns t));
  inv_ids : ∀ a c, ep_conns (t_srv t) !! a = Some c → mc_id c = 1 + Z.of_nat a;
  inv_len : Z.of_nat (nconns t) < 2 ^ 32;
  inv_streams : ∀ s id a, ep_streams (ep s t) !! id = Some a →
    ∃ c, ep_conns (ep s t) !! a = Some c ∧ mc_id c = id;
  inv_opens : NoDup (open_ids t (fs Cli));
  inv_opened : ∀ id, id ∈ open_ids t (fs Cli) → is_opened t Cli id = true;
  inv_frames : ∀ s, Forall (frame_in (nconns t)) (fs s ++ ep_frames (ep (other s) t));
  inv_wire : ∀ s, wire t s (fs s);
}.

Definition flow (t : Tunnel) (fs : Side → list MuxFrame) (s : Side) : list MuxFrame :=
  if ep_reader (ep s t)
  then fs s ++ (if ended (ep s t) then [] else ep_frames (ep (other s) t)) else [].
Definition up (t : Tunnel) (s : Side) : bool :=
  ep_reader (ep s t) && ep_tx (ep (other s) t) && negb (ended (ep s t)).

(** The abstract state of a tunnel. *)
Definition pipes (t : Tunnel) (fs : Side → list MuxFrame) (s : Side) (id : Z) : option Pipe :=
  if is_opened t s id then Some (pipe_at s id (view (ep s t) id) (flow t fs s) (up t s)) else None.

Lemma is_opened_spec t s id :
  is_opened t s id = true ↔
  ∃ a c, ep_conns (t_srv t) !! a = Some c ∧ mc_id c = id ∧ (s = Srv ∨ mc_phase c ≠ Opening).
Proof.
  unfold is_opened. rewrite existsb_True. split.
  - intros (x & (c & -> & [a Ha]%list_elem_of_lookup)%list_elem_of_fmap & [E1%Z.eqb_eq E2]%andb_true_iff).
    exists a, c. split_and!; [done..|]. apply orb_true_iff in E2 as [E2%bool_decide_eq_true|E2]; [by left|].
    right. simpl in E2. by apply negb_true_iff, bool_decide_eq_false in E2.
  - intros (a & c & Hc & <- & Hs). exists (mc_sig c). split; [apply list_elem_of_fmap; eauto using list_elem_of_lookup_2|].
    simpl. rewrite Z.eqb_refl. simpl. apply orb_true_iff. destruct Hs; [left|right].
    + by apply bool_decide_eq_true.
    + by apply negb_true_iff, bool_decide_eq_false.
Qed.

Lemma incomplete_nil : incomplete [].
Proof. exists MPing, 0%nat. simpl. split_and!; [done|lia|done]. Qed.

Lemma frame_in_ok n f : Z.of_nat n < 2 ^ 32 → frame_in n f → mux_frame_ok f.
Proof. unfold frame_in, mux_frame_ok, in_u, MAX_FRAME_PAYLOAD. destruct f; lia. Qed.

Lemma frame_in_mono n m f : (n ≤ m)%nat → frame_in n f → frame_in m f.
Proof. unfold frame_in. destruct f; lia. Qed.

Lemma inv_ep_ok t fs s : tunnel_inv t fs → ep_ok (ep s t).
Proof.
  intros I. split; [|by apply (inv_streams _ _ I s)]. destruct s.
  - apply NoDup_alt. intros i j x Hi Hj. rewrite list_lookup_fmap in Hi, Hj. simpl in Hi, Hj.
    destruct (ep_conns (t_srv t) !! i) as [c|] eqn:Ei; [|done].
    destruct (ep_conns (t_srv t) !! j) as [d|] eqn:Ej; [|done].
    apply (inv_ids _ _ I) in Ei. apply (inv_ids _ _ I) in Ej. simplify_eq/=. lia.
  - pose proof (inv_opens _ _ I) as H. unfold open_ids in H. by apply NoDup_app in H as [? _].
Qed.

Lemma omap_no_open gs : Forall no_open gs → omap open_id gs = [].
Proof. induction 1 as [|f gs Hf _ IH]; [done|]. csimpl. rewrite IH. by destruct f. Qed.

Lemma calm_ids e e' gs : calm e e' gs → mc_id <$> ep_conns e' = mc_id <$> ep_conns e.
Proof.
  intros [Hs _ _ _ _ _ _]. apply (f_equal (fmap (M := list) fst)) in Hs.
  by rewrite <- !list_fmap_compose in Hs.
Qed.

Lemma calm_length e e' gs : calm e e' gs → length (ep_conns e') = length (ep_conns e).
Proof. intros [Hs _ _ _ _ _ _]. apply (f_equal length) in Hs. by rewrite !length_fmap in Hs. Qed.

Lemma ep_set_eq s e t : ep s (set_ep s e t) = e.
Proof. by destruct s. Qed.
Lemma ep_set_other s e t : ep (other s) (set_ep s e t) = ep (other s) t.
Proof. by destruct s. Qed.
Lemma net_set_ep s s' e t : net s (set_ep s' e t) = net s t.
Proof. by destruct s, s'. Qed.
Lemma other_other s : other (other s) = s.
Proof. by destruct s. Qed.
Lemma side_cases s B : B = s ∨ B = other s.
Proof. destruct s, B; auto. Qed.
#[export] Hint Rewrite ep_set_eq ep_set_other net_set_ep other_other : arp.

(** Calm steps keep the invariant. *)
Lemma calm_opened t s e' gs B id :
  calm (ep s t) e' gs → is_opened (set_ep s e' t) B id = is_opened t B id.
Proof. intros [Hs _ _ _ _ _ _]. unfold is_opened. destruct s; simpl in *; by rewrite ?Hs. Qed.

Lemma calm_nconns t s e' gs : calm (ep s t) e' gs → nconns (set_ep s e' t) = nconns t.
Proof. intros Hc. unfold nconns. destruct s; [by apply (calm_length _ _ _ Hc)|done]. Qed.

Lemma calm_wire t s e' gs B fs : calm (ep s t) e' gs → wire t B fs → wire (set_ep s e' t) B fs.
Proof.
  intros [_ _ Hin Hend _ Htx _] (p & Hp & E & Ht). exists p. split; [done|]. unfold ended in *.
  destruct s, B; simpl in *; rewrite ?Hin, ?Hend, ?Htx; auto.
Qed.

Lemma inv_calm t fs s e' gs :
  tunnel_inv t fs → calm (ep s t) e' gs → Forall no_open gs → Forall (frame_in (nconns t)) gs →
  tunnel_inv (set_ep s e' t) fs.
Proof.
  intros I Hc Ho Hin. pose proof (calm_ids _ _ _ Hc) as Hids.
  assert (open_ids (set_ep s e' t) (fs Cli) = open_ids t (fs Cli)) as Hopen.
  { unfold open_ids. destruct s; simpl in *; [|by rewrite Hids].
    rewrite (calm_frames _ _ _ Hc), app_assoc, omap_app, (omap_no_open gs) by done. by rewrite app_nil_r. }
  split.
  - rewrite (calm_nconns _ _ _ _ Hc), <- (inv_next _ _ I). destruct s; [apply (calm_next _ _ _ Hc)|done].
  - destruct s; [|apply (inv_ids _ _ I)]. simpl in *. intros a c Ha.
    apply (f_equal (.!! a)) in Hids. rewrite !list_lookup_fmap, Ha in Hids. simpl in Hids.
    destruct (ep_conns (t_srv t) !! a) as [c0|] eqn:E; [|done].
    rewrite <- (inv_ids _ _ I a c0 E). by simplify_eq/=.
  - rewrite (calm_nconns _ _ _ _ Hc). apply I.
  - intros B. destruct (side_cases s B) as [->| ->]; autorewrite with arp; [|by apply (inv_streams _ _ I)].
    apply ok_streams. eapply calm_ep_ok; [done|]. by eapply inv_ep_ok.
  - rewrite Hopen. apply I.
  - intros id Hid. rewrite Hopen in Hid. rewrite (calm_opened _ _ _ _ _ _ Hc). by apply (inv_opened _ _ I).
  - intros B. rewrite (calm_nconns _ _ _ _ Hc). pose proof (inv_frames _ _ I B) as HF.
    destruct (side_cases s B) as [->| ->]; autorewrite with arp in *; [done|].
    rewrite (calm_frames _ _ _ Hc), app_assoc. by apply Forall_app.
  - intros B. eapply calm_wire; [done|]. apply I.
Qed.

(** And only cut pipes, when they send quiet frames and only close streams. *)
Lemma pipe_le_frames s id v fl u gs :
  Forall quiet gs → pipe_le (pipe_at s id v (fl ++ gs) u) (pipe_at s id v fl u).
Proof.
  intros Hgs. revert fl. induction Hgs as [|g gs Hg _ IH]; intros fl; [rewrite app_nil_r; by left|].
  rewrite cons_middle, app_assoc. eapply pipe_le_trans; [apply IH|]. by apply pipe_le_frame.
Qed.

Lemma pipes_tau t fs t' fs' s id :
  is_opened t' s id = is_opened t s id →
  pipe_le (pipe_at s id (view (ep s t') id) (flow t' fs' s) (up t' s))
          (pipe_at s id (view (ep s t) id) (flow t fs s) (up t s)) →
  pipe_run [] (pipes t fs s id) (pipes t' fs' s id).
Proof. intros E H. unfold pipes. rewrite E. destruct (is_opened t s id); [by apply run_tau|constructor]. Qed.

Lemma pipes_calm t fs s e' gs B id :
  calm (ep s t) e' gs → ep_reader e' = ep_reader (ep s t) → Forall quiet gs →
  (∀ id, view_le (view e' id) (view (ep s t) id)) →
  pipe_run [] (pipes t fs B id) (pipes (set_ep s e' t) fs B id).
Proof.
  intros Hc Hr Hq Hv. apply pipes_tau; [by eapply calm_opened|].
  unfold flow, up, ended. destruct (side_cases s B) as [->| ->]; autorewrite with arp.
  - rewrite (calm_end _ _ _ Hc), Hr. by apply pipe_le_view.
  - rewrite (calm_tx _ _ _ Hc), (calm_frames _ _ _ Hc).
    destruct (ep_reader (ep (other s) t)), (ep_end (ep (other s) t)); try (by left).
    rewrite app_assoc. by apply pipe_le_frames.
Qed.

(** ** The simulation, event by event *)

(** From [t] to [t'] with labels [ls], all pipes make the corresponding runs. *)
Definition simulates (t : Tunnel) (fs : Side → list MuxFrame) (r : Tunnel * list Label) : Prop :=
  ∃ fs', tunnel_inv r.1 fs' ∧ ∀ B id, pipe_run (project B id r.2) (pipes t fs B id) (pipes r.1 fs' B id).

Lemma simulates_refl t fs : tunnel_inv t fs → simulates t fs (t, []).
Proof. intros I. exists fs. split; [done|constructor]. Qed.

Lemma sim_calm t fs s e' gs :
  tunnel_inv t fs → calm (ep s t) e' gs → ep_reader e' = ep_reader (ep s t) →
  Forall quiet gs → Forall (frame_in (nconns t)) gs →
  (∀ id, view_le (view e' id) (view (ep s t) id)) →
  simulates t fs (set_ep s e' t, []).
Proof.
  intros I Hc Hr Hq Hf Hv. exists fs. split; [|intros B id; by eapply pipes_calm].
  eapply inv_calm; [done|done| |done]. eapply Forall_impl; [exact Hq|]. by intros [].
Qed.

Lemma view_le_refl v : view_le v v.
Proof. by left. Qed.
Lemma view_le_kill v : view_le (kill v) v.
Proof. destruct v as [|b|b]; [by left| |by left]. right. eauto. Qed.
Lemma view_le_trans v1 v2 v3 : view_le v1 v2 → view_le v2 v3 → view_le v1 v3.
Proof.
  intros [->|(Hp & b & E)] [->|(Hp' & b' & E')]; [by left|by right; eauto|by right; eauto|].
  right. split; [by etrans|eauto].
Qed.
#[export] Hint Resolve view_le_refl view_le_kill : arp.

Lemma view_le_alter e a c g id :
  ep_ok e → ep_conns e !! a = Some c → keeps_id g →
  mc_rx (g c) = mc_rx c ∧ mc_buf (g c) = mc_buf c ∨ mc_rx (g c) = false ∧ mc_buf (g c) = [] →
  view_le (view (alter_conn a g e) id) (view e id).
Proof.
  intros Hok E Hg Hc.
  destruct (decide (mc_id c = id)) as [<-|]; [|rewrite (view_alter_ne e a c) by done; by left].
  rewrite (view_alter_eq e a c), (view_conn e a c) by done.
  destruct Hc as [[-> ->]|[-> ->]]; [by left|]. right. simpl.
  split; [apply prefix_nil|eauto].
Qed.

(** A task that changes its stream [c], after [e] went calmly to [e1]. *)
Lemma sim_task t fs s a c g e1 gs :
  tunnel_inv t fs → calm (ep s t) e1 gs → ep_reader e1 = ep_reader (ep s t) →
  Forall quiet gs → Forall (frame_in (nconns t)) gs →
  (∀ id, view_le (view e1 id) (view (ep s t) id)) →
  ep_conns e1 !! a = Some c → keeps_id g → mc_sig (g c) = mc_sig c →
  mc_rx (g c) = mc_rx c ∧ mc_buf (g c) = mc_buf c ∨ mc_rx (g c) = false ∧ mc_buf (g c) = [] →
  simulates t fs (set_ep s (alter_conn a g e1) t, []).
Proof.
  intros I Hc Hr Hq Hf Hv Ha Hk Hs Hg. rewrite <- (app_nil_r gs) in Hc, Hq, Hf.
  eapply (sim_calm _ _ _ _ (gs ++ [])); [done| |done..|].
  - rewrite app_nil_r in Hc. eapply calm_trans; [done|]. apply calm_alter.
    intros c0 E. by replace c0 with c by congruence.
  - intros id. eapply view_le_trans; [|apply Hv]. eapply view_le_alter; [|done..].
    eapply calm_ep_ok; [done|]. by eapply inv_ep_ok.
Qed.

Lemma conn_frame_in t fs s a c :
  tunnel_inv t fs → ep_conns (ep s t) !! a = Some c →
  1 ≤ mc_id c ≤ Z.of_nat (nconns t) ∧ is_opened t Srv (mc_id c) = true ∧
  (s = Cli ∨ mc_phase c ≠ Opening → is_opened t Cli (mc_id c) = true).
Proof.
  intros I Hc. assert (is_opened t Srv (mc_id c) = true ∧
    (s = Cli ∨ mc_phase c ≠ Opening → is_opened t Cli (mc_id c) = true)) as [H1 H2].
  { destruct s.
    { split; [apply is_opened_spec; exists a, c; auto|]. intros [?|Hp]; [done|].
      apply is_opened_spec. exists a, c. auto. }
    assert (is_opened t Cli (mc_id c) = true) as H.
    { apply (inv_opened _ _ I). apply elem_of_app. left. apply list_elem_of_fmap. exists c.
      split; [done|]. by eapply list_elem_of_lookup_2. }
    split; [|done]. apply is_opened_spec in H as (b & d & ? & ? & _). apply is_opened_spec.
    exists b, d. auto. }
  split; [|done]. apply is_opened_spec in H1 as (b & d & Hd & <- & _).
  rewrite (inv_ids _ _ I b d Hd). apply lookup_lt_Some in Hd. unfold nconns. lia.
Qed.

Lemma in_phase_spec ps c : in_phase ps c = true ↔ mc_phase c ∈ ps.
Proof. apply bool_decide_eq_true. Qed.

Lemma sig_phase c p : mc_phase c ≠ Opening → p ≠ Opening → mc_sig (set_phase p c) = mc_sig c.
Proof. intros H1 H2. unfold mc_sig. simpl. by rewrite !bool_decide_eq_false_2. Qed.
Lemma sig_finish c : mc_phase c ≠ Opening → mc_sig ((set_phase Finished ∘ drop_rx) c) = mc_sig c.
Proof. intros H1. unfold mc_sig. simpl. by rewrite !bool_decide_eq_false_2. Qed.

Lemma view_send f e id : view (send_frame_ f e) id = view e id.
Proof. unfold send_frame_, send_frame. by destruct (ep_tx e). Qed.
Lemma conns_send f e : ep_conns (send_frame_ f e) = ep_conns e.
Proof. unfold send_frame_, send_frame. by destruct (ep_tx e). Qed.
Lemma reader_send f e : ep_reader (send_frame_ f e) = ep_reader e.
Proof. unfold send_frame_, send_frame. by destruct (ep_tx e). Qed.

(** Removing a stream, or sending its [Close], and changing its task. *)
Lemma sim_remove_task t fs s a c g :
  tunnel_inv t fs → ep_conns (ep s t) !! a = Some c → keeps_id g → mc_sig (g c) = mc_sig c →
  mc_rx (g c) = mc_rx c ∧ mc_buf (g c) = mc_buf c ∨ mc_rx (g c) = false ∧ mc_buf (g c) = [] →
  simulates t fs (set_ep s (alter_conn a g (remove_stream (mc_id c) (ep s t))) t, []).
Proof.
  intros I Hc Hk Hs Hg. eapply (sim_task _ _ _ _ c _ _ []); try done; [apply calm_remove|].
  intros id. rewrite view_remove. case_match; auto with arp.
Qed.

Lemma sim_close_task t fs s a c g :
  tunnel_inv t fs → ep_conns (ep s t) !! a = Some c → keeps_id g → mc_sig (g c) = mc_sig c →
  mc_rx (g c) = mc_rx c ∧ mc_buf (g c) = mc_buf c ∨ mc_rx (g c) = false ∧ mc_buf (g c) = [] →
  simulates t fs (set_ep s (alter_conn a g (send_frame_ (MClose (mc_id c)) (ep s t))) t, []).
Proof.
  intros I Hc Hk Hs Hg. destruct (conn_frame_in t fs s a c I Hc) as [Hid _].
  eapply (sim_task _ _ _ _ c); [done|apply calm_send|apply reader_send|..]; try done.
  - destruct (ep_tx _); by repeat constructor.
  - destruct (ep_tx _); [|done]. constructor; [simpl; lia|done].
  - intros id. rewrite view_send. auto with arp.
  - by rewrite conns_send.
Qed.

Lemma sim_phase t fs s a c p :
  tunnel_inv t fs → ep_conns (ep s t) !! a = Some c → mc_phase c ≠ Opening → p ≠ Opening →
  simulates t fs (set_ep s (alter_conn a (set_phase p) (ep s t)) t, []).
Proof.
  intros I Hc H1 H2. eapply (sim_task _ _ _ _ c _ _ []); try done; auto with arp;
    [apply calm_refl|by apply sig_phase].
Qed.

Lemma sim_drop t fs s a c g :
  tunnel_inv t fs → ep_conns (ep s t) !! a = Some c → keeps_id g → mc_sig (g c) = mc_sig c →
  mc_rx (g c) = false → mc_buf (g c) = [] →
  simulates t fs (set_ep s (alter_conn a g (ep s t)) t, []).
Proof.
  intros I Hc Hk Hs Hr Hb. eapply (sim_task _ _ _ _ c _ _ []); try done; auto with arp. apply calm_refl.
Qed.

(** The projections of the labels of a step. *)
Lemma project_one B id s i l :
  project B id [(s, i, l)] = if bool_decide (s = B ∧ i = id) then [l] else [].
Proof.
  unfold project. csimpl. destruct (decide (s = B ∧ i = id)) as [[-> ->]|Hne].
  - by rewrite !bool_decide_eq_true_2.
  - rewrite !bool_decide_eq_false_2; naive_solver.
Qed.

(** A payload enters the pipe of its stream. *)
Lemma pipe_push s id v fl u bs :
  pipe_run [Push bs] (Some (pipe_at s id v fl u))
    (Some (pipe_at s id v (if u then fl ++ [MData id bs] else fl) u)).
Proof.
  unfold pipe_at. destruct u; [|rewrite andb_false_r; apply run_push_le; by left].
  rewrite vrun_app. simpl. destruct (vrun s id v fl) as [|b|b]; simpl; apply run_push_le; try by left.
  rewrite Z.eqb_refl. simpl. rewrite concat_app. simpl. rewrite app_nil_r. by left.
Qed.

Lemma pipe_data_ne s id v fl u i bs : i ≠ id → pipe_at s id v (fl ++ [MData i bs]) u = pipe_at s id v fl u.
Proof.
  intros Hne. unfold pipe_at. rewrite vrun_app. simpl. destruct (vrun s id v fl); try done.
  by rewrite (proj2 (Z.eqb_neq _ _)).
Qed.

Lemma sim_count t fs s n m ls t' : simulates t fs (t', ls) → simulates t fs (count s n m t', ls).
Proof.
  intros (fs' & I & H). exists fs'. destruct s; [|done]. split; [|exact H].
  destruct I. by split.
Qed.

Lemma fed_is_opened t fs s a c :
  tunnel_inv t fs → ep_conns (ep s t) !! a = Some c → mc_phase c ≠ Opening →
  is_opened t Srv (mc_id c) = true ∧ is_opened t Cli (mc_id c) = true.
Proof. intros I Hc Hp. destruct (conn_frame_in t fs s a c I Hc) as (_ & ? & ?). auto. Qed.

(** Sending a payload: [e'] is the end that sends, with [MData] queued when the
    writer is there. *)
Lemma pipes_push t fs s a c e' bs B id :
  tunnel_inv t fs → ep_conns (ep s t) !! a = Some c → mc_phase c ≠ Opening →
  calm (ep s t) e' (if ep_tx (ep s t) then [MData (mc_id c) bs] else []) →
  ep_reader e' = ep_reader (ep s t) → (∀ id, view e' id = view (ep s t) id) →
  pipe_run (project B id [(other s, mc_id c, Push bs)]) (pipes t fs B id) (pipes (set_ep s e' t) fs B id).
Proof.
  intros I Hc Hp Hcalm Hr Hv. rewrite project_one. unfold pipes. rewrite (calm_opened _ _ _ _ _ _ Hcalm).
  unfold flow, up, ended. destruct (side_cases s B) as [->| ->]; autorewrite with arp.
  { rewrite bool_decide_eq_false_2 by (intros [? _]; by destruct s).
    rewrite Hv, Hr, (calm_end _ _ _ Hcalm). constructor. }
  rewrite (calm_frames _ _ _ Hcalm), (calm_tx _ _ _ Hcalm).
  destruct (decide (mc_id c = id)) as [<-|Hne].
  - rewrite bool_decide_eq_true_2 by done. destruct (fed_is_opened t fs s a c I Hc Hp) as [H1 H2].
    replace (is_opened t (other s) (mc_id c)) with true by (by destruct s).
    destruct (ep_reader (ep (other s) t)), (ep_tx (ep s t)), (ep_end (ep (other s) t));
      rewrite ?app_nil_r, ?app_assoc; first [apply (pipe_push _ _ _ _ true)|apply (pipe_push _ _ _ _ false)].
  - rewrite bool_decide_eq_false_2 by naive_solver. destruct (is_opened t (other s) id); [|constructor].
    apply run_tau. left. destruct (ep_reader (ep (other s) t)), (ep_tx (ep s t)), (ep_end (ep (other s) t));
      rewrite ?app_nil_r, ?app_assoc; try done. by apply pipe_data_ne.
Qed.

Lemma sim_push t fs s a c b bs :
  tunnel_inv t fs → ep_conns (ep s t) !! a = Some c → mc_phase c = Relaying →
  blen (b :: bs) ≤ 16 * 1024 →
  simulates t fs (set_ep s (stream_read s a c (Ok (b :: bs)) (ep s t)) t,
                  [(other s, mc_id c, Push (b :: bs))]).
Proof.
  intros I Hc Hp Hl. destruct (conn_frame_in t fs s a c I Hc) as [Hid _].
  assert (mc_phase c ≠ Opening) as Hno by (by rewrite Hp).
  set (e' := stream_read s a c (Ok (b :: bs)) (ep s t)).
  assert (calm (ep s t) e' (if ep_tx (ep s t) then [MData (mc_id c) (b :: bs)] else []) ∧
    ep_reader e' = ep_reader (ep s t) ∧ ∀ id, view e' id = view (ep s t) id) as (H1 & H2 & H3).
  { replace e' with (forward_read a c (b :: bs) (ep s t)) by (by destruct s).
    unfold forward_read, send_data, send_frame. destruct (ep_tx (ep s t)) eqn:Et.
    - by split_and!.
    - split_and!; [|done|].
      + apply calm_alter. intros c0 E. replace c0 with c by congruence. by apply sig_phase.
      + intros id. destruct (decide (mc_id c = id)) as [<-|]; [|by rewrite (view_alter_ne _ _ c)].
        pose proof (inv_ep_ok t fs s I). by rewrite (view_alter_eq _ _ c), (view_conn _ a c) by done. }
  exists fs. split; [|intros B id; by eapply pipes_push].
  eapply inv_calm; [done..| |]; destruct (ep_tx (ep s t)); repeat constructor; done || lia.
Qed.

(** A payload leaves the pipe of its stream. *)
Lemma pipe_pop s id v d r fl u (live : bool) :
  v = (if live then VLive (d :: r) else VDead (d :: r)) →
  pipe_run [Pop d] (Some (pipe_at s id v fl u))
    (Some (pipe_at s id (if live then VLive r else VDead r) fl u)) ∧
  ∀ k, pipe_run [Pop (take k d)] (Some (pipe_at s id v fl u)) (Some (pipe_at s id (VDead []) fl u)).
Proof.
  intros ->.
  assert (∃ q o, pipe_at s id (if live then VLive (d :: r) else VDead (d :: r)) fl u = mkPipe (d ++ q) o ∧
    pipe_at s id (if live then VLive r else VDead r) fl u = mkPipe q o) as (q & o & -> & ->).
  { unfold pipe_at. destruct live.
    - rewrite vrun_pop, vbuf_vcons, vlive_vcons. simpl. eauto.
    - rewrite !vrun_dead. simpl. eauto. }
  split; [apply run_pop_le; by left|]. intros k.
  rewrite <- (take_drop k d) at 2. rewrite <- app_assoc. apply run_pop_le.
  unfold pipe_at. rewrite vrun_dead. simpl. right. split; [apply prefix_nil|done].
Qed.

Lemma view_cases e a c d r :
  ep_ok e → ep_conns e !! a = Some c → mc_rx c = true → mc_buf c = d :: r →
  ∃ live : bool, view e (mc_id c) = (if live then VLive (d :: r) else VDead (d :: r)) ∧
    view (alter_conn a (set_buf r) e) (mc_id c) = (if live then VLive r else VDead r) ∧
    view (alter_conn a drop_rx e) (mc_id c) = VDead [].
Proof.
  intros Hok Hc Hrx Hb. exists (bool_decide (ep_streams e !! mc_id c = Some a)).
  rewrite (view_conn e a c), !(view_alter_eq e a c) by done. simpl. by rewrite Hrx, Hb.
Qed.

Lemma sim_pop t fs s a c g out :
  tunnel_inv t fs → ep_conns (ep s t) !! a = Some c → keeps_id g → mc_sig (g c) = mc_sig c →
  (∀ fl u, pipe_run [Pop out] (Some (pipe_at s (mc_id c) (view (ep s t) (mc_id c)) fl u))
    (Some (pipe_at s (mc_id c) (view (alter_conn a g (ep s t)) (mc_id c)) fl u))) →
  simulates t fs (set_ep s (alter_conn a g (ep s t)) t, [(s, mc_id c, Pop out)]).
Proof.
  intros I Hc Hk Hs Hrun. assert (calm (ep s t) (alter_conn a g (ep s t)) []) as Hcalm.
  { apply calm_alter. intros c0 E. by replace c0 with c by congruence. }
  exists fs. split; [by eapply inv_calm|]. intros B id. cbn [fst snd]. rewrite project_one.
  unfold pipes. simpl. rewrite (calm_opened _ _ _ _ _ _ Hcalm). unfold flow, up, ended.
  destruct (side_cases s B) as [->| ->]; autorewrite with arp; simpl.
  - destruct (decide (mc_id c = id)) as [<-|Hne].
    + rewrite bool_decide_eq_true_2 by done. destruct (conn_frame_in t fs s a c I Hc) as (_ & H1 & H2).
      replace (is_opened t s (mc_id c)) with true by (destruct s; [done|by rewrite H2; auto]).
      apply Hrun.
    + rewrite bool_decide_eq_false_2 by naive_solver. rewrite (view_alter_ne _ _ c) by done. constructor.
  - rewrite bool_decide_eq_false_2 by (intros [? _]; by destruct s). constructor.
Qed.

Lemma sim_pump t fs s a c fail :
  tunnel_inv t fs → ep_conns (ep s t) !! a = Some c → mc_rx c = true →
  simulates t fs
    (let '(e, out) := pump_step a c fail (ep s t) in
     match out with
     | Some (data, written) => (count s 0 (blen data) (set_ep s e t), [(s, mc_id c, Pop written)])
     | None => (set_ep s e t, [])
     end).
Proof.
  intros I Hc Hrx. unfold pump_step. destruct (mc_buf c) as [|d r] eqn:Hb.
  - destruct (has_sender a (ep s t)); [|by eapply sim_drop].
    eapply (sim_calm _ _ _ _ []); try done; auto with arp. apply calm_refl.
  - destruct (view_cases (ep s t) a c d r) as (live & Hv & Hv1 & Hv2);
      [by eapply inv_ep_ok|done..|].
    destruct fail as [k|]; apply sim_count, sim_pop; try done; intros fl u; rewrite ?Hv1, ?Hv2;
      by eapply pipe_pop.
Qed.

(** ** Opening a stream *)

(** Frames about other streams leave a view alone. *)
Lemma vrun_other s id v fs :
  Forall (fun f => match f with MOpen i | MData i _ | MClose i => i ≠ id | _ => True end) fs →
  vrun s id v fs = v.
Proof.
  induction 1 as [|f fs Hf _ IH]; [done|]. rewrite vrun_cons.
  assert (vstep s id v f = v) as ->; [|done].
  destruct f, v; simpl; try done; try (by rewrite (proj2 (Z.eqb_neq _ _))).
  by rewrite bool_decide_eq_false_2 by naive_solver.
Qed.

Lemma vrun_unopened s id fs : id ∉ omap open_id fs → vrun s id VNone fs = VNone.
Proof.
  induction fs as [|f fs IH]; intros Hid; [done|]. rewrite vrun_cons. csimpl in Hid.
  destruct f as [i|i p|i| |]; simpl in *; [|auto..]. apply not_elem_of_cons in Hid as [Hne Hid].
  rewrite bool_decide_eq_false_2 by naive_solver. auto.
Qed.

Lemma flow_Forall (P : MuxFrame → Prop) t fs s :
  Forall P (fs s ++ ep_frames (ep (other s) t)) → Forall P (flow t fs s).
Proof.
  intros [H1 H2]%Forall_app. unfold flow. destruct (ep_reader _); [|done].
  apply Forall_app. split; [done|]. by destruct (ended _).
Qed.

Lemma is_opened_alloc t e id s n p :
  ep_conns e = ep_conns (t_srv t) ++ [mkMuxConn n [] true p] →
  is_opened (set_ep Srv e t) s id
  = is_opened t s id || ((n =? id) && (bool_decide (s = Srv) || negb (bool_decide (p = Opening)))).
Proof.
  intros E. unfold is_opened. simpl. rewrite E, fmap_app, existsb_app. simpl. by rewrite orb_false_r.
Qed.

Lemma next_fresh t fs :
  tunnel_inv t fs → 1 + Z.of_nat (nconns t) < 2 ^ 32 →
  ep_next (t_srv t) = 1 + Z.of_nat (nconns t) ∧ ep_next (t_srv t) ∉ mc_id <$> ep_conns (t_srv t).
Proof.
  intros I Hlen. assert (ep_next (t_srv t) = 1 + Z.of_nat (nconns t)) as Hn.
  { rewrite (inv_next _ _ I). apply wrap_small. unfold in_u. lia. }
  split; [done|]. intros (c & Hc & [b Hb]%list_elem_of_lookup)%list_elem_of_fmap.
  pose proof (inv_ids _ _ I b c Hb). apply lookup_lt_Some in Hb. unfold nconns in Hn. lia.
Qed.

Lemma inv_alloc t fs :
  tunnel_inv t fs → 1 + Z.of_nat (nconns t) < 2 ^ 32 →
  tunnel_inv (set_ep Srv (open_stream_alloc (t_srv t)) t) fs.
Proof.
  intros I Hlen. destruct (next_fresh t fs I Hlen) as [Hn Hfresh].
  set (t' := set_ep Srv (open_stream_alloc (t_srv t)) t).
  assert (nconns t' = S (nconns t)) as Hnc.
  { unfold nconns, t', open_stream_alloc, insert_stream. simpl. rewrite length_app. simpl. lia. }
  assert (ep_ok (t_srv t')) as Hok.
  { pose proof (inv_ep_ok t fs Srv I) as Hok. apply (ep_ok_insert (ep_next (t_srv t)) Opening) in Hok as [H1 H2].
    { by split. }
    done. }
  split.
  - rewrite Hnc. simpl. rewrite Hn. f_equal. lia.
  - intros a c Ha. simpl in Ha. apply lookup_app_Some in Ha as [Ha|[Hge Ha]]; [by apply (inv_ids _ _ I)|].
    apply list_lookup_singleton_Some in Ha as [Ha <-]. simpl. rewrite Hn. unfold nconns. lia.
  - rewrite Hnc. lia.
  - intros [|]; [apply (ok_streams _ Hok)|apply (inv_streams _ _ I Cli)].
  - apply (inv_opens _ _ I).
  - intros id Hid. unfold t'. erewrite is_opened_alloc by done. by rewrite (inv_opened _ _ I).
  - intros s. rewrite Hnc. eapply (Forall_impl (frame_in (nconns t))).
    + pose proof (inv_frames _ _ I s). by destruct s.
    + intros f. apply frame_in_mono. lia.
  - intros s. pose proof (inv_wire _ _ I s) as Hw. by destruct s.
Qed.

Lemma sim_alloc t fs :
  tunnel_inv t fs → 1 + Z.of_nat (nconns t) < 2 ^ 32 → simulates t fs (tunnel_step EAlloc t).
Proof.
  intros I Hlen. exists fs. split; [by apply inv_alloc|]. intros B id. cbn [tunnel_step fst snd].
  rewrite project_one. unfold pipes. erewrite is_opened_alloc by done.
  destruct (next_fresh t fs I Hlen) as [Hn Hfresh].
  assert (∀ s, is_opened t s (ep_next (t_srv t)) = false) as Hno.
  { intros s. apply not_true_is_false. intros (b & c & Hb & Hc & _)%is_opened_spec.
    apply Hfresh, list_elem_of_fmap. eauto using list_elem_of_lookup_2. }
  destruct B; simpl; [|rewrite andb_false_r, orb_false_r; constructor].
  change (view (open_stream_alloc ?e) id) with (view (insert_stream (ep_next e) Opening e) id).
  rewrite (view_insert _ _ _ _ (inv_ep_ok t fs Srv I) Hfresh), andb_true_r.
  destruct (Z.eqb_spec (ep_next (t_srv t)) id) as [<-|Hne].
  - rewrite bool_decide_eq_true_2, Hno by done. apply run_new_le. unfold pipe_at. simpl.
    rewrite vrun_other; [done|]. apply flow_Forall. simpl.
    eapply Forall_impl; [apply (inv_frames _ _ I Srv)|]. intros [] Hf; simpl in *; lia || done.
  - rewrite bool_decide_eq_false_2, orb_false_r by naive_solver. constructor.
Qed.

(** The frame [Open] of a stream goes out: [g] is what becomes of its task. *)
Lemma opened_send t fs a c g e :
  tunnel_inv t fs → ep_conns (t_srv t) !! a = Some c → mc_phase c = Opening →
  keeps_id g → mc_phase (g c) ≠ Opening → ep_conns e = alter g a (ep_conns (t_srv t)) →
  ∀ B id, is_opened (set_ep Srv e t) B id = is_opened t B id || (mc_id c =? id).
Proof.
  intros I Hc Hp Hk Hg E B id. apply eq_true_iff_eq. rewrite orb_true_iff, Z.eqb_eq, !is_opened_spec.
  simpl. rewrite E. split.
  - intros (b & d & Hb & <- & Hd). rewrite list_lookup_alter in Hb. case_decide; simplify_eq; [|left; by exists b, d].
    rewrite Hc in Hb. simplify_eq/=. rewrite Hk. by right.
  - intros [(b & d & Hb & <- & Hd)|<-].
    + destruct (decide (a = b)) as [<-|]; [|exists b, d; by rewrite list_lookup_alter_ne].
      replace d with c by congruence. exists a, (g c). rewrite list_lookup_alter_eq, Hc, Hk. auto.
    + exists a, (g c). rewrite list_lookup_alter_eq, Hc, Hk. auto.
Qed.

Lemma opening_unknown t fs a c :
  tunnel_inv t fs → ep_conns (t_srv t) !! a = Some c → mc_phase c = Opening →
  is_opened t Cli (mc_id c) = false ∧ is_opened t Srv (mc_id c) = true ∧ mc_id c ∉ open_ids t (fs Cli).
Proof.
  intros I Hc Hp. assert (is_opened t Cli (mc_id c) = false) as Hno.
  { apply not_true_is_false. intros (b & d & Hb & E & [?|Hd])%is_opened_spec; [done|].
    rewrite (inv_ids _ _ I _ _ Hc), (inv_ids _ _ I _ _ Hb) in E. assert (b = a) as -> by lia. congruence. }
  split_and!; [done|apply is_opened_spec; exists a, c; auto|].
  intros Hin%(inv_opened _ _ I). congruence.
Qed.

(** The end of [open_stream], with [gs] sent. *)
Definition opening_step (a : nat) (g : MuxConn → MuxConn) (gs : list MuxFrame) (e : Endpoint) : Endpoint :=
  alter_conn a g (set_frames (ep_frames e ++ gs) (ep_tx e) e).

Lemma open_stream_send_eq a id e :
  ∃ g gs, open_stream_send a id e = opening_step a g gs e ∧ keeps_id g ∧
    (ep_tx e = true ∧ gs = [MOpen id] ∧ g = set_phase Relaying ∨
     ep_tx e = false ∧ gs = [] ∧ g = set_phase Finished ∘ drop_rx).
Proof.
  unfold open_stream_send, send_frame, opening_step. destruct (ep_tx e) eqn:Et.
  - exists (set_phase Relaying), [MOpen id]. split_and!; [done|by intros|auto].
  - exists (set_phase Finished ∘ drop_rx), []. rewrite app_nil_r. split_and!; [|by intros|auto].
    destruct e. simpl in *. by subst.
Qed.

Lemma inv_open t fs a c g gs :
  tunnel_inv t fs → ep_conns (t_srv t) !! a = Some c → mc_phase c = Opening →
  keeps_id g → mc_phase (g c) ≠ Opening → gs = [MOpen (mc_id c)] ∨ gs = [] →
  tunnel_inv (set_ep Srv (opening_step a g gs (t_srv t)) t) fs.
Proof.
  intros I Hc Hp Hk Hg Hgs. destruct (opening_unknown t fs a c I Hc Hp) as (Hno & _ & Hnew).
  destruct (conn_frame_in t fs Srv a c I Hc) as [Hid _].
  set (t' := set_ep Srv (opening_step a g gs (t_srv t)) t).
  assert (∀ B id, is_opened t' B id = is_opened t B id || (mc_id c =? id)) as Hop.
  { eapply opened_send; done. }
  assert (nconns t' = nconns t) as Hnc by (unfold nconns; simpl; by rewrite length_alter).
  assert (open_ids t' (fs Cli) = open_ids t (fs Cli) ++ omap open_id gs) as Hids.
  { unfold open_ids. simpl. by rewrite app_assoc, omap_app, app_assoc. }
  split.
  - rewrite Hnc. apply (inv_next _ _ I).
  - simpl. intros b d Hb. rewrite list_lookup_alter in Hb. case_decide; [|by apply (inv_ids _ _ I)].
    subst. rewrite Hc in Hb. simplify_eq/=. rewrite Hk. by apply (inv_ids _ _ I).
  - rewrite Hnc. apply I.
  - intros [|]; [|apply (inv_streams _ _ I Cli)]. apply ok_streams. simpl. apply ep_ok_alter; [done|].
    destruct (inv_ep_ok t fs Srv I). by split.
  - rewrite Hids. apply NoDup_app. split; [apply I|]. destruct Hgs as [->| ->]; simpl; [|split; [set_solver|constructor]].
    split; [|apply NoDup_singleton]. intros x Hx ->%list_elem_of_singleton. done.
  - intros id Hin. rewrite Hids in Hin. rewrite Hop. apply orb_true_iff.
    apply elem_of_app in Hin as [Hin|Hin]; [left; by apply (inv_opened _ _ I)|right]. apply Z.eqb_eq.
    destruct Hgs as [->| ->]; simpl in Hin; set_solver.
  - intros s. rewrite Hnc. pose proof (inv_frames _ _ I s) as HF. destruct s; [done|]. simpl.
    rewrite app_assoc. apply Forall_app. split; [done|]. destruct Hgs as [->| ->]; [|done]. by apply Forall_singleton.
  - intros s. pose proof (inv_wire _ _ I s) as Hw. by destruct s.
Qed.

Lemma sim_send_open t fs a c :
  tunnel_inv t fs → ep_conns (t_srv t) !! a = Some c → mc_phase c = Opening →
  simulates t fs (set_ep Srv (open_stream_send a (mc_id c) (t_srv t)) t, [(Cli, mc_id c, New)]).
Proof.
  intros I Hc Hp. destruct (opening_unknown t fs a c I Hc Hp) as (Hno & Hyes & Hnew).
  destruct (open_stream_send_eq a (mc_id c) (t_srv t)) as (g & gs & -> & Hk & Hcase).
  assert (mc_phase (g c) ≠ Opening) as Hg by (destruct Hcase as [(_ & _ & ->)|(_ & _ & ->)]; done).
  exists fs. split; [eapply inv_open; naive_solver|]. intros B id. cbn [fst snd]. rewrite project_one.
  unfold pipes. rewrite (opened_send t fs a c g) by done. unfold flow, up, ended. destruct B; simpl.
  - destruct (is_opened t Srv id) eqn:Eo; simpl.
    + apply run_tau, pipe_le_view.
      change (view (opening_step a g gs (t_srv t)) id) with (view (alter_conn a g (t_srv t)) id).
      eapply view_le_alter; [by apply (inv_ep_ok t fs Srv)|done..|].
      destruct Hcase as [(_ & _ & ->)|(_ & _ & ->)]; simpl; auto.
    + destruct (Z.eqb_spec (mc_id c) id) as [<-|]; [congruence|constructor].
  - apply not_elem_of_app in Hnew as [Hn1 Hn2]. rewrite omap_app in Hn2. apply not_elem_of_app in Hn2 as [Hn2 Hn3].
    destruct (Z.eqb_spec (mc_id c) id) as [<-|Hne].
    + rewrite bool_decide_eq_true_2, Hno by done. simpl. apply run_new_le. unfold pipe_at. simpl.
      rewrite view_none by done. destruct (ep_reader _); [|done].
      rewrite vrun_app, vrun_unopened by done. destruct (ep_end _); [done|].
      rewrite vrun_app, vrun_unopened by done.
      destruct Hcase as [(_ & -> & _)|(_ & -> & _)]; simpl; [|done]. by rewrite bool_decide_eq_true_2.
    + rewrite bool_decide_eq_false_2, orb_false_r by naive_solver.
      destruct (is_opened t Cli id); [|constructor]. apply run_tau. left. unfold pipe_at.
      destruct (ep_reader _), (ep_end _); try done. rewrite app_assoc, vrun_app, (vrun_other _ _ _ gs); [done|].
      destruct Hcase as [(_ & -> & _)|(_ & -> & _)]; [by apply Forall_singleton|done].
Qed.

(** ** The wire *)

(** Steps of the writers and of the network leave the streams alone. *)
Record same_streams (t t' : Tunnel) : Prop := {
  same_conns s : ep_conns (ep s t') = ep_conns (ep s t);
  same_map s : ep_streams (ep s t') = ep_streams (ep s t);
  same_reader s : ep_reader (ep s t') = ep_reader (ep s t);
  same_next : ep_next (t_srv t') = ep_next (t_srv t);
}.

Lemma omap_sublist {A B} (h : A → option B) l k : l `sublist_of` k → omap h l `sublist_of` omap h k.
Proof.
  induction 1 as [|x l k _ IH|x l k _ IH]; csimpl; [done|..]; destruct (h x); by try constructor.
Qed.

Lemma inv_transport t fs t' fs' :
  tunnel_inv t fs → same_streams t t' →
  (∀ s, fs' s ++ ep_frames (ep (other s) t') `sublist_of` fs s ++ ep_frames (ep (other s) t)) →
  (∀ s, wire t' s (fs' s)) → tunnel_inv t' fs'.
Proof.
  intros I Hs Hsub Hw.
  pose proof (same_conns _ _ Hs Srv) as Hc1. pose proof (same_conns _ _ Hs Cli) as Hc2. simpl in *.
  assert (nconns t' = nconns t) as Hnc by (unfold nconns; by rewrite Hc1).
  assert (open_ids t' (fs' Cli) `sublist_of` open_ids t (fs Cli)) as Hids.
  { unfold open_ids. rewrite Hc2. apply sublist_app; [done|]. apply omap_sublist, (Hsub Cli). }
  split.
  - rewrite Hnc, (same_next _ _ Hs). apply I.
  - rewrite Hc1. apply I.
  - rewrite Hnc. apply I.
  - intros s. rewrite (same_map _ _ Hs), (same_conns _ _ Hs). apply I.
  - eapply sublist_NoDup; [apply I|done].
  - intros id Hid. unfold is_opened. rewrite Hc1. apply (inv_opened _ _ I).
    eapply elem_of_submseteq; [done|]. by apply sublist_submseteq.
  - intros s. rewrite Hnc. apply Forall_forall. intros f Hf.
    eapply Forall_forall; [apply (inv_frames _ _ I s)|].
    eapply elem_of_submseteq; [done|]. apply sublist_submseteq, Hsub.
  - done.
Qed.

Lemma sim_transport t fs t' fs' :
  tunnel_inv t fs → same_streams t t' →
  (∀ s, fs' s ++ ep_frames (ep (other s) t') `sublist_of` fs s ++ ep_frames (ep (other s) t)) →
  (∀ s, wire t' s (fs' s)) →
  (∀ s, flow t' fs' s = flow t fs s ∧ up t' s = up t s ∨
        flow t' fs' s `prefix_of` flow t fs s ∧ up t' s = false) →
  simulates t fs (t', []).
Proof.
  intros I Hs Hsub Hw Hf. exists fs'. split; [by eapply inv_transport|]. intros B id. apply pipes_tau.
  - pose proof (same_conns _ _ Hs Srv) as Hc. simpl in *. unfold is_opened. by rewrite Hc.
  - assert (view (ep B t') id = view (ep B t) id) as Hv.
    { unfold view. by rewrite (same_conns _ _ Hs), (same_map _ _ Hs). }
    simpl. rewrite Hv. destruct (Hf B) as [[-> ->]|[Hp ->]]; [by left|by apply pipe_le_flow].
Qed.

Lemma sim_net t fs s n : tunnel_inv t fs → simulates t fs (tunnel_step (ENet s n) t).
Proof.
  intros I. simpl. destruct (ep_end (ep s t)) eqn:He; [by apply simulates_refl|].
  apply (sim_transport _ _ _ fs); [done|..].
  - split; try intros s'; destruct s; try destruct s'; done.
  - intros s'. destruct s, s'; done.
  - intros s'. destruct (inv_wire _ _ I s') as (p & Hp & E & Ht). exists p. split; [done|].
    unfold ended in *. destruct s, s'; simpl in *; rewrite ?He in *; try done;
      (split; [by rewrite <- app_assoc, take_drop|done]).
  - intros s'. left. unfold flow, up, ended. destruct s, s'; simpl in *; by rewrite ?He.
Qed.

(** Cutting the bytes of frames anywhere leaves frames and an incomplete one. *)
Lemma incomplete_part f a k : mux_frame_ok f → mux_bytes f = a ++ k → k ≠ [] → incomplete a.
Proof.
  intros Hf E Hk. exists f, (length a). split_and!; [done| |by rewrite E, take_app_length].
  rewrite E, length_app. destruct k; [done|]. simpl. lia.
Qed.

Lemma wire_cut fs p (a b : bytes) :
  Forall mux_frame_ok fs → incomplete p → a ++ b = concat (mux_bytes <$> fs) ++ p →
  ∃ gs q, gs `prefix_of` fs ∧ incomplete q ∧ a = concat (mux_bytes <$> gs) ++ q.
Proof.
  intros Hfs Hp. revert a. induction Hfs as [|f fs Hf _ IH]; intros a E.
  - simpl in E. destruct Hp as (f & k & Hf & Hk & ->). exists [], a. split_and!; [done| |done].
    apply (incomplete_part f _ (b ++ drop k (mux_bytes f))); [done|by rewrite app_assoc, E, take_drop|].
    intros [_ Hd]%app_nil. apply (f_equal length) in Hd. rewrite length_drop in Hd. simpl in Hd. lia.
  - csimpl in E. rewrite <- app_assoc in E. apply app_eq_inv in E as [(k & -> & E)|(k & E & _)].
    + destruct (IH k (eq_sym E)) as (gs & q & Hgs & Hq & ->). exists (f :: gs), q.
      split_and!; [by apply prefix_cons|done|]. csimpl. by rewrite <- app_assoc.
    + destruct k as [|x k].
      * exists [f], []. rewrite app_nil_r in E. csimpl. rewrite !app_nil_r, E.
        split_and!; [by apply prefix_cons, prefix_nil|apply incomplete_nil|done].
      * exists [], a. split_and!; [apply prefix_nil|by eapply incomplete_part|done].
Qed.

Lemma inv_wire_ok t fs s : tunnel_inv t fs → Forall mux_frame_ok (fs s).
Proof.
  intros I. pose proof (inv_frames _ _ I s) as [H _]%Forall_app.
  eapply Forall_impl; [done|]. intros f. apply frame_in_ok, I.
Qed.

Definition upd (s : Side) (l : list MuxFrame) (fs : Side → list MuxFrame) : Side → list MuxFrame :=
  fun s' => if decide (s' = s) then l else fs s'.

Lemma upd_eq s l fs : upd s l fs s = l.
Proof. unfold upd. by rewrite decide_True. Qed.
Lemma upd_other s l fs : upd s l fs (other s) = fs (other s).
Proof. unfold upd. rewrite decide_False; [done|]. by destruct s. Qed.
Lemma upd_other' s l fs : upd (other s) l fs s = fs s.
Proof. unfold upd. rewrite decide_False; [done|]. by destruct s. Qed.
#[export] Hint Rewrite upd_eq upd_other upd_other' : arp.

Lemma sim_end t fs s how : tunnel_inv t fs → simulates t fs (tunnel_step (EEnd s how) t).
Proof.
  intros I. simpl. destruct (ep_end (ep s t)) eqn:He; [by apply simulates_refl|].
  destruct (inv_wire _ _ I s) as (p & Hp & E & Ht). unfold ended in E. rewrite He in E.
  destruct (wire_cut (fs s) p _ _ (inv_wire_ok t fs s I) Hp E) as (gs & q & Hgs & Hq & Ea).
  apply (sim_transport _ _ _ (upd s gs fs)); [done|..].
  - split; try intros s'; destruct s; try destruct s'; done.
  - intros s'. destruct (side_cases s s') as [->| ->]; autorewrite with arp; [|by destruct s].
    apply sublist_app; [|by destruct s]. destruct Hgs as [k ->]. by apply sublist_inserts_r.
  - intros s'. destruct (side_cases s s') as [->| ->]; autorewrite with arp.
    + exists q. unfold ended. autorewrite with arp. simpl. by rewrite Ea.
    + destruct (inv_wire _ _ I (other s)) as (p' & Hp' & E' & Ht'). exists p'.
      unfold ended in *. autorewrite with arp in *. done.
  - intros s'. unfold flow, up, ended. destruct (side_cases s s') as [->| ->]; autorewrite with arp; simpl.
    + right. rewrite He, andb_false_r, app_nil_r. split; [|done].
      destruct (ep_reader _); [|done]. etrans; [exact Hgs|]. by apply prefix_app_r.
    + by left.
Qed.

(** The writer task moves its frame to the wire, or breaks in it. *)
Lemma writer_step_cases t s fail :
  (writer_step fail (ep s t) = (ep s t, [])) ∨
  ∃ f fr, ep_tx (ep s t) = true ∧ ep_frames (ep s t) = f :: fr ∧
    (writer_step fail (ep s t) = (set_frames fr true (ep s t), mux_bytes f) ∨
     ∃ k, writer_step fail (ep s t) = (set_frames [] false (ep s t), take k (mux_bytes f))).
Proof.
  unfold writer_step. destruct (ep_tx (ep s t)); [|by left].
  destruct (ep_frames (ep s t)) as [|f fr]; [by left|]. right. exists f, fr. split_and!; [done..|].
  pose proof (write_mux_frame_writes f (mkWriter [] fail)) as H.
  destruct (write_mux_frame f (mkWriter [] fail)) as [w [[]|e]]; simpl in *; subst.
  - left. by rewrite H.
  - right. destruct H as [k ->]. eauto.
Qed.

Lemma sim_net_id t fs s : tunnel_inv t fs → simulates t fs (set_net (other s) (net (other s) t ++ []) (set_ep s (ep s t) t), []).
Proof.
  intros I. rewrite app_nil_r. replace (set_net _ _ _) with t; [by apply simulates_refl|]. by destruct s, t.
Qed.

(** One write: [bs] goes out, the queue of [s] becomes [fr], and [gs] are the
    frames on the wire afterwards. *)
Lemma sim_write t fs s fr tx bs gs :
  tunnel_inv t fs → ep_tx (ep s t) = true →
  gs ++ fr `sublist_of` fs (other s) ++ ep_frames (ep s t) →
  (∃ p, incomplete p ∧ (if ended (ep (other s) t) then ep_in (ep (other s) t)
                        else ep_in (ep (other s) t) ++ net (other s) t ++ bs)
                       = concat (mux_bytes <$> gs) ++ p ∧
        (ended (ep (other s) t) = false → tx = true → p = [])) →
  (gs ++ (if ended (ep (other s) t) then [] else fr)
    = fs (other s) ++ (if ended (ep (other s) t) then [] else ep_frames (ep s t)) ∧ tx = true ∨
   gs ++ (if ended (ep (other s) t) then [] else fr)
    `prefix_of` fs (other s) ++ (if ended (ep (other s) t) then [] else ep_frames (ep s t)) ∧ tx = false) →
  simulates t fs (set_net (other s) (net (other s) t ++ bs) (set_ep s (set_frames fr tx (ep s t)) t), []).
Proof.
  intros I Htx Hsub Hw Hf. apply (sim_transport _ _ _ (upd (other s) gs fs)); [done|..].
  - split; try intros s'; destruct s; try destruct s'; done.
  - intros s'. destruct (side_cases s s') as [->| ->]; autorewrite with arp; by destruct s.
  - intros s'. destruct (side_cases s s') as [->| ->]; autorewrite with arp.
    + pose proof (inv_wire _ _ I s) as (p & ? & ? & ?). exists p. by destruct s.
    + by destruct s.
  - intros s'. unfold flow, up. destruct (side_cases s s') as [->| ->]; autorewrite with arp.
    + left. by destruct s.
    + destruct Hf as [[Hf ->]|[Hf ->]]; [left|right]; destruct s; simpl in *; rewrite ?Htx, ?andb_false_r;
        split; try done; by destruct (ep_reader _); rewrite ?Hf.
Qed.

Lemma sim_writer t fs s fail : tunnel_inv t fs → simulates t fs (tunnel_step (EWriter s fail) t).
Proof.
  intros I. cbn [tunnel_step].
  destruct (writer_step_cases t s fail) as [->|(f & fr & Htx & Hfr & Hw)]; [by apply sim_net_id|].
  destruct (inv_wire _ _ I (other s)) as (p & Hp & E & Ht). rewrite other_other, Htx in Ht.
  pose proof (inv_frames _ _ I (other s)) as HF. rewrite other_other, Hfr in HF.
  apply Forall_app in HF as [_ [Hf%(frame_in_ok _ _ (inv_len _ _ I)) _]%Forall_cons].
  destruct (ended (ep (other s) t)) eqn:Hend.
  - destruct Hw as [->|[k ->]];
      (apply (sim_write _ _ _ _ _ _ (fs (other s))); [done|done| |rewrite Hend; by exists p|rewrite Hend; auto]);
      rewrite Hfr; (apply sublist_app; [done|]); [by apply sublist_cons|apply sublist_nil_l].
  - rewrite (Ht eq_refl eq_refl), app_nil_r in E.
    assert (ep_in (ep (other s) t) ++ net (other s) t ++ mux_bytes f
            = concat (mux_bytes <$> (fs (other s) ++ [f])) ++ []) as E'.
    { rewrite app_assoc, E, fmap_app, concat_app. simpl. by rewrite !app_nil_r. }
    assert (fs (other s) ++ [] `sublist_of` fs (other s) ++ ep_frames (ep s t)) as Hs0
      by (apply sublist_app; [done|apply sublist_nil_l]).
    assert ((fs (other s) ++ [f]) ++ [] `sublist_of` fs (other s) ++ ep_frames (ep s t)) as Hs1.
    { rewrite app_nil_r. apply sublist_app; [done|]. rewrite Hfr. apply sublist_skip, sublist_nil_l. }
    destruct Hw as [->|[k ->]].
    + apply (sim_write _ _ _ _ _ _ (fs (other s) ++ [f])); rewrite ?Hend, ?Hfr, <- ?app_assoc; try done.
      * exists []. split_and!; [apply incomplete_nil|done|done].
      * by left.
    + destruct (decide (k < length (mux_bytes f))%nat) as [Hk|Hk].
      * apply (sim_write _ _ _ _ _ _ (fs (other s))); rewrite ?Hend; try done.
        -- exists (take k (mux_bytes f)). split_and!; [by exists f, k|by rewrite app_assoc, E|done].
        -- right. split; [|done]. rewrite app_nil_r. by apply prefix_app_r.
      * rewrite take_ge by lia.
        apply (sim_write _ _ _ _ _ _ (fs (other s) ++ [f])); rewrite ?Hend; try done.
        -- exists []. split_and!; [apply incomplete_nil|done|done].
        -- right. split; [|done]. rewrite app_nil_r, Hfr. apply prefix_app, prefix_cons, prefix_nil.
Qed.

(** ** The reader loops *)

Lemma read_incomplete p e : incomplete p → ∃ r io, read_mux_frame (mkReader p e) = (r, Err (Error.Io io)).
Proof. intros (f & k & Hf & Hk & ->). by apply (parses_mux f Hf). Qed.

Lemma set_ep_twice s e e' t : set_ep s e (set_ep s e' t) = set_ep s e t.
Proof. by destruct s. Qed.
Lemma set_ep_id s t : set_ep s (ep s t) t = t.
Proof. by destruct s, t. Qed.

(** Taking a frame off the wire. *)
Lemma inv_consume t fs s f fs' rest :
  tunnel_inv t fs → ep_reader (ep s t) = true → fs s = f :: fs' → ep_in (ep s t) = mux_bytes f ++ rest →
  tunnel_inv (set_ep s (set_in true rest (ep_end (ep s t)) (ep s t)) t) (upd s fs' fs).
Proof.
  intros I Hr Hfs Hin. eapply inv_transport; [done|..].
  - split; try intros s'; destruct s; try destruct s'; done.
  - intros s'. destruct (side_cases s s') as [->| ->]; autorewrite with arp; [|by destruct s].
    rewrite Hfs. simpl. apply sublist_cons. by destruct s.
  - intros s'. destruct (side_cases s s') as [->| ->]; autorewrite with arp.
    + destruct (inv_wire _ _ I s) as (p & Hp & E & Ht). exists p. unfold ended in *.
      autorewrite with arp. simpl. rewrite Hfs, Hin in E. csimpl in E.
      split; [done|]. split; [|done]. destruct (ep_end (ep s t)); rewrite <- !app_assoc in E;
        by apply app_inv_head in E.
    + destruct (inv_wire _ _ I (other s)) as (p & ? & ? & ?). exists p. unfold ended in *.
      autorewrite with arp in *. done.
Qed.

(** The client makes the stream an [Open] announces. *)
Lemma inv_insert_cli t fs i :
  tunnel_inv t fs → i ∉ open_ids t (fs Cli) → is_opened t Cli i = true →
  tunnel_inv (set_ep Cli (insert_stream i Connecting (t_cli t)) t) fs.
Proof.
  intros I Hnew Hop. assert (i ∉ mc_id <$> ep_conns (t_cli t)) as Hi.
  { intros H. apply Hnew, elem_of_app. by left. }
  assert (open_ids (set_ep Cli (insert_stream i Connecting (t_cli t)) t) (fs Cli) ≡ₚ i :: open_ids t (fs Cli)) as Hp.
  { unfold open_ids. simpl. rewrite fmap_app. simpl. rewrite <- app_assoc. symmetry. apply Permutation_middle. }
  split; try apply I.
  - intros [|]; [apply (inv_streams _ _ I Srv)|].
    apply (ok_streams _ (ep_ok_insert i Connecting _ Hi (inv_ep_ok t fs Cli I))).
  - rewrite Hp. constructor; [done|apply I].
  - intros id. rewrite Hp. intros [->|Hid]%elem_of_cons; [done|]. by apply (inv_opened _ _ I).
  - intros s. pose proof (inv_frames _ _ I s). by destruct s.
  - intros s. pose proof (inv_wire _ _ I s). by destruct s.
Qed.

Lemma open_ids_consume t fs i fs' rest :
  fs Cli = MOpen i :: fs' → NoDup (open_ids t (fs Cli)) →
  (i ∉ open_ids (set_ep Cli (set_in true rest (ep_end (t_cli t)) (t_cli t)) t) fs') ∧
  i ∈ open_ids t (fs Cli).
Proof.
  intros ->. unfold open_ids. csimpl. rewrite <- Permutation_middle. intros [Hn _]%NoDup_cons.
  split; [done|]. by left.
Qed.

(** A frame is read and handled; [gs] is what the handler sends. *)
Lemma pipes_frame t fs s f fs' e2 gs B id :
  ep_reader (ep s t) = true → fs s = f :: fs' →
  (∀ B id, is_opened (set_ep s e2 t) B id = is_opened t B id) →
  ep_reader e2 = true → ep_end e2 = ep_end (ep s t) → ep_tx e2 = ep_tx (ep s t) →
  ep_frames e2 = ep_frames (ep s t) ++ gs → Forall quiet gs →
  view e2 id = vstep s id (view (ep s t) id) f →
  pipe_run [] (pipes t fs B id) (pipes (set_ep s e2 t) (upd s fs' fs) B id).
Proof.
  intros Hr Hfs Ho Hr2 Hend Htx Hfr Hq Hv. apply pipes_tau; [apply Ho|].
  unfold flow, up, ended. destruct (side_cases s B) as [->| ->]; autorewrite with arp.
  - rewrite Hr, Hr2, Hend, Hfs, Hv. by left.
  - rewrite Htx, Hfr. destruct (ep_reader (ep (other s) t)), (ep_end (ep (other s) t)); try (by left).
    rewrite app_assoc. by apply pipe_le_frames.
Qed.

Lemma sim_frame t fs s f fs' rest :
  tunnel_inv t fs → ep_reader (ep s t) = true → fs s = f :: fs' → ep_in (ep s t) = mux_bytes f ++ rest →
  simulates t fs (set_ep s (on_frame s f (set_in true rest (ep_end (ep s t)) (ep s t))) t, []).
Proof.
  intros I Hr Hfs Hin. pose proof (inv_consume t fs s f fs' rest I Hr Hfs Hin) as I1.
  set (e1 := set_in true rest (ep_end (ep s t)) (ep s t)) in *.
  pose proof (inv_ep_ok _ _ s I1) as Hok. rewrite ep_set_eq in Hok.
  exists (upd s fs' fs). cbn [fst snd].
  assert (∀ g, Forall (frame_in (nconns t)) (fs s) → f = g → frame_in (nconns t) g) as Hin'.
  { intros g HF <-. rewrite Hfs in HF. by apply Forall_cons in HF as [? _]. }
  assert ((∃ i, s = Cli ∧ f = MOpen i) ∨ ∀ i, s = Cli → f ≠ MOpen i) as [(i & -> & ->)|Hno].
  { destruct s; [right; by intros|]. destruct f; eauto; right; by intros. }
  - destruct (open_ids_consume t fs i fs' rest Hfs (inv_opens _ _ I)) as [Hn Hi].
    pose proof (inv_opened _ _ I i Hi) as Hop. split.
    + rewrite <- (set_ep_twice Cli _ e1). apply inv_insert_cli; [done| |done].
      by rewrite (upd_eq Cli).
    + intros B id. apply (pipes_frame _ _ _ (MOpen i) _ _ []); try done; [by rewrite app_nil_r|].
      apply (view_on_frame Cli _ e1); [done|]. intros j _ [= <-] Hj. apply Hn, elem_of_app. by left.
  - destruct (calm_on_frame s f e1 Hno) as (gs & Hc & Hgs).
    pose proof (inv_frames _ _ I s) as [HF _]%Forall_app.
    assert (Forall quiet gs ∧ Forall (frame_in (nconns t)) gs) as [Hq Hf].
    { destruct Hgs as [->|[->|(i & p & -> & ->)]]; [done|by repeat constructor|].
      split; [by repeat constructor|]. apply Forall_singleton. by apply (Hin' (MData i p)). }
    rewrite <- (set_ep_twice s _ e1). split.
    + eapply (inv_calm _ _ _ _ gs); [done|by rewrite ep_set_eq|..].
      * eapply Forall_impl; [exact Hq|]. by intros [].
      * by destruct s.
    + intros B id. rewrite set_ep_twice. destruct Hc. apply (pipes_frame _ _ _ f _ _ gs); try done.
      * intros B' id'. rewrite <- (set_ep_twice s _ e1). erewrite calm_opened; [by destruct s|].
        rewrite ep_set_eq. by split.
      * destruct s, f; simpl; try done; unfold on_data, send_frame_, send_frame; by repeat case_match.
      * apply (view_on_frame _ _ e1); [done|]. intros i Hs E. by destruct (Hno i Hs).
Qed.

Lemma view_clear e r inp en id : view (set_streams ∅ (set_in r inp en e)) id = kill (view e id).
Proof.
  unfold view. simpl. destruct (list_find _ _) as [[a c]|]; [|done].
  rewrite lookup_empty, (bool_decide_eq_false_2 (None = _)), andb_false_r by done. by destruct (_ && _).
Qed.

Lemma sim_exit t fs s :
  tunnel_inv t fs →
  simulates t fs (set_ep s (reader_exit (ep s t)) t, []).
Proof.
  intros I. set (e' := reader_exit (ep s t)).
  assert (calm (ep s t) e' []) as Hc by (split; simpl; try done; [apply map_empty_subseteq|by rewrite app_nil_r]).
  exists fs. split; [by eapply inv_calm|]. intros B id. apply pipes_tau; [by eapply calm_opened|].
  simpl. unfold flow, up, ended. destruct (side_cases s B) as [->| ->]; autorewrite with arp; simpl; [|by left].
  unfold e', reader_exit. rewrite view_clear. eapply pipe_le_trans; [apply pipe_le_view, view_le_kill|].
  apply pipe_le_flow. apply prefix_nil.
Qed.

Lemma reader_step_eq s e :
  reader_step s e
  = if ep_reader e then
      match read_mux_frame (mkReader (ep_in e) (default None (ep_end e))) with
      | (r, Ok f) => on_frame s f (set_in true (rd_bytes r) (ep_end e) e)
      | (_, Err err) => if read_waits err e then e else reader_exit e
      end
    else e.
Proof. by destruct s. Qed.

Lemma sim_reader t fs s : tunnel_inv t fs → simulates t fs (tunnel_step (EReader s) t).
Proof.
  intros I. cbn [tunnel_step]. rewrite reader_step_eq. destruct (ep_reader (ep s t)) eqn:Hr;
    [|rewrite set_ep_id; by apply simulates_refl].
  destruct (inv_wire _ _ I s) as (p & Hp & E & _). pose proof (inv_wire_ok t fs s I) as Hok.
  assert (∃ gs q, gs `prefix_of` fs s ∧ incomplete q ∧ ep_in (ep s t) = concat (mux_bytes <$> gs) ++ q)
    as (gs & q & Hgs & Hq & Ein).
  { destruct (ended (ep s t)); [by exists (fs s), p|]. by eapply wire_cut. }
  destruct gs as [|f gs].
  - simpl in Ein. subst q. destruct (read_incomplete _ (default None (ep_end (ep s t))) Hq) as (r & io & ->).
    unfold read_waits. destruct (ep_end (ep s t)) eqn:Hend; simpl.
    + by apply sim_exit.
    + rewrite set_ep_id. by apply simulates_refl.
  - destruct Hgs as [hs Hfs]. simpl in Hfs. rewrite Hfs in Hok. apply Forall_cons in Hok as [Hf _].
    csimpl in Ein. rewrite <- app_assoc in Ein. rewrite Ein. rewrite (proj1 (parses_mux f Hf)). simpl.
    by eapply sim_frame.
Qed.

(** ** The tunnel implements the pipes *)

Lemma sim_read t fs s a c r :
  tunnel_inv t fs → ep_conns (ep s t) !! a = Some c → mc_phase c = Relaying →
  match r with Ok (_ :: _) => False | _ => True end →
  simulates t fs (set_ep s (stream_read s a c r (ep s t)) t, []).
Proof.
  intros I Hc Hp Hr. assert (mc_phase c ≠ Opening) as Hno by (by rewrite Hp).
  destruct r as [[|b bs]|io]; [|done|destruct s; by eapply sim_phase].
  destruct s; [eapply sim_remove_task|eapply sim_close_task]; try done; try (by left);
    by apply sig_phase.
Qed.

Lemma sim_finish t fs s a c :
  tunnel_inv t fs → ep_conns (ep s t) !! a = Some c → mc_phase c = Closing →
  simulates t fs (set_ep s (finish_stream s a c (ep s t)) t, []).
Proof.
  intros I Hc Hp. assert (mc_phase c ≠ Opening) as Hno by (by rewrite Hp).
  destruct s; [eapply sim_close_task|eapply sim_remove_task];
    try done; try (by right); by apply sig_finish.
Qed.

(** Every step of a tunnel is a run of its pipes. *)
Lemma tunnel_step_simulates ev t fs :
  tunnel_inv t fs → (ev = EAlloc → 1 + Z.of_nat (nconns t) < 2 ^ 32) →
  simulates t fs (tunnel_step ev t).
Proof.
  intros I Hev. destruct ev as [|a|a ok|s a r|s a|s a fail|s fail|s n|s how|s];
    [by apply sim_alloc; auto| | | | | |by apply sim_writer|by apply sim_net|by apply sim_end|by apply sim_reader];
    simpl; unfold with_conn; destruct (ep_conns _ !! a) as [c|] eqn:Hc; try by apply simulates_refl.
  all: destruct (in_phase _ c) eqn:Hp; [|by apply simulates_refl]; apply in_phase_spec in Hp.
  - apply list_elem_of_singleton in Hp. by eapply sim_send_open.
  - apply list_elem_of_singleton in Hp. assert (mc_phase c ≠ Opening) by (by rewrite Hp).
    destruct ok; [by eapply (sim_phase _ _ Cli)|]. eapply (sim_drop _ _ Cli); try done. by apply sig_finish.
  - apply list_elem_of_singleton in Hp. destruct r as [[|b bs]|io]; try by apply sim_read.
    destruct (Z.leb_spec (blen (b :: bs)) (16 * 1024)); [|by apply simulates_refl].
    apply sim_count. by eapply sim_push.
  - apply list_elem_of_singleton in Hp. by eapply sim_finish.
  - destruct (mc_rx c) eqn:Hrx; [|by apply simulates_refl]. by apply sim_pump.
Qed.

Lemma tunnel_inv_new : tunnel_inv mux_new (fun _ => []).
Proof.
  split; try done.
  - intros [] id a H; simpl in H; by rewrite lookup_empty in H.
  - constructor.
  - intros id H. by apply not_elem_of_nil in H.
  - intros []; constructor.
  - intros s. exists []. split; [apply incomplete_nil|]. by destruct s.
Qed.

(** How many streams a run opens. *)
Definition is_alloc (ev : Event) : bool := match ev with EAlloc => true | _ => false end.
Definition allocs (evs : list Event) : Z := Z.of_nat (length (List.filter is_alloc evs)).

Lemma nconns_on_frame f e : length (ep_conns (server_on_frame f e)) = length (ep_conns e).
Proof.
  destruct f; simpl; unfold on_data, send_frame_, send_frame; repeat case_match; simpl;
    by rewrite ?length_alter.
Qed.

Lemma conns_pump a c fail e : length (ep_conns (pump_step a c fail e).1) = length (ep_conns e).
Proof. unfold pump_step. repeat case_match; simpl; by rewrite ?length_alter. Qed.

Lemma conns_read s a c r e : length (ep_conns (stream_read s a c r e)) = length (ep_conns e).
Proof.
  destruct s; simpl; unfold relay_read, local_read, forward_read, send_data, send_frame_, send_frame;
  repeat (case_match; simplify_eq/=); by rewrite ?length_alter.
Qed.

Lemma conns_finish s a c e : length (ep_conns (finish_stream s a c e)) = length (ep_conns e).
Proof. destruct s; simpl; unfold send_frame_, send_frame; repeat case_match; simpl; by rewrite ?length_alter. Qed.

Lemma conns_open_send a id e : length (ep_conns (open_stream_send a id e)) = length (ep_conns e).
Proof. unfold open_stream_send, send_frame. destruct (ep_tx e); simpl; by rewrite length_alter. Qed.

Lemma nconns_step ev t :
  nconns (tunnel_step ev t).1 = ((if is_alloc ev then 1 else 0) + nconns t)%nat.
Proof.
  unfold nconns. destruct ev as [|a|a ok|s a r|s a|s a fail|s fail|s n|s how|s]; simpl.
  - rewrite length_app. simpl. lia.
  - unfold with_conn. do 2 (case_match; [|done]). simpl. apply conns_open_send.
  - unfold with_conn. by do 2 (case_match; [|done]).
  - unfold with_conn. do 2 (case_match; [|done]). repeat case_match; cbn -[stream_read]; try done;
      destruct s; cbn -[stream_read]; by rewrite ?conns_read.
  - unfold with_conn. do 2 (case_match; [|done]). destruct s; cbn -[finish_stream]; by rewrite ?conns_finish.
  - unfold with_conn. do 3 (case_match; [|done]). pose proof (conns_pump a m fail (ep s t)) as H'.
    destruct (pump_step a m fail (ep s t)) as [e [[]|]]; destruct s; simpl in *; auto.
  - unfold writer_step. repeat case_match; simplify_eq/=; by destruct s.
  - case_match; [done|]. by destruct s.
  - case_match; [done|]. by destruct s.
  - destruct s; [|done]. simpl. unfold server_reader_step. repeat case_match; simpl; rewrite ?nconns_on_frame; done.
Qed.

Lemma allocs_cons ev evs : allocs (ev :: evs) = (if is_alloc ev then 1 else 0) + allocs evs.
Proof. unfold allocs. simpl. destruct (is_alloc ev); simpl; lia. Qed.

Lemma project_app s id l1 l2 : project s id (l1 ++ l2) = project s id l1 ++ project s id l2.
Proof. apply omap_app. Qed.

(** And so is every run. *)
Lemma tunnel_run_simulates evs t fs :
  tunnel_inv t fs → Z.of_nat (nconns t) + allocs evs < 2 ^ 32 → simulates t fs (tunnel_run evs t).
Proof.
  revert t fs. induction evs as [|ev evs IH]; intros t fs I Hn; [by apply simulates_refl|].
  rewrite allocs_cons in Hn. assert (0 ≤ allocs evs) by (unfold allocs; lia).
  assert (ev = EAlloc → 1 + Z.of_nat (nconns t) < 2 ^ 32) as Hev by (intros ->; simpl in Hn; lia).
  destruct (tunnel_step_simulates ev t fs I Hev) as (fs1 & I1 & H1).
  pose proof (nconns_step ev t) as Hc. simpl. destruct (tunnel_step ev t) as [t1 l1]. simpl in *.
  destruct (IH t1 fs1 I1) as (fs2 & I2 & H2); [destruct (is_alloc ev); lia|].
  destruct (tunnel_run evs t1) as [t2 l2]. exists fs2. split; [done|]. intros B id. simpl in *.
  rewrite project_app. by eapply pipe_run_app.
Qed.

(** What went in at one end of a pipe, and what came out at the other. *)
Definition pushed (ls : list PLabel) : bytes :=
  concat ((fun l => match l with Push bs => bs | _ => [] end) <$> ls).
Definition popped (ls : list PLabel) : bytes :=
  concat ((fun l => match l with Pop bs => bs | _ => [] end) <$> ls).

(** Pipes are first in, first out. *)
Lemma pipe_run_fifo ls p p' :
  pipe_run ls p p' →
  ∃ lost, default [] (p_queue <$> p) ++ (if default true (p_open <$> p) then pushed ls else [])
          = popped ls ++ default [] (p_queue <$> p') ++ lost ∧
          (default true (p_open <$> p') = true → lost = [] ∧ default true (p_open <$> p) = true).
Proof.
  unfold pushed, popped.
  induction 1 as [p|ls p _ (l & E & Ho)|bs ls q p _ (l & E & Ho)|bs ls q p _ (l & E & Ho)
    |bs ls q o p _ (l & E & Ho)|q' ls q o p Hq _ (l & E & Ho)]; csimpl in *.
  - exists []. split; [|done]. simpl. destruct (default true _); by rewrite !app_nil_r.
  - eauto.
  - exists l. split; [|done]. by rewrite <- E, <- app_assoc.
  - eauto.
  - exists l. split; [|done]. by rewrite <- !app_assoc, E.
  - destruct Hq as [k ->]. rewrite app_nil_r in E. subst.
    exists (l ++ k ++ if o then concat ((fun l => match l with Push bs => bs | _ => [] end) <$> ls) else []).
    split; [by rewrite !app_assoc|]. intros Hp. by destruct (Ho Hp).
Qed.

(** C4: the tunnel refines independent pipes.  Whatever the tasks of both ends
    and the network do, in any order and with any failures, with fewer than
    2^32 streams, what the sockets of each stream and direction see is a run
    of one FIFO pipe that starts with the opening of the stream; the pipe it
    ends in is read off the state: the channel of the stream at the receiving
    end followed by the payloads under way to it. *)
Theorem mux_refines_pipes evs :
  allocs evs < 2 ^ 32 →
  ∃ fs, (∀ s, wire (tunnel_run evs mux_new).1 s (fs s)) ∧
    ∀ s id, pipe_run (project s id (tunnel_run evs mux_new).2) None
              (pipes (tunnel_run evs mux_new).1 fs s id).
Proof.
  intros Hn. destruct (tunnel_run_simulates evs mux_new _ tunnel_inv_new) as (fs & I & H).
  { unfold nconns. simpl. lia. }
  exists fs. split; [apply I|]. exact H.
Qed.

(** Streams never mix, reorder, repeat or skip bytes: what came out of a
    stream is a prefix of what went in, and while the stream is open (its entry
    is there, both tasks run, no [Close] is under way) the rest is exactly
    what its channel and the frames under way hold. *)
Theorem mux_fifo evs s id :
  allocs evs < 2 ^ 32 →
  let '(t, ls) := tunnel_run evs mux_new in
  popped (project s id ls) `prefix_of` pushed (project s id ls) ∧
  ∃ fs, wire t s (fs s) ∧
    ∀ q, pipes t fs s id = Some (mkPipe q true) →
      pushed (project s id ls) = popped (project s id ls) ++ q.
Proof.
  intros Hn. destruct (tunnel_run_simulates evs mux_new _ tunnel_inv_new) as (fs & I & H).
  { unfold nconns. simpl. lia. }
  destruct (tunnel_run evs mux_new) as [t ls]. specialize (H s id). simpl in H.
  destruct (pipe_run_fifo _ _ _ H) as (lost & E & Ho).
  replace (pipes mux_new (fun _ => []) s id) with (@None Pipe) in E by done. simpl in E.
  split; [exists (default [] (p_queue <$> pipes t fs s id) ++ lost); by rewrite E|].
  exists fs. split; [apply I|]. intros q Hq. rewrite Hq in E, Ho. simpl in *.
  destruct (Ho eq_refl) as [-> _]. by rewrite app_nil_r in E.
Qed.

(** The end of the server's relay leaves a dead, empty stream. *)
Lemma finish_kills t fs a c :
  tunnel_inv t fs → ep_conns (t_srv t) !! a = Some c →
  let e := finish_stream Srv a c (t_srv t) in
  nconns (set_ep Srv e t) = nconns t ∧ view e (mc_id c) = VDead [] ∧
  ∃ c', ep_conns e !! a = Some c' ∧ mc_id c' = mc_id c.
Proof.
  intros I Hc. simpl. split; [apply (conns_finish Srv)|]. unfold relay_finish.
  rewrite <- (conns_send (MClose (mc_id c))) in Hc. split.
  - rewrite (view_alter_eq _ _ c); [done|done| |done].
    eapply calm_ep_ok; [apply calm_send|]. by apply (inv_ep_ok t fs Srv).
  - simpl. rewrite list_lookup_alter_eq, Hc. simpl. eauto.
Qed.

(** When the user of a stream half-closes the connection, the server's
    relay closes the stream in both directions: after [close_stream] and the
    abort of the writer task no byte of the answer reaches the user any more,
    whatever the client still sends. *)
Theorem half_close_drops_answer t fs a c evs :
  tunnel_inv t fs → ep_conns (t_srv t) !! a = Some c → mc_phase c = Closing →
  Z.of_nat (nconns t) + allocs evs < 2 ^ 32 →
  popped (project Srv (mc_id c) (tunnel_run (EFinish Srv a :: evs) t).2) = [].
Proof.
  intros I Hc Hp Hn. destruct (sim_finish t fs Srv a c I Hc Hp) as (fs1 & I1 & _).
  destruct (finish_kills t fs a c I Hc) as (Hnc & Hv & c' & Hc' & Hid). cbn [ep] in *.
  set (t1 := set_ep Srv (finish_stream Srv a c (t_srv t)) t) in *. cbn [fst] in I1.
  assert (tunnel_step (EFinish Srv a) t = (t1, [])) as Es.
  { simpl. unfold with_conn, in_phase. simpl. by rewrite Hc, bool_decide_eq_true_2 by (rewrite Hp; by left). }
  destruct (tunnel_run_simulates evs t1 fs1 I1) as (fs2 & _ & H2); [by rewrite Hnc|].
  cbn [tunnel_run]. rewrite Es. destruct (tunnel_run evs t1) as [t2 l2]. specialize (H2 Srv (mc_id c)).
  destruct (pipe_run_fifo _ _ _ H2) as (lost & E & _). unfold pipes in E at 1 2. cbn [ep] in E.
  destruct (conn_frame_in t1 fs1 Srv a c' I1 Hc') as (_ & Hop & _). rewrite Hid in Hop. rewrite Hop in E.
  replace (view (t_srv t1) (mc_id c)) with (VDead []) in E by done.
  unfold pipe_at in E. rewrite vrun_dead in E. simpl in *.
  symmetry in E. by apply app_nil in E as [? _].
Qed.

(** A run in which stream 1 carries "hi" to the client and "yo" back, stream 2
    is opened and its local connect fails, with the wire cut at odd places. *)
Module MuxExample.
Definition hi : bytes := [x68; x69].
Definition yo : bytes := [x79; x6f].
Definition opening : list Event :=
  [EAlloc; EAlloc; ESendOpen 1; ESendOpen 0; EWriter Srv None; EWriter Srv None; ENet Cli 3; EReader Cli;
   ENet Cli 99; EReader Cli; EReader Cli; EConnect 1 true; EConnect 0 false].
Definition talking : list Event :=
  [ERead Srv 0 (Ok hi); EWriter Srv None; ENet Cli 4; EReader Cli; ENet Cli 99; EReader Cli; EPump Cli 1 None;
   ERead Cli 1 (Ok yo); EWriter Cli None; ENet Srv 99; EReader Srv; EPump Srv 0 None].
Definition half_close : list Event := [ERead Cli 1 (Ok yo); EWriter Cli None; ENet Srv 99; EReader Srv; ERead Srv 0 (Ok [])].

Example talk :
  let '(t, ls) := tunnel_run (opening ++ talking) mux_new in
  project Cli 1 ls = [New; Push hi; Pop hi] ∧ project Srv 1 ls = [New; Push yo; Pop yo] ∧
  t_bytes_in t = 2 ∧ t_bytes_out t = 2.
Proof. vm_compute. auto. Qed.

(** Stream 2, whose local connect failed: nothing tells the server, and while
    its user waits no task of either end can move. *)
Example connect_failure_hangs :
  let t := (tunnel_run opening mux_new).1 in
  view (t_srv t) 2 = VLive [] ∧ view (t_cli t) 2 = VDead [] ∧
  ∀ s, net s t = [] ∧ (tunnel_step (EWriter s None) t).1 = t ∧ (tunnel_step (EReader s) t).1 = t ∧
    (tunnel_step (EPump s (match s with Srv => 1 | Cli => 0 end) None) t).1 = t.
Proof.
  cbv zeta. split_and!; [vm_compute; reflexivity..|].
  intros []; split_and!; vm_compute; reflexivity.
Qed.
End MuxExample.

Lemma mux_refines_pipes_witness :
  ∃ fs, ∀ s id,
    pipe_run (project s id (tunnel_run (MuxExample.opening ++ MuxExample.talking) mux_new).2) None
      (pipes (tunnel_run (MuxExample.opening ++ MuxExample.talking) mux_new).1 fs s id).
Proof.
  destruct (mux_refines_pipes (MuxExample.opening ++ MuxExample.talking)) as (fs & _ & H); [vm_compute; reflexivity|].
  exists fs. exact H.
Defined.

Lemma mux_fifo_witness :
  popped (project Srv 1 (tunnel_run (MuxExample.opening ++ MuxExample.talking) mux_new).2) = MuxExample.yo ∧
  popped (project Srv 1 (tunnel_run (MuxExample.opening ++ MuxExample.talking) mux_new).2)
  `prefix_of` pushed (project Srv 1 (tunnel_run (MuxExample.opening ++ MuxExample.talking) mux_new).2).
Proof.
  split; [vm_compute; reflexivity|].
  pose proof (mux_fifo (MuxExample.opening ++ MuxExample.talking) Srv 1) as H.
  destruct (tunnel_run _ _) as [t ls]. apply H. vm_compute. reflexivity.
Defined.

(** The client has sent "yo" again, it waits in the channel of stream 1, and
    the user half-closes. *)
Lemma half_close_drops_answer_witness :
  let t := (tunnel_run (MuxExample.opening ++ MuxExample.talking ++ MuxExample.half_close) mux_new).1 in
  view (t_srv t) 1 = VDead [MuxExample.yo] ∧
  popped (project Srv 1 (tunnel_run [EFinish Srv 0; EReader Srv; EPump Srv 0 None] t).2) = [].
Proof.
  cbv zeta. split; [vm_compute; reflexivity|].
  destruct (tunnel_run_simulates (MuxExample.opening ++ MuxExample.talking ++ MuxExample.half_close)
    mux_new _ tunnel_inv_new) as (fs & I & _); [vm_compute; reflexivity|].
  apply (half_close_drops_answer _ fs 0 (mkMuxConn 1 [MuxExample.yo] true Closing) _ I);
    vm_compute; reflexivity.
Defined.
