(* ===== verification/UdpTunnel.v ===== *)
(** * UDP over a work connection (crates/arp-server/src/proxy/udp.rs and
      crates/arp-client/src/proxy/udp.rs)

    The server sends every datagram as a request frame with a fresh number and
    waits for the response frame with that number; the client forwards the
    datagram to the local service and answers.  [UdpTunnel] is the server's
    end: the channel to its writer task, the requests that wait and the number
    of the next one; its oneshot channels are entries of [ut_replies].  The
    frames on the wire are those of Framing.v; the random nonces, the local
    service and the timeouts are arguments. *)
From S2P Require Import Prelude RustString Errors Config Crypto Framing.
Local Open Scope Z_scope.

(** A oneshot channel: waiting, answered, or with one end dropped. *)
Inductive UdpReply := UWaiting | UGot (payload : bytes) | UDropped.

Record UdpTunnel := mkUdpTunnel {
  ut_frames : list UdpMuxFrame;                 (* sent to the writer task *)
  ut_writer : bool;                             (* the writer task runs *)
  ut_pending : gmap Z Z;                        (* request id to oneshot channel *)
  ut_next_request_id : Z;
  ut_replies : gmap Z UdpReply;
}.

Definition tunnel_new : UdpTunnel := mkUdpTunnel [] true ∅ 1 ∅.

(** The sender of a oneshot channel is dropped. *)
Definition drop_reply (tx : Z) (rs : gmap Z UdpReply) : gmap Z UdpReply :=
  alter (fun r => match r with UWaiting => UDropped | _ => r end) tx rs.
Definition drop_opt (o : option Z) (rs : gmap Z UdpReply) : gmap Z UdpReply :=
  match o with Some tx => drop_reply tx rs | None => rs end.

(** [roundtrip] up to the wait, with the new oneshot channel [tx].  Inserting
    drops the channel that an older request of the same number had. *)
Definition roundtrip_start (tx : Z) (src_addr : string) (payload : bytes) : st UdpTunnel Error.t unit := fun t =>
  let request_id := ut_next_request_id t in
  let next := wrap 32 (request_id + 1) in
  let replies := <[tx := UWaiting]> (drop_opt (ut_pending t !! request_id) (ut_replies t)) in
  if ut_writer t then
    (mkUdpTunnel (ut_frames t ++ [UReq request_id src_addr payload]) true
       (<[request_id := tx]> (ut_pending t)) next replies, Ok tt)
  else
    (mkUdpTunnel (ut_frames t) false (delete request_id (ut_pending t)) next (drop_reply tx replies),
     Err (Error.Transport "udp mux frame channel closed")).

(** The end of [roundtrip]: the response, or after 10 seconds the timeout. *)
Definition roundtrip_wait (tx : Z) : st UdpTunnel Error.t bytes := fun t =>
  match ut_replies t !! tx with
  | Some (UGot payload) => (t, Ok payload)
  | Some UWaiting =>
      (mkUdpTunnel (ut_frames t) (ut_writer t) (ut_pending t) (ut_next_request_id t)
         (<[tx := UDropped]> (ut_replies t)), Err (Error.Timeout "udp mux response timeout"))
  | _ => (t, Err (Error.Transport "udp mux response channel closed"))
  end.

(** A turn of the reader task. *)
Definition reader_frame (frame : UdpMuxFrame) (t : UdpTunnel) : UdpTunnel :=
  match frame with
  | UResp request_id payload =>
      match ut_pending t !! request_id with
      | Some tx =>
          mkUdpTunnel (ut_frames t) (ut_writer t) (delete request_id (ut_pending t)) (ut_next_request_id t)
            (alter (fun r => match r with UWaiting => UGot payload | _ => r end) tx (ut_replies t))
      | None => t
      end
  | UPing =>
      mkUdpTunnel (if ut_writer t then ut_frames t ++ [UPong] else ut_frames t) (ut_writer t) (ut_pending t)
        (ut_next_request_id t) (ut_replies t)
  | UPong => t
  | UReq _ _ _ => t
  end.

(** The reader task ends: [pending.clear()]. *)
Definition reader_exit (t : UdpTunnel) : UdpTunnel :=
  mkUdpTunnel (ut_frames t) (ut_writer t) ∅ (ut_next_request_id t)
    (map_fold (fun _ tx rs => drop_reply tx rs) (ut_replies t) (ut_pending t)).

Section Packets.
Context `{Primitives}.

(** Compress, then encrypt; and back. *)
Definition encode_packet (use_compression use_encryption : bool) (secret : string) (nonce packet : bytes)
  : Result bytes :=
  encoded ← (if use_compression then compress packet else Ok packet);
  if use_encryption then packet_encrypt nonce encoded secret else Ok encoded.

Definition decode_packet (use_compression use_encryption : bool) (secret : string) (data : bytes)
  : Result bytes :=
  decoded ← (if use_encryption then packet_decrypt data secret else Ok data);
  if use_compression then decompress decoded else Ok decoded.

(** [get_or_create_udp_tunnel]; [work] is whether a work connection came and
    could be started. *)
Definition get_or_create_udp_tunnel (work : Result unit) (holder : option UdpTunnel)
  : option UdpTunnel * Result UdpTunnel :=
  match holder with
  | Some tunnel => (holder, Ok tunnel)
  | None => match work with
            | Ok _ => (Some tunnel_new, Ok tunnel_new)
            | Err e => (None, Err e)
            end
  end.

(** [handle_udp_packet] up to the wait for the response. *)
Definition udp_packet_send (uc ue : bool) (secret : string) (nonce packet : bytes) (src_addr : string)
    (tx : Z) (work : Result unit) : st (option UdpTunnel) Error.t unit := fun holder =>
  match encode_packet uc ue secret nonce packet with
  | Err e => (holder, Err e)
  | Ok encoded =>
      match get_or_create_udp_tunnel work holder with
      | (holder', Err e) => (holder', Err e)
      | (_, Ok tunnel) => let '(t, r) := roundtrip_start tx src_addr encoded tunnel in (Some t, r)
      end
  end.

(** The rest: the datagram that is sent back to the source. *)
Definition udp_packet_reply (uc ue : bool) (secret : string) (tx : Z) : st UdpTunnel Error.t bytes :=
  resp ← roundtrip_wait tx; st_lift (decode_packet uc ue secret resp).

(** ** The client's end *)

Record ClientUdpProxy := mkClientUdpProxy {
  cu_name : string; cu_local_ip : string; cu_local_port : Z;
  cu_use_compression : bool; cu_use_encryption : bool; cu_secret : string;
}.

Definition client_udp_new (config : ProxyConfig) : ClientUdpProxy :=
  let force_secure := bool_decide (pc_proxy_type config = Sudp) in
  mkClientUdpProxy (pc_name config) (pc_local_ip config) (pc_local_port config)
    (pc_use_compression config) (pc_use_encryption config || force_secure) (pc_sk config).

(** One turn of [handle_work_conn]: [local] is the exchange with the local
    service (its error the timeout or a socket error); the frame written back. *)
Definition client_frame (p : ClientUdpProxy) (local : bytes → Result bytes) (nonce : bytes)
    (frame : UdpMuxFrame) : Result (option UdpMuxFrame) :=
  match frame with
  | UReq request_id _ payload =>
      packet ← decode_packet (cu_use_compression p) (cu_use_encryption p) (cu_secret p) payload;
      answer ← local packet;
      encoded ← encode_packet (cu_use_compression p) (cu_use_encryption p) (cu_secret p) nonce answer;
      Ok (Some (UResp request_id encoded))
  | UPing => Ok (Some UPong)
  | UPong => Ok None
  | UResp _ _ => Ok None
  end.

(** [handle_work_conn]: the frames written back until one of the frames read, or
    the write of an answer ([write]), fails, which ends the work connection;
    [eof] is the error of the read after the last frame. *)
Fixpoint client_loop (p : ClientUdpProxy) (local : bytes → Result bytes) (nonce : bytes)
    (write : UdpMuxFrame → Result unit) (eof : Error.t) (frames : list UdpMuxFrame)
  : list UdpMuxFrame * Error.t :=
  match frames with
  | [] => ([], eof)
  | f :: rest =>
      match client_frame p local nonce f with
      | Err e => ([], e)
      | Ok None => client_loop p local nonce write eof rest
      | Ok (Some out) =>
          match write out with
          | Err e => ([], e)
          | Ok _ => let '(outs, e) := client_loop p local nonce write eof rest in (out :: outs, e)
          end
      end
  end.

(** ** Lemmas *)

Lemma decode_encode_packet `{!PrimLaws} uc ue secret nonce packet enc :
  length nonce = 12%nat → encode_packet uc ue secret nonce packet = Ok enc →
  decode_packet uc ue secret enc = Ok packet.
Proof.
  intros Hn. unfold encode_packet, decode_packet. intros (z & Hz & He)%bind_Ok. apply bind_Ok. exists z. split.
  - destruct ue; [|naive_solver]. unfold packet_encrypt in He. unfold packet_decrypt.
    destruct (is_empty secret); [done|]. apply bind_Ok in He as (c & Hc & He).
    destruct (decrypt_encrypt_with _ _ _ _ Hn He) as [Hd Hl].
    rewrite (proj2 (Nat.ltb_ge _ _)) by lia. by rewrite Hc.
  - destruct uc; [by apply decompress_compress|naive_solver].
Qed.
End Packets.

(** ** Traffic between a request and its response *)

(** What happens on a tunnel: other packets start, frames arrive, other packets
    time out. *)
Inductive udp_event := EStart (tx : Z) (src : string) (payload : bytes) | EFrame (f : UdpMuxFrame) | ETimeout (tx : Z).

Definition udp_apply (t : UdpTunnel) (e : udp_event) : UdpTunnel :=
  match e with
  | EStart tx src payload => (roundtrip_start tx src payload t).1
  | EFrame f => reader_frame f t
  | ETimeout tx => (roundtrip_wait tx t).1
  end.

(** Events of other requests than the one with number [id] and channel [tx]. *)
Definition other_event (id tx : Z) (e : udp_event) : Prop :=
  match e with
  | EStart tx' _ _ => tx' ≠ tx
  | EFrame (UResp id' _) => id' ≠ id
  | EFrame _ => True
  | ETimeout tx' => tx' ≠ tx
  end.

Definition starts (es : list udp_event) : Z :=
  Z.of_nat (length (List.filter (fun e => match e with EStart _ _ _ => true | _ => false end) es)).

(** Request [id] waits on [tx], which no other request has, and [k] requests
    were started after it. *)
Record in_flight (id tx k : Z) (t : UdpTunnel) : Prop := {
  fl_pending : ut_pending t !! id = Some tx;
  fl_only : ∀ id', ut_pending t !! id' = Some tx → id' = id;
  fl_reply : ut_replies t !! tx = Some UWaiting;
  fl_next : ut_next_request_id t = wrap 32 (id + 1 + k);
}.

Lemma wrap_next id k : 0 ≤ id < 2 ^ 32 → 0 ≤ k < 2 ^ 32 - 1 → wrap 32 (id + 1 + k) ≠ id.
Proof. intros Hi Hk. unfold wrap. Z.to_euclidean_division_equations. lia. Qed.

Lemma wrap_succ z : wrap 32 (wrap 32 z + 1) = wrap 32 (z + 1).
Proof. unfold wrap. by rewrite Zplus_mod_idemp_l. Qed.

Lemma drop_reply_other tx tx' rs : tx' ≠ tx → drop_reply tx' rs !! tx = rs !! tx.
Proof. intros. unfold drop_reply. by rewrite lookup_alter_ne. Qed.

Lemma start_in_flight id tx k tx' src payload t :
  in_flight id tx k t → 0 ≤ id < 2 ^ 32 → 0 ≤ k < 2 ^ 32 - 1 → tx' ≠ tx →
  in_flight id tx (k + 1) (roundtrip_start tx' src payload t).1.
Proof.
  intros [Hp Ho Hr Hn] Hid Hk Htx. unfold roundtrip_start.
  assert (ut_next_request_id t ≠ id) as Hne by (rewrite Hn; by apply wrap_next).
  assert (drop_opt (ut_pending t !! ut_next_request_id t) (ut_replies t) !! tx = Some UWaiting) as Hd.
  { destruct (ut_pending t !! ut_next_request_id t) as [tx0|] eqn:E; [|done]. simpl.
    rewrite drop_reply_other; [done|]. intros ->. by apply Ho in E. }
  assert (wrap 32 (ut_next_request_id t + 1) = wrap 32 (id + 1 + (k + 1))) as Hn'.
  { rewrite Hn, wrap_succ. f_equal. lia. }
  destruct (ut_writer t); split; simpl; try done.
  - by rewrite lookup_insert_ne.
  - intros id'. rewrite lookup_insert_Some. naive_solver.
  - by rewrite lookup_insert_ne.
  - by rewrite lookup_delete_ne.
  - intros id'. rewrite lookup_delete_Some. naive_solver.
  - rewrite drop_reply_other by done. by rewrite lookup_insert_ne.
Qed.

Lemma frame_in_flight id tx k f t :
  in_flight id tx k t → other_event id tx (EFrame f) → in_flight id tx k (reader_frame f t).
Proof.
  intros [Hp Ho Hr Hn] He. destruct f as [| id' payload| |]; simpl in *; try (by split).
  destruct (ut_pending t !! id') as [tx'|] eqn:E; [|by split]. split; simpl; [|intros i| |done].
  - by rewrite lookup_delete_ne.
  - rewrite lookup_delete_Some. naive_solver.
  - rewrite lookup_alter_ne; [done|]. intros ->. apply Ho in E. by subst.
Qed.

Lemma timeout_in_flight id tx k tx' t :
  in_flight id tx k t → tx' ≠ tx → in_flight id tx k (roundtrip_wait tx' t).1.
Proof.
  intros [Hp Ho Hr Hn] He. unfold roundtrip_wait.
  destruct (ut_replies t !! tx') as [[]|]; split; try done. simpl. by rewrite lookup_insert_ne.
Qed.

Lemma in_flight_events id tx k es t :
  in_flight id tx k t → 0 ≤ id < 2 ^ 32 → 0 ≤ k → k + starts es < 2 ^ 32 →
  Forall (other_event id tx) es → in_flight id tx (k + starts es) (foldl udp_apply t es).
Proof.
  revert t k. induction es as [|e es IH]; intros t k Hf Hid Hk Hs Hes.
  { unfold starts in *. simpl in *. by rewrite Z.add_0_r. }
  apply Forall_cons in Hes as [He Hes]. cbn [foldl].
  destruct e as [tx' src payload|f|tx']; unfold starts in *; simpl in *.
  - replace (k + Z.of_nat (S _)) with ((k + 1) + starts es) by (unfold starts; lia).
    apply IH; unfold starts; try lia; [|done]. apply start_in_flight; [done..| |done]. lia.
  - apply IH; try done. by apply frame_in_flight.
  - apply IH; try done. by apply timeout_in_flight.
Qed.

(** ** Properties *)

Section Exchange.
Context `{Primitives} `{!PrimLaws}.

(** C30: a datagram and its answer.  The server encodes the datagram into a
    request frame with a number of its own; the client, configured with the
    same compression, encryption and secret, hands exactly that datagram to the
    local service and answers with the same number; whatever other requests,
    responses and timeouts the tunnel sees meanwhile (fewer than 2^32 - 1 new
    requests), the response reaches the task that sent the datagram and decodes
    to what the local service answered. *)
Theorem udp_exchange t tx src uc ue secret n1 n2 packet answer enc enc' p local es :
  0 ≤ ut_next_request_id t < 2 ^ 32 → ut_writer t = true →
  map_Forall (fun _ tx' => tx' ≠ tx) (ut_pending t) →
  length n1 = 12%nat → length n2 = 12%nat →
  encode_packet uc ue secret n1 packet = Ok enc → encode_packet uc ue secret n2 answer = Ok enc' →
  cu_use_compression p = uc → cu_use_encryption p = ue → cu_secret p = secret → local packet = Ok answer →
  Forall (other_event (ut_next_request_id t) tx) es → starts es < 2 ^ 32 - 1 →
  ∃ t1, roundtrip_start tx src enc t = (t1, Ok tt) ∧
    ut_frames t1 = ut_frames t ++ [UReq (ut_next_request_id t) src enc] ∧
    client_frame p local n2 (UReq (ut_next_request_id t) src enc)
      = Ok (Some (UResp (ut_next_request_id t) enc')) ∧
    (udp_packet_reply uc ue secret tx
       (reader_frame (UResp (ut_next_request_id t) enc') (foldl udp_apply t1 es))).2 = Ok answer.
Proof.
  intros Hid Hw Hfresh Hn1 Hn2 He He' <- <- <- Hloc Hes Hs. set (id := ut_next_request_id t) in *.
  unfold roundtrip_start. rewrite Hw. fold id. eexists. split; [done|]. split; [done|]. split.
  { simpl. rewrite (decode_encode_packet _ _ _ _ _ _ Hn1 He). simpl. rewrite Hloc. simpl. by rewrite He'. }
  match goal with |- context [foldl udp_apply ?t0 es] => assert (in_flight id tx 0 t0) as Hf0 end.
  { split; simpl; [apply lookup_insert_eq| |apply lookup_insert_eq|by rewrite Z.add_0_r].
    intros id'. rewrite lookup_insert_Some. intros [[-> _]|[_ Hp]]; [done|]. by destruct (Hfresh id' tx Hp). }
  destruct (in_flight_events id tx 0 es _ Hf0 Hid ltac:(lia) ltac:(lia) Hes) as [Hp _ Hr _].
  match goal with |- context [reader_frame _ ?t2] => set (t2' := t2) in * end.
  unfold udp_packet_reply, reader_frame, roundtrip_wait. rewrite Hp.
  cbv [mbind st_bind]. cbn [ut_replies]. rewrite lookup_alter_eq, Hr. simpl.
  by rewrite (decode_encode_packet _ _ _ _ _ _ Hn2 He').
Qed.

(** One answer that does not come ends the client's loop, and with it the work
    connection of all other requests. *)
Theorem udp_client_gives_up p local nonce write eof e id src enc packet rest :
  decode_packet (cu_use_compression p) (cu_use_encryption p) (cu_secret p) enc = Ok packet →
  local packet = Err e →
  client_loop p local nonce write eof (UReq id src enc :: rest) = ([], e).
Proof. intros Hd Hl. simpl. rewrite Hd. simpl. by rewrite Hl. Qed.

(** Once the reader task has ended, the tunnel stays in its place and every
    further packet fails: its request is queued or refused, and the reply never
    comes, since no reader is left to deliver it. *)
Theorem dead_tunnel_reused uc ue secret nonce packet src tx work t enc :
  encode_packet uc ue secret nonce packet = Ok enc →
  ∃ t' r, udp_packet_send uc ue secret nonce packet src tx work (Some (reader_exit t)) = (Some t', r) ∧
    ∃ e, (udp_packet_reply uc ue secret tx t').2 = Err e.
Proof.
  intros He. unfold udp_packet_send, get_or_create_udp_tunnel. rewrite He.
  unfold roundtrip_start, udp_packet_reply, roundtrip_wait. cbv [mbind st_bind].
  destruct (ut_writer (reader_exit t)); eexists _, _; (split; [done|]); cbn [ut_replies].
  - rewrite lookup_insert_eq. eauto.
  - unfold drop_reply at 1. rewrite lookup_alter_eq, lookup_insert_eq. eauto.
Qed.
End Exchange.

(** A request whose wait timed out stays in the table of pending requests. *)
Theorem timeout_keeps_pending id tx k t :
  in_flight id tx k t →
  (roundtrip_wait tx t).2 = Err (Error.Timeout "udp mux response timeout") ∧
  ut_pending (roundtrip_wait tx t).1 !! id = Some tx.
Proof. intros [Hp _ Hr _]. unfold roundtrip_wait. by rewrite Hr. Qed.

(** ** Witnesses *)

Module ToyUdp.
Import ToyCrypto.
Definition nonce : bytes := replicate 12 x07.
Definition proxy : ClientUdpProxy := mkClientUdpProxy "dns" "127.0.0.1" 53 true true "s".
Definition enc (d : bytes) : bytes := match encode_packet true true "s" nonce d with Ok e => e | Err _ => [] end.

Lemma udp_exchange_witness :
  ∃ t1, roundtrip_start 9 "1.2.3.4:5" (enc [x61]) tunnel_new = (t1, Ok tt) ∧
    (udp_packet_reply true true "s" 9
       (reader_frame (UResp 1 (enc [x62])) (foldl udp_apply t1 [EStart 10 "x" []; EFrame (UResp 2 [])]))).2
    = Ok [x62].
Proof.
  destruct (udp_exchange tunnel_new 9 "1.2.3.4:5" true true "s" nonce nonce [x61] [x62] (enc [x61]) (enc [x62])
              proxy (fun _ => Ok [x62]) [EStart 10 "x" []; EFrame (UResp 2 [])]) as (t1 & E1 & _ & _ & E2);
    [split; discriminate || reflexivity|reflexivity|apply map_Forall_empty|reflexivity..| |reflexivity|].
  - repeat constructor; discriminate.
  - exists t1. exact (conj E1 E2).
Defined.
End ToyUdp.
