(* ===== verification/Resource.v ===== *)
(** * Port allocation (crates/arp-server/src/resource/mod.rs)

    [ResourceController] keeps the TCP and UDP listening ports the proxies
    hold.  The class [PortAllocator] is what the proxy manager relies on: an
    allocation takes a port nobody holds, a failure and a release change
    nothing else.  [Race] has the two memory accesses of [allocate_tcp_port]
    as separate steps. *)
From S2P Require Import Prelude RustString Errors Protocol Config.
Local Open Scope Z_scope.

(** ** The interface *)

Class PortAllocator (R : Type) := {
  alloc_port : Z → st R Error.t Z;
  alloc_random_port : st R Error.t Z;
  release_port : Z → st R Error.t unit;
  held_ports : R → gset Z;
}.

(** An allocation that returns [p] adds exactly [p]; one that fails changes
    nothing. *)
Definition allocates {R} (held : R → gset Z) (m : st R Error.t Z) : Prop :=
  ∀ r, match m r with
       | (r', Ok p) => (p ∉ held r) ∧ held r' = held r ∪ {[ p ]}
       | (r', Err _) => held r' = held r
       end.

Class PortAllocatorSpec (R : Type) `{PortAllocator R} := {
  alloc_port_spec p : allocates held_ports (alloc_port p);
  alloc_port_same p r r' q : alloc_port p r = (r', Ok q) → q = p;
  alloc_random_port_spec : allocates held_ports alloc_random_port;
  release_port_spec p r :
    (release_port p r).2 = Ok tt ∧ held_ports (release_port p r).1 = held_ports r ∖ {[ p ]};
}.

(** ** The code *)

Record ResourceController := mkResourceController {
  tcp_ports : gmap Z string;
  next_dynamic_port : Z;
  allow_ports : list (Z * Z);
}.

Definition resource_new `{Json} (config : ServerConfig) : ResourceController :=
  let allow_ports :=
    match sc_allow_ports config with
    | [] => [(10000, 65535)]
    | ranges =>
        (fun range => if 0 <? pr_single range then (pr_single range, pr_single range)
                      else (pr_start range, pr_end range)) <$> ranges
    end in
  mkResourceController ∅ 10000 allow_ports.

Definition is_port_allowed (rc : ResourceController) (port : Z) : bool :=
  existsb (fun '(start, end_) => (start <=? port) && (port <=? end_)) (allow_ports rc).

Definition contains_port (rc : ResourceController) (port : Z) : bool :=
  bool_decide (is_Some (tcp_ports rc !! port)).

Definition insert_port (port : Z) (rc : ResourceController) : ResourceController :=
  mkResourceController (<[port := ""%string]> (tcp_ports rc)) (next_dynamic_port rc) (allow_ports rc).

Definition allocate_tcp_port (port : Z) : st ResourceController Error.t Z :=
  rc ← st_get;
  _ ← st_guard (negb (is_port_allowed rc port))
        (Error.Proxy ("Port " +:+ pretty port +:+ " is not in allowed range"));
  _ ← st_guard (contains_port rc port)
        (Error.Proxy ("Port " +:+ pretty port +:+ " is already allocated"));
  _ ← st_modify (insert_port port);
  mret port.

(** [next_dynamic_port.fetch_add(1)] and [store]. *)
Definition fetch_add_port : st ResourceController Error.t Z := fun rc =>
  (mkResourceController (tcp_ports rc) (wrap 16 (next_dynamic_port rc + 1)) (allow_ports rc),
   Ok (next_dynamic_port rc)).
Definition store_port (p : Z) : st ResourceController Error.t unit :=
  st_modify (fun rc => mkResourceController (tcp_ports rc) p (allow_ports rc)).

Fixpoint random_loop (attempts : nat) : st ResourceController Error.t Z :=
  match attempts with
  | O => st_fail (Error.Proxy "Failed to allocate random port after 1000 attempts")
  | S attempts' =>
      port ← fetch_add_port;
      if 65535 <=? port then _ ← store_port 10000; random_loop attempts'
      else
        rc ← st_get;
        if is_port_allowed rc port && negb (contains_port rc port)
        then _ ← st_modify (insert_port port); mret port
        else random_loop attempts'
  end.

Definition allocate_random_tcp_port : st ResourceController Error.t Z := random_loop 1000.
#[global] Arguments is_port_allowed : simpl never.
#[global] Arguments contains_port : simpl never.
#[global] Arguments insert_port : simpl never.
#[global] Strategy 1000 [random_loop].

Definition release_tcp_port (port : Z) : st ResourceController Error.t unit :=
  st_modify (fun rc =>
    mkResourceController (delete port (tcp_ports rc)) (next_dynamic_port rc) (allow_ports rc)).

#[export] Instance resource_allocator : PortAllocator ResourceController := {|
  alloc_port := allocate_tcp_port;
  alloc_random_port := allocate_random_tcp_port;
  release_port := release_tcp_port;
  held_ports := fun rc => dom (tcp_ports rc);
|}.

(** ** The invariant *)

(** Every held port is an allowed one, and the counter is where the code
    leaves it. *)
Definition port_ok (rc : ResourceController) (p : Z) : Prop := is_port_allowed rc p = true.

Record rc_inv (rc : ResourceController) : Prop := {
  rc_held : ∀ p, p ∈ dom (tcp_ports rc) → port_ok rc p;
  rc_next : 10000 ≤ next_dynamic_port rc ≤ 65535;
}.

(** The port the counter stands for in the [i]-th of the coming attempts (65535
    is the attempt that only resets the counter). *)
Definition attempt_port (next : Z) (i : Z) : Z := 10000 + (next - 10000 + i) mod 55536.

(** Whether an attempt at this port succeeds. *)
Definition available (rc : ResourceController) (p : Z) : bool :=
  negb (65535 <=? p) && is_port_allowed rc p && negb (contains_port rc p).

Lemma contains_port_iff rc p : contains_port rc p = true ↔ p ∈ dom (tcp_ports rc).
Proof. unfold contains_port. by rewrite bool_decide_eq_true, elem_of_dom. Qed.
Lemma contains_port_false rc p : contains_port rc p = false ↔ p ∉ dom (tcp_ports rc).
Proof. unfold contains_port. by rewrite bool_decide_eq_false, elem_of_dom. Qed.

Lemma allocate_tcp_port_cases rc p :
  (allocate_tcp_port p rc = (insert_port p rc, Ok p) ∧ is_port_allowed rc p = true ∧
   p ∉ dom (tcp_ports rc)) ∨
  (∃ e, allocate_tcp_port p rc = (rc, Err e) ∧
   (is_port_allowed rc p = false ∨ p ∈ dom (tcp_ports rc))).
Proof.
  unfold allocate_tcp_port, st_guard. cbv [mbind st_bind st_get].
  destruct (is_port_allowed rc p); simpl; [|right; eauto].
  destruct (contains_port rc p) eqn:Ec; simpl.
  - right. apply contains_port_iff in Ec. eauto.
  - left. apply contains_port_false in Ec. done.
Qed.

(** The counter after [n] attempts. *)
Definition next_after (next : Z) (n : Z) : Z := attempt_port next n.

Definition set_next (rc : ResourceController) (p : Z) : ResourceController :=
  mkResourceController (tcp_ports rc) p (allow_ports rc).

Lemma attempt_port_step next i :
  10000 ≤ next ≤ 65535 → 0 ≤ i →
  attempt_port (if 65535 <=? next then 10000 else next + 1) i = attempt_port next (i + 1).
Proof.
  intros Hn Hi. unfold attempt_port. destruct (65535 <=? next) eqn:E; bool_to_prop.
  - replace next with 65535 by lia. f_equal.
    replace (65535 - 10000 + (i + 1)) with (10000 - 10000 + i + 1 * 55536) by lia.
    by rewrite Z_mod_plus_full.
  - do 2 f_equal. lia.
Qed.

Lemma attempt_port_0 next : 10000 ≤ next ≤ 65535 → attempt_port next 0 = next.
Proof. intros. unfold attempt_port. rewrite Z.mod_small; lia. Qed.

Lemma attempt_port_range next i : 10000 ≤ attempt_port next i ≤ 65535.
Proof. unfold attempt_port. pose proof (Z.mod_pos_bound (next - 10000 + i) 55536). lia. Qed.

(** One iteration: the available port is taken, any other moves on. *)
Lemma random_loop_S n rc :
  10000 ≤ next_dynamic_port rc ≤ 65535 →
  let rc' := set_next rc (attempt_port (next_dynamic_port rc) 1) in
  random_loop (S n) rc =
    if available rc (next_dynamic_port rc)
    then (insert_port (next_dynamic_port rc) rc', Ok (next_dynamic_port rc))
    else random_loop n rc'.
Proof.
  intros Hn rc'. unfold rc'. rewrite <- (attempt_port_step _ 0) by lia.
  cbn [random_loop]. unfold fetch_add_port, store_port, available. cbv [mbind st_bind].
  destruct (65535 <=? next_dynamic_port rc) eqn:E; bool_to_prop; simpl.
  - by rewrite attempt_port_0 by lia.
  - rewrite attempt_port_0, wrap_small by (unfold in_u; simpl; lia).
    unfold is_port_allowed, contains_port, st_get, st_modify, set_next. simpl.
    by destruct (existsb _ _ && negb _).
Qed.

Lemma available_set_next rc x p : available (set_next rc x) p = available rc p.
Proof. done. Qed.

Lemma attempt_port_add next i j : attempt_port (attempt_port next i) j = attempt_port next (i + j).
Proof.
  unfold attempt_port. replace (10000 + (next - 10000 + i) mod 55536 - 10000 + j)
    with ((next - 10000 + i) mod 55536 + j) by lia.
  by rewrite Zplus_mod_idemp_l, Z.add_assoc.
Qed.

(** The loop takes the first available port among its attempts, or fails and
    leaves only the counter changed. *)
Lemma random_loop_spec n rc :
  10000 ≤ next_dynamic_port rc ≤ 65535 →
  let port i := attempt_port (next_dynamic_port rc) i in
  (∃ i, 0 ≤ i < Z.of_nat n ∧ available rc (port i) = true ∧
     (∀ j, 0 ≤ j < i → available rc (port j) = false) ∧
     random_loop n rc = (insert_port (port i) (set_next rc (port (i + 1))), Ok (port i))) ∨
  ((∀ j, 0 ≤ j < Z.of_nat n → available rc (port j) = false) ∧
   random_loop n rc = (set_next rc (port (Z.of_nat n)),
     Err (Error.Proxy "Failed to allocate random port after 1000 attempts"))).
Proof.
  revert rc. induction n as [|n IH]; intros rc Hn port; unfold port.
  - right. split; [lia|]. simpl. unfold st_fail, set_next. rewrite attempt_port_0 by done.
    by destruct rc.
  - rewrite random_loop_S by done. destruct (available rc (next_dynamic_port rc)) eqn:Ea.
    + left. exists 0. rewrite attempt_port_0 by done. split; [lia|]. split; [done|]. split; [lia|done].
    + destruct (IH (set_next rc (attempt_port (next_dynamic_port rc) 1))) as
        [(i & Hi & Hav & Hbefore & ->)|[Hnone ->]]; [apply attempt_port_range|left|right];
        simpl next_dynamic_port in *.
      * exists (i + 1). setoid_rewrite available_set_next in Hbefore. rewrite available_set_next in Hav.
        rewrite !attempt_port_add in *. replace (1 + (i + 1)) with (i + 1 + 1) by lia.
        rewrite (Z.add_comm 1 i) in *. split; [lia|]. split; [done|]. split; [|done].
        intros j Hj. destruct (decide (j = 0)) as [->|]; [by rewrite attempt_port_0|].
        specialize (Hbefore (j - 1)). rewrite attempt_port_add in Hbefore.
        replace (1 + (j - 1)) with j in Hbefore by lia. apply Hbefore. lia.
      * split; [|rewrite attempt_port_add; by replace (1 + Z.of_nat n) with (Z.of_nat (S n)) by lia].
        intros j Hj. destruct (decide (j = 0)) as [->|]; [by rewrite attempt_port_0|].
        setoid_rewrite available_set_next in Hnone. specialize (Hnone (j - 1)). rewrite attempt_port_add in Hnone.
        replace (1 + (j - 1)) with j in Hnone by lia. apply Hnone. lia.
Qed.

Lemma available_true rc p :
  available rc p = true ↔ p < 65535 ∧ is_port_allowed rc p = true ∧ p ∉ dom (tcp_ports rc).
Proof.
  unfold available. rewrite !andb_true_iff, !negb_true_iff, Z.leb_gt, contains_port_false. tauto.
Qed.

(** The 1000 attempts are at 1000 different values of the counter. *)
Lemma attempts_NoDup next : NoDup (attempt_port next <$> seqZ 0 1000).
Proof.
  apply NoDup_fmap_2_strong; [|apply NoDup_seqZ].
  intros i j [??]%elem_of_seqZ [??]%elem_of_seqZ E. unfold attempt_port in E.
  Z.to_euclidean_division_equations. lia.
Qed.

Lemma insert_port_ok rc p q :
  (∀ q, q ∈ dom (tcp_ports rc) → port_ok rc q) → is_port_allowed rc p = true →
  q ∈ dom (tcp_ports (insert_port p rc)) → port_ok rc q.
Proof. simpl. rewrite dom_insert_L, elem_of_union, elem_of_singleton. intros ? ? [->|?]; auto. Qed.

#[export] Instance resource_allocator_spec : PortAllocatorSpec ResourceController.
Proof.
  split; simpl.
  - intros p rc. destruct (allocate_tcp_port_cases rc p) as [(-> & _ & ?)|(e & -> & _)]; [|done].
    simpl. rewrite dom_insert_L. set_solver.
  - intros p rc r' q. destruct (allocate_tcp_port_cases rc p) as [(-> & _)|(e & -> & _)]; naive_solver.
  - intros rc. unfold allocate_random_tcp_port. generalize 1000%nat. intros n.
    revert rc. induction n as [|n IH]; intros rc; [done|].
    cbn [random_loop]. unfold fetch_add_port, store_port. cbv [mbind st_bind].
    destruct (65535 <=? _).
    + simpl. match goal with |- context [random_loop n ?r] => specialize (IH r) end. done.
    + simpl. destruct (_ && _) eqn:E; bool_to_prop.
      * simpl. match goal with H : contains_port _ _ = false |- _ => apply contains_port_false in H end.
        rewrite dom_insert_L. set_solver.
      * match goal with |- context [random_loop n ?r] => specialize (IH r) end. done.
  - intros p rc. by rewrite dom_delete_L.
Qed.

Lemma random_loop_cases n rc :
  rc_inv rc → ∀ rc' r, random_loop n rc = (rc', r) →
  rc_inv rc' ∧
  (∃ q, r = Ok q ∧ 10000 ≤ q < 65535 ∧ is_port_allowed rc q = true ∧ tcp_ports rc !! q = None ∧
     tcp_ports rc' = <[q := ""%string]> (tcp_ports rc)
   ∨ (∃ e, r = Err (Error.Proxy e)) ∧ tcp_ports rc' = tcp_ports rc ∧
     ∀ i, 0 ≤ i < Z.of_nat n → available rc (attempt_port (next_dynamic_port rc) i) = false).
Proof.
  intros [Hheld Hnext] rc' r E.
  destruct (random_loop_spec n rc Hnext) as [(i & Hi & Hav & _ & E')|[Hnone E']];
    rewrite E' in E; injection E as <- <-.
  - apply available_true in Hav as (Hlt & Ha & Hp).
    pose proof (attempt_port_range (next_dynamic_port rc) i).
    split; [split; [|apply attempt_port_range]|].
    + intros q. by apply insert_port_ok.
    + eexists. left. apply not_elem_of_dom in Hp.
      split; [reflexivity|]. split; [lia|]. by split_and!.
  - split; [split; [done|apply attempt_port_range]|]. exists 0. right. eauto.
Qed.

(** ** Properties *)

(** C23: allocation in full.  A requested port is granted exactly when it is in
    an allowed range and free; then it is the only change.  A random
    allocation takes the first of the counter's next 1000 values that is below
    65535, allowed and free, and otherwise fails; either way the ports held
    before stay held.  Held ports stay allowed ones and the counter stays
    between 10000 and 65535. *)
Theorem allocate_ports_spec rc p :
  rc_inv rc →
  (∀ rc' r, allocate_tcp_port p rc = (rc', r) →
     rc_inv rc' ∧
     (r = Ok p ∧ is_port_allowed rc p = true ∧ tcp_ports rc !! p = None ∧
        tcp_ports rc' = <[p := ""%string]> (tcp_ports rc)
      ∨ (∃ e, r = Err (Error.Proxy e)) ∧ rc' = rc ∧
        (is_port_allowed rc p = false ∨ is_Some (tcp_ports rc !! p)))) ∧
  (∀ rc' r, allocate_random_tcp_port rc = (rc', r) →
     rc_inv rc' ∧
     (∃ q, r = Ok q ∧ 10000 ≤ q < 65535 ∧ is_port_allowed rc q = true ∧ tcp_ports rc !! q = None ∧
        tcp_ports rc' = <[q := ""%string]> (tcp_ports rc)
      ∨ (∃ e, r = Err (Error.Proxy e)) ∧ tcp_ports rc' = tcp_ports rc ∧
        ∀ i, 0 ≤ i < 1000 → available rc (attempt_port (next_dynamic_port rc) i) = false)).
Proof.
  intros [Hheld Hnext]. split.
  - intros rc' r E. destruct (allocate_tcp_port_cases rc p) as [(E' & Ha & Hp)|(e & E' & Hp)].
    + rewrite E' in E. injection E as <- <-. apply not_elem_of_dom in Hp. split; [|by left].
      split; [|done]. intros q. by apply insert_port_ok.
    + assert (∃ e, allocate_tcp_port p rc = (rc, Err (Error.Proxy e))) as [e' E''].
      { revert E'. unfold allocate_tcp_port, st_guard. cbv [mbind st_bind st_get].
        destruct (negb _); simpl; [eauto|]. destruct (contains_port _ _); simpl; [eauto|done]. }
      rewrite E'' in E. injection E as <- <-. rewrite <- elem_of_dom. split; [done|]. right. eauto.
  - intros rc' r E. destruct (random_loop_cases 1000 rc (Build_rc_inv _ Hheld Hnext) rc' r E)
      as [Hinv [q [Hok|(He & Hp & Hnone)]]]; (split; [exact Hinv|]; exists q); [by left|right].
    split; [done|]. split; [done|]. intros i Hi. apply Hnone. lia.
Qed.

(** When every port from 10000 to 65534 is allowed and fewer than 999 ports
    are held, a random allocation succeeds, wherever the counter stands: the
    1000 attempts never run out. *)
Theorem random_port_available rc :
  rc_inv rc → (∀ p, 10000 ≤ p < 65535 → is_port_allowed rc p = true) →
  (size (dom (tcp_ports rc)) < 999)%nat →
  ∃ rc' p, allocate_random_tcp_port rc = (rc', Ok p).
Proof.
  intros [_ Hnext] Hall Hsize. unfold allocate_random_tcp_port.
  destruct (random_loop_spec 1000 rc Hnext) as [(i & _ & _ & _ & E)|[Hnone _]]; [by eauto|].
  set (ports := attempt_port (next_dynamic_port rc) <$> seqZ 0 1000).
  assert ((list_to_set ports : gset Z) ⊆ dom (tcp_ports rc) ∪ {[ 65535 ]}) as Hsub.
  { intros q. rewrite elem_of_list_to_set. unfold ports. rewrite list_elem_of_fmap.
    intros (j & -> & Hj%elem_of_seqZ). specialize (Hnone j ltac:(lia)).
    rewrite <- not_true_iff_false, available_true in Hnone.
    pose proof (attempt_port_range (next_dynamic_port rc) j).
    destruct (decide (attempt_port (next_dynamic_port rc) j = 65535)); [set_solver|].
    apply elem_of_union_l, dec_stable. intros ?. apply Hnone.
    split; [lia|]. split; [apply Hall; lia|done]. }
  apply subseteq_size in Hsub. unfold ports in Hsub.
  rewrite (size_list_to_set _ (attempts_NoDup _)), length_fmap, length_seqZ in Hsub.
  pose proof (size_union_alt (dom (tcp_ports rc)) ({[65535]} : gset Z)) as Hu.
  pose proof (subseteq_size (({[65535]} : gset Z) ∖ dom (tcp_ports rc)) {[65535]} ltac:(set_solver)) as Hs.
  rewrite size_singleton in Hs. lia.
Qed.

(** ** Two tasks allocating at once *)

Module Race.

(** A task inside [allocate_tcp_port]: before the test, between the test and
    the insertion, and after. *)
Inductive task :=
| Start (port : Z)
| Checked (port : Z)
| Finished (r : Result Z).

(** One access to the shared map. *)
Definition task_step (t : task) (rc : ResourceController) : task * ResourceController :=
  match t with
  | Start p =>
      if negb (is_port_allowed rc p) then
        (Finished (Err (Error.Proxy ("Port " +:+ pretty p +:+ " is not in allowed range"))), rc)
      else if contains_port rc p then
        (Finished (Err (Error.Proxy ("Port " +:+ pretty p +:+ " is already allocated"))), rc)
      else (Checked p, rc)
  | Checked p => (Finished (Ok p), insert_port p rc)
  | Finished r => (Finished r, rc)
  end.

(** Run the tasks in the order of a schedule of their indices. *)
Fixpoint run_schedule (schedule : list nat) (tasks : list task) (rc : ResourceController)
  : list task * ResourceController :=
  match schedule with
  | [] => (tasks, rc)
  | i :: rest =>
      match tasks !! i with
      | Some t => let '(t', rc') := task_step t rc in run_schedule rest (<[i := t']> tasks) rc'
      | None => run_schedule rest tasks rc
      end
  end.

(** Run without interruption, the steps are [allocate_tcp_port]. *)
Lemma uninterrupted rc p rc' r :
  allocate_tcp_port p rc = (rc', r) → run_schedule [0; 0]%nat [Start p] rc = ([Finished r], rc').
Proof.
  unfold allocate_tcp_port, st_guard. cbv [mbind st_bind st_get]. simpl.
  destruct (is_port_allowed rc p); simpl; [|by intros [= <- <-]].
  destruct (contains_port rc p); simpl; by intros [= <- <-].
Qed.

(** The test and the insertion are separate accesses: if two tasks ask for
    the same free port and both test before either inserts, both are granted
    it; run one after the other, the second is refused. *)
Theorem allocate_race rc p :
  is_port_allowed rc p = true → tcp_ports rc !! p = None →
  (run_schedule [0; 1; 0; 1]%nat [Start p; Start p] rc).1 = [Finished (Ok p); Finished (Ok p)] ∧
  ∃ e, (run_schedule [0; 0; 1; 1]%nat [Start p; Start p] rc).1 = [Finished (Ok p); Finished (Err e)].
Proof.
  intros Ha Hp. assert (contains_port rc p = false) as Hc.
  { apply contains_port_false. by apply not_elem_of_dom. }
  assert (contains_port (insert_port p rc) p = true) as Hc'.
  { apply contains_port_iff. simpl. rewrite dom_insert_L. set_solver. }
  cbn [run_schedule lookup list_lookup task_step insert list_insert].
  rewrite Ha, Hc. cbn. rewrite Ha, Hc. split; [done|].
  change (is_port_allowed (insert_port p rc) p) with (is_port_allowed rc p).
  rewrite Ha, Hc'. cbn. eauto.
Qed.

Definition rc0 : ResourceController := mkResourceController ∅ 10000 [(10000, 65535)].

Lemma rc0_inv : rc_inv rc0.
Proof. split; simpl; [set_solver|lia]. Qed.

Lemma allocate_ports_spec_witness :
  rc_inv (allocate_tcp_port 20000 rc0).1 ∧ (allocate_tcp_port 20000 rc0).2 = Ok 20000.
Proof.
  destruct (proj1 (allocate_ports_spec rc0 20000 rc0_inv) (insert_port 20000 rc0) (Ok 20000) eq_refl)
    as [H _].
  exact (conj H eq_refl).
Defined.

Lemma random_port_available_witness : ∃ rc' p, allocate_random_tcp_port rc0 = (rc', Ok p).
Proof.
  apply (random_port_available rc0 rc0_inv).
  - intros p Hp. unfold is_port_allowed. simpl. rewrite orb_false_r.
    apply andb_true_iff. rewrite !Z.leb_le. lia.
  - vm_compute. lia.
Defined.

Lemma allocate_race_witness :
  (run_schedule [0; 1; 0; 1]%nat [Start 20000; Start 20000] rc0).1
  = [Finished (Ok 20000); Finished (Ok 20000)] ∧
  ∃ e, (run_schedule [0; 0; 1; 1]%nat [Start 20000; Start 20000] rc0).1
       = [Finished (Ok 20000); Finished (Err e)].
Proof. apply (allocate_race rc0 20000); reflexivity. Defined.
End Race.
