(* ===== verification/VhostParse.v ===== *)
(** * Reading the host of a request (the parsers of crates/arp-server/src/proxy/vhost.rs)

    [normalize_host], [extract_http_host] and [parse_tls_sni] decide which
    proxy a connection to the shared HTTP or HTTPS port belongs to;
    [read_http_request_head] and [read_tls_client_hello] collect the bytes
    they look at.  Indexing of the record in [parse_tls_sni] is explicit, so
    that an index out of bounds is a visible outcome. *)
From S2P Require Import Prelude RustString Errors Protocol Framing.
Local Open Scope Z_scope.

Definition HTTP_HEADER_MAX : Z := 16 * 1024.
Definition TLS_HELLO_MAX : Z := 16 * 1024.

(** ** Host names *)

Definition normalize_host `{UnicodeLower} (host : string) : string :=
  let trimmed := to_lowercase (trim_end_matches "."%byte (trim host)) in
  match strip_prefix trimmed "[" with
  | Some stripped => trim_end_matches "]"%byte stripped
  | None =>
      match rsplit_once ":"%byte trimmed with
      | Some (name, _) => if negb (contains ":"%byte name) then name else trimmed
      | None => trimmed
      end
  end.

(** ** HTTP *)

(** The loop over the lines of the request head. *)
Fixpoint find_host_line (lines : list bytes) : option string :=
  match lines with
  | [] => None
  | line :: rest =>
      match split_once ":"%byte (of_bytes line) with
      | Some (name, value) =>
          if eq_ignore_ascii_case name "host" then Some (trim value) else find_host_line rest
      | None => find_host_line rest
      end
  end.

Definition extract_http_host (data : bytes) : option string :=
  text ← from_utf8 data; find_host_line (bytes_lines [] (to_bytes text)).

(** [data.windows(4).any(|w| w == b"\r\n\r\n")]. *)
Fixpoint has_head_end (data : bytes) : bool :=
  match data with
  | [] => false
  | _ :: rest => bytes_starts_with [x0d; x0a; x0d; x0a] data || has_head_end rest
  end.

(** [reads] are the results of the successive [stream.read] calls with a
    1024-byte buffer; when there are no more the deadline passes. *)
Fixpoint read_http_head_loop (data : bytes) (reads : list (result IoError bytes)) : Result bytes :=
  match reads with
  | [] => Err (Error.Timeout "http header read timeout")
  | Err e :: _ => Err (Error.Io e)
  | Ok buf :: reads' =>
      match buf with
      | [] => Err Error.ConnectionClosed
      | _ :: _ =>
          let data := data ++ buf in
          if has_head_end data then Ok data
          else if HTTP_HEADER_MAX <=? blen data then Err (Error.Protocol "http header too large")
          else read_http_head_loop data reads'
      end
  end.

Definition read_http_request_head (reads : list (result IoError bytes)) : Result bytes :=
  read_http_head_loop [] reads.

(** ** TLS *)

(** [timed_out] tells whether the deadline passes first. *)
Definition read_tls_client_hello (timed_out : bool) (stream : Reader) : Reader * Result bytes :=
  if timed_out then (stream, Err (Error.Timeout "tls client hello read timeout")) else
  (header ← read_exact 5;
   if negb (bval (default x00 (header !! 0%nat)) =? 22) then
     st_protocol_err "not a TLS handshake record"
   else
     let record_len := be_val (take 2 (drop 3 header)) in
     if (record_len =? 0) || (TLS_HELLO_MAX <? record_len) then
       st_protocol_err "invalid TLS record length"
     else payload ← read_exact (Z.to_nat record_len); mret (header ++ payload)) stream.

(** An index: [None] is the panic of an index out of bounds. *)
Definition u8_at (record : bytes) (pos : nat) : option Z := bval <$> record !! pos.
Definition u16_at (record : bytes) (pos : nat) : option Z :=
  a ← u8_at record pos; b ← u8_at record (pos + 1)%nat; Some (a * 256 + b).
Definition slice_at (record : bytes) (from to : nat) : option bytes :=
  if (from <=? to)%nat && (to <=? length record)%nat
  then Some (take (to - from) (drop from record)) else None.

(** The results below are [Some r] when the code returns [r] and [None] when it
    panics (or when the fuel of a loop runs out, which [parse_tls_sni_total]
    excludes). *)

Fixpoint server_name_loop (fuel : nat) (record : bytes) (sn_pos sn_end : nat)
  : option (option string) :=
  match fuel with
  | O => None
  | S fuel' =>
      if negb (sn_pos + 3 <=? sn_end)%nat then Some None else
      name_type ← u8_at record sn_pos;
      name_len ← u16_at record (sn_pos + 1)%nat;
      let sn_pos := (sn_pos + 3)%nat in
      if (sn_end <? sn_pos + Z.to_nat name_len)%nat then Some None
      else if name_type =? 0 then
        name ← slice_at record sn_pos (sn_pos + Z.to_nat name_len)%nat;
        Some (from_utf8 name)
      else server_name_loop fuel' record (sn_pos + Z.to_nat name_len)%nat sn_end
  end.

Fixpoint extension_loop (fuel : nat) (record : bytes) (pos extensions_end : nat)
  : option (option string) :=
  match fuel with
  | O => None
  | S fuel' =>
      if negb (pos + 4 <=? extensions_end)%nat then Some None else
      ext_type ← u16_at record pos;
      ext_len ← u16_at record (pos + 2)%nat;
      let pos := (pos + 4)%nat in
      if (extensions_end <? pos + Z.to_nat ext_len)%nat then Some None
      else if ext_type =? 0 then
        if ext_len <? 2 then Some None
        else server_name_loop (S (length record)) record (pos + 2)%nat (pos + Z.to_nat ext_len)%nat
      else extension_loop fuel' record (pos + Z.to_nat ext_len)%nat extensions_end
  end.

Definition parse_tls_sni (record : bytes) : option (option string) :=
  let len := length record in
  if (len <? 5)%nat then Some None else
  b0 ← u8_at record 0;
  if negb (b0 =? 22) then Some None else
  rec_len ← u16_at record 3;
  if (len <? Z.to_nat rec_len + 5)%nat then Some None else
  let pos := 5%nat in
  if (len <? pos + 4)%nat then Some None else
  hs_type ← u8_at record pos;
  if negb (hs_type =? 1) then Some None else
  h1 ← u8_at record (pos + 1)%nat; h2 ← u8_at record (pos + 2)%nat; h3 ← u8_at record (pos + 3)%nat;
  let hs_len := Z.lor (Z.lor (Z.shiftl h1 16) (Z.shiftl h2 8)) h3 in
  let pos := (pos + 4)%nat in
  if (len <? pos + Z.to_nat hs_len)%nat then Some None else
  let pos := (pos + (2 + 32))%nat in
  if (len <=? pos)%nat then Some None else
  session_id_len ← u8_at record pos;
  let pos := (pos + (1 + Z.to_nat session_id_len))%nat in
  if (len <? pos + 2)%nat then Some None else
  cipher_len ← u16_at record pos;
  let pos := (pos + (2 + Z.to_nat cipher_len))%nat in
  if (len <=? pos)%nat then Some None else
  compression_len ← u8_at record pos;
  let pos := (pos + (1 + Z.to_nat compression_len))%nat in
  if (len <? pos + 2)%nat then Some None else
  extensions_len ← u16_at record pos;
  let pos := (pos + 2)%nat in
  let extensions_end := (pos + Z.to_nat extensions_len)%nat in
  if (len <? extensions_end)%nat then Some None else
  extension_loop (S len) record pos extensions_end.

(** ** No panic, no endless loop *)

Lemma u8_at_ok record pos : (pos < length record)%nat → ∃ z, u8_at record pos = Some z ∧ 0 ≤ z < 256.
Proof.
  intros H. unfold u8_at. destruct (lookup_lt_is_Some_2 record pos H) as [b ->].
  simpl. eauto using bval_range.
Qed.

Lemma u16_at_ok record pos :
  (pos + 1 < length record)%nat → ∃ z, u16_at record pos = Some z ∧ 0 ≤ z < 65536.
Proof.
  intros H. unfold u16_at.
  destruct (u8_at_ok record pos) as (a & -> & ?); [lia|].
  destruct (u8_at_ok record (pos + 1)) as (b & -> & ?); [lia|]. simpl. eexists. split; [done|]. lia.
Qed.

Lemma server_name_loop_ok fuel record p e :
  (e ≤ length record)%nat → (0 < fuel ∧ e < p + fuel)%nat → ∃ o, server_name_loop fuel record p e = Some o.
Proof.
  revert p. induction fuel as [|fuel IH]; intros p He Hf; simpl.
  - exfalso. lia.
  - destruct (p + 3 <=? e)%nat eqn:E; bool_to_prop; simpl; [|eauto].
    destruct (u8_at_ok record p) as (t & -> & _); [lia|].
    destruct (u16_at_ok record (p + 1)) as (n & -> & _); [lia|]. simpl.
    destruct (_ <? _)%nat eqn:E2; bool_to_prop; [eauto|].
    destruct (t =? 0); [|apply IH; lia].
    unfold slice_at. rewrite !(proj2 (Nat.leb_le _ _)) by lia. simpl. eauto.
Qed.

Lemma extension_loop_ok fuel record p e :
  (e ≤ length record)%nat → (0 < fuel ∧ e < p + fuel)%nat → ∃ o, extension_loop fuel record p e = Some o.
Proof.
  revert p. induction fuel as [|fuel IH]; intros p He Hf; cbn [extension_loop].
  - exfalso. lia.
  - destruct (p + 4 <=? e)%nat eqn:E; bool_to_prop; cbn [negb]; [|eauto].
    destruct (u16_at_ok record p) as (t & -> & _); [lia|].
    destruct (u16_at_ok record (p + 2)) as (n & -> & _); [lia|]. cbn [mbind option_bind].
    destruct (_ <? _)%nat eqn:E2; bool_to_prop; [eauto|].
    destruct (t =? 0); [|apply IH; lia].
    destruct (n <? 2); [eauto|]. apply server_name_loop_ok; lia.
Qed.

(** The tests of the parser, one after the other, each of which ends with
    [None] or guards the next indices. *)
Ltac next_test :=
  match goal with
  | |- ∃ o, (if ?b then Some None else _) = Some o =>
      let E := fresh "E" in destruct b eqn:E; bool_to_prop; [by eauto|]
  | |- ∃ o, (u8_at ?r ?p ≫= _) = Some o =>
      let z := fresh "z" in
      destruct (u8_at_ok r p) as (z & -> & ?); [lia|]; cbn [mbind option_bind]
  | |- ∃ o, (u16_at ?r ?p ≫= _) = Some o =>
      let z := fresh "z" in
      destruct (u16_at_ok r p) as (z & -> & ?); [lia|]; cbn [mbind option_bind]
  end.

(** C25: the parser of the TLS ClientHello returns for every byte sequence
    whatever: no index or slice is out of bounds and both loops end. *)
Theorem parse_tls_sni_total record : ∃ o, parse_tls_sni record = Some o.
Proof. unfold parse_tls_sni. cbv zeta. repeat next_test. apply extension_loop_ok; lia. Qed.

(** ** Parsing a well-formed ClientHello *)

(** Type and length-prefixed content of an extension, and of a server name. *)
Definition ext_bytes (x : Z * bytes) : bytes := be_bytes 2 x.1 ++ be_bytes 2 (blen x.2) ++ x.2.
Definition name_bytes (x : Z * bytes) : bytes := be_bytes 1 x.1 ++ be_bytes 2 (blen x.2) ++ x.2.

Record ClientHello := mkClientHello {
  ch_fixed : bytes;                      (* version and random, 34 bytes *)
  ch_session : bytes; ch_ciphers : bytes; ch_compression : bytes;
  ch_before : list (Z * bytes);          (* extensions before server_name *)
  ch_names : list (Z * bytes);           (* server names of other types first *)
  ch_host : string;
  ch_after : list (Z * bytes);
}.

Definition name_list (c : ClientHello) : bytes :=
  concat (name_bytes <$> ch_names c) ++ name_bytes (0, to_bytes (ch_host c)).
Definition sni_ext (c : ClientHello) : Z * bytes := (0, be_bytes 2 (blen (name_list c)) ++ name_list c).
Definition extensions (c : ClientHello) : bytes :=
  concat (ext_bytes <$> ch_before c) ++ ext_bytes (sni_ext c) ++ concat (ext_bytes <$> ch_after c).
Definition hello_body (c : ClientHello) : bytes :=
  ch_fixed c ++ be_bytes 1 (blen (ch_session c)) ++ ch_session c
  ++ be_bytes 2 (blen (ch_ciphers c)) ++ ch_ciphers c
  ++ be_bytes 1 (blen (ch_compression c)) ++ ch_compression c
  ++ be_bytes 2 (blen (extensions c)) ++ extensions c.
Definition handshake (c : ClientHello) : bytes :=
  be_bytes 1 1 ++ be_bytes 3 (blen (hello_body c)) ++ hello_body c.
Definition hello_record (c : ClientHello) : bytes :=
  be_bytes 1 22 ++ [x03; x01] ++ be_bytes 2 (blen (handshake c)) ++ handshake c.

(** The lengths fit their fields, no earlier extension is a server_name and no
    earlier server name is of type host_name. *)
Record hello_ok (c : ClientHello) : Prop := {
  ok_fixed : length (ch_fixed c) = 34%nat;
  ok_session : blen (ch_session c) < 256;
  ok_compression : blen (ch_compression c) < 256;
  ok_size : blen (handshake c) < 65536;
  ok_before : Forall (fun x => 0 < x.1 < 65536) (ch_before c);
  ok_names : Forall (fun x => 0 < x.1 < 256) (ch_names c);
  ok_utf8 : utf8_valid (to_bytes (ch_host c)) = true;
}.

(** What follows position [pos] of the record. *)
Definition at_pos (record : bytes) (pos : nat) (rest : bytes) : Prop :=
  drop pos record = rest ∧ (pos ≤ length record)%nat.

Lemma at_pos_length record pos rest : at_pos record pos rest → (length record = pos + length rest)%nat.
Proof. intros [<- ?]. rewrite length_drop. lia. Qed.

Lemma at_pos_app record pos a rest :
  at_pos record pos (a ++ rest) → at_pos record (pos + length a) rest.
Proof.
  intros H. pose proof (at_pos_length _ _ _ H) as Hl. rewrite length_app in Hl. destruct H as [H _].
  split; [|lia]. by rewrite <- drop_drop, H, drop_app_length.
Qed.

Lemma at_pos_skip record pos n a rest :
  at_pos record pos (a ++ rest) → n = length a → at_pos record (pos + n) rest.
Proof. intros H ->. by apply at_pos_app. Qed.

Lemma at_pos_byte record pos b rest : at_pos record pos (b :: rest) → record !! pos = Some b.
Proof. intros [H _]. rewrite <- (Nat.add_0_r pos), <- lookup_drop, H. done. Qed.

Lemma at_pos_u8 record pos z rest :
  at_pos record pos (be_bytes 1 z ++ rest) → 0 ≤ z < 256 →
  u8_at record pos = Some z ∧ at_pos record (pos + 1) rest.
Proof.
  intros H Hz. split; [|by apply (at_pos_skip _ _ _ _ _ H)].
  unfold u8_at. rewrite (at_pos_byte _ _ _ _ H). simpl.
  by rewrite bval_byte_of, Z.shiftr_0_r, wrap_small by done.
Qed.

Lemma be_bytes_2 z : be_bytes 2 z = [byte_of (Z.shiftr z 8); byte_of z].
Proof. unfold be_bytes. by rewrite Z.shiftr_0_r. Qed.

Lemma at_pos_u16 record pos z rest :
  at_pos record pos (be_bytes 2 z ++ rest) → 0 ≤ z < 65536 →
  u16_at record pos = Some z ∧ at_pos record (pos + 2) rest.
Proof.
  intros H Hz. split; [|by apply (at_pos_skip _ _ _ _ _ H)]. rewrite be_bytes_2 in H.
  unfold u16_at, u8_at. rewrite (at_pos_byte _ _ _ _ H).
  rewrite (at_pos_byte _ (pos + 1) (byte_of z) rest) by (by apply (at_pos_skip _ _ 1 [_] _ H)).
  simpl. rewrite !bval_byte_of. unfold wrap. rewrite Z.shiftr_div_pow2 by done.
  change (2 ^ 8) with 256. f_equal. rewrite (Z.mod_small (z / 256) 256);
    [|split; [apply Z.div_pos; lia|apply Z.div_lt_upper_bound; lia]].
  pose proof (Z.div_mod z 256). lia.
Qed.

Lemma at_pos_u24 record pos z rest :
  at_pos record pos (be_bytes 3 z ++ rest) → 0 ≤ z < 2 ^ 24 →
  ∃ a b c, u8_at record pos = Some a ∧ u8_at record (pos + 1)%nat = Some b ∧
    u8_at record (pos + 2)%nat = Some c ∧ Z.lor (Z.lor (Z.shiftl a 16) (Z.shiftl b 8)) c = z ∧
    at_pos record (pos + 3) rest.
Proof.
  intros H Hz. assert (at_pos record (pos + 3) rest) by (by apply (at_pos_skip _ _ _ _ _ H)).
  change (be_bytes 3 z) with (byte_of (Z.shiftr z 16) :: be_bytes 2 z) in H. rewrite be_bytes_2 in H.
  unfold u8_at. rewrite (at_pos_byte _ _ _ _ H).
  rewrite (at_pos_byte _ (pos + 1) (byte_of (Z.shiftr z 8)) (byte_of z :: rest)) by (by apply (at_pos_skip _ _ 1 [_] _ H)).
  rewrite (at_pos_byte _ (pos + 2) (byte_of z) rest) by (by apply (at_pos_skip _ _ 2 [_; _] _ H)).
  do 3 eexists. split; [done|]. split; [done|]. split; [done|]. split; [|done].
  rewrite !bval_byte_of. unfold wrap. rewrite !Z.shiftr_div_pow2 by done.
  rewrite (Z.shiftl_mul_pow2 _ 8), <- Z.lor_assoc by done.
  change (2 ^ 8) with 256. change (2 ^ 16) with 65536. change (2 ^ 24) with 16777216 in Hz.
  rewrite <- (Z.shiftl_mul_pow2 _ 8), (lor_shiftl _ _ 8) by (try apply Z.mod_pos_bound; lia).
  rewrite lor_shiftl; [|done|]; Z.to_euclidean_division_equations; lia.
Qed.

Lemma length_ext_bytes x : length (ext_bytes x) = (4 + length x.2)%nat.
Proof. unfold ext_bytes. rewrite !length_app, !length_be_bytes. lia. Qed.
Lemma length_name_bytes x : length (name_bytes x) = (3 + length x.2)%nat.
Proof. unfold name_bytes. rewrite !length_app, !length_be_bytes. lia. Qed.

(** Reading the two fields in front of an extension, and of a server name. *)
Lemma at_ext record pos x rest :
  at_pos record pos (ext_bytes x ++ rest) → 0 ≤ x.1 < 65536 → blen x.2 < 65536 →
  u16_at record pos = Some x.1 ∧ u16_at record (pos + 2) = Some (blen x.2) ∧
  at_pos record (pos + 4) (x.2 ++ rest) ∧ at_pos record (pos + 4 + length x.2) rest.
Proof.
  unfold ext_bytes. rewrite <- !app_assoc. intros H Ht Hl.
  destruct (at_pos_u16 _ _ _ _ H Ht) as [-> H2].
  destruct (at_pos_u16 _ _ _ _ H2) as [-> H4]; [unfold blen in *; lia|].
  rewrite <- Nat.add_assoc in H4. split; [done|]. split; [done|]. split; [done|]. by apply at_pos_app.
Qed.

Lemma at_name record pos x rest :
  at_pos record pos (name_bytes x ++ rest) → 0 ≤ x.1 < 256 → blen x.2 < 65536 →
  u8_at record pos = Some x.1 ∧ u16_at record (pos + 1) = Some (blen x.2) ∧
  at_pos record (pos + 3) (x.2 ++ rest) ∧ at_pos record (pos + 3 + length x.2) rest.
Proof.
  unfold name_bytes. rewrite <- !app_assoc. intros H Ht Hl.
  destruct (at_pos_u8 _ _ _ _ H Ht) as [-> H2].
  destruct (at_pos_u16 _ _ _ _ H2) as [-> H4]; [unfold blen in *; lia|].
  rewrite <- Nat.add_assoc in H4. split; [done|]. split; [done|]. split; [done|]. by apply at_pos_app.
Qed.

Lemma Z_to_nat_blen l : Z.to_nat (blen l) = length l.
Proof. unfold blen. lia. Qed.

Lemma server_name_loop_parse fuel record pos e names host rest :
  at_pos record pos (concat (name_bytes <$> names) ++ name_bytes (0, to_bytes host) ++ rest) →
  (e = pos + length (concat (name_bytes <$> names)) + (3 + length (to_bytes host)))%nat →
  Forall (fun x => 0 < x.1 < 256) names →
  blen (concat (name_bytes <$> names)) + blen (to_bytes host) < 65536 →
  utf8_valid (to_bytes host) = true → (length names < fuel)%nat →
  server_name_loop fuel record pos e = Some (Some host).
Proof.
  intros Hat He Hn Hl Hu. revert pos fuel Hat He. 
  induction Hn as [|x names Hx Hn IH]; intros pos [|fuel] Hat He Hf; simpl in Hf; try lia;
    cbn [server_name_loop].
  - cbn [fmap list_fmap concat app] in *. simpl length in He.
    destruct (at_name _ _ _ _ Hat) as (Ht & Hln & Hdat & _); [done|unfold blen in *; simpl in *; lia|].
    cbn [fst snd] in *. rewrite (proj2 (Nat.leb_le _ _)) by lia. cbn [negb].
    rewrite Ht, Hln. cbn [mbind option_bind]. rewrite Z_to_nat_blen.
    rewrite (proj2 (Nat.ltb_ge _ _)) by lia. cbn [Z.eqb].
    pose proof (at_pos_length _ _ _ Hdat) as Hlen. rewrite length_app in Hlen.
    unfold slice_at. rewrite !(proj2 (Nat.leb_le _ _)) by lia. cbn [andb mbind option_bind].
    destruct Hdat as [-> _]. rewrite take_app_exact by lia. by rewrite from_utf8_to_bytes.
  - rewrite fmap_cons, concat_cons in Hat, He, Hl. rewrite <- app_assoc in Hat.
    unfold blen in Hl. rewrite length_app, length_name_bytes in He, Hl.
    destruct (at_name _ _ _ _ Hat) as (Ht & Hln & Hdat & Hnext); [lia|unfold blen; lia|].
    rewrite (proj2 (Nat.leb_le _ _)) by lia. cbn [negb].
    rewrite Ht, Hln. cbn [mbind option_bind]. rewrite Z_to_nat_blen.
    rewrite (proj2 (Nat.ltb_ge _ _)) by lia. rewrite (proj2 (Z.eqb_neq _ _)) by lia.
    apply IH; [unfold blen; lia|done|lia|lia].
Qed.

Lemma length_names_le names : (length names ≤ length (concat (name_bytes <$> names)))%nat.
Proof.
  induction names as [|x names IH]; [done|].
  rewrite fmap_cons, concat_cons, length_app, length_name_bytes. cbn [length]. lia.
Qed.

Lemma extension_loop_parse fuel record pos e c rest :
  at_pos record pos (concat (ext_bytes <$> ch_before c) ++ ext_bytes (sni_ext c) ++ rest) →
  (pos + length (concat (ext_bytes <$> ch_before c)) + length (ext_bytes (sni_ext c)) ≤ e)%nat →
  (e ≤ length record)%nat → hello_ok c → blen (extensions c) < 65536 →
  (length (ch_before c) < fuel)%nat →
  extension_loop fuel record pos e = Some (Some (ch_host c)).
Proof.
  intros Hat He Hrec Hok Hl. unfold extensions, blen in Hl. rewrite !length_app in Hl.
  rewrite !length_ext_bytes in *. unfold sni_ext in Hl, He. cbn [fst snd] in Hl, He.
  rewrite length_app, length_be_bytes in *.
  destruct Hok as [_ _ _ _ Hb Hnm Hu]. revert pos fuel Hat He Hl.
  induction Hb as [|x l Hx Hb IH]; intros pos [|fuel] Hat He Hl Hf; simpl in Hf; try lia;
    cbn [extension_loop].
  - cbn [fmap list_fmap concat app] in *. simpl length in *.
    destruct (at_ext _ _ _ _ Hat) as (Ht & Hln & Hdat & _);
      [done|unfold blen; cbn [snd sni_ext]; rewrite length_app, length_be_bytes; lia|].
    unfold sni_ext in *. cbn [fst snd] in *. rewrite (proj2 (Nat.leb_le _ _)) by lia. cbn [negb].
    rewrite Ht, Hln. cbn [mbind option_bind]. rewrite Z_to_nat_blen, length_app, length_be_bytes.
    rewrite (proj2 (Nat.ltb_ge _ _)) by lia. cbn [Z.eqb].
    rewrite (proj2 (Z.ltb_ge _ _)) by (unfold blen; rewrite length_app, length_be_bytes; lia).
    rewrite <- app_assoc in Hdat.
    apply (at_pos_skip _ _ 2) in Hdat; [|by rewrite length_be_bytes].
    unfold name_list in *. rewrite <- app_assoc in Hdat. rewrite !length_app, !length_name_bytes in *.
    cbn [snd] in *. pose proof (length_names_le (ch_names c)).
    apply (server_name_loop_parse _ _ _ _ _ _ _ Hdat); unfold blen; try done; lia.
  - rewrite fmap_cons, concat_cons in Hat, He, Hl. rewrite <- app_assoc in Hat.
    rewrite length_app, length_ext_bytes in He, Hl.
    destruct (at_ext _ _ _ _ Hat) as (Ht & Hln & Hdat & Hnext); [lia|unfold blen; lia|].
    rewrite (proj2 (Nat.leb_le _ _)) by lia. cbn [negb].
    rewrite Ht, Hln. cbn [mbind option_bind]. rewrite Z_to_nat_blen.
    rewrite (proj2 (Nat.ltb_ge _ _)) by lia. rewrite (proj2 (Z.eqb_neq _ _)) by lia.
    apply IH; try done; lia.
Qed.

Lemma length_before_le c : (length (ch_before c) ≤ length (concat (ext_bytes <$> ch_before c)))%nat.
Proof.
  induction (ch_before c) as [|x l IH]; [done|].
  rewrite fmap_cons, concat_cons, length_app, length_ext_bytes. cbn [length]. lia.
Qed.

Lemma at_pos_eq record p q rest : at_pos record p rest → p = q → at_pos record q rest.
Proof. by intros ? <-. Qed.

(** The positions of the parts of the record. *)
Record layout (c : ClientHello) (tail record : bytes) : Prop := {
  l0 : u8_at record 0 = Some 22;
  l3 : u16_at record 3 = Some (blen (handshake c));
  l5 : u8_at record 5 = Some 1;
  l6 : ∃ a b d, u8_at record 6 = Some a ∧ u8_at record 7 = Some b ∧ u8_at record 8 = Some d ∧
         Z.lor (Z.lor (Z.shiftl a 16) (Z.shiftl b 8)) d = blen (hello_body c);
  l43 : u8_at record 43 = Some (blen (ch_session c));
  lc : u16_at record (44 + length (ch_session c)) = Some (blen (ch_ciphers c));
  lm : u8_at record (46 + length (ch_session c) + length (ch_ciphers c))
       = Some (blen (ch_compression c));
  lx : u16_at record (47 + length (ch_session c) + length (ch_ciphers c) + length (ch_compression c))
       = Some (blen (extensions c));
  le : at_pos record (49 + length (ch_session c) + length (ch_ciphers c) + length (ch_compression c))
         (extensions c ++ tail);
}.

Lemma length_hello_body c : length (ch_fixed c) = 34%nat →
  length (hello_body c) = (40 + length (ch_session c) + length (ch_ciphers c)
                           + length (ch_compression c) + length (extensions c))%nat.
Proof. intros. unfold hello_body. rewrite !length_app, !length_be_bytes. lia. Qed.

Lemma length_handshake c : length (handshake c) = (4 + length (hello_body c))%nat.
Proof. unfold handshake. rewrite !length_app, !length_be_bytes. lia. Qed.

Lemma hello_layout c tail : hello_ok c → layout c tail (hello_record c ++ tail).
Proof.
  intros [Hf Hs Hm Hsz _ _ _].
  pose proof (length_hello_body c Hf) as Hlb. pose proof (length_handshake c) as Hlh.
  unfold blen in Hsz. set (r := hello_record c ++ tail).
  assert (at_pos r 0 r) as H0 by (split; [done|lia]).
  unfold r in H0 at 2. unfold hello_record in H0. rewrite <- !app_assoc in H0.
  destruct (at_pos_u8 _ _ _ _ H0) as [E0 H1]; [lia|].
  apply (at_pos_skip _ _ 2) in H1; [|done]. cbn [Nat.add] in H1.
  destruct (at_pos_u16 _ _ _ _ H1) as [E3 H5]; [unfold blen; lia|]. cbn [Nat.add] in H5.
  unfold handshake in H5. rewrite <- !app_assoc in H5.
  destruct (at_pos_u8 _ _ _ _ H5) as [E5 H6]; [lia|]. cbn [Nat.add] in H6.
  destruct (at_pos_u24 _ _ _ _ H6) as (a & b & d & Ea & Eb & Ed & Hlor & H9); [unfold blen; lia|].
  cbn [Nat.add] in *. unfold hello_body in H9. rewrite <- !app_assoc in H9.
  apply (at_pos_skip _ _ 34) in H9; [|done]. cbn [Nat.add] in H9.
  destruct (at_pos_u8 _ _ _ _ H9) as [E43 H44]; [unfold blen in *; lia|]. cbn [Nat.add] in H44.
  apply at_pos_app in H44. destruct (at_pos_u16 _ _ _ _ H44) as [Ec Hc]; [unfold blen; lia|].
  apply at_pos_app in Hc.
  apply (at_pos_eq _ _ (46 + length (ch_session c) + length (ch_ciphers c))) in Hc; [|lia].
  destruct (at_pos_u8 _ _ _ _ Hc) as [Em Hcm]; [unfold blen in *; lia|].
  apply at_pos_app in Hcm.
  apply (at_pos_eq _ _ (47 + length (ch_session c) + length (ch_ciphers c)
           + length (ch_compression c))) in Hcm; [|lia].
  destruct (at_pos_u16 _ _ _ _ Hcm) as [Ex He]; [unfold blen; lia|].
  split; eauto 10. by apply (at_pos_eq _ _ _ _ He); lia.
Qed.

(** C29: from the record of a well-formed ClientHello the parser returns its
    host name, whatever extensions stand before and after server_name,
    whatever names of other types precede the host name, and whatever bytes
    follow the record. *)
Theorem parse_tls_sni_host c tail :
  hello_ok c → parse_tls_sni (hello_record c ++ tail) = Some (Some (ch_host c)).
Proof.
  intros Hok. destruct (hello_layout c tail Hok) as [E0 E3 E5 (a & b & d & Ea & Eb & Ed & Hlor) E43 Ec Em Ex He].
  revert E0 E3 E5 Ea Eb Ed E43 Ec Em Ex He. generalize (hello_record c ++ tail). intros r.
  intros E0 E3 E5 Ea Eb Ed E43 Ec Em Ex He.
  pose proof (length_hello_body c (ok_fixed c Hok)) as Hlb. pose proof (length_handshake c) as Hlh.
  pose proof (at_pos_length _ _ _ He) as Hlr. rewrite length_app in Hlr.
  pose proof (ok_size c Hok) as Hsz. unfold blen in Hsz.
  assert (length (ext_bytes (sni_ext c)) + length (concat (ext_bytes <$> ch_before c))
          + length (concat (ext_bytes <$> ch_after c)) = length (extensions c))%nat as Hext.
  { unfold extensions. rewrite !length_app. lia. }
  unfold parse_tls_sni. cbv zeta.
  change (5 + 1)%nat with 6%nat. change (5 + 2)%nat with 7%nat. change (5 + 3)%nat with 8%nat.
  change (5 + 4)%nat with 9%nat. change (9 + (2 + 32))%nat with 43%nat.
  rewrite E0, E3, E5, Ea, Eb, Ed. cbn [mbind option_bind]. rewrite Hlor, !Z_to_nat_blen.
  rewrite !(proj2 (Nat.ltb_ge _ _)), !(proj2 (Nat.leb_gt _ _)) by lia. cbn [Z.eqb Pos.eqb negb].
  rewrite E43. cbn [mbind option_bind]. rewrite Z_to_nat_blen.
  replace (43 + (1 + length (ch_session c)))%nat with (44 + length (ch_session c))%nat by lia.
  rewrite !(proj2 (Nat.ltb_ge _ _)), Ec by lia. cbn [mbind option_bind]. rewrite Z_to_nat_blen.
  replace (44 + length (ch_session c) + (2 + length (ch_ciphers c)))%nat
    with (46 + length (ch_session c) + length (ch_ciphers c))%nat by lia.
  rewrite !(proj2 (Nat.leb_gt _ _)), Em by lia. cbn [mbind option_bind]. rewrite Z_to_nat_blen.
  replace (46 + length (ch_session c) + length (ch_ciphers c) + (1 + length (ch_compression c)))%nat
    with (47 + length (ch_session c) + length (ch_ciphers c) + length (ch_compression c))%nat by lia.
  rewrite !(proj2 (Nat.ltb_ge _ _)), Ex by lia. cbn [mbind option_bind]. rewrite Z_to_nat_blen.
  rewrite !(proj2 (Nat.ltb_ge _ _)) by lia.
  unfold extensions at 1 in He. rewrite <- !app_assoc in He. pose proof (length_before_le c).
  eapply extension_loop_parse; [apply (at_pos_eq _ _ _ _ He)|..]; try done; unfold blen; lia.
Qed.

(** ** HTTP heads *)

Definition CRLF : bytes := [x0d; x0a].

Lemma bytes_lines_lf cur line rest :
  x0a ∉ line → bytes_lines cur (line ++ x0a :: rest) = strip_cr (reverse line ++ cur) :: bytes_lines [] rest.
Proof.
  revert cur. induction line as [|b line IH]; intros cur Hn; simpl.
  - done.
  - rewrite not_elem_of_cons in Hn. rewrite bool_decide_eq_false_2 by naive_solver.
    rewrite IH by naive_solver. by rewrite reverse_cons, <- app_assoc.
Qed.

Lemma bytes_lines_crlf line rest :
  x0a ∉ line → bytes_lines [] (line ++ CRLF ++ rest) = line :: bytes_lines [] rest.
Proof.
  intros Hn. change (CRLF ++ rest) with ([x0d] ++ x0a :: rest). rewrite app_assoc, bytes_lines_lf.
  - by rewrite app_nil_r, reverse_app, reverse_singleton; simpl; rewrite reverse_involutive.
  - rewrite elem_of_app, list_elem_of_singleton. naive_solver.
Qed.

(** A header line that is not a Host header. *)
Definition other_line (line : bytes) : Prop :=
  (x0a ∉ line) ∧ ∀ name value,
    split_once ":"%byte (of_bytes line) = Some (name, value) → eq_ignore_ascii_case name "host" = false.

Lemma find_host_other line rest : other_line line → find_host_line (line :: rest) = find_host_line rest.
Proof.
  intros [_ H]. simpl. destruct (split_once _ _) as [[n v]|]; [|done]. by rewrite (H n v).
Qed.

Lemma find_host_lines before rest :
  Forall other_line before →
  find_host_line (bytes_lines [] (concat ((fun l => l ++ CRLF) <$> before) ++ rest))
  = find_host_line (bytes_lines [] rest).
Proof.
  induction 1 as [|l before Hl _ IH]; [done|]. rewrite fmap_cons, concat_cons, <- !app_assoc.
  rewrite bytes_lines_crlf by apply Hl. by rewrite find_host_other.
Qed.

Lemma split_once_app c x y :
  c ∉ to_bytes x → split_once c (of_bytes (to_bytes x ++ c :: to_bytes y)) = Some (x, y).
Proof.
  intros. unfold split_once. rewrite to_of_bytes, bytes_split_once_app by done. by rewrite !of_to_bytes.
Qed.

(** ** Plain host names *)

(** Printable ASCII without blanks. *)
Definition graphic (b : byte) : Prop := 33 ≤ bval b ≤ 126.

Lemma graphic_all l :
  forallb (fun b => (33 <=? bval b) && (bval b <=? 126)) l = true → Forall graphic l.
Proof.
  intros H. apply Forall_forall. intros b Hb. rewrite forallb_True in H. specialize (H b Hb).
  unfold graphic. bool_to_prop. lia.
Qed.

Lemma graphic_ws b : graphic b → is_ascii_ws b = false.
Proof.
  unfold graphic, is_ascii_ws. intros. rewrite orb_false_iff, andb_false_iff, Z.leb_gt, Z.leb_gt, Z.eqb_neq. lia.
Qed.

Lemma ws_len_graphic b l : graphic b → ws_len (b :: l) = 0%nat ∧ rev_ws_len (b :: l) = 0%nat.
Proof.
  intros Hb. simpl. rewrite (graphic_ws b Hb). unfold graphic in Hb.
  assert (∀ c, is_ws2 b c = false ∧ is_ws2 c b = false) as H2.
  { intros c. unfold is_ws2. split.
    - by rewrite (proj2 (Z.eqb_neq _ _)) by lia.
    - rewrite (proj2 (Z.eqb_neq (bval b) 133)), (proj2 (Z.eqb_neq (bval b) 160)) by lia. apply andb_false_r. }
  assert (∀ c d, is_ws3 b c d = false ∧ is_ws3 d c b = false) as H3.
  { intros c d. unfold is_ws3.
    rewrite !(proj2 (Z.eqb_neq (bval b) _)), !(proj2 (Z.leb_gt 128 (bval b))) by lia.
    by rewrite ?andb_false_r, ?orb_false_r. }
  split; destruct l as [|c [|d l]]; try done; by rewrite ?(proj1 (H2 _)), ?(proj2 (H2 _)), ?(proj1 (H3 _ _)), ?(proj2 (H3 _ _)).
Qed.

Lemma drop_ws_graphic len n l : len l = 0%nat → drop_ws len n l = l.
Proof. intros H. destruct n; simpl; by rewrite ?H. Qed.

Lemma trim_graphic s : Forall graphic (to_bytes s) → trim s = s.
Proof.
  intros Hg. unfold trim, bytes_trim. apply (inj to_bytes). rewrite to_of_bytes.
  rewrite (drop_ws_graphic ws_len).
  - rewrite drop_ws_graphic; [apply reverse_involutive|].
    destruct (reverse (to_bytes s)) as [|b l] eqn:E; [done|]. apply ws_len_graphic.
    rewrite Forall_forall in Hg. apply Hg. rewrite <- (reverse_involutive (to_bytes s)), E, elem_of_reverse.
    apply elem_of_cons. by left.
  - destruct (to_bytes s) as [|b l]; [done|]. apply ws_len_graphic. by apply Forall_cons in Hg as [? _].
Qed.

Lemma trim_end_matches_id c s : last (to_bytes s) ≠ Some c → trim_end_matches c s = s.
Proof.
  intros Hl. unfold trim_end_matches. apply (inj to_bytes). rewrite to_of_bytes.
  rewrite <- head_reverse in Hl. destruct (reverse (to_bytes s)) as [|b l] eqn:E.
  - simpl. by rewrite <- (reverse_involutive (to_bytes s)), E.
  - simpl in *. rewrite bool_decide_eq_false_2 by naive_solver.
    by rewrite <- E, reverse_involutive.
Qed.

Lemma to_lowercase_graphic `{UnicodeLower} s :
  Forall graphic (to_bytes s) → to_lowercase s = to_ascii_lowercase s.
Proof.
  intros Hg. unfold to_lowercase, is_ascii. rewrite (proj2 (forallb_True _ _)); [done|].
  intros b Hb. rewrite Forall_forall in Hg. specialize (Hg b Hb). unfold graphic in Hg.
  apply Z.ltb_lt. lia.
Qed.

(** Lower-casing neither makes nor removes a byte that is not a letter. *)
Definition not_letter (c : byte) : Prop := ¬ 65 ≤ bval c ≤ 90 ∧ ¬ 97 ≤ bval c ≤ 122.

Lemma ascii_lower_byte_iff b c : not_letter c → ascii_lower_byte b = c ↔ b = c.
Proof.
  intros [H1 H2]. unfold ascii_lower_byte. pose proof (bval_range b).
  destruct (_ && _) eqn:E; [|done]. bool_to_prop. split; [|by intros ->; lia].
  intros Ec%(f_equal bval). rewrite bval_byte_of, wrap_small in Ec by (unfold in_u; simpl; lia). lia.
Qed.

Lemma elem_of_lower c (l : bytes) : not_letter c → c ∈ ascii_lower_byte <$> l ↔ c ∈ l.
Proof.
  intros Hc. rewrite list_elem_of_fmap. split.
  - intros (b & Hb & ?). symmetry in Hb. by rewrite (ascii_lower_byte_iff _ _ Hc) in Hb; subst.
  - intros. exists c. split; [|done]. symmetry. by apply ascii_lower_byte_iff.
Qed.

Lemma colon_not_letter : not_letter ":".
Proof. unfold not_letter. change (bval ":") with 58. lia. Qed.
Lemma bracket_not_letter : not_letter "[".
Proof. unfold not_letter. change (bval "[") with 91. lia. Qed.

Lemma strip_prefix_bracket (l : bytes) :
  head l ≠ Some "["%byte → strip_prefix (of_bytes (ascii_lower_byte <$> l)) "[" = None.
Proof.
  intros Hh. unfold strip_prefix, starts_with. rewrite to_of_bytes. destruct l as [|b l]; [done|].
  change (to_bytes "[") with ["["%byte]. cbn [fmap list_fmap bytes_starts_with].
  rewrite bool_decide_eq_false_2; [done|].
  intros E. symmetry in E. rewrite (ascii_lower_byte_iff _ _ bracket_not_letter) in E. subst. by apply Hh.
Qed.

(** A host name as clients send it, and what may stand after its colon. *)
Record plain_host (name : string) : Prop := {
  ph_graphic : Forall graphic (to_bytes name);
  ph_colon : ":"%byte ∉ to_bytes name;
  ph_bracket : head (to_bytes name) ≠ Some "["%byte;
}.

Record plain_port (port : string) : Prop := {
  pp_graphic : Forall graphic (to_bytes port);
  pp_colon : ":"%byte ∉ to_bytes port;
  pp_nonempty : port ≠ ""%string;
  pp_dot : last (to_bytes port) ≠ Some "."%byte;
}.

Lemma to_bytes_nonempty s : s ≠ ""%string → to_bytes s ≠ [].
Proof. intros Hs E. apply Hs. apply (inj to_bytes). by rewrite E. Qed.

Lemma normalize_host_port `{UnicodeLower} name port :
  plain_host name → plain_port port →
  normalize_host (name +:+ ":" +:+ port) = to_ascii_lowercase name.
Proof.
  intros [Hg Hc Hb] [Pg Pc Pn Pd].
  assert (Forall graphic (to_bytes (name +:+ ":" +:+ port))) as Hall.
  { rewrite !to_bytes_app, !Forall_app. split; [done|]. split; [|done]. repeat constructor; done. }
  apply to_bytes_nonempty in Pn.
  unfold normalize_host. rewrite trim_graphic by done. rewrite trim_end_matches_id.
  2:{ rewrite !to_bytes_app, !last_app.
      destruct (last (to_bytes port)) eqn:E; [done|]. by apply last_None in E. }
  rewrite to_lowercase_graphic by done. cbv zeta. unfold to_ascii_lowercase at 1.
  rewrite strip_prefix_bracket.
  2:{ rewrite to_bytes_app. destruct (to_bytes name); [done|]. done. }
  unfold rsplit_once, to_ascii_lowercase. rewrite to_of_bytes, !to_bytes_app, !fmap_app, !reverse_app.
  change (reverse (ascii_lower_byte <$> to_bytes ":")) with [":"%byte].
  rewrite <- app_assoc. cbn [app]. rewrite bytes_split_once_app.
  2:{ by rewrite elem_of_reverse, (elem_of_lower _ _ colon_not_letter). }
  rewrite reverse_involutive. unfold contains. rewrite to_of_bytes.
  rewrite (proj2 (bytes_contains_false _ _)); [done|].
  by rewrite (elem_of_lower _ _ colon_not_letter).
Qed.

Lemma normalize_host_plain `{UnicodeLower} name :
  plain_host name → last (to_bytes name) ≠ Some "."%byte →
  normalize_host name = to_ascii_lowercase name.
Proof.
  intros [Hg Hc Hb] Hd. unfold normalize_host. rewrite trim_graphic, trim_end_matches_id by done.
  rewrite to_lowercase_graphic by done. cbv zeta. unfold to_ascii_lowercase.
  rewrite strip_prefix_bracket by done. unfold rsplit_once. rewrite to_of_bytes.
  rewrite (proj2 (bytes_split_once_None _ _)); [done|].
  by rewrite elem_of_reverse, (elem_of_lower _ _ colon_not_letter).
Qed.

(** ** Properties *)

(** From a request head that is valid UTF-8 the parser takes the value of
    the first header named Host, in any case, past any lines that are not Host
    headers and whatever follows; with a port or without, in any case of its
    letters, a plain host name then selects the same virtual host. *)
Theorem http_host_of_request `{UnicodeLower} before name host port rest :
  Forall other_line before → eq_ignore_ascii_case name "host" = true →
  ":"%byte ∉ to_bytes name → x0a ∉ to_bytes name →
  plain_host host → plain_port port → last (to_bytes host) ≠ Some "."%byte →
  let request value := concat ((fun l => l ++ CRLF) <$> before)
                       ++ (to_bytes name ++ ":"%byte :: to_bytes value) ++ CRLF ++ rest in
  utf8_valid (request (" " +:+ host)) = true → utf8_valid (request (" " +:+ host +:+ ":" +:+ port)) = true →
  ∃ h1 h2, extract_http_host (request (" " +:+ host)) = Some h1 ∧
    extract_http_host (request (" " +:+ host +:+ ":" +:+ port)) = Some h2 ∧
    normalize_host h1 = to_ascii_lowercase host ∧ normalize_host h2 = to_ascii_lowercase host.
Proof.
  intros Hbefore Hname Hcolon Hlf Hh Hp Hdot request Hu1 Hu2.
  assert (∀ value, x0a ∉ to_bytes value → utf8_valid (request value) = true →
            extract_http_host (request value) = Some (trim value)) as Hx.
  { intros value Hv Hu. unfold extract_http_host, from_utf8. rewrite Hu. cbn [mbind option_bind].
    rewrite to_of_bytes. unfold request. rewrite find_host_lines by done. rewrite bytes_lines_crlf.
    - simpl. rewrite split_once_app by done. by rewrite Hname.
    - rewrite elem_of_app, elem_of_cons. naive_solver. }
  assert (∀ s, Forall graphic (to_bytes s) → (x0a ∉ to_bytes (" " +:+ s)) ∧ trim (" " +:+ s) = trim s) as Hg.
  { intros s Hs. split; [|done]. rewrite to_bytes_app, elem_of_app. rewrite Forall_forall in Hs.
    intros [Hi|Hi]; [by apply list_elem_of_singleton in Hi|]. specialize (Hs _ Hi). by destruct Hs. }
  assert (Forall graphic (to_bytes (host +:+ ":" +:+ port))) as Hhp.
  { rewrite !to_bytes_app, !Forall_app. split; [apply Hh|]. split; [|apply Hp]. repeat constructor; done. }
  destruct (Hg host (ph_graphic _ Hh)) as [Hl1 Ht1]. destruct (Hg _ Hhp) as [Hl2 Ht2].
  do 2 eexists. split; [by apply Hx|]. split; [by apply Hx|].
  rewrite Ht1, Ht2, !trim_graphic by (apply Hh || done).
  split; [by apply normalize_host_plain|by apply normalize_host_port].
Qed.

(** The head that is forwarded is exactly what was read so far, it holds the
    end of the head, and it is bounded by the limit and one more read. *)
Lemma read_http_head_loop_Ok data reads out :
  read_http_head_loop data reads = Ok out → blen data < HTTP_HEADER_MAX →
  Forall (fun r => match r with Ok b => blen b ≤ 1024 | Err _ => True end) reads →
  has_head_end out = true ∧ blen out < HTTP_HEADER_MAX + 1024 ∧
  ∃ bufs rest, reads = (Ok <$> bufs) ++ rest ∧ out = data ++ concat bufs.
Proof.
  revert data. induction reads as [|[buf|e] reads IH]; intros data; cbn [read_http_head_loop]; [done| |done].
  intros H Hd Hr. apply Forall_cons in Hr as [Hb Hr].
  destruct buf as [|b buf']; [done|]. remember (b :: buf') as buf eqn:Ebuf.
  assert (blen (data ++ buf) = blen data + blen buf) as Hlen by (unfold blen; rewrite length_app; lia).
  destruct (has_head_end (data ++ buf)) eqn:Ee.
  - injection H as <-. split; [done|]. split; [lia|]. exists [buf], reads. by csimpl; rewrite app_nil_r.
  - destruct (HTTP_HEADER_MAX <=? _) eqn:Em; bool_to_prop; [done|].
    destruct (IH _ H Em Hr) as (? & ? & bufs & rest & -> & ->). split; [done|]. split; [done|].
    exists (buf :: bufs), rest. by csimpl; rewrite app_assoc.
Qed.

Module ToyVhost.
Definition hello : ClientHello := mkClientHello
  (replicate 34 x07) [x01; x02] [x13; x01] [x00] [(23, [])] [] "api.example.com" [(16, [x00])].

Lemma parse_tls_sni_host_witness :
  parse_tls_sni (hello_record hello ++ [xff]) = Some (Some "api.example.com"%string).
Proof.
  apply (parse_tls_sni_host hello [xff]).
  split; vm_compute; try reflexivity; repeat constructor.
Defined.

#[local] Instance lower : UnicodeLower := fun s => s.

Lemma http_host_of_request_witness :
  let request value :=
    concat ((fun l => l ++ CRLF) <$> [to_bytes "GET / HTTP/1.1"])
    ++ (to_bytes "hOsT" ++ ":"%byte :: to_bytes value) ++ CRLF ++ CRLF in
  ∃ h1 h2, extract_http_host (request " App.example.com"%string) = Some h1 ∧
    extract_http_host (request " App.example.com:8080"%string) = Some h2 ∧
    normalize_host h1 = "app.example.com"%string ∧ normalize_host h2 = "app.example.com"%string.
Proof.
  apply (http_host_of_request [to_bytes "GET / HTTP/1.1"] "hOsT" "App.example.com" "8080" CRLF).
  - constructor; [|constructor]. split; [by apply bytes_contains_false|]. intros n v E. by vm_compute in E.
  - reflexivity.
  - by apply bytes_contains_false.
  - by apply bytes_contains_false.
  - split; [|by apply bytes_contains_false|by vm_compute].
    by apply graphic_all.
  - split; [|by apply bytes_contains_false|done|by vm_compute].
    by apply graphic_all.
  - by vm_compute.
  - reflexivity.
  - reflexivity.
Defined.
End ToyVhost.
