(* ===== verification/Vhost.v ===== *)
(** * Virtual hosts (crates/arp-server/src/proxy/vhost.rs)

    The tables that map a domain to the proxies registered for it, the
    registration and removal of routes, the round-robin choice among the
    proxies of a domain, and the handlers of HTTP and HTTPS connections up to
    the point where the bytes read so far are forwarded.  A
    [mpsc::Sender<WorkConnRequest>] is the number of its channel. *)
From stdpp Require Import sorting.
From S2P Require Import Prelude RustString Errors Protocol Config Crypto Auth Framing VhostParse.
Local Open Scope Z_scope.

Abbreviation Sender := Z.

Record VhostRoute := mkVhostRoute {
  vr_route_key : string; vr_proxy_name : string; vr_work_conn_req_tx : Sender;
}.

#[global] Instance VhostRoute_eq_dec : EqDecision VhostRoute.
Proof. solve_decision. Defined.

(** [http_routes] with [http_rr], and [https_routes] with [https_rr]. *)
Record VhostTable := mkVhostTable {
  vt_routes : gmap string (list VhostRoute);
  vt_rr : gmap string Z;
}.

Record VhostManager := mkVhostManager {
  vm_bind_addr : string;
  vm_subdomain_host : string;
  vm_vhost_http_port : Z;
  vm_vhost_https_port : Z;
  vm_http : VhostTable;
  vm_https : VhostTable;
  vm_http_listener_started : bool;
  vm_https_listener_started : bool;
}.

Definition set_http (t : VhostTable) (vm : VhostManager) : VhostManager :=
  mkVhostManager (vm_bind_addr vm) (vm_subdomain_host vm) (vm_vhost_http_port vm)
    (vm_vhost_https_port vm) t (vm_https vm)
    (vm_http_listener_started vm) (vm_https_listener_started vm).
Definition set_https (t : VhostTable) (vm : VhostManager) : VhostManager :=
  mkVhostManager (vm_bind_addr vm) (vm_subdomain_host vm) (vm_vhost_http_port vm)
    (vm_vhost_https_port vm) (vm_http vm) t
    (vm_http_listener_started vm) (vm_https_listener_started vm).

Section Vhost.
Context `{Json} `{UnicodeLower}.

Definition vhost_new (bind_addr subdomain_host : string) (http_port https_port : Z) : VhostManager :=
  mkVhostManager bind_addr (to_lowercase (trim_end_matches "."%byte (trim subdomain_host)))
    http_port https_port (mkVhostTable ∅ ∅) (mkVhostTable ∅ ∅) false false.

(** ** Sorting the domains *)

(** The byte-wise lexicographic order of [Ord for str]. *)
Fixpoint bytes_leb (l k : bytes) : bool :=
  match l, k with
  | [], _ => true
  | _ :: _, [] => false
  | a :: l', b :: k' =>
      if bval a <? bval b then true else if bval b <? bval a then false else bytes_leb l' k'
  end.

Definition str_le (s t : string) : Prop := bytes_leb (to_bytes s) (to_bytes t) = true.
#[global] Instance str_le_dec s t : Decision (str_le s t) :=
  decide (bytes_leb (to_bytes s) (to_bytes t) = true).

(** [Vec::dedup]. *)
Fixpoint dedup (l : list string) : list string :=
  match l with
  | [] => []
  | x :: l' =>
      match dedup l' with
      | y :: k => if bool_decide (x = y) then y :: k else x :: y :: k
      | [] => [x]
      end
  end.

Definition collect_domains (vm : VhostManager) (msg : NewProxyMsg) : Result (list string) :=
  let domains := List.filter (fun d => negb (is_empty d)) (normalize_host <$> np_custom_domains msg) in
  domains ←
    (if negb (is_empty (trim (np_subdomain msg))) then
       if is_empty (vm_subdomain_host vm)
       then Err (Error.Proxy "subdomain is set but server subdomain_host is empty")
       else Ok (domains ++ [to_lowercase (trim (np_subdomain msg)) +:+ "." +:+ vm_subdomain_host vm])
     else Ok domains);
  let domains := dedup (merge_sort str_le domains) in
  if is_nil domains then Err (Error.Proxy "http/https proxy requires custom_domains or subdomain")
  else Ok domains.

(** ** Routes *)

Definition has_key (route_key : string) (rs : list VhostRoute) : bool :=
  existsb (fun r => bool_decide (vr_route_key r = route_key)) rs.

Definition add_route (route_key proxy_name : string) (tx : Sender) (t : VhostTable) (domain : string)
  : VhostTable :=
  let entry := default [] (vt_routes t !! domain) in
  let entry := if negb (has_key route_key entry)
               then entry ++ [mkVhostRoute route_key proxy_name tx] else entry in
  mkVhostTable (<[domain := entry]> (vt_routes t))
    (<[domain := default 0 (vt_rr t !! domain)]> (vt_rr t)).

Definition add_routes (t : VhostTable) (domains : list string) (route_key proxy_name : string)
    (tx : Sender) : VhostTable :=
  foldl (add_route route_key proxy_name tx) t domains.

(** [format!("{}:{}", run_id, proxy_name)]. *)
Definition route_key_of (run_id proxy_name : string) : string := run_id +:+ ":" +:+ proxy_name.

(** The listener's task is started by the call that sets the flag; when the
    task stops with an error it clears it. *)
Definition ensure_http_listener_started (vm : VhostManager) : VhostManager :=
  mkVhostManager (vm_bind_addr vm) (vm_subdomain_host vm) (vm_vhost_http_port vm)
    (vm_vhost_https_port vm) (vm_http vm) (vm_https vm) true (vm_https_listener_started vm).
Definition ensure_https_listener_started (vm : VhostManager) : VhostManager :=
  mkVhostManager (vm_bind_addr vm) (vm_subdomain_host vm) (vm_vhost_http_port vm)
    (vm_vhost_https_port vm) (vm_http vm) (vm_https vm) (vm_http_listener_started vm) true.

(** [domains[0]] exists: [collect_domains] returns no empty list. *)
Definition register_http (run_id : string) (msg : NewProxyMsg) (tx : Sender)
  : st VhostManager Error.t string :=
  vm ← st_get;
  _ ← st_guard (vm_vhost_http_port vm =? 0)
        (Error.Proxy "vhost_http_port is 0, HTTP vhost proxy is disabled");
  domains ← st_lift (collect_domains vm msg);
  let route_key := route_key_of run_id (np_proxy_name msg) in
  _ ← st_modify (fun vm => set_http (add_routes (vm_http vm) domains route_key (np_proxy_name msg) tx) vm);
  _ ← st_modify ensure_http_listener_started;
  mret ("http://" +:+ default "" (head domains) +:+ ":" +:+ pretty (vm_vhost_http_port vm)).

Definition register_https (run_id : string) (msg : NewProxyMsg) (tx : Sender)
  : st VhostManager Error.t string :=
  vm ← st_get;
  _ ← st_guard (vm_vhost_https_port vm =? 0)
        (Error.Proxy "vhost_https_port is 0, HTTPS vhost proxy is disabled");
  domains ← st_lift (collect_domains vm msg);
  let route_key := route_key_of run_id (np_proxy_name msg) in
  _ ← st_modify (fun vm => set_https (add_routes (vm_https vm) domains route_key (np_proxy_name msg) tx) vm);
  _ ← st_modify ensure_https_listener_started;
  mret ("https://" +:+ default "" (head domains) +:+ ":" +:+ pretty (vm_vhost_https_port vm)).

(** One key of the loop of [unregister_route]. *)
Definition drop_route (route_key : string) (t : VhostTable) (key : string) : VhostTable :=
  match vt_routes t !! key with
  | Some entry =>
      let entry := List.filter (fun r => negb (bool_decide (vr_route_key r = route_key))) entry in
      if is_nil entry then mkVhostTable (delete key (vt_routes t)) (delete key (vt_rr t))
      else mkVhostTable (<[key := entry]> (vt_routes t)) (vt_rr t)
  | None => mkVhostTable (delete key (vt_routes t)) (delete key (vt_rr t))
  end.

Definition unregister_table (route_key : string) (t : VhostTable) : VhostTable :=
  let keys := (List.filter (fun e => has_key route_key e.2) (map_to_list (vt_routes t))).*1 in
  foldl (drop_route route_key) t keys.

Definition unregister_route (route_key proxy_type : string) (vm : VhostManager) : VhostManager :=
  if bool_decide (proxy_type = "http"%string) then
    set_http (unregister_table route_key (vm_http vm)) vm
  else if bool_decide (proxy_type = "https"%string) then
    set_https (unregister_table route_key (vm_https vm)) vm
  else vm.

(** The lookup with the round-robin counter of the domain. *)
Definition pick_route (t : VhostTable) (domain : string) : VhostTable * option VhostRoute :=
  match vt_routes t !! domain with
  | Some ((_ :: _) as routes) =>
      let rr := default 0 (vt_rr t !! domain) in
      let idx := rr mod Z.of_nat (length routes) in
      (mkVhostTable (vt_routes t) (<[domain := wrap 64 (rr + 1)]> (vt_rr t)),
       routes !! Z.to_nat idx)
  | _ => (t, None)
  end.

(** ** Connections *)

Definition pick_http (domain : string) : st VhostManager Error.t VhostRoute := fun vm =>
  let '(t, r) := pick_route (vm_http vm) domain in
  (set_http t vm, ok_or (Error.Proxy ("no http route for host " +:+ domain)) r).
Definition pick_https (domain : string) : st VhostManager Error.t VhostRoute := fun vm =>
  let '(t, r) := pick_route (vm_https vm) domain in
  (set_https t vm, ok_or (Error.Proxy ("no https route for sni " +:+ domain)) r).

(** Write the bytes that were read to the work connection; after that the two
    streams are copied into each other by [tokio]. *)
Definition forward_head (route : VhostRoute) (head : bytes) (work_stream : Writer)
  : Result (VhostRoute * Writer) :=
  match write_all head work_stream with
  | (w, Ok _) => Ok (route, w)
  | (_, Err e) => Err e
  end.

(** [request_work_conn]: [connect] stands for the exchange with the control task
    on the route's channel up to the [StartWorkConn] message, which other
    components model; it gives the work connection to write to. *)
Definition handle_http_conn (reads : list (result IoError bytes))
    (connect : VhostRoute → Result Writer) : st VhostManager Error.t (VhostRoute * Writer) :=
  request_head ← st_lift (read_http_request_head reads);
  host ← st_lift (ok_or (Error.Protocol "missing Host header") (extract_http_host request_head));
  let domain := normalize_host host in
  route ← pick_http domain;
  work_stream ← st_lift (connect route);
  st_lift (forward_head route request_head work_stream).

(** A [None] of [parse_tls_sni] would be a panic; see [parse_tls_sni_total]. *)
Definition handle_https_conn (timed_out : bool) (stream : Reader)
    (connect : VhostRoute → Result Writer) : st VhostManager Error.t (VhostRoute * Writer) :=
  client_hello ← st_lift (read_tls_client_hello timed_out stream).2;
  sni ← st_lift (ok_or (Error.Protocol "missing TLS SNI") (default None (parse_tls_sni client_hello)));
  let domain := normalize_host sni in
  route ← pick_https domain;
  work_stream ← st_lift (connect route);
  st_lift (forward_head route client_hello work_stream).

(** [impl Proxy for HttpProxy] and [HttpsProxy]: closing removes the routes. *)
Definition http_proxy_close (route_key : string) : VhostManager → VhostManager :=
  unregister_route route_key "http".
Definition https_proxy_close (route_key : string) : VhostManager → VhostManager :=
  unregister_route route_key "https".

(** ** Sorted domains *)

#[global] Instance str_le_total : Total str_le.
Proof.
  intros s t. unfold str_le. generalize (to_bytes s), (to_bytes t). intros l.
  induction l as [|a l IH]; intros [|b k]; simpl; auto.
  destruct (bval a <? bval b) eqn:E1; [auto|]. destruct (bval b <? bval a) eqn:E2; auto.
Qed.

#[global] Instance str_le_trans : Transitive str_le.
Proof.
  intros s t u. unfold str_le. generalize (to_bytes s), (to_bytes t), (to_bytes u). intros l.
  induction l as [|a l IH]; intros [|b k] [|c m]; simpl; try done.
  destruct (bval a <? bval b) eqn:E1, (bval b <? bval c) eqn:E2, (bval a <? bval c) eqn:E3,
    (bval b <? bval a) eqn:E4, (bval c <? bval b) eqn:E5, (bval c <? bval a) eqn:E6;
    bool_to_prop; try done; try lia; eauto.
Qed.

#[global] Instance str_le_antisymm : AntiSymm (=) str_le.
Proof.
  intros s t. unfold str_le. intros H1 H2. apply (inj to_bytes). revert H1 H2.
  generalize (to_bytes s), (to_bytes t). intros l.
  induction l as [|a l IH]; intros [|b k]; simpl; try done.
  destruct (bval a <? bval b) eqn:E1, (bval b <? bval a) eqn:E2; bool_to_prop; try done; try lia.
  intros. f_equal; [apply (inj bval); lia|auto].
Qed.

Definition str_lt (s t : string) : Prop := str_le s t ∧ s ≠ t.

Lemma elem_of_dedup x l : x ∈ dedup l ↔ x ∈ l.
Proof.
  induction l as [|y l IH]; simpl; [done|]. rewrite elem_of_cons, <- IH.
  destruct (dedup l) as [|z k]; [by rewrite elem_of_cons|].
  case_bool_decide; rewrite !elem_of_cons; naive_solver.
Qed.

Lemma dedup_sorted l : StronglySorted str_le l → StronglySorted str_lt (dedup l).
Proof.
  induction 1 as [|x l Hs IH Hx]; simpl; [constructor|].
  assert (Forall (str_le x) (dedup l)) as Hd.
  { rewrite Forall_forall in *. intros y Hy. apply Hx. by apply elem_of_dedup. }
  destruct (dedup l) as [|y k] eqn:E; [by repeat constructor|].
  case_bool_decide as Hxy; [done|]. constructor; [done|].
  apply StronglySorted_inv in IH as [_ Hy]. apply Forall_cons in Hd as [Hxle Hd].
  constructor; [done|]. rewrite Forall_forall in *. intros z Hz. split; [by apply Hd|].
  intros ->. destruct (Hy z Hz) as [Hyz _]. apply Hxy. by apply (anti_symm str_le).
Qed.

(** The domains a registration asks for. *)
Definition wanted (vm : VhostManager) (msg : NewProxyMsg) (d : string) : Prop :=
  d ≠ ""%string ∧ (∃ c, c ∈ np_custom_domains msg ∧ d = normalize_host c) ∨
  trim (np_subdomain msg) ≠ ""%string ∧
  d = to_lowercase (trim (np_subdomain msg)) +:+ "." +:+ vm_subdomain_host vm.

Lemma collect_domains_wanted vm msg ds :
  collect_domains vm msg = Ok ds →
  ds ≠ [] ∧ StronglySorted str_lt ds ∧ ∀ d, d ∈ ds ↔ wanted vm msg d.
Proof.
  unfold collect_domains. cbv zeta. intros (ds0 & Hds0 & Hds)%bind_Ok.
  destruct (is_nil _) eqn:E; [done|]. injection Hds as <-. apply is_nil_false in E.
  split; [done|]. split; [apply dedup_sorted, StronglySorted_merge_sort; apply _|].
  intros d. rewrite elem_of_dedup, (merge_sort_Permutation str_le ds0). clear E. unfold wanted.
  assert (d ∈ List.filter (fun d => negb (is_empty d)) (normalize_host <$> np_custom_domains msg) ↔
          d ≠ ""%string ∧ ∃ c, c ∈ np_custom_domains msg ∧ d = normalize_host c) as Hf.
  { rewrite elem_of_filter_b, negb_true_iff, is_empty_false, list_elem_of_fmap. naive_solver. }
  destruct (is_empty (trim (np_subdomain msg))) eqn:Es; cbn [negb] in Hds0.
  - injection Hds0 as <-. rewrite Hf. apply is_empty_true in Es. naive_solver.
  - apply is_empty_false in Es. destruct (is_empty (vm_subdomain_host vm)); [done|].
    injection Hds0 as <-. rewrite elem_of_app, list_elem_of_singleton, Hf. naive_solver.
Qed.

(** ** The tables *)

(** What [add_route] does to the entry of a domain. *)
Definition put_route (key name : string) (tx : Sender) (o : option (list VhostRoute)) : list VhostRoute :=
  let e := default [] o in if has_key key e then e else e ++ [mkVhostRoute key name tx].

(** What [drop_route] does to it. *)
Definition cut_route (key : string) (o : option (list VhostRoute)) : option (list VhostRoute) :=
  match o with
  | Some e => let e := List.filter (fun r => negb (bool_decide (vr_route_key r = key))) e in
              if is_nil e then None else Some e
  | None => None
  end.

Lemma has_key_iff key e : has_key key e = true ↔ key ∈ vr_route_key <$> e.
Proof.
  unfold has_key. rewrite existsb_True, list_elem_of_fmap.
  setoid_rewrite bool_decide_eq_true. naive_solver.
Qed.

Lemma has_key_put key name tx o : has_key key (put_route key name tx o) = true.
Proof.
  unfold put_route. destruct (has_key key (default [] o)) eqn:E; [done|].
  rewrite has_key_iff, fmap_app, elem_of_app. right. by apply list_elem_of_singleton.
Qed.

Lemma put_route_twice key name tx o :
  put_route key name tx (Some (put_route key name tx o)) = put_route key name tx o.
Proof. unfold put_route at 1. simpl. by rewrite has_key_put. Qed.

Lemma add_route_lookup key name tx t d d' :
  vt_routes (add_route key name tx t d) !! d' =
  if decide (d' = d) then Some (put_route key name tx (vt_routes t !! d)) else vt_routes t !! d'.
Proof.
  unfold add_route, put_route. simpl. destruct (decide (d' = d)) as [->|].
  - rewrite lookup_insert_eq. by destruct (has_key _ _).
  - by rewrite lookup_insert_ne.
Qed.

Lemma add_routes_lookup key name tx ds t d :
  vt_routes (add_routes t ds key name tx) !! d =
  if decide (d ∈ ds) then Some (put_route key name tx (vt_routes t !! d)) else vt_routes t !! d.
Proof.
  unfold add_routes. revert t. induction ds as [|x ds IH]; intros t; simpl.
  { destruct (decide (d ∈ [])) as [Hd|]; [by apply not_elem_of_nil in Hd|done]. }
  rewrite IH, add_route_lookup. destruct (decide (d = x)) as [->|Hne].
  - rewrite (decide_True (P := x ∈ x :: ds)) by (apply elem_of_cons; by left).
    destruct (decide (x ∈ ds)); [|done]. by rewrite put_route_twice.
  - destruct (decide (d ∈ ds)) as [Hd|Hd]; [rewrite decide_True|rewrite decide_False]; try done;
      rewrite elem_of_cons; naive_solver.
Qed.

Lemma add_routes_dom key name tx ds t :
  dom (vt_routes t) = dom (vt_rr t) →
  dom (vt_routes (add_routes t ds key name tx)) = dom (vt_rr (add_routes t ds key name tx)).
Proof.
  unfold add_routes. revert t. induction ds as [|x ds IH]; intros t Ht; simpl; [done|].
  apply IH. simpl. rewrite !dom_insert_L. by rewrite Ht.
Qed.

Lemma cut_route_twice key o : cut_route key (cut_route key o) = cut_route key o.
Proof.
  destruct o as [e|]; [|done]. simpl. destruct (is_nil _) eqn:E; [done|]. simpl.
  assert (List.filter (fun r => negb (bool_decide (vr_route_key r = key)))
            (List.filter (fun r => negb (bool_decide (vr_route_key r = key))) e)
          = List.filter (fun r => negb (bool_decide (vr_route_key r = key))) e) as ->.
  { clear E. induction e as [|r e IH]; simpl; [done|]. destruct (negb _) eqn:Er; simpl; [|done].
    by rewrite Er, IH. }
  by rewrite E.
Qed.

Lemma drop_route_lookup key t d d' :
  vt_routes (drop_route key t d) !! d' =
  if decide (d' = d) then cut_route key (vt_routes t !! d) else vt_routes t !! d'.
Proof.
  unfold drop_route. destruct (decide (d' = d)) as [->|Hne].
  - destruct (vt_routes t !! d) as [e|]; simpl; [|apply lookup_delete_eq].
    destruct (is_nil _); simpl; [apply lookup_delete_eq|apply lookup_insert_eq].
  - destruct (vt_routes t !! d) as [e|]; simpl; [|by apply lookup_delete_ne].
    destruct (is_nil _); simpl; [by apply lookup_delete_ne|by apply lookup_insert_ne].
Qed.

Lemma drop_routes_lookup key keys t d :
  vt_routes (foldl (drop_route key) t keys) !! d =
  if decide (d ∈ keys) then cut_route key (vt_routes t !! d) else vt_routes t !! d.
Proof.
  revert t. induction keys as [|x keys IH]; intros t; simpl.
  { destruct (decide (d ∈ [])) as [Hd|]; [by apply not_elem_of_nil in Hd|done]. }
  rewrite IH, drop_route_lookup. destruct (decide (d = x)) as [->|Hne].
  - rewrite (decide_True (P := x ∈ x :: keys)) by (apply elem_of_cons; by left).
    destruct (decide (x ∈ keys)); [|done]. by rewrite cut_route_twice.
  - destruct (decide (d ∈ keys)) as [Hd|Hd]; [rewrite decide_True|rewrite decide_False]; try done;
      rewrite elem_of_cons; naive_solver.
Qed.

Lemma drop_route_dom key t d :
  dom (vt_routes t) = dom (vt_rr t) →
  dom (vt_routes (drop_route key t d)) = dom (vt_rr (drop_route key t d)).
Proof.
  intros Ht. unfold drop_route. destruct (vt_routes t !! d) as [e|] eqn:E; simpl.
  - destruct (is_nil _); simpl; rewrite ?dom_delete_L, ?Ht; [done|].
    rewrite dom_insert_lookup_L by eauto. done.
  - by rewrite !dom_delete_L, Ht.
Qed.

Lemma drop_routes_dom key keys t :
  dom (vt_routes t) = dom (vt_rr t) →
  dom (vt_routes (foldl (drop_route key) t keys)) = dom (vt_rr (foldl (drop_route key) t keys)).
Proof.
  revert t. induction keys as [|x keys IH]; intros t Hd; simpl; [done|]. by apply IH, drop_route_dom.
Qed.

(** ** The invariant *)

(** Every entry has a route, no proxy is twice in an entry, and exactly the
    domains with routes have a counter. *)
Record table_inv (t : VhostTable) : Prop := {
  ti_entry : ∀ d e, vt_routes t !! d = Some e → e ≠ [] ∧ NoDup (vr_route_key <$> e);
  ti_rr : dom (vt_routes t) = dom (vt_rr t);
}.

Lemma add_routes_inv key name tx ds t : table_inv t → table_inv (add_routes t ds key name tx).
Proof.
  intros [He Hd]. split; [|by apply add_routes_dom].
  intros d e. rewrite add_routes_lookup. case_decide; [|apply He]. intros [= <-].
  unfold put_route. destruct (has_key key _) eqn:E.
  - destruct (vt_routes t !! d) eqn:El; [by eapply He|done].
  - split; [by destruct (default [] _)|]. rewrite fmap_app. apply NoDup_app. split.
    + destruct (vt_routes t !! d) eqn:El; [by eapply He|constructor].
    + split; [|apply NoDup_singleton]. intros x Hx Hk. apply list_elem_of_singleton in Hk as ->.
      rewrite <- has_key_iff in Hx. simpl in Hx. congruence.
Qed.

Lemma cut_other key e :
  has_key key e = false → List.filter (fun r => negb (bool_decide (vr_route_key r = key))) e = e.
Proof.
  induction e as [|r e IH]; simpl; [done|]. intros [-> ?]%orb_false_iff. simpl. by rewrite IH.
Qed.

(** Removing a key looks at every domain. *)
Lemma unregister_table_lookup key t d :
  table_inv t → vt_routes (unregister_table key t) !! d = cut_route key (vt_routes t !! d).
Proof.
  intros [He _]. unfold unregister_table. cbv zeta. rewrite drop_routes_lookup.
  destruct (decide _) as [|Hn]; [done|]. destruct (vt_routes t !! d) as [e|] eqn:E; [|done]. simpl.
  rewrite cut_other; [by destruct e; [destruct (He d [] E)|]|].
  apply not_true_iff_false. intros Hk. apply Hn. apply list_elem_of_fmap. exists (d, e). split; [done|].
  apply elem_of_filter_b. by rewrite elem_of_map_to_list.
Qed.

Lemma NoDup_filter_keys f (e : list VhostRoute) :
  NoDup (vr_route_key <$> e) → NoDup (vr_route_key <$> List.filter f e).
Proof.
  intros H1. apply (sublist_NoDup _ (vr_route_key <$> e)); [done|].
  clear H1. induction e as [|r e IH]; csimpl; [done|]. destruct (f r); csimpl; by constructor.
Qed.

Lemma unregister_table_inv key t : table_inv t → table_inv (unregister_table key t).
Proof.
  intros Hinv. split.
  - intros d e. rewrite unregister_table_lookup by done.
    destruct (vt_routes t !! d) as [e0|] eqn:E; [|done]. simpl. destruct (is_nil _) eqn:En; [done|].
    intros [= <-]. split; [by apply is_nil_false|]. apply NoDup_filter_keys. by eapply ti_entry.
  - by apply drop_routes_dom, Hinv.
Qed.

Lemma pick_route_inv t d : table_inv t → table_inv (pick_route t d).1.
Proof.
  intros Hinv. unfold pick_route. destruct (vt_routes t !! d) as [[|r e]|] eqn:E; try done.
  destruct Hinv as [He Hd]. split; [done|]. simpl. rewrite dom_insert_lookup_L; [done|].
  apply elem_of_dom. rewrite <- Hd. apply elem_of_dom. eauto.
Qed.

Definition vm_inv (vm : VhostManager) : Prop := table_inv (vm_http vm) ∧ table_inv (vm_https vm).

(** The operations of the manager, whatever the arguments and the behaviour of
    the connections. *)
Inductive vhost_step (vm : VhostManager) : VhostManager → Prop :=
| step_register_http run_id msg tx : vhost_step vm (register_http run_id msg tx vm).1
| step_register_https run_id msg tx : vhost_step vm (register_https run_id msg tx vm).1
| step_unregister key ty : vhost_step vm (unregister_route key ty vm)
| step_http_conn reads connect : vhost_step vm (handle_http_conn reads connect vm).1
| step_https_conn timed_out stream connect :
    vhost_step vm (handle_https_conn timed_out stream connect vm).1.

Inductive vhost_reachable : VhostManager → Prop :=
| reach_new addr host p1 p2 : vhost_reachable (vhost_new addr host p1 p2)
| reach_step vm vm' : vhost_reachable vm → vhost_step vm vm' → vhost_reachable vm'.

Lemma register_http_cases run_id msg tx vm :
  (∃ ds s, register_http run_id msg tx vm =
     (ensure_http_listener_started
        (set_http (add_routes (vm_http vm) ds (route_key_of run_id (np_proxy_name msg))
                     (np_proxy_name msg) tx) vm), Ok s) ∧ collect_domains vm msg = Ok ds ∧
     s = "http://" +:+ default ""%string (head ds) +:+ ":" +:+ pretty (vm_vhost_http_port vm)) ∨
  ∃ e, register_http run_id msg tx vm = (vm, Err e).
Proof.
  unfold register_http, st_guard. cbv [mbind st_bind st_get st_lift]. destruct (_ =? 0); [by right; eexists|].
  simpl. destruct (collect_domains vm msg) as [ds|e]; [|by right; eexists].
  left. by exists ds; eexists.
Qed.

Lemma register_https_cases run_id msg tx vm :
  (∃ ds s, register_https run_id msg tx vm =
     (ensure_https_listener_started
        (set_https (add_routes (vm_https vm) ds (route_key_of run_id (np_proxy_name msg))
                     (np_proxy_name msg) tx) vm), Ok s) ∧ collect_domains vm msg = Ok ds ∧
     s = "https://" +:+ default ""%string (head ds) +:+ ":" +:+ pretty (vm_vhost_https_port vm)) ∨
  ∃ e, register_https run_id msg tx vm = (vm, Err e).
Proof.
  unfold register_https, st_guard. cbv [mbind st_bind st_get st_lift]. destruct (_ =? 0); [by right; eexists|].
  simpl. destruct (collect_domains vm msg) as [ds|e]; [|by right; eexists].
  left. by exists ds; eexists.
Qed.

(** The handlers change the tables only by the choice of a route. *)
Lemma handle_http_conn_state reads connect vm :
  (handle_http_conn reads connect vm).1 = vm ∨
  ∃ d, (handle_http_conn reads connect vm).1 = set_http (pick_route (vm_http vm) d).1 vm.
Proof.
  unfold handle_http_conn, pick_http. cbv [mbind st_bind st_lift]. cbv zeta.
  destruct (read_http_request_head reads) as [h|]; [|by left].
  destruct (extract_http_host h) as [host|]; [|by left]. simpl. right. exists (normalize_host host).
  destruct (pick_route _ _) as [t r]. simpl. destruct r as [r|]; simpl; [|done].
  by destruct (connect r).
Qed.

Lemma handle_https_conn_state timed_out stream connect vm :
  (handle_https_conn timed_out stream connect vm).1 = vm ∨
  ∃ d, (handle_https_conn timed_out stream connect vm).1 = set_https (pick_route (vm_https vm) d).1 vm.
Proof.
  unfold handle_https_conn, pick_https. cbv [mbind st_bind st_lift]. cbv zeta.
  destruct (read_tls_client_hello timed_out stream).2 as [h|]; [|by left].
  destruct (default None (parse_tls_sni h)) as [host|]; [|by left]. simpl. right. exists (normalize_host host).
  destruct (pick_route _ _) as [t r]. simpl. destruct r as [r|]; simpl; [|done].
  by destruct (connect r).
Qed.

Lemma vhost_step_inv vm vm' : vm_inv vm → vhost_step vm vm' → vm_inv vm'.
Proof.
  intros [H1 H2] Hs. destruct Hs as [run_id msg tx|run_id msg tx|key ty|reads connect|to stream connect].
  - destruct (register_http_cases run_id msg tx vm) as [(ds & s & -> & _)|[e ->]]; [|done].
    split; [by apply add_routes_inv|done].
  - destruct (register_https_cases run_id msg tx vm) as [(ds & s & -> & _)|[e ->]]; [|done].
    split; [done|by apply add_routes_inv].
  - unfold unregister_route. case_bool_decide; [split; [by apply unregister_table_inv|done]|].
    case_bool_decide; [split; [done|by apply unregister_table_inv]|done].
  - destruct (handle_http_conn_state reads connect vm) as [->|[d ->]]; [done|].
    split; [by apply pick_route_inv|done].
  - destruct (handle_https_conn_state to stream connect vm) as [->|[d ->]]; [done|].
    split; [done|by apply pick_route_inv].
Qed.

Lemma vhost_reachable_inv vm : vhost_reachable vm → vm_inv vm.
Proof.
  induction 1 as [addr host p1 p2|vm vm' _ IH Hs]; [|by eapply vhost_step_inv].
  split; split; simpl; done.
Qed.

(** [n] requests for the same domain. *)
Fixpoint picks (n : nat) (t : VhostTable) (d : string) : VhostTable * list (option VhostRoute) :=
  match n with
  | O => (t, [])
  | S n' => let '(t1, r) := pick_route t d in let '(t2, rs) := picks n' t1 d in (t2, r :: rs)
  end.

Lemma picks_lookup n t d rs c :
  vt_routes t !! d = Some rs → rs ≠ [] → vt_rr t !! d = Some c →
  0 ≤ c → c + Z.of_nat n ≤ 2 ^ 64 →
  (picks n t d).2 = (fun i => rs !! Z.to_nat ((c + Z.of_nat i) mod Z.of_nat (length rs))) <$> seq 0 n.
Proof.
  revert t c. induction n as [|n IH]; intros t c Hr Hne Hc Hpos Hb; [done|].
  cbn [picks]. unfold pick_route. rewrite Hr, Hc. destruct rs as [|r0 rs']; [done|]. simpl default.
  set (rs := r0 :: rs') in *.
  set (t1 := mkVhostTable (vt_routes t) (<[d := wrap 64 (c + 1)]> (vt_rr t))).
  destruct (picks n t1 d) as [t2 l] eqn:E. simpl. rewrite Z.add_0_r. f_equal.
  destruct (decide (n = 0)%nat) as [->|Hn0]; [by injection E as <- <-|].
  specialize (IH t1 (c + 1)). rewrite E in IH. cbn [snd] in IH. rewrite IH; [|done|done| |lia|lia].
  - rewrite <- fmap_S_seq, <- list_fmap_compose. apply list_fmap_ext. intros _ i _. simpl.
    by replace (c + Z.of_nat (S i)) with (c + 1 + Z.of_nat i) by lia.
  - unfold t1. simpl. rewrite lookup_insert_eq, wrap_small; [done|]. unfold in_u. lia.
Qed.

(** ** Properties *)

(** In every state the manager can reach, each domain of the tables has at
    least one route, no proxy occurs twice among the routes of a domain, and
    exactly the domains with routes have a round-robin counter. *)
Theorem vhost_invariant vm : vhost_reachable vm → vm_inv vm.
Proof. apply vhost_reachable_inv. Qed.

(** C24: registering an HTTP proxy under a key that has no routes yet and then
    closing it gives back the routes there were; in between, exactly the
    domains the registration asks for have a new route, last in their entry,
    and the address returned names the first of the sorted domains. *)
Theorem register_close_http vm run_id msg tx vm' addr :
  vhost_reachable vm → let key := route_key_of run_id (np_proxy_name msg) in
  (∀ d e, vt_routes (vm_http vm) !! d = Some e → key ∉ vr_route_key <$> e) →
  register_http run_id msg tx vm = (vm', Ok addr) →
  (∀ d, wanted vm msg d → vt_routes (vm_http vm') !! d =
     Some (default [] (vt_routes (vm_http vm) !! d) ++ [mkVhostRoute key (np_proxy_name msg) tx])) ∧
  (∀ d, ¬ wanted vm msg d → vt_routes (vm_http vm') !! d = vt_routes (vm_http vm) !! d) ∧
  (∃ d, wanted vm msg d ∧ addr = "http://" +:+ d +:+ ":" +:+ pretty (vm_vhost_http_port vm) ∧
     ∀ d', wanted vm msg d' → str_le d d') ∧
  vt_routes (vm_http (http_proxy_close key vm')) = vt_routes (vm_http vm).
Proof.
  intros Hreach key Hfresh Hreg. destruct (vhost_reachable_inv vm Hreach) as [Hinv _].
  destruct (register_http_cases run_id msg tx vm) as [(ds & s & E & Hds & Hs)|[e E]];
    rewrite E in Hreg; [|done]. injection Hreg as <- ->. fold key in E |- *.
  destruct (collect_domains_wanted _ _ _ Hds) as (Hne & Hsort & Hw).
  assert (∀ d, put_route key (np_proxy_name msg) tx (vt_routes (vm_http vm) !! d) =
    default [] (vt_routes (vm_http vm) !! d) ++ [mkVhostRoute key (np_proxy_name msg) tx]) as Hput.
  { intros d. unfold put_route. destruct (has_key key _) eqn:Ek; [exfalso|done].
    apply has_key_iff in Ek. destruct (vt_routes (vm_http vm) !! d) eqn:El; [by eapply Hfresh|].
    by apply not_elem_of_nil in Ek. }
  cbn [vm_http ensure_http_listener_started set_http]. repeat split.
  - intros d Hd%Hw. by rewrite add_routes_lookup, decide_True, Hput.
  - intros d Hd. rewrite add_routes_lookup, decide_False; [done|]. by rewrite Hw.
  - destruct ds as [|d0 ds']; [done|]. exists d0. split; [apply Hw, elem_of_cons; by left|].
    split; [done|]. intros d' Hd'%Hw. apply StronglySorted_inv in Hsort as [_ Hall].
    rewrite Forall_forall in Hall. apply elem_of_cons in Hd' as [->|Hd'].
    + by destruct (total str_le d0 d0).
    + by apply Hall.
  - unfold http_proxy_close, unregister_route. rewrite bool_decide_eq_true_2 by done.
    cbn [vm_http set_http ensure_http_listener_started]. apply map_eq. intros d.
    rewrite unregister_table_lookup by by apply add_routes_inv.
    rewrite add_routes_lookup. destruct (decide (d ∈ ds)) as [Hd|Hd].
    + rewrite Hput. cbn [cut_route]. rewrite List.filter_app. simpl.
      rewrite bool_decide_eq_true_2 by done. cbn [negb]. rewrite app_nil_r.
      destruct (vt_routes (vm_http vm) !! d) as [e|] eqn:El; [|done]. simpl.
      rewrite cut_other; [by destruct e; [destruct (ti_entry _ Hinv d [] El)|]|].
      apply not_true_iff_false. rewrite has_key_iff. by eapply Hfresh.
    + destruct (vt_routes (vm_http vm) !! d) as [e|] eqn:El; [|done]. simpl.
      rewrite cut_other; [by destruct e; [destruct (ti_entry _ Hinv d [] El)|]|].
      apply not_true_iff_false. rewrite has_key_iff. by eapply Hfresh.
Qed.

(** The requests for a domain go round its routes: as many requests as the
    domain has routes reach each of them exactly once, starting where the
    counter stands, as long as the 64-bit counter does not wrap in between. *)
Theorem round_robin t d rs c :
  vt_routes t !! d = Some rs → rs ≠ [] → vt_rr t !! d = Some c →
  0 ≤ c → c + Z.of_nat (length rs) ≤ 2 ^ 64 →
  (picks (length rs) t d).2 = Some <$> rotate (Z.to_nat c) rs ∧ rotate (Z.to_nat c) rs ≡ₚ rs.
Proof.
  intros Hr Hne Hc Hpos Hb. split.
  - rewrite (picks_lookup _ _ _ rs c) by done. apply list_eq. intros i. rewrite !list_lookup_fmap.
    destruct (decide (i < length rs)%nat) as [Hi|Hi].
    + rewrite lookup_seq_lt by done. simpl. rewrite lookup_rotate_r by done.
      unfold rotate_nat_add. rewrite Z2Nat.id by lia.
      destruct (lookup_lt_is_Some_2 rs (Z.to_nat ((c + Z.of_nat i) mod Z.of_nat (length rs)))) as [x Hx].
      { pose proof (Z.mod_pos_bound (c + Z.of_nat i) (Z.of_nat (length rs))). lia. }
      by rewrite Hx.
    + rewrite lookup_seq_ge, (lookup_ge_None_2 (rotate _ _)) by (rewrite ?length_rotate; lia). done.
  - unfold rotate. rewrite Permutation_app_comm. by rewrite take_drop.
Qed.

(** The rule that limits a token to domains with given suffixes can be
    passed with a custom domain of the form [evil:suffix]: it ends in the
    allowed suffix, so the rule accepts it, and the virtual host that is then
    registered is [evil]. *)
Theorem domain_rule_bypass `{Primitives} rule vm msg evil suffix :
  plain_host evil → evil ≠ ""%string → plain_port suffix →
  suffix ∈ ar_allow_domain_suffixes rule →
  np_custom_domains msg = [evil +:+ ":" +:+ suffix] → np_subdomain msg = ""%string →
  check_domains rule (np_custom_domains msg) = Ok tt ∧
  collect_domains vm msg = Ok [to_ascii_lowercase evil].
Proof.
  intros He Hne Hs Hin Hdom Hsub. rewrite Hdom. split.
  - apply check_domains_Ok. intros d ->%list_elem_of_singleton. apply domain_allowed_iff.
    exists suffix, (to_ascii_lowercase (evil +:+ ":")). split; [done|].
    assert (Forall graphic (to_bytes (evil +:+ ":" +:+ suffix))) as Hg.
    { rewrite !to_bytes_app, !Forall_app. split; [apply He|]. split; [|apply Hs]. repeat constructor; done. }
    pose proof (to_bytes_nonempty suffix (pp_nonempty _ Hs)) as Hnb.
    unfold Auth.normalize_host. rewrite !trim_graphic by (done || apply Hs).
    rewrite !trim_end_matches_id; [|apply Hs|].
    2:{ rewrite !to_bytes_app, !last_app. destruct (last (to_bytes suffix)) eqn:El.
        - rewrite <- El. apply Hs.
        - by apply last_None in El. }
    rewrite !to_lowercase_graphic by (done || apply Hs). unfold to_ascii_lowercase.
    apply (inj to_bytes). rewrite to_bytes_app, !to_of_bytes, !to_bytes_app, !fmap_app.
    by rewrite !to_of_bytes, <- app_assoc.
  - unfold collect_domains. rewrite Hdom, Hsub. cbn [fmap list_fmap List.filter].
    rewrite normalize_host_port by done. change (is_empty (trim "")) with true. cbn [negb].
    rewrite (proj2 (is_empty_false _)); [done|].
    intros E%(f_equal to_bytes). unfold to_ascii_lowercase in E. rewrite to_of_bytes in E.
    apply fmap_nil_inv in E. by apply (to_bytes_nonempty evil).
Qed.

End Vhost.

(** ** Witnesses *)

Module ToyVhostManager.
Import ToyCrypto.
#[local] Instance json : Json := {|
  Value := unit; as_object := fun _ => None; as_str := fun _ => None |}.
#[local] Instance lower : UnicodeLower := fun s => s.

Definition msg (name : string) (domains : list string) : NewProxyMsg :=
  mkNewProxyMsg name "http" false false "127.0.0.1" 80 0 domains "" [] "" "" "" true tt.
Definition vm0 : VhostManager := vhost_new "0.0.0.0" "example.org" 8080 8443.
Definition vm1 : VhostManager := (register_http "r1" (msg "web" ["b.com"; "A.com:80"; "b.com"]) 1 vm0).1.
Definition vm2 : VhostManager := (register_http "r2" (msg "web" ["a.com"]) 2 vm1).1.

Lemma vm1_reachable : vhost_reachable vm1.
Proof. eapply reach_step; [apply (reach_new "0.0.0.0" "example.org" 8080 8443)|apply step_register_http]. Qed.

Lemma vhost_invariant_witness : vm_inv vm1.
Proof. apply (vhost_invariant vm1 vm1_reachable). Defined.

Lemma register_close_http_witness :
  vt_routes (vm_http (http_proxy_close "r2:web" vm2)) = vt_routes (vm_http vm1).
Proof.
  refine (proj2 (proj2 (proj2 (register_close_http vm1 "r2" (msg "web" ["a.com"]) 2 vm2
            "http://a.com:8080" vm1_reachable _ _)))).
  - apply (bool_decide_unpack (map_Forall (fun _ e => "r2:web"%string ∉ vr_route_key <$> e)
             (vt_routes (vm_http vm1)))). vm_compute. exact I.
  - vm_compute. reflexivity.
Defined.

Lemma round_robin_witness :
  (picks 2 (vm_http vm2) "a.com").2 =
    [Some (mkVhostRoute "r1:web" "web" 1); Some (mkVhostRoute "r2:web" "web" 2)] ∧
  rotate 0 [mkVhostRoute "r1:web" "web" 1; mkVhostRoute "r2:web" "web" 2]
  ≡ₚ [mkVhostRoute "r1:web" "web" 1; mkVhostRoute "r2:web" "web" 2].
Proof.
  apply (round_robin (vm_http vm2) "a.com"
           [mkVhostRoute "r1:web" "web" 1; mkVhostRoute "r2:web" "web" 2] 0);
    [vm_compute; reflexivity|done|vm_compute; reflexivity|lia|vm_compute; congruence].
Defined.

Definition rule : AuthRule := mkAuthRule "t" [] [] ["example.com"] [] 0 0 0.

Lemma domain_rule_bypass_witness :
  check_domains rule ["evil.net:example.com"] = Ok tt ∧
  collect_domains vm0 (msg "web" ["evil.net:example.com"]) = Ok ["evil.net"%string].
Proof.
  apply (domain_rule_bypass rule vm0 (msg "web" ["evil.net:example.com"]) "evil.net" "example.com").
  - split; [by apply graphic_all|by apply bytes_contains_false|by vm_compute].
  - done.
  - split; [by apply graphic_all|by apply bytes_contains_false|done|by vm_compute].
  - by apply list_elem_of_singleton.
  - reflexivity.
  - reflexivity.
Defined.
End ToyVhostManager.
