(* ===== verification/TcpGroup.v ===== *)
(** * Load-balanced TCP groups (the group part of crates/arp-server/src/proxy/tcp.rs)

    A [GroupedTcpProxy] owns one listening port and spreads its connections
    over the backends that joined the group: round robin over a 32-bit
    counter, skipping a backend for five seconds after a failed connection.
    An [Instant] is a number of nanoseconds. *)
From S2P Require Import Prelude Errors Vhost.
Local Open Scope Z_scope.

Definition BACKEND_EJECT_SECS : Z := 5.
Definition BACKEND_FAIL_THRESHOLD : Z := 1.
Definition nanos_per_sec : Z := 1000000000.

(** [accept] errors after which the listener tries again. *)
Definition is_transient_accept_error (e : IoError) : bool :=
  match io_kind e with
  | WouldBlock | Interrupted => true
  | _ => match raw_os_error e with
         | Some n => (n =? 23) || (n =? 24)
         | None => false
         end
  end.

(** The delay before the next [accept], in milliseconds. *)
Definition next_backoff (backoff_ms : Z) : Z :=
  if backoff_ms =? 0 then 10 else Z.min (backoff_ms * 2) 1000.

(** [BackendSnapshot], and [GroupedBackend], which has the same fields. *)
Record Backend := mkBackend {
  b_backend_id : string; b_proxy_name : string; b_work_conn_req_tx : Sender;
  b_stcp : bool; b_secret : string;
}.

Record GroupedBackendState := mkBackendState {
  bs_snapshot : Backend; bs_failures : Z; bs_ejected_until : option Z;
}.

#[global] Instance Backend_eq_dec : EqDecision Backend.
Proof. solve_decision. Defined.
#[global] Instance GroupedBackendState_eq_dec : EqDecision GroupedBackendState.
Proof. solve_decision. Defined.

Record GroupedTcpProxy := mkGroupedTcpProxy {
  g_group_id : string;
  g_remote_port : Z;
  g_started : bool;
  g_rr : Z;
  g_backends : list GroupedBackendState;
}.

Definition set_backends (bs : list GroupedBackendState) (g : GroupedTcpProxy) : GroupedTcpProxy :=
  mkGroupedTcpProxy (g_group_id g) (g_remote_port g) (g_started g) (g_rr g) bs.

Definition has_id (id : string) (st : GroupedBackendState) : bool :=
  bool_decide (b_backend_id (bs_snapshot st) = id).

Definition ensure_started (g : GroupedTcpProxy) : GroupedTcpProxy :=
  mkGroupedTcpProxy (g_group_id g) (g_remote_port g) true (g_rr g) (g_backends g).

Definition add_backend (backend : Backend) (g : GroupedTcpProxy) : GroupedTcpProxy :=
  if negb (existsb (has_id (b_backend_id backend)) (g_backends g))
  then set_backends (g_backends g ++ [mkBackendState backend 0 None]) g else g.

(** The backends after [remove_backend], and whether the group is empty. *)
Definition retain_backends (backend_id : string) (g : GroupedTcpProxy) : GroupedTcpProxy * bool :=
  let bs := List.filter (fun st => negb (has_id backend_id st)) (g_backends g) in
  (set_backends bs g, match bs with [] => true | _ => false end).

(** Whether the backend is skipped at time [now]. *)
Definition ejected (now : Z) (st : GroupedBackendState) : bool :=
  match bs_ejected_until st with Some deadline => now <? deadline | None => false end.

Definition clear_ejection (st : GroupedBackendState) : GroupedBackendState :=
  mkBackendState (bs_snapshot st) (bs_failures st) None.

(** The loop [for i in 0..len] from its [i]-th iteration on, with [n] to go. *)
Fixpoint pick_loop (now : Z) (start i n : nat) (bs : list GroupedBackendState)
  : list GroupedBackendState * option Backend :=
  match n with
  | O => (bs, None)
  | S n' =>
      let idx := ((start + i) mod length bs)%nat in
      match bs !! idx with
      | Some state =>
          if ejected now state then pick_loop now start (S i) n' bs
          else (<[idx := clear_ejection state]> bs, Some (bs_snapshot state))
      | None => (bs, None)                (* no index is out of bounds *)
      end
  end.

Definition pick_backend (now : Z) (g : GroupedTcpProxy) : GroupedTcpProxy * option Backend :=
  match g_backends g with
  | [] => (g, None)
  | bs =>
      let start := (Z.to_nat (g_rr g) mod length bs)%nat in
      let '(bs', r) := pick_loop now start 0 (length bs) bs in
      (mkGroupedTcpProxy (g_group_id g) (g_remote_port g) (g_started g) (wrap 32 (g_rr g + 1)) bs', r)
  end.

(** Change the first backend with this id. *)
Fixpoint update_backend (backend_id : string) (f : GroupedBackendState → GroupedBackendState)
    (bs : list GroupedBackendState) : list GroupedBackendState :=
  match bs with
  | [] => []
  | st :: rest => if has_id backend_id st then f st :: rest else st :: update_backend backend_id f rest
  end.

Definition mark_backend_success (backend_id : string) (g : GroupedTcpProxy) : GroupedTcpProxy :=
  set_backends (update_backend backend_id (fun st => mkBackendState (bs_snapshot st) 0 None)
                  (g_backends g)) g.

Definition record_failure (now : Z) (st : GroupedBackendState) : GroupedBackendState :=
  let failures := wrap 32 (bs_failures st + 1) in
  mkBackendState (bs_snapshot st) failures
    (if BACKEND_FAIL_THRESHOLD <=? failures
     then Some (now + BACKEND_EJECT_SECS * nanos_per_sec) else bs_ejected_until st).

Definition mark_backend_failure (now : Z) (backend_id : string) (g : GroupedTcpProxy) : GroupedTcpProxy :=
  set_backends (update_backend backend_id (record_failure now) (g_backends g)) g.

(** [handle_client]: [relay] is the outcome of [handle_plain_client_connection]
    with the chosen backend and [ended] the time it ends. *)
Definition handle_client (now ended : Z) (relay : Backend → Result unit) (g : GroupedTcpProxy)
  : GroupedTcpProxy * Result unit :=
  match pick_backend now g with
  | (g, None) =>
      (g, Err (Error.Proxy ("tcp group " +:+ g_group_id g +:+ " has no healthy backend available")))
  | (g, Some backend) =>
      match relay backend with
      | Ok _ => (mark_backend_success (b_backend_id backend) g, Ok tt)
      | Err e => (mark_backend_failure ended (b_backend_id backend) g, Err e)
      end
  end.

(** ** Lemmas *)

(** No id twice: what [add_backend] keeps. *)
Definition ids (bs : list GroupedBackendState) : list string := (fun st => b_backend_id (bs_snapshot st)) <$> bs.

Lemma existsb_has_id id bs : existsb (has_id id) bs = true ↔ id ∈ ids bs.
Proof.
  unfold ids, has_id. rewrite existsb_True, list_elem_of_fmap.
  setoid_rewrite bool_decide_eq_true. naive_solver.
Qed.

Lemma add_backend_ids b g :
  NoDup (ids (g_backends g)) →
  NoDup (ids (g_backends (add_backend b g))) ∧
  ∀ id, id ∈ ids (g_backends (add_backend b g)) ↔ id = b_backend_id b ∨ id ∈ ids (g_backends g).
Proof.
  intros Hn. unfold add_backend. destruct (existsb _ _) eqn:E; cbn [negb].
  - apply existsb_has_id in E. split; [done|]. naive_solver.
  - rewrite <- not_true_iff_false, existsb_has_id in E. simpl. unfold ids in *. rewrite fmap_app. split.
    + apply NoDup_app. split; [done|]. split; [|apply NoDup_singleton].
      intros x Hx Hs. apply list_elem_of_singleton in Hs. naive_solver.
    + intros id. rewrite elem_of_app. simpl. rewrite list_elem_of_singleton. tauto.
Qed.

Lemma retain_backends_ids id g :
  ∀ x, x ∈ ids (g_backends (retain_backends id g).1) ↔ x ≠ id ∧ x ∈ ids (g_backends g).
Proof.
  intros x. unfold retain_backends, ids, has_id. simpl. rewrite !list_elem_of_fmap.
  setoid_rewrite elem_of_filter_b. setoid_rewrite negb_true_iff. setoid_rewrite bool_decide_eq_false.
  naive_solver.
Qed.

Lemma retain_backends_NoDup id g :
  NoDup (ids (g_backends g)) → NoDup (ids (g_backends (retain_backends id g).1)).
Proof.
  intros Hn. apply (sublist_NoDup _ (ids (g_backends g))); [done|]. unfold ids, retain_backends. simpl.
  induction (g_backends g) as [|st bs IH]; csimpl; [done|]. apply NoDup_cons in Hn as [_ Hn].
  destruct (has_id id st); csimpl; by constructor; auto.
Qed.

Lemma retain_backends_empty id g :
  (retain_backends id g).2 = true ↔ g_backends (retain_backends id g).1 = [].
Proof. unfold retain_backends. simpl. by destruct (List.filter _ _). Qed.

Lemma pick_loop_spec now start n i bs :
  (length bs = i + n)%nat → bs ≠ [] →
  (∃ k st, (i ≤ k < length bs)%nat ∧ bs !! ((start + k) mod length bs)%nat = Some st ∧
     ejected now st = false ∧
     (∀ j st', (i ≤ j < k)%nat → bs !! ((start + j) mod length bs)%nat = Some st' → ejected now st' = true) ∧
     pick_loop now start i n bs =
       (<[((start + k) mod length bs)%nat := clear_ejection st]> bs, Some (bs_snapshot st))) ∨
  ((∀ j st', (i ≤ j < length bs)%nat → bs !! ((start + j) mod length bs)%nat = Some st' →
      ejected now st' = true) ∧ pick_loop now start i n bs = (bs, None)).
Proof.
  intros Hl Hne. revert i Hl. induction n as [|n IH]; intros i Hl.
  - right. split; [lia|done].
  - cbn [pick_loop]. assert (length bs ≠ 0%nat) as H0 by (by destruct bs).
    destruct (lookup_lt_is_Some_2 bs ((start + i) mod length bs)%nat) as [st Hst];
      [by apply Nat.mod_upper_bound|]. rewrite Hst.
    destruct (ejected now st) eqn:Ee.
    + destruct (IH (S i) ltac:(lia)) as [(k & st' & Hk & Hst' & He & Hbefore & ->)|[Hall ->]].
      * left. exists k, st'. split; [lia|]. split; [done|]. split; [done|]. split; [|done].
        intros j sj Hj Hsj. destruct (decide (j = i)) as [->|]; [congruence|]. apply (Hbefore j); [lia|done].
      * right. split; [|done]. intros j sj Hj Hsj.
        destruct (decide (j = i)) as [->|]; [congruence|]. apply (Hall j); [lia|done].
    + left. exists i, st. split; [lia|]. split; [done|]. split; [done|]. split; [|done]. lia.
Qed.

(** Every index is one of the visited ones. *)
Lemma cyclic_index start len idx :
  (idx < len)%nat → (start < len)%nat → ∃ j, (j < len)%nat ∧ ((start + j) mod len = idx)%nat.
Proof.
  intros Hi Hs. destruct (decide (start ≤ idx)%nat).
  - exists (idx - start)%nat. split; [lia|]. rewrite Nat.mod_small; lia.
  - exists (idx + len - start)%nat. split; [lia|].
    replace (start + (idx + len - start))%nat with (idx + 1 * len)%nat by lia.
    rewrite Nat.Div0.mod_add. by apply Nat.mod_small.
Qed.

Lemma update_backend_lookup id f bs idx st :
  NoDup (ids bs) → bs !! idx = Some st →
  update_backend id f bs !! idx =
    Some (if bool_decide (b_backend_id (bs_snapshot st) = id) then f st else st).
Proof.
  revert idx. induction bs as [|s bs IH]; intros idx Hn Hst; [done|]. cbn [update_backend].
  unfold ids in Hn. rewrite fmap_cons in Hn. apply NoDup_cons in Hn as [Hs Hn].
  unfold has_id. destruct (bool_decide (b_backend_id (bs_snapshot s) = id)) eqn:E; bool_to_prop.
  - destruct idx as [|idx]; simplify_eq/=; [by rewrite bool_decide_eq_true_2|].
    rewrite bool_decide_eq_false_2; [done|]. intros Hid. apply Hs. rewrite <- Hid.
    apply list_elem_of_fmap. exists st. split; [done|]. by eapply list_elem_of_lookup_2.
  - destruct idx as [|idx]; simplify_eq/=; [by rewrite bool_decide_eq_false_2|]. by apply IH.
Qed.

Lemma length_update_backend id f bs : length (update_backend id f bs) = length bs.
Proof. induction bs as [|s bs IH]; simpl; [done|]. destruct (has_id id s); simpl; auto. Qed.

(** Backends that are not ejected, where the search starts, and where it is
    after [k] steps. *)
Definition pick_start (g : GroupedTcpProxy) : nat := (Z.to_nat (g_rr g) mod length (g_backends g))%nat.
Definition pick_index (g : GroupedTcpProxy) (k : nat) : nat :=
  ((pick_start g + k) mod length (g_backends g))%nat.

Lemma pick_backend_cases now g :
  (∃ k st, (k < length (g_backends g))%nat ∧ g_backends g !! pick_index g k = Some st ∧
     ejected now st = false ∧
     (∀ j st', (j < k)%nat → g_backends g !! pick_index g j = Some st' → ejected now st' = true) ∧
     (pick_backend now g).2 = Some (bs_snapshot st) ∧
     g_backends (pick_backend now g).1 = <[pick_index g k := clear_ejection st]> (g_backends g)) ∨
  (Forall (fun st => ejected now st = true) (g_backends g) ∧
   (pick_backend now g).2 = None ∧ g_backends (pick_backend now g).1 = g_backends g).
Proof.
  destruct (g_backends g) as [|b0 bs0] eqn:Eb.
  { right. unfold pick_backend. rewrite Eb. split; [constructor|]. by split. }
  assert (g_backends g ≠ []) as Hne by (by rewrite Eb).
  assert (length (g_backends g) ≠ 0)%nat as H0 by (by destruct (g_backends g)).
  assert (pick_backend now g =
    (let '(bs', r) := pick_loop now (pick_start g) 0 (length (g_backends g)) (g_backends g) in
     (mkGroupedTcpProxy (g_group_id g) (g_remote_port g) (g_started g) (wrap 32 (g_rr g + 1)) bs', r))) as ->.
  { unfold pick_backend, pick_start. by rewrite Eb. }
  rewrite <- Eb. unfold pick_index.
  destruct (pick_loop_spec now (pick_start g) (length (g_backends g)) 0 (g_backends g) eq_refl Hne)
    as [(k & st & Hk & Hst & He & Hb & ->)|[Hall ->]].
  - left. exists k, st. split; [lia|]. split; [done|]. split; [done|]. split; [|done].
    intros j st' Hj. apply Hb. lia.
  - right. split; [|done]. apply Forall_lookup. intros idx st Hst.
    destruct (cyclic_index (pick_start g) (length (g_backends g)) idx) as (j & Hj & <-).
    + by eapply lookup_lt_Some.
    + by apply Nat.mod_upper_bound.
    + apply (Hall j); [lia|done].
Qed.

(** ** Properties *)

(** C38: A connection to a group goes to the first backend, in cyclic order from
    where the counter stands, that is not ejected, and the backends passed over
    are all ejected; it is refused exactly when every backend is ejected (or
    there is none).  The index is always in bounds, also when the 32-bit
    counter has wrapped, and the counter moves on by one. *)
Theorem pick_backend_spec now g :
  g_rr (pick_backend now g).1 = (if g_backends g is [] then g_rr g else wrap 32 (g_rr g + 1)) ∧
  match (pick_backend now g).2 with
  | Some b =>
      ∃ k st, (k < length (g_backends g))%nat ∧ g_backends g !! pick_index g k = Some st ∧
        bs_snapshot st = b ∧ ejected now st = false ∧
        (∀ j st', (j < k)%nat → g_backends g !! pick_index g j = Some st' → ejected now st' = true) ∧
        g_backends (pick_backend now g).1 = <[pick_index g k := clear_ejection st]> (g_backends g)
  | None => Forall (fun st => ejected now st = true) (g_backends g) ∧
            g_backends (pick_backend now g).1 = g_backends g
  end.
Proof.
  split; [unfold pick_backend; destruct (g_backends g); [done|]; by destruct (pick_loop _ _ _ _ _)|].
  destruct (pick_backend_cases now g) as [(k & st & Hk & Hst & He & Hb & -> & E)|(Hall & -> & E)]; [|done].
  by exists k, st.
Qed.

(** After a connection through a backend fails, the backend is out for
    five seconds: a choice made within them is never that backend and is some
    other backend if one is healthy; from the end of the five seconds on the
    backend is eligible again. *)
Theorem failed_backend_is_ejected g id t now st idx :
  NoDup (ids (g_backends g)) → g_backends g !! idx = Some st →
  b_backend_id (bs_snapshot st) = id → 0 ≤ bs_failures st < 2 ^ 32 - 1 →
  let g' := mark_backend_failure t id g in
  let deadline := t + BACKEND_EJECT_SECS * nanos_per_sec in
  (now < deadline → ∀ b, (pick_backend now g').2 = Some b → b_backend_id b ≠ id) ∧
  (now < deadline → ∀ st', st' ∈ g_backends g → b_backend_id (bs_snapshot st') ≠ id →
     ejected now st' = false → ∃ b, (pick_backend now g').2 = Some b) ∧
  (deadline ≤ now → ∃ st', g_backends g' !! idx = Some st' ∧ ejected now st' = false ∧
     bs_snapshot st' = bs_snapshot st).
Proof.
  intros Hn Hst Hid Hf g' deadline.
  assert (∀ i s, g_backends g !! i = Some s → g_backends g' !! i =
    Some (if bool_decide (b_backend_id (bs_snapshot s) = id) then record_failure t s else s)) as Hg'.
  { intros i s Hs. by apply update_backend_lookup. }
  assert (g_backends g' !! idx = Some (mkBackendState (bs_snapshot st) (bs_failures st + 1) (Some deadline)))
    as Hst'.
  { rewrite (Hg' _ _ Hst), bool_decide_eq_true_2 by done. unfold record_failure.
    rewrite wrap_small by (unfold in_u; lia). unfold BACKEND_FAIL_THRESHOLD.
    by rewrite (proj2 (Z.leb_le _ _)) by lia. }
  assert (∀ i s', g_backends g' !! i = Some s' → b_backend_id (bs_snapshot s') = id → i = idx) as Huniq.
  { intros i s' Hs' Hi. destruct (lookup_lt_is_Some_2 (g_backends g) i) as [s Hs].
    { rewrite <- (length_update_backend id (record_failure t)). by eapply lookup_lt_Some. }
    rewrite (Hg' _ _ Hs) in Hs'. injection Hs' as <-.
    assert (b_backend_id (bs_snapshot s) = id) as Hsid by (by case_bool_decide).
    eapply (NoDup_lookup (ids (g_backends g)) i idx id Hn); unfold ids; rewrite list_lookup_fmap.
    - rewrite Hs. simpl. by f_equal.
    - rewrite Hst. simpl. by f_equal. }
  split; [|split].
  - intros Hnow b Hb Hbid.
    destruct (pick_backend_cases now g') as [(k & s & _ & Hs & He & _ & E & _)|(_ & E & _)];
      rewrite E in Hb; [|done]. injection Hb as <-.
    rewrite (Huniq _ _ Hs Hbid) in Hs. rewrite Hst' in Hs. injection Hs as <-.
    unfold ejected in He. simpl in He. bool_to_prop. lia.
  - intros _ s Hs Hsid He.
    destruct (pick_backend_cases now g') as [(k & s' & _ & _ & _ & _ & E & _)|(Hall & _ & _)]; [by eauto|].
    apply list_elem_of_lookup in Hs as [i Hs]. rewrite Forall_lookup in Hall.
    specialize (Hall i s). rewrite (Hg' _ _ Hs), bool_decide_eq_false_2 in Hall by done.
    by rewrite He in Hall; specialize (Hall eq_refl).
  - intros Hnow. exists (mkBackendState (bs_snapshot st) (bs_failures st + 1) (Some deadline)).
    split; [done|]. split; [|done]. unfold ejected. simpl. by apply Z.ltb_ge.
Qed.

Module ToyGroup.
Definition b1 : Backend := mkBackend "r1:web" "web" 1 false "".
Definition b2 : Backend := mkBackend "r2:web" "web" 2 false "".
Definition group : GroupedTcpProxy :=
  add_backend b2 (add_backend b1 (mkGroupedTcpProxy "g" 6000 true 0 [])).

Lemma failed_backend_is_ejected_witness :
  (pick_backend 100 (mark_backend_failure 0 "r1:web" group)).2 = Some b2 ∧
  ∀ b, (pick_backend 100 (mark_backend_failure 0 "r1:web" group)).2 = Some b → b_backend_id b ≠ "r1:web"%string.
Proof.
  split; [vm_compute; reflexivity|].
  refine (proj1 (failed_backend_is_ejected group "r1:web" 0 100 (mkBackendState b1 0 None) 0 _ _ _ _) _).
  - apply (bool_decide_unpack _). vm_compute. exact I.
  - reflexivity.
  - reflexivity.
  - simpl. lia.
  - vm_compute. reflexivity.
Defined.
End ToyGroup.

(** Serving a client keeps the members of the group, in order. *)
Lemma ids_update_backend id f bs :
  (∀ st, bs_snapshot (f st) = bs_snapshot st) → ids (update_backend id f bs) = ids bs.
Proof.
  intros Hf. unfold ids. induction bs as [|st bs IH]; csimpl; [done|].
  destruct (has_id id st); csimpl; [by rewrite Hf|by rewrite IH].
Qed.

Lemma ids_pick_backend now g : ids (g_backends (pick_backend now g).1) = ids (g_backends g).
Proof.
  destruct (pick_backend_cases now g) as [(k & st & _ & Hst & _ & _ & _ & ->)|(_ & _ & ->)]; [|done].
  unfold ids. rewrite list_fmap_insert. apply list_insert_id. by rewrite list_lookup_fmap, Hst.
Qed.

Lemma handle_client_group now ended relay g :
  let g' := (handle_client now ended relay g).1 in
  g_group_id g' = g_group_id g ∧ g_remote_port g' = g_remote_port g ∧
  ids (g_backends g') = ids (g_backends g).
Proof.
  unfold handle_client. pose proof (ids_pick_backend now g) as Hids.
  assert (g_group_id (pick_backend now g).1 = g_group_id g ∧
          g_remote_port (pick_backend now g).1 = g_remote_port g) as [Hi Hp].
  { unfold pick_backend. destruct (g_backends g); [done|]. by destruct (pick_loop _ _ _ _ _). }
  destruct (pick_backend now g) as [g1 [b|]]; simpl in *; [|done].
  destruct (relay b); simpl; (split; [done|]; split; [done|]); by rewrite ids_update_backend.
Qed.
