(* ===== verification/ProxyManager.v ===== *)
(** * The server's proxies (crates/arp-server/src/proxy/mod.rs, and the
      constructors and [close] methods of proxy/tcp.rs and proxy/udp.rs)

    [ProxyManager] registers the proxies of all clients under the key
    [run_id:proxy_name], allocates their ports, and takes them down one by
    one, by name (eviction) or with their client.  It is written against the
    interface [PortAllocator].  Whether binding a port succeeds is an
    argument.  A group is shared between the registry and its members, so the
    groups live in a heap and are referred to by their address.  The order in
    which a [DashMap] is iterated is the parameter [DashIter].  Every call is
    one function here, and [pm_step] runs the calls one after the other; the
    server awaits inside them without a lock, and ProxyTasks has what holds
    when calls overlap. *)
From stdpp Require Import sorting.
From S2P Require Import Prelude RustString Errors Protocol Config Resource Vhost TcpGroup.
Local Open Scope Z_scope.

(** [DashMap::iter]: the entries in some order. *)
Class DashIter := {
  dash_iter : ∀ {V}, gmap string V → list (string * V);
  dash_iter_perm : ∀ {V} (m : gmap string V), dash_iter m ≡ₚ map_to_list m;
}.

Record TcpProxy := mkTcpProxy {
  tp_name : string; tp_remote_port : Z; tp_work_conn_req_tx : Sender;
  tp_tcp_mux : bool; tp_stcp : bool; tp_secret : string;
}.

Record UdpProxy := mkUdpProxy {
  ud_name : string; ud_remote_port : Z; ud_work_conn_req_tx : Sender;
  ud_use_compression : bool; ud_use_encryption : bool; ud_secret : string;
}.

(** The implementations of the trait [Proxy]. *)
Inductive Proxy :=
| PTcp (p : TcpProxy)
| PGroupMember (name : string) (grouped : Z) (backend_id : string)
| PStcp (name : string)
| PHttp (route_key : string)
| PHttps (route_key : string)
| PUdp (p : UdpProxy)
| PXtcp (name : string) (relay : option TcpProxy).

Record ProxyRecord := mkProxyRecord {
  prc_run_id : string; prc_proxy_name : string; prc_proxy_type : string; prc_remote_addr : string;
}.

Record XtcpProxyInfo := mkXtcpProxyInfo { xi_run_id : string; xi_sk : string; xi_relay_addr : string }.
Record StcpProxyInfo := mkStcpProxyInfo {
  si_run_id : string; si_sk : string; si_work_conn_req_tx : Sender;
}.

Record ProxyManager := mkProxyManager {
  pm_proxies : gmap string Proxy;
  pm_records : gmap string ProxyRecord;
  pm_vhost : VhostManager;
  pm_tcp_groups : gmap string Z;                (* group id to address *)
  pm_group_heap : gmap Z GroupedTcpProxy;
  pm_next_group : Z;
  pm_xtcp_registry : gmap string XtcpProxyInfo;
  pm_stcp_registry : gmap string StcpProxyInfo;
}.

Definition pm_set_proxies ps rs (m : ProxyManager) : ProxyManager :=
  mkProxyManager ps rs (pm_vhost m) (pm_tcp_groups m) (pm_group_heap m) (pm_next_group m)
    (pm_xtcp_registry m) (pm_stcp_registry m).
Definition pm_set_vhost v (m : ProxyManager) : ProxyManager :=
  mkProxyManager (pm_proxies m) (pm_records m) v (pm_tcp_groups m) (pm_group_heap m)
    (pm_next_group m) (pm_xtcp_registry m) (pm_stcp_registry m).
Definition pm_set_groups gs heap next (m : ProxyManager) : ProxyManager :=
  mkProxyManager (pm_proxies m) (pm_records m) (pm_vhost m) gs heap next
    (pm_xtcp_registry m) (pm_stcp_registry m).
Definition pm_set_xtcp x (m : ProxyManager) : ProxyManager :=
  mkProxyManager (pm_proxies m) (pm_records m) (pm_vhost m) (pm_tcp_groups m) (pm_group_heap m)
    (pm_next_group m) x (pm_stcp_registry m).
Definition pm_set_stcp x (m : ProxyManager) : ProxyManager :=
  mkProxyManager (pm_proxies m) (pm_records m) (pm_vhost m) (pm_tcp_groups m) (pm_group_heap m)
    (pm_next_group m) (pm_xtcp_registry m) x.

(** What binding a port gives: [None] for success. *)
Record Binds := mkBinds { bind_tcp : Z → option IoError; bind_udp : Z → option IoError }.

(** [format!("{}:{}", run_id, proxy_name)]. *)
Definition proxy_key_of (run_id proxy_name : string) : string := run_id +:+ ":" +:+ proxy_name.

Section ProxyManager.
Context `{Json} `{UnicodeLower} {R : Type} `{PortAllocator R}.

Definition pm_new (bind_addr subdomain_host : string) (http_port https_port : Z) : ProxyManager :=
  mkProxyManager ∅ ∅ (vhost_new bind_addr subdomain_host http_port https_port) ∅ ∅ 0 ∅ ∅.

(** The manager with the resource controller it shares. *)
Abbreviation PM A := (st (ProxyManager * R) Error.t A).

Definition on_rc {A} (m : st R Error.t A) : PM A := zoom snd (fun r s => (s.1, r)) m.
Definition on_vhost {A} (m : st VhostManager Error.t A) : PM A :=
  zoom (fun s => pm_vhost s.1) (fun v s => (pm_set_vhost v s.1, s.2)) m.
Definition pm_get : PM ProxyManager := fun s => (s, Ok s.1).
Definition pm_modify (f : ProxyManager → ProxyManager) : PM unit := fun s => ((f s.1, s.2), Ok tt).

(** ** Constructors *)

(** A port: the requested one, or any; then bind it, giving it back when that
    fails. *)
Definition take_port (requested : Z) : st R Error.t Z :=
  if 0 <? requested then alloc_port requested else alloc_random_port.

Definition bind_or_release (bind : Z → option IoError) (port : Z) : st R Error.t unit :=
  match bind port with
  | None => mret tt
  | Some e => _ ← release_port port; st_fail (Error.Io e)
  end.

Definition is_mux_name (s : string) : bool :=
  existsb (fun n => bool_decide (s = n)) ["tcp_mux"; "mux"; "smux"; "yamux"]%string.

(** [TcpProxy::new]. *)
Definition tcp_proxy_new (binds : Binds) (msg : NewProxyMsg) (tx : Sender) : st R Error.t TcpProxy :=
  let stcp := bool_decide (np_proxy_type msg = "stcp"%string) in
  remote_port ← take_port (np_remote_port msg);
  _ ← bind_or_release (bind_tcp binds) remote_port;
  mret (mkTcpProxy (np_proxy_name msg) remote_port tx (is_mux_name (np_multiplexer msg) && negb stcp)
          stcp (np_sk msg)).

(** [UdpProxy::new]. *)
Definition udp_proxy_new (binds : Binds) (msg : NewProxyMsg) (tx : Sender) : st R Error.t UdpProxy :=
  let force_secure := bool_decide (np_proxy_type msg = "sudp"%string) in
  remote_port ← take_port (np_remote_port msg);
  _ ← bind_or_release (bind_udp binds) remote_port;
  mret (mkUdpProxy (np_proxy_name msg) remote_port tx (np_use_compression msg)
          (np_use_encryption msg || force_secure) (np_sk msg)).

(** [GroupedTcpProxy::new]. *)
Definition grouped_new (binds : Binds) (group_id : string) (port : Z) : st R Error.t GroupedTcpProxy :=
  remote_port ← alloc_port port;
  _ ← bind_or_release (bind_tcp binds) remote_port;
  mret (mkGroupedTcpProxy group_id remote_port false 0 []).

(** ** [register_proxy] *)

Definition get_str (obj : gmap string Value) (k : string) : option string := obj !! k ≫= as_str.

Definition parse_lb_group (msg : NewProxyMsg) : string * string :=
  match as_object (np_extra msg) with
  | None => ("", "")%string
  | Some obj =>
      let group := match get_str obj "group" with Some v => trim v | None => ""%string end in
      let group_key := match get_str obj "group_key" with Some v => trim v | None => ""%string end in
      match obj !! "load_balancer"%string ≫= as_object with
      | None => (group, group_key)
      | Some lb =>
          (if is_empty group
           then match get_str lb "group" with Some v => trim v | None => group end else group,
           if is_empty group_key
           then match get_str lb "group_key" with Some v => trim v | None => group_key end else group_key)
      end
  end.

Definition port_addr (p : Z) : string := "0.0.0.0:" +:+ pretty p.

(** The group of this id, created if there is none. *)
Definition get_or_create_group (binds : Binds) (group_id : string) (port : Z) : PM Z :=
  m ← pm_get;
  match pm_tcp_groups m !! group_id with
  | Some addr => mret addr
  | None =>
      created ← on_rc (grouped_new binds group_id port);
      _ ← pm_modify (fun m => pm_set_groups (<[group_id := pm_next_group m]> (pm_tcp_groups m))
             (<[pm_next_group m := created]> (pm_group_heap m)) (pm_next_group m + 1) m);
      mret (pm_next_group m)
  end.

(** A method call on the group at an address. *)
Definition update_group (addr : Z) (f : GroupedTcpProxy → GroupedTcpProxy) : PM unit :=
  pm_modify (fun m => pm_set_groups (pm_tcp_groups m) (alter f addr (pm_group_heap m)) (pm_next_group m) m).

Definition register_group_member (binds : Binds) (proxy_key : string) (msg : NewProxyMsg) (tx : Sender)
    (lb_group lb_group_key : string) : PM (Proxy * string) :=
  _ ← st_guard (np_remote_port msg =? 0)
        (Error.Proxy "tcp/stcp load_balancer.group requires fixed remote_port");
  let group_id := np_proxy_type msg +:+ ":" +:+ pretty (np_remote_port msg) +:+ ":" +:+ lb_group
                  +:+ ":" +:+ lb_group_key in
  addr ← get_or_create_group binds group_id (np_remote_port msg);
  _ ← update_group addr (add_backend (mkBackend proxy_key (np_proxy_name msg) tx
          (bool_decide (np_proxy_type msg = "stcp"%string)) (np_sk msg)));
  _ ← update_group addr ensure_started;
  m ← pm_get;
  let remote_port := match pm_group_heap m !! addr with Some g => g_remote_port g | None => 0 end in
  mret (PGroupMember (np_proxy_name msg) addr proxy_key, port_addr remote_port).

Definition register_stcp (run_id : string) (msg : NewProxyMsg) (tx : Sender) : PM (Proxy * string) :=
  _ ← st_guard (is_empty (trim (np_sk msg))) (Error.Proxy "stcp proxy requires sk");
  m ← pm_get;
  _ ← st_guard (bool_decide (is_Some (pm_stcp_registry m !! np_proxy_name msg)))
        (Error.Proxy ("stcp proxy " +:+ np_proxy_name msg +:+ " already exists"));
  _ ← pm_modify (fun m => pm_set_stcp
         (<[np_proxy_name msg := mkStcpProxyInfo run_id (np_sk msg) tx]> (pm_stcp_registry m)) m);
  mret (PStcp (np_proxy_name msg), "stcp"%string).

(** The message of the relay of an XTCP proxy. *)
Definition relay_msg_of (msg : NewProxyMsg) : NewProxyMsg :=
  mkNewProxyMsg (np_proxy_name msg +:+ "__relay") "tcp" (np_use_encryption msg) (np_use_compression msg)
    (np_local_ip msg) (np_local_port msg) (np_remote_port msg) (np_custom_domains msg)
    (np_subdomain msg) (np_locations msg) (np_host_header_rewrite msg) "" ""
    (np_fallback_to_relay msg) (np_extra msg).

Definition register_xtcp (binds : Binds) (run_id : string) (msg : NewProxyMsg) (tx : Sender)
  : PM (Proxy * string) :=
  _ ← st_guard (is_empty (trim (np_sk msg))) (Error.Proxy "xtcp proxy requires sk");
  m ← pm_get;
  _ ← st_guard (bool_decide (is_Some (pm_xtcp_registry m !! np_proxy_name msg)))
        (Error.Proxy ("xtcp proxy " +:+ np_proxy_name msg +:+ " already exists"));
  relay_proxy ← (if np_fallback_to_relay msg
                 then p ← on_rc (tcp_proxy_new binds (relay_msg_of msg) tx); mret (Some p)
                 else mret None : PM (option TcpProxy));
  let relay_addr := match relay_proxy with Some p => port_addr (tp_remote_port p) | None => ""%string end in
  _ ← pm_modify (fun m => pm_set_xtcp
         (<[np_proxy_name msg := mkXtcpProxyInfo run_id (np_sk msg) relay_addr]> (pm_xtcp_registry m)) m);
  mret (PXtcp (np_proxy_name msg) relay_proxy,
        if is_empty relay_addr then "xtcp"%string else "xtcp(relay=" +:+ relay_addr +:+ ")").

(** The [match] over the proxy type. *)
Definition create_proxy (binds : Binds) (run_id : string) (msg : NewProxyMsg) (tx : Sender)
  : PM (Proxy * string) :=
  let ty := np_proxy_type msg in
  if bool_decide (ty = "tcp"%string) then
    let '(lb_group, lb_group_key) := parse_lb_group msg in
    if is_empty lb_group then
      p ← on_rc (tcp_proxy_new binds msg tx);
      mret (PTcp p, port_addr (tp_remote_port p))
    else register_group_member binds (proxy_key_of run_id (np_proxy_name msg)) msg tx lb_group lb_group_key
  else if bool_decide (ty = "stcp"%string) then register_stcp run_id msg tx
  else if bool_decide (ty = "http"%string) then
    a ← on_vhost (register_http run_id msg tx);
    mret (PHttp (route_key_of run_id (np_proxy_name msg)), a)
  else if bool_decide (ty = "https"%string) then
    a ← on_vhost (register_https run_id msg tx);
    mret (PHttps (route_key_of run_id (np_proxy_name msg)), a)
  else if bool_decide (ty = "udp"%string) || bool_decide (ty = "sudp"%string) then
    p ← on_rc (udp_proxy_new binds msg tx);
    mret (PUdp p, port_addr (ud_remote_port p))
  else if bool_decide (ty = "xtcp"%string) then register_xtcp binds run_id msg tx
  else st_fail (Error.Proxy ("Unsupported proxy type: " +:+ ty)).

Definition register_proxy (binds : Binds) (run_id : string) (msg : NewProxyMsg) (tx : Sender) : PM string :=
  let proxy_key := proxy_key_of run_id (np_proxy_name msg) in
  m ← pm_get;
  _ ← st_guard (bool_decide (is_Some (pm_proxies m !! proxy_key)))
        (Error.Proxy ("Proxy " +:+ np_proxy_name msg +:+ " already exists"));
  '(proxy, remote_addr) ← create_proxy binds run_id msg tx;
  _ ← pm_modify (fun m => pm_set_proxies (<[proxy_key := proxy]> (pm_proxies m))
         (<[proxy_key := mkProxyRecord run_id (np_proxy_name msg) (np_proxy_type msg) remote_addr]>
            (pm_records m)) m);
  mret remote_addr.

(** ** Closing *)

(** [TcpProxy::close] and [UdpProxy::close], as far as shared state goes. *)
Definition close_port (port : Z) : PM unit := on_rc (release_port port).

(** [GroupedTcpProxy::remove_backend] and [GroupedMemberProxy::close]. *)
Definition close_member (addr : Z) (backend_id : string) : PM unit :=
  m ← pm_get;
  match pm_group_heap m !! addr with
  | None => mret tt                               (* an [Arc] is never dangling *)
  | Some g =>
      let '(g', empty) := retain_backends backend_id g in
      _ ← update_group addr (fun _ => g');
      if empty then
        _ ← on_rc (release_port (g_remote_port g));
        pm_modify (fun m => pm_set_groups (delete (g_group_id g) (pm_tcp_groups m)) (pm_group_heap m)
                              (pm_next_group m) m)
      else mret tt
  end.

Definition close_proxy (p : Proxy) : PM unit :=
  match p with
  | PTcp t => close_port (tp_remote_port t)
  | PUdp u => close_port (ud_remote_port u)
  | PGroupMember _ addr id => close_member addr id
  | PStcp name => pm_modify (fun m => pm_set_stcp (delete name (pm_stcp_registry m)) m)
  | PHttp key => pm_modify (fun m => pm_set_vhost (http_proxy_close key (pm_vhost m)) m)
  | PHttps key => pm_modify (fun m => pm_set_vhost (https_proxy_close key (pm_vhost m)) m)
  | PXtcp name relay =>
      _ ← (match relay with Some t => close_port (tp_remote_port t) | None => mret tt end : PM unit);
      pm_modify (fun m => pm_set_xtcp (delete name (pm_xtcp_registry m)) m)
  end.

(** [if let Some((_, proxy)) = self.proxies.remove(&key) { records.remove; proxy.close()?; }]. *)
Definition remove_proxy (key : string) : PM unit :=
  m ← pm_get;
  match pm_proxies m !! key with
  | None => mret tt
  | Some p =>
      _ ← pm_modify (fun m => pm_set_proxies (delete key (pm_proxies m)) (delete key (pm_records m)) m);
      close_proxy p
  end.

Definition unregister_proxy (run_id proxy_name : string) : PM unit :=
  remove_proxy (proxy_key_of run_id proxy_name).

Context `{DashIter}.

(** Run code whose error is only logged. *)
Definition log_err {S E} (m : st S E unit) : st S E unit := fun s => ((m s).1, Ok tt).

Definition evict_proxy_by_name (proxy_name : string) : PM (option string) :=
  m ← pm_get;
  match List.find (fun e => ends_with e.1 (":" +:+ proxy_name)) (dash_iter (pm_proxies m)) with
  | None => mret None
  | Some (key, _) =>
      let owner_run_id := match split_once ":"%byte key with Some (r, _) => r | None => key end in
      _ ← log_err (remove_proxy key);
      _ ← pm_modify (fun m => pm_set_xtcp (delete proxy_name (pm_xtcp_registry m)) m);
      mret (Some owner_run_id)
  end.

Fixpoint remove_proxies (keys : list string) : PM unit :=
  match keys with
  | [] => mret tt
  | key :: rest => _ ← remove_proxy key; remove_proxies rest
  end.

Definition unregister_run_proxies (run_id : string) : PM unit :=
  m ← pm_get;
  remove_proxies (List.filter (fun k => starts_with k (run_id +:+ ":")) (dash_iter (pm_proxies m)).*1).

(** ** Queries *)

Definition pm_count (m : ProxyManager) : nat := size (pm_proxies m).
Definition list_proxy_keys (m : ProxyManager) : list string := (dash_iter (pm_proxies m)).*1.

Definition record_le (a b : ProxyRecord) : Prop :=
  if decide (prc_proxy_name a = prc_proxy_name b) then str_le (prc_run_id a) (prc_run_id b)
  else str_le (prc_proxy_name a) (prc_proxy_name b).
#[global] Instance record_le_dec a b : Decision (record_le a b).
Proof. unfold record_le. destruct (decide _); apply _. Defined.

Definition list_records (m : ProxyManager) : list ProxyRecord :=
  merge_sort record_le (dash_iter (pm_records m)).*2.

Definition get_record (m : ProxyManager) (proxy_name : string) : option ProxyRecord :=
  List.find (fun r => bool_decide (prc_proxy_name r = proxy_name)) (dash_iter (pm_records m)).*2.

Definition count_by_type (m : ProxyManager) : list (string * Z) :=
  merge_sort (fun a b => str_le a.1 b.1)
    (map_to_list (foldl (fun (c : gmap string Z) r =>
       <[prc_proxy_type r := default 0 (c !! prc_proxy_type r) + 1]> c) ∅ (dash_iter (pm_records m)).*2)).

Definition get_xtcp_owner (m : ProxyManager) (name : string) : option XtcpProxyInfo :=
  pm_xtcp_registry m !! name.
Definition get_stcp_info (m : ProxyManager) (name : string) : option StcpProxyInfo :=
  pm_stcp_registry m !! name.


(** ** Who owns which port *)

Definition port_of (p : Proxy) : option Z :=
  match p with
  | PTcp t => Some (tp_remote_port t)
  | PUdp u => Some (ud_remote_port u)
  | PXtcp _ (Some t) => Some (tp_remote_port t)
  | _ => None
  end.

Inductive owner := OProxy (key : string) | OGroup (group_id : string).

Definition owns (m : ProxyManager) (o : owner) (p : Z) : Prop :=
  match o with
  | OProxy key => ∃ h, pm_proxies m !! key = Some h ∧ port_of h = Some p
  | OGroup gid => ∃ addr g, pm_tcp_groups m !! gid = Some addr ∧ pm_group_heap m !! addr = Some g ∧
                   g_remote_port g = p
  end.

(** The ports held in the allocator are exactly the owned ones, and no port has
    two owners. *)
Definition ports_owned (held : gset Z) (own : owner → Z → Prop) : Prop :=
  (∀ p, p ∈ held ↔ ∃ o, own o p) ∧ (∀ p o1 o2, own o1 p → own o2 p → o1 = o2).

Lemma ports_owned_same held own own' :
  ports_owned held own → (∀ o p, own' o p ↔ own o p) → ports_owned held own'.
Proof. intros [H1' H2'] He. split; [setoid_rewrite He; done|]. intros p o1 o2. rewrite !He. apply H2'. Qed.

Lemma ports_owned_add held own own' o0 p :
  ports_owned held own → p ∉ held → (∀ o q, own' o q ↔ own o q ∨ o = o0 ∧ q = p) →
  ports_owned (held ∪ {[p]}) own'.
Proof.
  intros [Hh Hu] Hp He. split.
  - intros q. rewrite elem_of_union, elem_of_singleton, Hh. setoid_rewrite He. naive_solver.
  - assert (∀ o, ¬ own o p) as Hno by (intros o Ho; apply Hp, Hh; eauto).
    intros q o1 o2. rewrite !He. naive_solver.
Qed.

Lemma ports_owned_remove held own own' o0 p :
  ports_owned held own → own o0 p → (∀ q, own o0 q → q = p) →
  (∀ o q, own' o q ↔ own o q ∧ o ≠ o0) → ports_owned (held ∖ {[p]}) own'.
Proof.
  intros [Hh Hu] Hown Hone He. split.
  - intros q. rewrite elem_of_difference, elem_of_singleton, Hh. setoid_rewrite He. split.
    + intros [[o Ho] Hq]. exists o. split; [done|]. intros ->. by apply Hq, Hone.
    + intros (o & Ho & Hne). split; [by exists o|]. intros ->. by apply Hne, (Hu p).
  - intros q o1 o2. rewrite !He. naive_solver.
Qed.

(** ** The invariant *)

Record group_ok (ps : gmap string Proxy) (gid : string) (addr : Z) (g : GroupedTcpProxy) : Prop := {
  go_id : g_group_id g = gid;
  go_nodup : NoDup (ids (g_backends g));
  go_members : ∀ id, id ∈ ids (g_backends g) → ∃ name, ps !! id = Some (PGroupMember name addr id);
}.

(** [exc] is a group that was just created and has no backend yet. *)
Record pm_inv_but (exc : option string) (s : ProxyManager * R) : Prop := {
  pi_records : dom (pm_proxies s.1) = dom (pm_records s.1);
  pi_ports : ports_owned (held_ports s.2) (owns s.1);
  pi_groups : ∀ gid addr, pm_tcp_groups s.1 !! gid = Some addr →
    ∃ g, pm_group_heap s.1 !! addr = Some g ∧ group_ok (pm_proxies s.1) gid addr g ∧
      (g_backends g ≠ [] ∨ exc = Some gid);
  pi_members : ∀ key name addr id, pm_proxies s.1 !! key = Some (PGroupMember name addr id) →
    id = key ∧ ∃ g, pm_group_heap s.1 !! addr = Some g ∧
      pm_tcp_groups s.1 !! g_group_id g = Some addr ∧ key ∈ ids (g_backends g);
  pi_fresh : ∀ gid addr, pm_tcp_groups s.1 !! gid = Some addr → addr < pm_next_group s.1;
}.

Definition pm_inv : ProxyManager * R → Prop := pm_inv_but None.

Context `{!PortAllocatorSpec R}.

Lemma take_port_spec p : allocates held_ports (take_port p).
Proof. unfold take_port. destruct (0 <? p); [apply alloc_port_spec|apply alloc_random_port_spec]. Qed.

(** The constructors of the proxies with a port: success takes exactly the
    port, failure none. *)
Definition takes_port {A} (port : A → Z) (m : st R Error.t A) : Prop :=
  ∀ r, match m r with
       | (r', Ok a) => (port a ∉ held_ports r) ∧ held_ports r' = held_ports r ∪ {[ port a ]}
       | (r', Err _) => held_ports r' = held_ports r
       end.

Lemma takes_port_new {A} (port : A → Z) m bind (mk : Z → A) :
  allocates held_ports m → (∀ p, port (mk p) = p) →
  takes_port port (p ← m; _ ← bind_or_release bind p; mret (mk p)).
Proof.
  intros Hm Hmk r. specialize (Hm r). unfold bind_or_release. cbv [mbind st_bind].
  destruct (m r) as [r1 [p|e]]; [|done]. destruct Hm as [Hp Hr1].
  destruct (bind p) as [e|]; simpl.
  - pose proof (release_port_spec p r1) as [Hok Hr2]. destruct (release_port p r1) as [r2 x]. simpl in *.
    subst x. simpl. rewrite Hr2, Hr1. set_solver.
  - by rewrite Hmk.
Qed.

Lemma tcp_proxy_new_spec binds msg tx : takes_port tp_remote_port (tcp_proxy_new binds msg tx).
Proof. apply takes_port_new; [apply take_port_spec|done]. Qed.
Lemma udp_proxy_new_spec binds msg tx : takes_port ud_remote_port (udp_proxy_new binds msg tx).
Proof. apply takes_port_new; [apply take_port_spec|done]. Qed.
Lemma grouped_new_spec binds gid p : takes_port g_remote_port (grouped_new binds gid p).
Proof. apply takes_port_new; [apply alloc_port_spec|done]. Qed.

Definition is_member (p : Proxy) : bool := match p with PGroupMember _ _ _ => true | _ => false end.

(** The groups, and where they live, are the same. *)
Definition same_groups (m m' : ProxyManager) : Prop :=
  pm_tcp_groups m' = pm_tcp_groups m ∧ pm_group_heap m' = pm_group_heap m ∧
  pm_next_group m' = pm_next_group m.

(** A proxy that is not in a group comes. *)
Lemma attach_inv s key h m' r' rec :
  pm_inv s → pm_proxies s.1 !! key = None → is_member h = false →
  pm_proxies m' = <[key := h]> (pm_proxies s.1) → pm_records m' = <[key := rec]> (pm_records s.1) →
  same_groups s.1 m' →
  match port_of h with
  | Some p => (p ∉ held_ports s.2) ∧ held_ports r' = held_ports s.2 ∪ {[p]}
  | None => held_ports r' = held_ports s.2
  end → pm_inv (m', r').
Proof.
  intros [Hrec Hports Hgroups Hmem Hfresh] Hkey Hh Hp' Hr' (Eg & Eh & En) Hheld.
  assert (∀ o p, owns m' o p ↔ owns s.1 o p ∨ o = OProxy key ∧ port_of h = Some p) as Hown.
  { intros [k|gid] p; simpl; [|rewrite Eg, Eh; naive_solver]. rewrite Hp'.
    destruct (decide (k = key)) as [->|Hne].
    - rewrite lookup_insert_eq, Hkey. naive_solver.
    - rewrite lookup_insert_ne by done. naive_solver. }
  split; simpl.
  - rewrite Hp', Hr', !dom_insert_L. by rewrite Hrec.
  - destruct (port_of h) as [p|].
    + destruct Hheld as [Hp ->]. apply (ports_owned_add _ _ _ (OProxy key) p Hports Hp).
      intros o q. rewrite Hown. naive_solver.
    + rewrite Hheld. apply (ports_owned_same _ _ _ Hports). intros o q. rewrite Hown. naive_solver.
  - rewrite Eg, Eh. intros gid addr Hg. destruct (Hgroups gid addr Hg) as (g & Hl & [Hid Hnd Hms] & Hne).
    exists g. split; [done|]. split; [|done]. split; [done|done|]. intros id Hin.
    destruct (Hms id Hin) as [n Hn]. exists n. rewrite Hp', lookup_insert_ne; [done|]. congruence.
  - rewrite Eg, Eh, Hp'. intros k n a i Hk. destruct (decide (k = key)) as [->|Hne].
    + rewrite lookup_insert_eq in Hk. injection Hk as ->. done.
    + rewrite lookup_insert_ne in Hk by done. by eapply Hmem.
  - rewrite Eg, En. apply Hfresh.
Qed.

(** A proxy that is not in a group goes. *)
Lemma detach_inv s key h m' r' :
  pm_inv s → pm_proxies s.1 !! key = Some h → is_member h = false →
  pm_proxies m' = delete key (pm_proxies s.1) → pm_records m' = delete key (pm_records s.1) →
  same_groups s.1 m' →
  held_ports r' = match port_of h with Some p => held_ports s.2 ∖ {[p]} | None => held_ports s.2 end →
  pm_inv (m', r').
Proof.
  intros [Hrec Hports Hgroups Hmem Hfresh] Hkey Hh Hp' Hr' (Eg & Eh & En) Hheld.
  assert (∀ o p, owns m' o p ↔ owns s.1 o p ∧ o ≠ OProxy key) as Hown.
  { intros [k|gid] p; simpl; [|rewrite Eg, Eh; naive_solver]. rewrite Hp'.
    destruct (decide (k = key)) as [->|Hne].
    - rewrite lookup_delete_eq. naive_solver.
    - rewrite lookup_delete_ne by done. naive_solver. }
  split; simpl.
  - rewrite Hp', Hr', !dom_delete_L. by rewrite Hrec.
  - rewrite Hheld. destruct (port_of h) as [p|] eqn:Eport.
    + apply (ports_owned_remove _ _ _ (OProxy key) p Hports); [by exists h| |done].
      intros q (h' & Hl & Hq). congruence.
    + apply (ports_owned_same _ _ _ Hports). intros o q. rewrite Hown. split; [tauto|].
      intros Ho. split; [done|]. intros ->. destruct Ho as (h' & Hl & Hq). congruence.
  - rewrite Eg, Eh. intros gid addr Hg. destruct (Hgroups gid addr Hg) as (g & Hl & [Hid Hnd Hms] & Hne).
    exists g. split; [done|]. split; [|done]. split; [done|done|]. intros id Hin.
    destruct (Hms id Hin) as [n Hn]. exists n. rewrite Hp', lookup_delete_ne; [done|].
    intros ->. rewrite Hkey in Hn. injection Hn as ->. done.
  - rewrite Eg, Eh, Hp'. intros k n a i Hk. apply lookup_delete_Some in Hk as [_ Hk]. by eapply Hmem.
  - rewrite Eg, En. apply Hfresh.
Qed.

(** Addresses of groups determine the groups. *)
Lemma group_addr_inj exc s gid1 gid2 addr :
  pm_inv_but exc s → pm_tcp_groups s.1 !! gid1 = Some addr → pm_tcp_groups s.1 !! gid2 = Some addr →
  gid1 = gid2.
Proof.
  intros Hinv H1' H2'. destruct (pi_groups _ _ Hinv _ _ H1') as (g1 & Hg1 & [<- _ _] & _).
  destruct (pi_groups _ _ Hinv _ _ H2') as (g2 & Hg2 & [<- _ _] & _). congruence.
Qed.

(** A backend joins a group. *)
Lemma join_inv s key name gid addr g g' m' rec :
  pm_inv_but (Some gid) s → pm_proxies s.1 !! key = None →
  pm_tcp_groups s.1 !! gid = Some addr → pm_group_heap s.1 !! addr = Some g →
  g_group_id g' = g_group_id g → g_remote_port g' = g_remote_port g → NoDup (ids (g_backends g')) →
  (∀ id, id ∈ ids (g_backends g') ↔ id = key ∨ id ∈ ids (g_backends g)) →
  pm_proxies m' = <[key := PGroupMember name addr key]> (pm_proxies s.1) →
  pm_records m' = <[key := rec]> (pm_records s.1) → pm_tcp_groups m' = pm_tcp_groups s.1 →
  pm_group_heap m' = <[addr := g']> (pm_group_heap s.1) → pm_next_group m' = pm_next_group s.1 →
  pm_inv (m', s.2).
Proof.
  intros Hinv Hkey Hgid Hg Hid Hport Hnd Hids Ep Er Eg Eh En.
  pose proof Hinv as [Hrec Hports Hgroups Hmem Hfresh].
  assert (g_group_id g = gid) as Hgg.
  { destruct (Hgroups _ _ Hgid) as (g0 & Hl & [<- _ _] & _). congruence. }
  split; cbn [fst snd].
  - by rewrite Ep, Er, !dom_insert_L, Hrec.
  - apply (ports_owned_same _ _ _ Hports). intros [k|gid'] p; simpl.
    + rewrite Ep. destruct (decide (k = key)) as [->|Hne].
      * rewrite lookup_insert_eq, Hkey. split; [by intros (? & [= <-] & ?)|by intros (? & ? & _)].
      * by rewrite lookup_insert_ne.
    + rewrite Eg, Eh. apply exist_proper; intros a. destruct (decide (a = addr)) as [->|Hne].
      * rewrite lookup_insert_eq, Hg. split; intros (? & ? & [= <-] & <-); eauto.
      * by rewrite lookup_insert_ne.
  - rewrite Eg, Eh. intros gid' a Ha. destruct (decide (a = addr)) as [->|Hne].
    + pose proof (group_addr_inj _ _ _ _ _ Hinv Ha Hgid) as ->. exists g'. rewrite lookup_insert_eq.
      split; [done|]. split.
      * split; [congruence|done|]. intros id [->|Hin]%Hids; rewrite Ep.
        -- exists name. by rewrite lookup_insert_eq.
        -- destruct (Hgroups _ _ Hgid) as (g0 & Hl & [_ _ Hms] & _). assert (g0 = g) as -> by congruence.
           destruct (Hms id Hin) as [n Hn]. exists n. rewrite lookup_insert_ne; [done|]. congruence.
      * left. intros E. assert (key ∈ ids (g_backends g')) as Hin by (by apply Hids; left).
        rewrite E in Hin. by apply not_elem_of_nil in Hin.
    + destruct (Hgroups _ _ Ha) as (g0 & Hl & [Hi Hn Hms] & Hb). exists g0. rewrite lookup_insert_ne by done.
      split; [done|]. split.
      * split; [done|done|]. intros id Hin. destruct (Hms id Hin) as [n Hn']. exists n.
        rewrite Ep, lookup_insert_ne; [done|]. congruence.
      * left. destruct Hb as [|[= <-]]; [done|]. congruence.
  - rewrite Ep, Eg, Eh. intros k n a i Hk. destruct (decide (k = key)) as [->|Hne].
    + rewrite lookup_insert_eq in Hk. injection Hk as <- <- <-. split; [done|]. exists g'.
      rewrite lookup_insert_eq, Hid, Hgg. split; [done|]. split; [done|]. apply Hids. by left.
    + rewrite lookup_insert_ne in Hk by done. destruct (Hmem _ _ _ _ Hk) as (-> & g0 & Hl & Ht & Hin).
      split; [done|]. destruct (decide (a = addr)) as [->|Hna].
      * exists g'. rewrite lookup_insert_eq, Hid. assert (g0 = g) as -> by congruence.
        split; [done|]. split; [done|]. apply Hids. by right.
      * exists g0. by rewrite lookup_insert_ne.
  - rewrite Eg, En. apply Hfresh.
Qed.

(** A member of a group that keeps other members goes. *)
Lemma leave_inv s key name addr g g' m' :
  pm_inv s → pm_proxies s.1 !! key = Some (PGroupMember name addr key) →
  pm_group_heap s.1 !! addr = Some g → g_group_id g' = g_group_id g → g_remote_port g' = g_remote_port g →
  NoDup (ids (g_backends g')) → (∀ id, id ∈ ids (g_backends g') ↔ id ≠ key ∧ id ∈ ids (g_backends g)) →
  g_backends g' ≠ [] →
  pm_proxies m' = delete key (pm_proxies s.1) → pm_records m' = delete key (pm_records s.1) →
  pm_tcp_groups m' = pm_tcp_groups s.1 → pm_group_heap m' = <[addr := g']> (pm_group_heap s.1) →
  pm_next_group m' = pm_next_group s.1 → pm_inv (m', s.2).
Proof.
  intros Hinv Hkey Hg Hid Hport Hnd Hids Hne Ep Er Eg Eh En.
  pose proof Hinv as [Hrec Hports Hgroups Hmem Hfresh].
  destruct (Hmem _ _ _ _ Hkey) as (_ & g0 & Hg0 & Ht & _). assert (g0 = g) as -> by congruence. clear Hg0.
  assert (∀ k h, k ≠ key → pm_proxies m' !! k = Some h ↔ pm_proxies s.1 !! k = Some h) as Hk.
  { intros k h Hne'. by rewrite Ep, lookup_delete_ne. }
  split; cbn [fst snd].
  - by rewrite Ep, Er, !dom_delete_L, Hrec.
  - apply (ports_owned_same _ _ _ Hports). intros [k|gid'] p; simpl.
    + rewrite Ep. destruct (decide (k = key)) as [->|Hne'].
      * rewrite lookup_delete_eq, Hkey. split; [by intros (? & ? & _)|by intros (? & [= <-] & ?)].
      * by rewrite lookup_delete_ne.
    + rewrite Eg, Eh. apply exist_proper; intros a. destruct (decide (a = addr)) as [->|Hna].
      * rewrite lookup_insert_eq, Hg. split; intros (? & ? & [= <-] & <-); eauto.
      * by rewrite lookup_insert_ne.
  - rewrite Eg, Eh. intros gid' a Ha. destruct (Hgroups _ _ Ha) as (g0 & Hl & [Hi Hn Hms] & Hb).
    destruct (decide (a = addr)) as [->|Hna].
    + assert (g0 = g) as -> by congruence. exists g'. rewrite lookup_insert_eq. split; [done|].
      split; [|by left]. split; [congruence|done|]. intros id [Hnk Hin]%Hids.
      destruct (Hms id Hin) as [n Hn']. exists n. by apply Hk.
    + exists g0. rewrite lookup_insert_ne by done. split; [done|]. split; [|done]. split; [done|done|].
      intros id Hin. destruct (Hms id Hin) as [n Hn']. exists n. apply Hk; [|done]. congruence.
  - rewrite Ep, Eg, Eh. intros k n a i Hk'. apply lookup_delete_Some in Hk' as [Hnk Hk'].
    destruct (Hmem _ _ _ _ Hk') as (-> & g0 & Hl & Ht' & Hin). split; [done|].
    destruct (decide (a = addr)) as [->|Hna].
    + exists g'. rewrite lookup_insert_eq, Hid. assert (g0 = g) as -> by congruence.
      split; [done|]. split; [done|]. apply Hids. done.
    + exists g0. by rewrite lookup_insert_ne.
  - rewrite Eg, En. apply Hfresh.
Qed.

(** The last member of a group goes, and the group with it. *)
Lemma dissolve_inv s key name addr g g' m' r' :
  pm_inv s → pm_proxies s.1 !! key = Some (PGroupMember name addr key) →
  pm_group_heap s.1 !! addr = Some g → (∀ id, id ∈ ids (g_backends g) → id = key) →
  pm_proxies m' = delete key (pm_proxies s.1) → pm_records m' = delete key (pm_records s.1) →
  pm_tcp_groups m' = delete (g_group_id g) (pm_tcp_groups s.1) →
  pm_group_heap m' = <[addr := g']> (pm_group_heap s.1) →
  pm_next_group m' = pm_next_group s.1 → held_ports r' = held_ports s.2 ∖ {[g_remote_port g]} →
  pm_inv (m', r').
Proof.
  intros Hinv Hkey Hg Hids Ep Er Eg Eh En Hheld.
  pose proof Hinv as [Hrec Hports Hgroups Hmem Hfresh].
  destruct (Hmem _ _ _ _ Hkey) as (_ & g0 & Hg0 & Ht & _). assert (g0 = g) as -> by congruence. clear Hg0.
  assert (∀ gid a, pm_tcp_groups m' !! gid = Some a ↔
            gid ≠ g_group_id g ∧ pm_tcp_groups s.1 !! gid = Some a ∧ a ≠ addr) as Hgr.
  { intros gid a. rewrite Eg, lookup_delete_Some. split; [|naive_solver]. intros [Hne Ha].
    split; [naive_solver|]. split; [done|]. intros ->. apply Hne. by eapply (group_addr_inj None). }
  split; cbn [fst snd].
  - by rewrite Ep, Er, !dom_delete_L, Hrec.
  - rewrite Hheld. apply (ports_owned_remove _ _ _ (OGroup (g_group_id g)) (g_remote_port g) Hports).
    + by exists addr, g.
    + intros q (a & g0 & Ha & Hl & <-). congruence.
    + intros [k|gid'] p; simpl.
      * rewrite Ep. destruct (decide (k = key)) as [->|Hne'].
        -- rewrite lookup_delete_eq, Hkey. naive_solver.
        -- rewrite lookup_delete_ne by done. naive_solver.
      * rewrite Eh. setoid_rewrite Hgr. split.
        -- intros (a & g0 & (Hne & Ha & Hna) & Hl & <-). rewrite lookup_insert_ne in Hl by done.
           split; [by exists a, g0|]. congruence.
        -- intros [(a & g0 & Ha & Hl & <-) Hne]. exists a, g0.
           assert (gid' ≠ g_group_id g) by congruence.
           assert (a ≠ addr) by (intros ->; eauto using group_addr_inj). by rewrite lookup_insert_ne.
  - rewrite Eh. intros gid a (Hne & Ha & Hna)%Hgr. destruct (Hgroups _ _ Ha) as (g0 & Hl & [Hi Hn Hms] & Hb).
    exists g0. rewrite lookup_insert_ne by done. split; [done|]. split; [|done]. split; [done|done|].
    intros id Hin. destruct (Hms id Hin) as [n Hn']. exists n. rewrite Ep, lookup_delete_ne; [done|]. congruence.
  - rewrite Ep, Eh. intros k n a i Hk. apply lookup_delete_Some in Hk as [Hnk Hk].
    destruct (Hmem _ _ _ _ Hk) as (-> & g0 & Hl & Ht' & Hin). split; [done|].
    assert (a ≠ addr) as Hna.
    { intros ->. assert (g0 = g) as -> by congruence. apply Hnk. symmetry. by apply Hids. }
    exists g0. rewrite lookup_insert_ne by done. split; [done|]. split; [|done].
    apply Hgr. split; [|done]. intros E. rewrite E in Ht'. congruence.
  - intros gid a (_ & Ha & _)%Hgr. rewrite En. by eapply Hfresh.
Qed.

(** ** Removing proxies *)

Lemma alter_is_insert (heap : gmap Z GroupedTcpProxy) addr f g :
  heap !! addr = Some g → alter f addr heap = <[addr := f g]> heap.
Proof.
  intros Hg. apply map_eq. intros a. destruct (decide (a = addr)) as [->|].
  - by rewrite lookup_alter_eq, lookup_insert_eq, Hg.
  - by rewrite lookup_alter_ne, lookup_insert_ne.
Qed.

#[local] Arguments retain_backends : simpl never.

(** What removing the proxy of a key does to the rest. *)
Lemma remove_proxy_spec key s :
  pm_inv s →
  let s' := (remove_proxy key s).1 in
  (remove_proxy key s).2 = Ok tt ∧ pm_inv s' ∧
  pm_proxies s'.1 = delete key (pm_proxies s.1) ∧ pm_records s'.1 = delete key (pm_records s.1).
Proof.
  intros Hinv. destruct s as [m r]. unfold remove_proxy. cbv [mbind st_bind pm_get]. cbv zeta. cbn [fst snd].
  destruct (pm_proxies m !! key) as [h|] eqn:Hh; simpl.
  2:{ split; [done|]. split; [done|]. rewrite !delete_id; [done| |done].
      apply not_elem_of_dom. change (key ∉ dom (pm_records (m, r).1)).
      rewrite <- (pi_records _ _ Hinv). by apply not_elem_of_dom. }
  assert (∀ p r0, ∃ r1, release_port p r0 = (r1, Ok tt) ∧ held_ports r1 = held_ports r0 ∖ {[p]}) as Hrel.
  { intros p r0. destruct (release_port_spec p r0) as [E1 E2]. destruct (release_port p r0); simpl in *.
    subst. eauto. }
  destruct h as [t|n addr id|n|k|k|u|n [t|]]; simpl.
  - unfold close_port, on_rc, zoom. simpl. destruct (Hrel (tp_remote_port t) r) as (r1 & -> & E). simpl.
    split; [done|]. split; [|done]. by apply (detach_inv (m, r) key (PTcp t)).
  - pose proof (pi_members _ _ Hinv _ _ _ _ Hh) as (-> & g & Hg & Ht & Hin). simpl in Hg, Ht, Hin.
    unfold close_member. cbv [mbind st_bind pm_get]. cbn [fst snd pm_group_heap pm_set_proxies]. rewrite Hg.
    pose proof (retain_backends_ids key g) as Hids. pose proof (retain_backends_empty key g) as Hempty.
    assert (NoDup (ids (g_backends (retain_backends key g).1))) as Hnd.
    { destruct (pi_groups _ _ Hinv _ _ Ht) as (g0 & Hl & [_ Hn _] & _). simpl in Hl.
      assert (g0 = g) as -> by congruence. by apply retain_backends_NoDup. }
    assert (g_group_id (retain_backends key g).1 = g_group_id g) as Hgid by done.
    assert (g_remote_port (retain_backends key g).1 = g_remote_port g) as Hport by done.
    destruct (retain_backends key g) as [g' empty]. simpl in *.
    pose proof (alter_is_insert _ _ (fun _ => g') _ Hg) as Halt.
    destruct empty.
    + unfold on_rc, zoom. simpl. destruct (Hrel (g_remote_port g) r) as (r1 & -> & E). simpl.
      split; [done|]. split; [|done]. eapply (dissolve_inv (m, r) key n addr g g'); try done.
      intros id Hid. apply dec_stable. intros Hne. assert (id ∈ ids (g_backends g')) as Hin' by (by apply Hids).
      rewrite (proj1 Hempty eq_refl) in Hin'. by apply not_elem_of_nil in Hin'.
    + split; [done|]. split; [|done]. eapply (leave_inv (m, r) key n addr g g'); try done.
      intros E. by apply Hempty in E.
  - split; [done|]. split; [|done]. by apply (detach_inv (m, r) key (PStcp n)).
  - split; [done|]. split; [|done]. by apply (detach_inv (m, r) key (PHttp k)).
  - split; [done|]. split; [|done]. by apply (detach_inv (m, r) key (PHttps k)).
  - unfold close_port, on_rc, zoom. simpl. destruct (Hrel (ud_remote_port u) r) as (r1 & -> & E). simpl.
    split; [done|]. split; [|done]. by apply (detach_inv (m, r) key (PUdp u)).
  - unfold close_port, on_rc, zoom. simpl. cbv [mbind st_bind]. simpl.
    destruct (Hrel (tp_remote_port t) r) as (r1 & -> & E). simpl.
    split; [done|]. split; [|done]. by apply (detach_inv (m, r) key (PXtcp n (Some t))).
  - split; [done|]. split; [|done]. by apply (detach_inv (m, r) key (PXtcp n None)).
Qed.

Lemma remove_proxies_spec keys s :
  pm_inv s →
  let s' := (remove_proxies keys s).1 in
  (remove_proxies keys s).2 = Ok tt ∧ pm_inv s' ∧
  ∀ k, pm_proxies s'.1 !! k = if decide (k ∈ keys) then None else pm_proxies s.1 !! k.
Proof.
  revert s. induction keys as [|key keys IH]; intros s Hinv; cbn [remove_proxies].
  - split; [done|]. split; [done|]. intros k. by rewrite decide_False by apply not_elem_of_nil.
  - cbv [mbind st_bind]. destruct (remove_proxy_spec key s Hinv) as (Hok & Hinv1 & Hp & _).
    destruct (remove_proxy key s) as [s1 x]. simpl in *. subst x.
    destruct (IH s1 Hinv1) as (Hok2 & Hinv2 & Hk). split; [done|]. split; [done|].
    intros k. rewrite Hk, Hp. destruct (decide (k = key)) as [->|Hne].
    + rewrite lookup_delete_eq, (decide_True (P := key ∈ key :: keys)) by (apply elem_of_cons; by left).
      by destruct (decide (key ∈ keys)).
    + rewrite lookup_delete_ne by done.
      destruct (decide (k ∈ keys)) as [Hin|Hin]; [rewrite decide_True|rewrite decide_False]; try done;
        rewrite elem_of_cons; naive_solver.
Qed.

(** ** Registering proxies *)

Lemma pm_inv_weaken exc s : pm_inv s → pm_inv_but exc s.
Proof.
  intros [Hrec Hports Hgroups Hmem Hfresh]. split; try done. intros gid addr Hg.
  destruct (Hgroups gid addr Hg) as (g & Hl & Hok & [Hb|Hb]); [|done]. eauto 10.
Qed.

(** A new group, still without backends. *)
Lemma new_group_inv s gid g r' :
  pm_inv s → pm_tcp_groups s.1 !! gid = None → g_group_id g = gid → g_backends g = [] →
  g_remote_port g ∉ held_ports s.2 → held_ports r' = held_ports s.2 ∪ {[g_remote_port g]} →
  pm_inv_but (Some gid)
    (pm_set_groups (<[gid := pm_next_group s.1]> (pm_tcp_groups s.1))
       (<[pm_next_group s.1 := g]> (pm_group_heap s.1)) (pm_next_group s.1 + 1) s.1, r').
Proof.
  intros [Hrec Hports Hgroups Hmem Hfresh] Hgid Hid Hb Hp Hheld.
  assert (∀ gid' a, pm_tcp_groups s.1 !! gid' = Some a → a ≠ pm_next_group s.1) as Hne.
  { intros gid' a Ha. apply Hfresh in Ha. lia. }
  split; simpl.
  - done.
  - rewrite Hheld. apply (ports_owned_add _ _ _ (OGroup gid) _ Hports Hp). intros [k|gid'] q; simpl.
    + naive_solver.
    + destruct (decide (gid' = gid)) as [->|Hng].
      * rewrite lookup_insert_eq, Hgid. split.
        -- intros (a & g0 & [= <-] & Hl & <-). rewrite lookup_insert_eq in Hl. naive_solver.
        -- intros [(? & ? & ? & _)|[_ ->]]; [done|]. exists (pm_next_group s.1), g. by rewrite lookup_insert_eq.
      * rewrite lookup_insert_ne by done. split.
        -- intros (a & g0 & Ha & Hl & <-). rewrite lookup_insert_ne in Hl by (by apply not_eq_sym, (Hne gid')).
           left. eauto.
        -- intros [(a & g0 & Ha & Hl & <-)|[[= ->] _]]; [|done]. exists a, g0.
           by rewrite lookup_insert_ne by (by apply not_eq_sym, (Hne gid')).
  - intros gid' a. destruct (decide (gid' = gid)) as [->|Hng].
    + rewrite lookup_insert_eq. intros [= <-]. exists g. rewrite lookup_insert_eq. split; [done|].
      split; [|by right]. split; [done|by rewrite Hb; constructor|].
      intros id Hin. rewrite Hb in Hin. by apply not_elem_of_nil in Hin.
    + rewrite lookup_insert_ne by done. intros Ha.
      destruct (Hgroups gid' a Ha) as (g0 & Hl & [Hi Hn Hms] & [Hb0|Hb0]); [|done]. exists g0.
      rewrite lookup_insert_ne by (by apply not_eq_sym, (Hne gid')). split; [done|]. split; [by split|by left].
  - intros k n a i Hk. destruct (Hmem _ _ _ _ Hk) as (-> & g0 & Hl & Ht & Hin). split; [done|]. exists g0.
    rewrite lookup_insert_ne by (by apply not_eq_sym, (Hne (g_group_id g0))). split; [done|]. split; [|done].
    rewrite lookup_insert_ne; [done|]. intros E. rewrite E in Hgid. congruence.
  - intros gid' a Ha. apply lookup_insert_Some in Ha as [[_ <-]|[_ Ha]]; [lia|]. apply Hfresh in Ha. lia.
Qed.

(** Creating a proxy: on failure nothing was registered and no port is held
    more than before; on success entering it under its fresh key restores the
    invariant. *)
Definition create_ok (key : string) (m : PM (Proxy * string)) : Prop :=
  ∀ s, pm_inv s → pm_proxies s.1 !! key = None →
  match m s with
  | (s', Ok (h, _)) =>
      pm_proxies s'.1 = pm_proxies s.1 ∧ pm_records s'.1 = pm_records s.1 ∧
      ∀ rec, pm_inv (pm_set_proxies (<[key := h]> (pm_proxies s'.1)) (<[key := rec]> (pm_records s'.1)) s'.1, s'.2)
  | (s', Err _) => s'.1 = s.1 ∧ held_ports s'.2 = held_ports s.2 ∧ pm_inv s'
  end.

Lemma pm_inv_held m r r' : pm_inv (m, r) → held_ports r' = held_ports r → pm_inv (m, r').
Proof.
  intros [Hrec Hports Hgroups Hmem Hfresh] E. split; try done. simpl in *. by rewrite E.
Qed.

Lemma create_with_port {A} (port : A → Z) (m : st R Error.t A) (mk : A → Proxy) (addr : A → string) key :
  takes_port port m → (∀ a, port_of (mk a) = Some (port a)) → (∀ a, is_member (mk a) = false) →
  create_ok key (a ← on_rc m; mret (mk a, addr a)).
Proof.
  intros Hm Hport Hmem s Hinv Hkey. destruct s as [pm r]. unfold on_rc, zoom. cbv [mbind st_bind].
  specialize (Hm r). simpl in *. destruct (m r) as [r' [a|e]]; simpl.
  - split; [done|]. split; [done|]. intros rec. apply (attach_inv (pm, r) key (mk a) _ _ rec); try done.
    by rewrite Hport.
  - split; [done|]. split; [done|]. by apply (pm_inv_held _ r).
Qed.

(** Joining the group at [addr], after which its listener is started. *)
Lemma join_steps s gid addr g key msg tx stcp :
  pm_inv_but (Some gid) s → pm_proxies s.1 !! key = None →
  pm_tcp_groups s.1 !! gid = Some addr → pm_group_heap s.1 !! addr = Some g →
  let b := mkBackend key (np_proxy_name msg) tx stcp (np_sk msg) in
  let m' := pm_set_groups (pm_tcp_groups s.1)
              (alter ensure_started addr (alter (add_backend b) addr (pm_group_heap s.1))) (pm_next_group s.1) s.1 in
  ∀ rec, pm_inv (pm_set_proxies (<[key := PGroupMember (np_proxy_name msg) addr key]> (pm_proxies m'))
                   (<[key := rec]> (pm_records m')) m', s.2).
Proof.
  intros Hinv Hkey Hgid Hg b m' rec.
  destruct (pi_groups _ _ Hinv _ _ Hgid) as (g0 & Hl & [_ Hn _] & _). assert (g0 = g) as -> by congruence.
  destruct (add_backend_ids b g Hn) as [Hnd Hids].
  assert (g_group_id (add_backend b g) = g_group_id g ∧ g_remote_port (add_backend b g) = g_remote_port g)
    as [Hi Hp] by (unfold add_backend; by destruct (negb _)).
  eapply (join_inv s key (np_proxy_name msg) gid addr g (ensure_started (add_backend b g))); try done.
  simpl. rewrite (alter_is_insert _ _ (add_backend b) _ Hg).
  rewrite (alter_is_insert _ _ _ (add_backend b g)) by apply lookup_insert_eq. apply insert_insert_eq.
Qed.

Lemma create_group_member binds key msg tx gr gk :
  create_ok key (register_group_member binds key msg tx gr gk).
Proof.
  intros [pm r] Hinv Hkey. unfold register_group_member, get_or_create_group, update_group, st_guard.
  destruct (np_remote_port msg =? 0); [by split_and!|]. cbv [mbind st_bind pm_get pm_modify]. cbv zeta.
  cbn [fst snd mret st_ret]. set (gid := np_proxy_type msg +:+ _).
  destruct (pm_tcp_groups pm !! gid) as [addr|] eqn:Hg; cbn [fst snd].
  - split; [done|]. split; [done|]. destruct (pi_groups _ _ Hinv _ _ Hg) as (g & Hl & _).
    by apply (join_steps (pm, r) gid addr g); [apply pm_inv_weaken|..].
  - unfold on_rc, zoom. cbn [fst snd]. pose proof (grouped_new_spec binds gid (np_remote_port msg) r) as Hnew.
    assert (∀ r' g, grouped_new binds gid (np_remote_port msg) r = (r', Ok g) →
              g_group_id g = gid ∧ g_backends g = []) as Hshape.
    { intros r' g. unfold grouped_new, bind_or_release. cbv [mbind st_bind]. 
      destruct (alloc_port _ r) as [r1 [p|]]; [|done]. destruct (bind_tcp binds p); simpl; [|by intros [= _ <-]].
      by destruct (release_port p r1) as [? []]. }
    destruct (grouped_new binds gid (np_remote_port msg) r) as [r' [g|e]]; cbn [fst snd].
    + destruct Hnew as [Hp Hheld]. destruct (Hshape r' g eq_refl) as [Hgid Hb].
      split; [done|]. split; [done|].
      pose proof (new_group_inv (pm, r) gid g r' Hinv Hg Hgid Hb Hp Hheld) as Hinv'. cbn [fst snd] in Hinv'.
      apply (join_steps (_, r') gid (pm_next_group pm) g _ _ _ _ Hinv' Hkey); apply lookup_insert_eq.
    + split; [done|]. split; [done|]. by apply (pm_inv_held _ r).
Qed.

Lemma create_unported {A} (v : A) key h (f : ProxyManager → ProxyManager) :
  (∀ m, pm_proxies (f m) = pm_proxies m ∧ pm_records (f m) = pm_records m ∧ same_groups m (f m)) →
  port_of h = None → is_member h = false →
  ∀ s, pm_inv s → pm_proxies s.1 !! key = None → ∀ rec,
    pm_inv (pm_set_proxies (<[key := h]> (pm_proxies (f s.1))) (<[key := rec]> (pm_records (f s.1))) (f s.1), s.2).
Proof.
  intros Hf Hport Hmem s Hinv Hkey rec. destruct (Hf s.1) as (Hp & Hr & Hg).
  apply (attach_inv s key h _ _ rec); try done; simpl; [by rewrite Hp|by rewrite Hr|by rewrite Hport].
Qed.

Lemma create_stcp key run_id msg tx : create_ok key (register_stcp run_id msg tx).
Proof.
  intros [pm r] Hinv Hkey. unfold register_stcp, st_guard.
  destruct (is_empty _); [by split_and!|]. cbv [mbind st_bind pm_get pm_modify mret st_ret]. cbn [fst snd].
  case_bool_decide; [by split_and!|]. cbn [fst snd]. split; [done|]. split; [done|].
  by apply (create_unported tt key (PStcp _) (fun m => pm_set_stcp _ m)) with (s := (pm, r)).
Qed.

Lemma create_vhost key h (reg : st VhostManager Error.t string) :
  port_of h = None → is_member h = false → (∀ vm e vm', reg vm = (vm', Err e) → vm' = vm) →
  create_ok key (a ← on_vhost reg; mret (h, a)).
Proof.
  intros Hport Hmem Herr [pm r] Hinv Hkey. unfold on_vhost, zoom. cbv [mbind st_bind mret st_ret]. cbn [fst snd].
  destruct (reg (pm_vhost pm)) as [vm' [a|e]] eqn:E.
  - split; [done|]. split; [done|].
    by apply (create_unported tt key h (fun m => pm_set_vhost vm' m)) with (s := (pm, r)).
  - apply Herr in E as ->. cbn [fst snd]. assert (pm_set_vhost (pm_vhost pm) pm = pm) as -> by by destruct pm.
    by split_and!.
Qed.

Lemma create_xtcp binds key run_id msg tx : create_ok key (register_xtcp binds run_id msg tx).
Proof.
  intros [pm r] Hinv Hkey. unfold register_xtcp, st_guard.
  destruct (is_empty _); [by split_and!|]. cbv [mbind st_bind pm_get pm_modify mret st_ret]. cbn [fst snd].
  case_bool_decide; [by split_and!|]. cbn [fst snd].
  destruct (np_fallback_to_relay msg); cbn [fst snd].
  - unfold on_rc, zoom. cbn [fst snd]. pose proof (tcp_proxy_new_spec binds (relay_msg_of msg) tx r) as Hnew.
    destruct (tcp_proxy_new binds (relay_msg_of msg) tx r) as [r' [p|e]]; cbn [fst snd].
    + split; [done|]. split; [done|]. intros rec.
      by apply (attach_inv (pm, r) key (PXtcp (np_proxy_name msg) (Some p)) _ _ rec).
    + split; [done|]. split; [done|]. by apply (pm_inv_held _ r).
  - split; [done|]. split; [done|].
    by apply (create_unported tt key (PXtcp _ None) (fun m => pm_set_xtcp _ m)) with (s := (pm, r)).
Qed.

Lemma create_proxy_ok binds run_id msg tx :
  create_ok (proxy_key_of run_id (np_proxy_name msg)) (create_proxy binds run_id msg tx).
Proof.
  unfold create_proxy. cbv zeta. case_bool_decide.
  { destruct (parse_lb_group msg) as [gr gk]. destruct (is_empty gr); [|apply create_group_member].
    by apply (create_with_port tp_remote_port _ PTcp); [apply tcp_proxy_new_spec|..]. }
  case_bool_decide; [apply create_stcp|].
  case_bool_decide.
  { apply create_vhost; try done. intros vm e vm' E.
    destruct (register_http_cases run_id msg tx vm) as [(? & ? & E' & _)|[? E']]; congruence. }
  case_bool_decide.
  { apply create_vhost; try done. intros vm e vm' E.
    destruct (register_https_cases run_id msg tx vm) as [(? & ? & E' & _)|[? E']]; congruence. }
  destruct (_ || _).
  { by apply (create_with_port ud_remote_port _ PUdp); [apply udp_proxy_new_spec|..]. }
  case_bool_decide; [apply create_xtcp|]. intros s Hinv _. by split_and!.
Qed.

(** Registration as a whole. *)
Lemma register_proxy_cases binds run_id msg tx s :
  pm_inv s →
  let key := proxy_key_of run_id (np_proxy_name msg) in
  match register_proxy binds run_id msg tx s with
  | (s', Ok addr) =>
      pm_inv s' ∧ pm_proxies s.1 !! key = None ∧
      (∃ h, pm_proxies s'.1 = <[key := h]> (pm_proxies s.1)) ∧
      pm_records s'.1 = <[key := mkProxyRecord run_id (np_proxy_name msg) (np_proxy_type msg) addr]>
                          (pm_records s.1)
  | (s', Err _) => s'.1 = s.1 ∧ held_ports s'.2 = held_ports s.2 ∧ pm_inv s'
  end.
Proof.
  intros Hinv key. unfold register_proxy. cbv zeta. fold key. unfold st_guard. cbv [mbind st_bind pm_get].
  destruct (pm_proxies s.1 !! key) as [h|] eqn:Hkey.
  { rewrite bool_decide_eq_true_2 by eauto. by split_and!. }
  rewrite bool_decide_eq_false_2 by (by intros [? ?]). simpl.
  pose proof (create_proxy_ok binds run_id msg tx s Hinv Hkey) as Hc.
  destruct (create_proxy binds run_id msg tx s) as [s' [[h addr]|e]]; [|done].
  destruct Hc as (Hp & Hr & Hinv'). cbv [pm_modify mret st_ret]. simpl.
  split; [apply Hinv'|]. split; [done|]. rewrite Hp, Hr. eauto.
Qed.

(** A method of a group that keeps its id, port and members. *)
Lemma serve_inv s addr g g' :
  pm_inv s → pm_group_heap s.1 !! addr = Some g → g_group_id g' = g_group_id g →
  g_remote_port g' = g_remote_port g → ids (g_backends g') = ids (g_backends g) →
  pm_inv (pm_set_groups (pm_tcp_groups s.1) (<[addr := g']> (pm_group_heap s.1)) (pm_next_group s.1) s.1, s.2).
Proof.
  intros [Hrec Hports Hgroups Hmem Hfresh] Hg Hid Hp Hids. split; simpl; try done.
  - apply (ports_owned_same _ _ _ Hports). intros [k|gid] p; simpl; [done|].
    apply exist_proper; intros a. destruct (decide (a = addr)) as [->|Hne].
    + rewrite lookup_insert_eq, Hg. split; intros (? & ? & [= <-] & <-); eauto.
    + by rewrite lookup_insert_ne.
  - intros gid a Ha. destruct (Hgroups gid a Ha) as (g0 & Hl & [Hi Hn Hms] & Hb).
    destruct (decide (a = addr)) as [->|Hne].
    + assert (g0 = g) as -> by congruence. exists g'. rewrite lookup_insert_eq. split; [done|]. split.
      * split; [congruence|by rewrite Hids|by rewrite Hids].
      * left. destruct Hb as [Hb|Hb]; [|done]. intros E. apply Hb.
        unfold ids in Hids. rewrite E in Hids. symmetry in Hids. by apply fmap_nil_inv in Hids.
    + exists g0. by rewrite lookup_insert_ne.
  - intros k n a i Hk. destruct (Hmem _ _ _ _ Hk) as (-> & g0 & Hl & Ht & Hin). split; [done|].
    destruct (decide (a = addr)) as [->|Hne].
    + assert (g0 = g) as -> by congruence. exists g'. rewrite lookup_insert_eq, Hid, Hids. done.
    + exists g0. by rewrite lookup_insert_ne.
Qed.

(** ** Reachable states *)

(** The calls one after the other, each to its end.  Where they overlap, see
    ProxyTasks: what is proved of reachable states here holds of the server as
    long as no two registrations or removals are under way at once. *)
Inductive pm_step (s : ProxyManager * R) : ProxyManager * R → Prop :=
| pms_register binds run_id msg tx : pm_step s (register_proxy binds run_id msg tx s).1
| pms_unregister run_id name : pm_step s (unregister_proxy run_id name s).1
| pms_evict name : pm_step s (evict_proxy_by_name name s).1
| pms_unregister_run run_id : pm_step s (unregister_run_proxies run_id s).1
| pms_group_client addr g now ended relay :
    pm_group_heap s.1 !! addr = Some g →
    pm_step s (update_group addr (fun g => (handle_client now ended relay g).1) s).1
| pms_vhost vm : vhost_step (pm_vhost s.1) vm → pm_step s (pm_set_vhost vm s.1, s.2).

Inductive pm_reachable : ProxyManager * R → Prop :=
| pmr_new addr host p1 p2 r : held_ports r = ∅ → pm_reachable (pm_new addr host p1 p2, r)
| pmr_step s s' : pm_reachable s → pm_step s s' → pm_reachable s'.

Lemma evict_cases name s :
  pm_inv s →
  match evict_proxy_by_name name s with
  | (s', Ok None) => s' = s ∧ ∀ key, is_Some (pm_proxies s.1 !! key) → ends_with key (":" +:+ name) = false
  | (s', Ok (Some run)) =>
      pm_inv s' ∧ ∃ key, is_Some (pm_proxies s.1 !! key) ∧ ends_with key (":" +:+ name) = true ∧
        pm_proxies s'.1 = delete key (pm_proxies s.1) ∧
        run = match split_once ":"%byte key with Some (r, _) => r | None => key end
  | (_, Err _) => False
  end.
Proof.
  intros Hinv. unfold evict_proxy_by_name. cbv [mbind st_bind pm_get mret st_ret].
  destruct (List.find _ _) as [[key h]|] eqn:E.
  - apply find_Some_elem in E as [Hin He]. rewrite dash_iter_perm in Hin. apply elem_of_map_to_list in Hin.
    unfold log_err, pm_modify. destruct (remove_proxy_spec key s Hinv) as (_ & Hinv1 & Hp & _).
    destruct (remove_proxy key s) as [s1 x]. simpl in *. split; [|by eauto 10].
    destruct Hinv1 as [A B C D F]. by split.
  - split; [done|]. intros key [h Hh]. apply not_true_iff_false. intros Hends.
    assert ((key, h) ∈ dash_iter (pm_proxies s.1)) as Hin.
    { rewrite dash_iter_perm. by apply elem_of_map_to_list. }
    rewrite list_elem_of_In in Hin. apply (List.find_none _ _ E) in Hin. simpl in Hin. congruence.
Qed.

Lemma unregister_run_cases run_id s :
  pm_inv s →
  (unregister_run_proxies run_id s).2 = Ok tt ∧ pm_inv (unregister_run_proxies run_id s).1 ∧
  ∀ k, pm_proxies (unregister_run_proxies run_id s).1.1 !! k =
       if starts_with k (run_id +:+ ":") then None else pm_proxies s.1 !! k.
Proof.
  intros Hinv. unfold unregister_run_proxies. cbv [mbind st_bind pm_get].
  set (keys := List.filter _ _). destruct (remove_proxies_spec keys s Hinv) as (Hok & Hinv' & Hk).
  split; [done|]. split; [done|]. intros k. rewrite Hk.
  assert (k ∈ keys ↔ starts_with k (run_id +:+ ":") = true ∧ is_Some (pm_proxies s.1 !! k)) as Hin.
  { unfold keys. rewrite elem_of_filter_b, dash_iter_perm, list_elem_of_fmap. split.
    - intros (Hs & [k' h] & -> & Hkh%elem_of_map_to_list). eauto.
    - intros (Hs & h & Hh). split; [done|]. exists (k, h). by rewrite elem_of_map_to_list. }
  destruct (decide (k ∈ keys)) as [Hd|Hd]; rewrite Hin in Hd; destruct (starts_with _ _); try done.
  - by destruct Hd.
  - destruct (pm_proxies s.1 !! k) eqn:E; [|done]. destruct Hd. eauto.
Qed.

Lemma owns_new addr host p1 p2 o p : ¬ owns (pm_new addr host p1 p2) o p.
Proof. destruct o; simpl; intros Ho; [by destruct Ho as (? & ? & _)|by destruct Ho as (? & ? & ? & _)]. Qed.

Lemma pm_reachable_inv s : pm_reachable s → pm_inv s.
Proof.
  induction 1 as [addr host p1 p2 r Hr|s s' _ IH Hs].
  - split; simpl; try done. split; [|by intros p o1 o2 Ho; destruct (owns_new _ _ _ _ _ _ Ho)].
    intros p. rewrite Hr. split; [by intros ?%elem_of_empty|].
    intros [o Ho]. by destruct (owns_new _ _ _ _ _ _ Ho).
  - destruct Hs as [binds run_id msg tx|run_id name|name|run_id|addr g now ended relay Hg|vm Hvm].
    + pose proof (register_proxy_cases binds run_id msg tx s IH) as Hc.
      destruct (register_proxy binds run_id msg tx s) as [s' [a|e]]; [apply Hc|apply Hc].
    + apply (remove_proxy_spec (proxy_key_of run_id name) s IH).
    + pose proof (evict_cases name s IH) as Hc.
      destruct (evict_proxy_by_name name s) as [s' [[run|]|e]]; [apply Hc|by destruct Hc as [-> _]|done].
    + apply (unregister_run_cases run_id s IH).
    + unfold update_group, pm_modify. simpl. rewrite (alter_is_insert _ _ _ _ Hg).
      destruct (handle_client_group now ended relay g) as (? & ? & ?). by apply (serve_inv s addr g).
    + destruct IH as [A B C D F]. by split.
Qed.

Lemma group_has_member s gid addr :
  pm_inv s → pm_tcp_groups s.1 !! gid = Some addr →
  ∃ key name, pm_proxies s.1 !! key = Some (PGroupMember name addr key).
Proof.
  intros [_ _ Hgroups _ _] Hg. destruct (Hgroups gid addr Hg) as (g & _ & [_ _ Hms] & [Hb|Hb]); [|done].
  destruct (g_backends g) as [|st bs]; [done|]. eexists. apply Hms. unfold ids. csimpl.
  apply elem_of_cons. by left.
Qed.

(** No port is held when there is no proxy. *)
Lemma ports_of_none s : pm_inv s → pm_proxies s.1 = ∅ → held_ports s.2 = ∅.
Proof.
  intros Hinv Hempty. apply elem_of_equiv_empty_L. intros p [o Ho]%(proj1 (pi_ports _ _ Hinv)).
  destruct o as [k|gid]; simpl in Ho.
  - destruct Ho as (h & Hh & _). by rewrite Hempty in Hh.
  - destruct Ho as (a & g & Ha & _). destruct (group_has_member s gid a Hinv Ha) as (k & n & Hk).
    by rewrite Hempty in Hk.
Qed.

(** ** Properties *)

(** As long as its calls run one after the other, the ports held in the
    resource controller are exactly those of the registered proxies, the
    relays of XTCP proxies and the TCP groups, no two of which hold the same
    port; every proxy has its record and every record its proxy; every group
    has a member among the proxies, so that no port is held once no proxy is
    left. *)
Theorem ports_never_leak s :
  pm_reachable s →
  ports_owned (held_ports s.2) (owns s.1) ∧ dom (pm_proxies s.1) = dom (pm_records s.1) ∧
  (∀ gid addr, pm_tcp_groups s.1 !! gid = Some addr →
     ∃ key name, pm_proxies s.1 !! key = Some (PGroupMember name addr key)) ∧
  (pm_proxies s.1 = ∅ → held_ports s.2 = ∅).
Proof.
  intros Hinv%pm_reachable_inv. split; [apply Hinv|]. split; [apply Hinv|].
  split; [intros gid addr; by apply group_has_member|by apply ports_of_none].
Qed.

(** C19: registering a proxy either fails and changes neither the manager nor
    the set of held ports (a port that was allocated before binding failed is
    given back), or adds exactly the proxy and its record under its key, which
    was free. *)
Theorem register_proxy_atomic binds run_id msg tx s :
  pm_reachable s →
  let key := proxy_key_of run_id (np_proxy_name msg) in
  match register_proxy binds run_id msg tx s with
  | (s', Ok addr) =>
      pm_proxies s.1 !! key = None ∧ (∃ h, pm_proxies s'.1 = <[key := h]> (pm_proxies s.1)) ∧
      pm_records s'.1 = <[key := mkProxyRecord run_id (np_proxy_name msg) (np_proxy_type msg) addr]>
                          (pm_records s.1)
  | (s', Err _) => s'.1 = s.1 ∧ held_ports s'.2 = held_ports s.2
  end.
Proof.
  intros Hinv%pm_reachable_inv key. pose proof (register_proxy_cases binds run_id msg tx s Hinv) as Hc.
  destruct (register_proxy binds run_id msg tx s) as [s' [a|e]]; naive_solver.
Qed.

(** When a client goes, [unregister_run_proxies] succeeds and removes
    exactly the proxies of its run id; afterwards the held ports are again
    exactly those of the proxies and groups that are left, none if all proxies
    were the client's. *)
Theorem unregister_run_frees run_id s :
  pm_reachable s →
  let s' := (unregister_run_proxies run_id s).1 in
  (unregister_run_proxies run_id s).2 = Ok tt ∧
  (∀ k, pm_proxies s'.1 !! k =
        if starts_with k (run_id +:+ ":") then None else pm_proxies s.1 !! k) ∧
  ports_owned (held_ports s'.2) (owns s'.1) ∧
  ((∀ k, is_Some (pm_proxies s.1 !! k) → starts_with k (run_id +:+ ":") = true) →
     pm_proxies s'.1 = ∅).
Proof.
  intros Hinv%pm_reachable_inv s'. destruct (unregister_run_cases run_id s Hinv) as (Hok & Hinv' & Hk).
  split; [done|]. split; [done|]. split; [apply Hinv'|]. intros Hall. apply map_empty. intros k.
  unfold s'. rewrite Hk. destruct (starts_with _ _) eqn:E; [done|].
  destruct (pm_proxies s.1 !! k) eqn:El; [|done]. rewrite Hall in E by eauto. done.
Qed.

(** Eviction by name takes the first key that ends in [:name]; a proxy whose
    own name is [other:name] has such a key too, so that registering [name]
    closes it although its name is a different one. *)
Theorem evict_by_suffix run_id other name h s :
  pm_reachable s → ":"%byte ∉ to_bytes run_id →
  pm_proxies s.1 = {[ proxy_key_of run_id (other +:+ ":" +:+ name) := h ]} →
  ∃ s', evict_proxy_by_name name s = (s', Ok (Some run_id)) ∧ pm_proxies s'.1 = ∅.
Proof.
  intros Hinv%pm_reachable_inv Hcolon Hps. pose proof (evict_cases name s Hinv) as Hc.
  set (key := proxy_key_of run_id (other +:+ ":" +:+ name)) in *.
  assert (ends_with key (":" +:+ name) = true) as Hends.
  { apply ends_with_iff. exists (run_id +:+ ":" +:+ other). unfold key, proxy_key_of.
    apply (inj to_bytes). by rewrite !to_bytes_app, <- !app_assoc. }
  destruct (evict_proxy_by_name name s) as [s' [[run|]|e]]; [|exfalso..|done].
  - destruct Hc as (_ & key' & [h' Hh'] & _ & Hp' & ->). rewrite Hps in Hh', Hp'.
    apply lookup_singleton_Some in Hh' as [<- _]. rewrite delete_singleton_eq in Hp'. exists s'. split; [|done].
    assert (split_once ":"%byte key = Some (run_id, other +:+ ":" +:+ name)) as ->; [|done].
    unfold split_once, key, proxy_key_of. rewrite to_bytes_app.
    change (to_bytes (":" +:+ other +:+ ":" +:+ name)) with (":"%byte :: to_bytes (other +:+ ":" +:+ name)).
    rewrite bytes_split_once_app by done. by rewrite !of_to_bytes.
  - destruct Hc as [_ Hnone]. rewrite Hnone in Hends; [done|]. rewrite Hps, lookup_singleton_eq. eauto.
Qed.

End ProxyManager.

(** ** Witnesses *)

Module ToyProxyManager.
#[local] Instance json : Json := {|
  Value := unit; as_object := fun _ => None; as_str := fun _ => None |}.
#[local] Instance lower : UnicodeLower := fun s => s.
#[local] Instance iter : DashIter.
Proof. refine {| dash_iter := fun V m => map_to_list m |}. done. Defined.

Definition binds : Binds := mkBinds (fun _ => None) (fun _ => None).
Definition refuse : Binds :=
  mkBinds (fun _ => Some (mkIoError OtherKind (Some 98) "in use")) (fun _ => None).
Definition msg (name ty : string) (port : Z) : NewProxyMsg :=
  mkNewProxyMsg name ty false false "127.0.0.1" 80 port [] "" [] "" "k" "" true tt.
Definition rc0 : ResourceController := mkResourceController ∅ 10000 [(6000, 7000)].
Definition s0 : ProxyManager * ResourceController := (pm_new "0.0.0.0" "" 0 0, rc0).
Definition s1 := (register_proxy binds "r1" (msg "ssh" "tcp" 6000) 1 s0).1.
Definition s2 := (register_proxy binds "r1" (msg "a:b" "udp" 6001) 1 s0).1.

Lemma s0_reachable : pm_reachable s0.
Proof. by apply (pmr_new "0.0.0.0" "" 0 0 rc0). Qed.
Lemma s1_reachable : pm_reachable s1.
Proof. eapply pmr_step; [apply s0_reachable|apply pms_register]. Qed.
Lemma s2_reachable : pm_reachable s2.
Proof. eapply pmr_step; [apply s0_reachable|apply pms_register]. Qed.

Lemma ports_never_leak_witness :
  held_ports s1.2 = {[6000]} ∧ ports_owned (held_ports s1.2) (owns s1.1).
Proof. exact (conj eq_refl (proj1 (ports_never_leak s1 s1_reachable))). Defined.

Lemma register_proxy_atomic_witness :
  let s' := (register_proxy refuse "r1" (msg "ssh" "tcp" 6000) 1 s0).1 in
  s'.1 = s0.1 ∧ held_ports s'.2 = held_ports s0.2.
Proof. exact (register_proxy_atomic refuse "r1" (msg "ssh" "tcp" 6000) 1 s0 s0_reachable). Defined.

Lemma unregister_run_frees_witness :
  (unregister_run_proxies "r1" s1).2 = Ok tt ∧
  ports_owned (held_ports (unregister_run_proxies "r1" s1).1.2) (owns (unregister_run_proxies "r1" s1).1.1).
Proof.
  destruct (unregister_run_frees "r1" s1 s1_reachable) as (H1 & _ & H2 & _). exact (conj H1 H2).
Defined.

Lemma evict_by_suffix_witness :
  ∃ s', evict_proxy_by_name "b" s2 = (s', Ok (Some "r1"%string)) ∧ pm_proxies s'.1 = ∅.
Proof.
  apply (evict_by_suffix "r1" "a" "b" (PUdp (mkUdpProxy "a:b" 6001 1 false false "k")) s2 s2_reachable).
  - by apply bytes_contains_false.
  - vm_compute. reflexivity.
Defined.
End ToyProxyManager.
