(* ===== verification/Hub.v ===== *)
(** * The server's shared state (crates/arp-server/src/metrics.rs, audit.rs and
      the data and the manager of control/mod.rs)

    All tasks of the server share the proxy manager, the resource controller,
    the control manager and the NAT hole controller.  [Hub] is that shared
    state.  A [Control] is referred to from the control manager, from the task
    that serves it and, through the sender of its request channel, from its
    proxies, so the controls live in a heap and are referred to by their
    address; the sender of the request channel of a control is that address.
    A connection is a number; [hub_wire] is what was written to connections as
    messages, in order; a oneshot channel is an entry of [hub_replies].  What
    a [send] on a connection gives, what binding a port gives and the clock
    are in the environment [Env] of each call. *)
From stdpp Require Import sorting.
From S2P Require Import Prelude RustString Errors Protocol Config Auth Resource Vhost ProxyManager.
Local Open Scope Z_scope.

(** ** metrics.rs *)

(** The fields of [Metrics]. *)
Inductive Counter :=
| incoming_connections_total | work_connections_total | tcp_proxy_connections_total
| tcp_proxy_errors_total | tcp_mux_streams_opened_total | tcp_bytes_in_total | tcp_bytes_out_total
| auth_failures_total | proxy_registrations_total | proxy_registration_failures_total
| req_work_conn_total | idle_work_conn_hits_total | xtcp_visitor_requests_total
| xtcp_sk_mismatch_total | xtcp_owner_not_found_total | xtcp_owner_offline_total
| xtcp_owner_requests_forwarded_total | xtcp_responses_forwarded_total.

#[global] Instance Counter_eq_dec : EqDecision Counter.
Proof. solve_decision. Defined.

Definition Metrics := Counter → Z.
Definition metrics_zero : Metrics := fun _ => 0.

(** [fetch_add] on an [AtomicU64]; [inc_x ()] is [fetch_add x 1]. *)
Definition fetch_add (c : Counter) (v : Z) (m : Metrics) : Metrics :=
  fun c' => if decide (c' = c) then wrap 64 (m c + v) else m c'.

(** ** audit.rs *)

Inductive AuditEvent :=
| ClientLogin (client_id peer_addr run_id : string)
| ClientLoginFailed (peer_addr reason : string)
| ClientDisconnect (client_id run_id : string)
| ProxyRegistered (client_id run_id proxy_name proxy_type remote_addr : string)
| ProxyRejected (client_id run_id proxy_name reason : string)
| ProxyClosed (run_id proxy_name : string)
| WorkConnAuthFailed (run_id reason : string).

(** ** Connections, requests and controls *)

Abbreviation Conn := Z.

(** A oneshot channel whose receiver waits, got its connection, or is gone. *)
Inductive Reply := Waiting | Delivered (c : Conn) | Gone.

Record WorkConnRequest := mkWorkConnRequest { wr_proxy_name : string; wr_reply_tx : Z }.

Section Hub.
Context `{Json} `{UnicodeLower} `{DashIter} {R : Type} `{PortAllocator R}.

Record Control := mkControl {
  c_run_id : string; c_client_id : string; c_peer_addr : string; c_privilege_key : string;
  c_pool_count : Z; c_hostname : string; c_os : string; c_arch : string; c_user : string;
  c_transport : option Conn;
  c_work_conn_reqs : list WorkConnRequest;          (* the channel of requests *)
  c_pending_work_conns : list WorkConnRequest;
  c_idle_work_conns : list Conn;
  c_outbound : list Message;                        (* the channel of messages *)
  c_heartbeat_timeout : Z;
  c_cancel : bool;
}.

(** [Control::new]. *)
Definition control_new (run_id client_id peer_addr privilege_key : string) (pool_count : Z)
    (hostname os arch user : string) (transport : Conn) (heartbeat_timeout : Z) : Control :=
  mkControl run_id client_id peer_addr privilege_key pool_count hostname os arch user
    (Some transport) [] [] [] [] heartbeat_timeout false.

Definition c_set_transport t (c : Control) : Control :=
  mkControl (c_run_id c) (c_client_id c) (c_peer_addr c) (c_privilege_key c) (c_pool_count c)
    (c_hostname c) (c_os c) (c_arch c) (c_user c) t (c_work_conn_reqs c)
    (c_pending_work_conns c) (c_idle_work_conns c) (c_outbound c) (c_heartbeat_timeout c) (c_cancel c).
Definition c_set_queues reqs pending idle out (c : Control) : Control :=
  mkControl (c_run_id c) (c_client_id c) (c_peer_addr c) (c_privilege_key c) (c_pool_count c)
    (c_hostname c) (c_os c) (c_arch c) (c_user c) (c_transport c) reqs pending idle out
    (c_heartbeat_timeout c) (c_cancel c).
Definition c_set_reqs reqs (c : Control) : Control :=
  c_set_queues reqs (c_pending_work_conns c) (c_idle_work_conns c) (c_outbound c) c.
Definition c_set_pending pending (c : Control) : Control :=
  c_set_queues (c_work_conn_reqs c) pending (c_idle_work_conns c) (c_outbound c) c.
Definition c_set_idle idle (c : Control) : Control :=
  c_set_queues (c_work_conn_reqs c) (c_pending_work_conns c) idle (c_outbound c) c.
Definition c_set_outbound out (c : Control) : Control :=
  c_set_queues (c_work_conn_reqs c) (c_pending_work_conns c) (c_idle_work_conns c) out c.

(** [Control::shutdown]. *)
Definition control_shutdown (c : Control) : Control :=
  mkControl (c_run_id c) (c_client_id c) (c_peer_addr c) (c_privilege_key c) (c_pool_count c)
    (c_hostname c) (c_os c) (c_arch c) (c_user c) (c_transport c) (c_work_conn_reqs c)
    (c_pending_work_conns c) (c_idle_work_conns c) (c_outbound c) (c_heartbeat_timeout c) true.

(** nathole.rs: the state of [NatHoleController]. *)
Record PendingNatVisitor := mkPendingNatVisitor {
  pv_visitor_run_id : string; pv_proxy_name : string; pv_relay_addr : string;
}.

Record XtcpEvent := mkXtcpEvent {
  xe_stage : string; xe_proxy_name : string; xe_visitor_run_id : string; xe_owner_run_id : string;
  xe_visitor_addr : string; xe_client_addr : string; xe_relay_addr : string; xe_error : string;
}.

Record NatHoleController := mkNatHoleController {
  nh_pending : gmap string PendingNatVisitor;
  nh_recent_events : list XtcpEvent;
}.

Record Hub := mkHub {
  hub_pm : ProxyManager; hub_rc : R;
  hub_controls : gmap string Z;                     (* [ControlManager::controls] *)
  hub_heap : gmap Z Control;
  hub_next : Z;
  hub_replies : gmap Z Reply;
  hub_nat : NatHoleController;
  hub_wire : list (Conn * Message);
  hub_metrics : Metrics;
  hub_audit : list AuditEvent;
}.

Definition set_pm (s : ProxyManager * R) (h : Hub) : Hub :=
  mkHub s.1 s.2 (hub_controls h) (hub_heap h) (hub_next h) (hub_replies h) (hub_nat h)
    (hub_wire h) (hub_metrics h) (hub_audit h).
Definition set_controls cs heap next (h : Hub) : Hub :=
  mkHub (hub_pm h) (hub_rc h) cs heap next (hub_replies h) (hub_nat h) (hub_wire h)
    (hub_metrics h) (hub_audit h).
Definition set_heap heap (h : Hub) : Hub := set_controls (hub_controls h) heap (hub_next h) h.
Definition set_replies rs (h : Hub) : Hub :=
  mkHub (hub_pm h) (hub_rc h) (hub_controls h) (hub_heap h) (hub_next h) rs (hub_nat h)
    (hub_wire h) (hub_metrics h) (hub_audit h).
Definition set_nat n (h : Hub) : Hub :=
  mkHub (hub_pm h) (hub_rc h) (hub_controls h) (hub_heap h) (hub_next h) (hub_replies h) n
    (hub_wire h) (hub_metrics h) (hub_audit h).
Definition set_wire w (h : Hub) : Hub :=
  mkHub (hub_pm h) (hub_rc h) (hub_controls h) (hub_heap h) (hub_next h) (hub_replies h) (hub_nat h)
    w (hub_metrics h) (hub_audit h).
Definition set_metrics m (h : Hub) : Hub :=
  mkHub (hub_pm h) (hub_rc h) (hub_controls h) (hub_heap h) (hub_next h) (hub_replies h) (hub_nat h)
    (hub_wire h) m (hub_audit h).
Definition set_audit a (h : Hub) : Hub :=
  mkHub (hub_pm h) (hub_rc h) (hub_controls h) (hub_heap h) (hub_next h) (hub_replies h) (hub_nat h)
    (hub_wire h) (hub_metrics h) a.

(** The environment of a call: what binding a port gives, what a [send] on a
    connection gives, and [Utc::now().timestamp()]. *)
Record Env := mkEnv {
  env_binds : Binds;
  env_send : Conn → Message → Result unit;
  env_now : Z;
}.

Abbreviation HM A := (st Hub Error.t A).

Definition hub_gets {A} (f : Hub → A) : HM A := fun h => (h, Ok (f h)).
Definition on_pm {A} (m : st (ProxyManager * R) Error.t A) : HM A :=
  zoom (fun h => (hub_pm h, hub_rc h)) set_pm m.
Definition inc (c : Counter) : HM unit :=
  st_modify (fun h => set_metrics (fetch_add c 1 (hub_metrics h)) h).

(** [audit::emit]. *)
Definition emit (e : AuditEvent) : HM unit := st_modify (fun h => set_audit (hub_audit h ++ [e]) h).

(** [MessageTransport::send]. *)
Definition transport_send (env : Env) (conn : Conn) (m : Message) : HM unit :=
  _ ← st_lift (env_send env conn m);
  st_modify (fun h => set_wire (hub_wire h ++ [(conn, m)]) h).

(** [self] of a control; an [Arc] is never dangling. *)
Definition deref (self : Z) : HM Control :=
  fun h => (h, ok_or (Error.Other "dangling") (hub_heap h !! self)).
Definition upd_control (self : Z) (f : Control → Control) : HM unit :=
  st_modify (fun h => set_heap (alter f self (hub_heap h)) h).

(** [oneshot::Sender::send]: a connection that cannot be delivered is dropped. *)
Definition reply_send (tx : Z) (conn : Conn) (e : Error.t) : HM unit := fun h =>
  match hub_replies h !! tx with
  | Some Waiting => (set_replies (<[tx := Delivered conn]> (hub_replies h)) h, Ok tt)
  | _ => (h, Err e)
  end.

(** [mpsc::Sender::send] on the request channel of a control: an error when the
    control is gone.  A sender waits while the channel has its 100 requests. *)
Definition request_send (tx : Sender) (req : WorkConnRequest) (e : Error.t) : HM unit := fun h =>
  match hub_heap h !! tx with
  | Some _ => upd_control tx (fun c => c_set_reqs (c_work_conn_reqs c ++ [req]) c) h
  | None => (h, Err e)
  end.

(** ** [ControlManager] *)

Record ControlRecord := mkControlRecord {
  cr_run_id : string; cr_client_id : string; cr_peer_addr : string; cr_hostname : string;
  cr_os : string; cr_arch : string; cr_user : string; cr_pool_count : Z;
}.

Record ProxyOwner := mkProxyOwner { po_run_id : string; po_client_id : string }.

(** The hub of a new server. *)
Definition hub_new (pm : ProxyManager) (rc : R) : Hub :=
  mkHub pm rc ∅ ∅ 0 ∅ (mkNatHoleController ∅ []) [] metrics_zero [].

Definition cm_add (run_id : string) (self : Z) : HM unit :=
  st_modify (fun h => set_controls (<[run_id := self]> (hub_controls h)) (hub_heap h) (hub_next h) h).

Definition cm_get (run_id : string) (h : Hub) : option Z := hub_controls h !! run_id.

Definition cm_remove (run_id : string) : HM unit :=
  st_modify (fun h => set_controls (delete run_id (hub_controls h)) (hub_heap h) (hub_next h) h).

Definition shutdown_run (run_id : string) : HM unit := fun h =>
  match hub_controls h !! run_id with
  | Some self => (_ ← cm_remove run_id; upd_control self control_shutdown) h
  | None => (h, Ok tt)
  end.

(** [Iterator::find_map]. *)
Fixpoint find_map {A B} (f : A → option B) (l : list A) : option B :=
  match l with
  | [] => None
  | x :: l' => match f x with Some y => Some y | None => find_map f l' end
  end.

(** The control managed under a run id. *)
Definition cm_control (h : Hub) (run_id : string) : option Control :=
  self ← hub_controls h !! run_id; hub_heap h !! self.

Definition owner_entry (h : Hub) (proxy_name : string) (entry : string * Z) : option ProxyOwner :=
  control ← hub_heap h !! entry.2;
  if existsb (fun key => bool_decide (key = proxy_key_of (c_run_id control) proxy_name))
       (list_proxy_keys (hub_pm h))
  then Some (mkProxyOwner (c_run_id control) (c_client_id control)) else None.

Definition find_proxy_owner (h : Hub) (proxy_name : string) : option ProxyOwner :=
  find_map (owner_entry h proxy_name) (dash_iter (hub_controls h)).

Definition cm_count (h : Hub) : nat := size (hub_controls h).

Definition record_of (c : Control) : ControlRecord :=
  mkControlRecord (c_run_id c) (c_client_id c) (c_peer_addr c) (c_hostname c) (c_os c) (c_arch c)
    (c_user c) (c_pool_count c).

(** The controls in the order the map is iterated. *)
Definition cm_iter (h : Hub) : list Control := omap (fun e => hub_heap h !! e.2) (dash_iter (hub_controls h)).

Definition list_controls (h : Hub) : list ControlRecord :=
  merge_sort (fun a b => str_le (cr_run_id a) (cr_run_id b)) (record_of <$> cm_iter h).

Definition get_control_record (h : Hub) (run_id : string) : option ControlRecord :=
  record_of <$> cm_control h run_id.

Definition get_control_queue_stats (h : Hub) (run_id : string) : option (nat * nat) :=
  (fun c => (length (c_pending_work_conns c), length (c_idle_work_conns c))) <$> cm_control h run_id.

Definition get_queue_stats_snapshot (h : Hub) : nat * nat :=
  foldl (fun acc c => ((acc.1 + length (c_pending_work_conns c))%nat,
                       (acc.2 + length (c_idle_work_conns c))%nat)) (0%nat, 0%nat) (cm_iter h).

(** [Control::send_message]: the receiver lives as long as the control. *)
Definition control_send_message (self : Z) (m : Message) : HM unit :=
  upd_control self (fun c => c_set_outbound (c_outbound c ++ [m]) c).

Definition cm_send_message (run_id : string) (m : Message) : HM unit :=
  self ← (fun h => (h, ok_or (Error.Protocol ("Unknown run_id: " +:+ run_id)) (hub_controls h !! run_id)));
  control_send_message self m.

Definition cm_peer_addr (h : Hub) (run_id : string) : option string := c_peer_addr <$> cm_control h run_id.

(** ** Lemmas *)

Lemma find_map_Some {A B} (f : A → option B) l y : find_map f l = Some y → ∃ x, x ∈ l ∧ f x = Some y.
Proof.
  induction l as [|x l IH]; simpl; [done|]. destruct (f x) eqn:E.
  - intros [= ->]. exists x. split; [apply elem_of_cons; by left|done].
  - intros (z & Hz & Hf)%IH. exists z. split; [apply elem_of_cons; by right|done].
Qed.

Lemma find_map_None {A B} (f : A → option B) l : find_map f l = None ↔ ∀ x, x ∈ l → f x = None.
Proof.
  induction l as [|x l IH]; simpl.
  - split; [by intros _ x ?%not_elem_of_nil|done].
  - setoid_rewrite elem_of_cons. destruct (f x) eqn:E; [|rewrite IH; naive_solver].
    split; [done|]. intros Hn. specialize (Hn x). naive_solver.
Qed.

Lemma list_proxy_keys_iff m key : key ∈ list_proxy_keys m ↔ is_Some (pm_proxies m !! key).
Proof.
  unfold list_proxy_keys. rewrite dash_iter_perm, list_elem_of_fmap. split.
  - intros ([k h] & -> & Hk%elem_of_map_to_list). eauto.
  - intros [h Hh]. exists (key, h). by rewrite elem_of_map_to_list.
Qed.

Lemma owner_entry_Some h name e o :
  owner_entry h name e = Some o ↔
  ∃ c, hub_heap h !! e.2 = Some c ∧ is_Some (pm_proxies (hub_pm h) !! proxy_key_of (c_run_id c) name) ∧
       o = mkProxyOwner (c_run_id c) (c_client_id c).
Proof.
  unfold owner_entry. destruct (hub_heap h !! e.2) as [c|]; simpl; [|naive_solver].
  destruct (existsb _ _) eqn:E.
  - apply existsb_True in E as (k & Hk & ->%bool_decide_eq_true). apply list_proxy_keys_iff in Hk. naive_solver.
  - rewrite existsb_False in E. split; [done|]. intros (? & [= <-] & Hk%list_proxy_keys_iff & _).
    apply E in Hk. by rewrite bool_decide_eq_true_2 in Hk.
Qed.

End Hub.

#[global] Arguments Hub {_} R.
