(* ===== verification/NatHole.v ===== *)
(** * NAT hole punching for XTCP (crates/arp-server/src/nathole.rs)

    A visitor asks for a hole to an XTCP proxy: the server checks the secret
    it sent, remembers the visitor under its address and forwards the request
    to the control of the proxy's owner; the owner's answer is forwarded to
    the remembered visitor.  The last 32 events are kept for the dashboard. *)
From S2P Require Import Prelude RustString NetAddr Errors Protocol Config Auth Resource Vhost.
From S2P Require Import ProxyManager Hub.
Local Open Scope Z_scope.

Definition parse_signed_msg (signed_msg : string) : Result (string * string) :=
  ok_or (Error.Protocol "invalid NatHoleVisitor.signed_msg, expected '<sk>|<visitor_addr>'")
    (split_once "|"%byte signed_msg) ≫= fun '(sk, visitor_addr) =>
  let sk := trim sk in
  let visitor_addr := trim visitor_addr in
  guard_err (is_empty sk) (Error.Protocol "xtcp visitor sk is empty") ≫= fun _ =>
  guard_err (is_empty visitor_addr) (Error.Protocol "xtcp visitor_addr is empty") ≫= fun _ =>
  Ok (sk, visitor_addr).

Definition normalize_endpoint_addr (endpoint_addr peer_addr : string) : string :=
  match parse_socket_addr endpoint_addr with
  | None => endpoint_addr
  | Some endpoint_sa =>
      match ip <$> parse_socket_addr peer_addr with
      | None => endpoint_addr
      | Some owner_ip =>
          let endpoint_ip := ip endpoint_sa in
          let use_owner_ip := is_unspecified endpoint_ip || is_loopback endpoint_ip in
          if negb use_owner_ip then endpoint_addr
          else socket_addr_to_string (new_socket_addr owner_ip (port endpoint_sa))
      end
  end.

Section NatHole.
Context `{Json} `{UnicodeLower} `{DashIter} {R : Type} `{PortAllocator R}.
Abbreviation HM A := (st (Hub R) Error.t A).

Definition push_event (event : XtcpEvent) : HM unit :=
  st_modify (fun h =>
    let events := nh_recent_events (hub_nat h) in
    let events := if (32 <=? length events)%nat then tail events else events in
    set_nat (mkNatHoleController (nh_pending (hub_nat h)) (events ++ [event])) h).

Definition pending_insert (visitor_addr : string) (v : PendingNatVisitor) : HM unit :=
  st_modify (fun h => set_nat (mkNatHoleController (<[visitor_addr := v]> (nh_pending (hub_nat h)))
                                 (nh_recent_events (hub_nat h))) h).

(** [self.pending.remove(key)]. *)
Definition pending_remove (visitor_addr : string) : HM (option PendingNatVisitor) := fun h =>
  (set_nat (mkNatHoleController (delete visitor_addr (nh_pending (hub_nat h)))
              (nh_recent_events (hub_nat h))) h,
   Ok (nh_pending (hub_nat h) !! visitor_addr)).

(** [if let Err(e) = m { handler(e) } else { k }]. *)
Definition on_err {A} (m : HM unit) (handler : Error.t → HM A) (k : HM A) : HM A := fun h =>
  match m h with
  | (h', Err e) => handler e h'
  | (h', Ok _) => k h'
  end.

(** The address with the loopback or unspecified host replaced by the host the
    server sees the client at. *)
Definition public_addr (h : Hub R) (run_id addr : string) : string :=
  match cm_peer_addr h run_id with
  | Some peer => normalize_endpoint_addr addr peer
  | None => addr
  end.

Definition handle_visitor (visitor_run_id : string) (msg : NatHoleVisitorMsg)
  : HM (option NatHoleRespMsg) :=
  let name := nv_proxy_name msg in
  _ ← inc xtcp_visitor_requests_total;
  '(signed_sk, visitor_addr) ← st_lift (parse_signed_msg (nv_signed_msg msg));
  visitor_addr ← hub_gets (fun h => public_addr h visitor_run_id visitor_addr);
  owner ← hub_gets (fun h => get_xtcp_owner (hub_pm h) name);
  match owner with
  | None =>
      let err := "xtcp proxy " +:+ name +:+ " not found" in
      _ ← inc xtcp_owner_not_found_total;
      _ ← push_event (mkXtcpEvent "owner_not_found" name visitor_run_id "" visitor_addr "" "" err);
      mret (Some (mkNatHoleRespMsg visitor_addr "" "" err))
  | Some owner =>
      if negb (bool_decide (xi_sk owner = signed_sk)) then
        _ ← inc xtcp_sk_mismatch_total;
        _ ← push_event (mkXtcpEvent "sk_mismatch" name visitor_run_id (xi_run_id owner) visitor_addr ""
                          (xi_relay_addr owner) "xtcp sk mismatch");
        mret (Some (mkNatHoleRespMsg visitor_addr "" "" "xtcp sk mismatch"))
      else
        _ ← pending_insert visitor_addr (mkPendingNatVisitor visitor_run_id name (xi_relay_addr owner));
        on_err (cm_send_message (xi_run_id owner) (NatHoleClient (mkNatHoleClientMsg name visitor_addr)))
          (fun e =>
             _ ← inc xtcp_owner_offline_total;
             _ ← push_event (mkXtcpEvent "owner_offline" name visitor_run_id (xi_run_id owner) visitor_addr ""
                               (xi_relay_addr owner) ("owner client offline: " +:+ error_to_string e));
             mret (Some (mkNatHoleRespMsg "" "" "" "owner client offline")))
          (_ ← inc xtcp_owner_requests_forwarded_total;
           _ ← push_event (mkXtcpEvent "visitor_forwarded" name visitor_run_id (xi_run_id owner) visitor_addr ""
                             (xi_relay_addr owner) "");
           mret None)
  end.

Definition handle_client_resp (owner_run_id : string) (msg : NatHoleRespMsg) : HM unit :=
  client_addr ← hub_gets (fun h => public_addr h owner_run_id (nr_client_addr msg));
  pending ← pending_remove (nr_visitor_addr msg);
  match pending with
  | None => mret tt
  | Some pending =>
      let relay_addr := if is_empty (nr_relay_addr msg) then pv_relay_addr pending else nr_relay_addr msg in
      let stage := if is_empty (nr_error msg) then "response_forwarded"%string else "response_error"%string in
      _ ← inc xtcp_responses_forwarded_total;
      _ ← push_event (mkXtcpEvent stage (pv_proxy_name pending) (pv_visitor_run_id pending) owner_run_id
                        (nr_visitor_addr msg) client_addr relay_addr (nr_error msg));
      cm_send_message (pv_visitor_run_id pending)
        (NatHoleResp (mkNatHoleRespMsg (nr_visitor_addr msg) client_addr relay_addr (nr_error msg)))
  end.

Definition recent_events (h : Hub R) : list XtcpEvent := nh_recent_events (hub_nat h).

(** ** Lemmas *)

#[local] Arguments Nat.leb : simpl never.

(** A message in the channel of a control. *)
Definition enqueue (m : Message) (c : Control) : Control := c_set_outbound (c_outbound c ++ [m]) c.

(** Nothing but the counters and the events changed. *)
Definition only_logged (h h' : Hub R) : Prop :=
  hub_pm h' = hub_pm h ∧ hub_rc h' = hub_rc h ∧ hub_controls h' = hub_controls h ∧
  hub_heap h' = hub_heap h ∧ hub_next h' = hub_next h ∧ hub_replies h' = hub_replies h ∧
  hub_wire h' = hub_wire h ∧ nh_pending (hub_nat h') = nh_pending (hub_nat h).

Lemma length_push_event (ev : XtcpEvent) (h : Hub R) :
  (length (recent_events h) ≤ 32)%nat → (length (recent_events (push_event ev h).1) ≤ 32)%nat.
Proof.
  unfold recent_events, push_event, st_modify. simpl. intros Hl.
  destruct (Nat.leb_spec 32 (length (nh_recent_events (hub_nat h)))); rewrite length_app; simpl; [|lia].
  destruct (nh_recent_events (hub_nat h)); simpl in *; lia.
Qed.

Lemma parse_signed_msg_Ok s sk addr :
  parse_signed_msg s = Ok (sk, addr) ↔
  ∃ a b, split_once "|"%byte s = Some (a, b) ∧ sk = trim a ∧ addr = trim b ∧
         sk ≠ ""%string ∧ addr ≠ ""%string.
Proof.
  unfold parse_signed_msg. destruct (split_once "|"%byte s) as [[a b]|]; [|simpl; naive_solver].
  cbv [ok_or]. cbn [mbind result_bind]. rewrite !guard_bind_Ok, !is_empty_false. naive_solver.
Qed.

(** Where a visitor's request goes. *)
Lemma handle_visitor_cases visitor msg (h : Hub R) :
  let name := nv_proxy_name msg in
  match handle_visitor visitor msg h with
  | (h', Err e) => parse_signed_msg (nv_signed_msg msg) = Err e ∧ only_logged h h'
  | (h', Ok reply) =>
      ∃ sk addr, parse_signed_msg (nv_signed_msg msg) = Ok (sk, addr) ∧
      let pub := public_addr h visitor addr in
      match reply, get_xtcp_owner (hub_pm h) name with
      | Some resp, None =>
          resp = mkNatHoleRespMsg pub "" "" ("xtcp proxy " +:+ name +:+ " not found") ∧ only_logged h h'
      | Some resp, Some owner =>
          xi_sk owner ≠ sk ∧ resp = mkNatHoleRespMsg pub "" "" "xtcp sk mismatch" ∧ only_logged h h' ∨
          xi_sk owner = sk ∧ hub_controls h !! xi_run_id owner = None ∧
            resp = mkNatHoleRespMsg "" "" "" "owner client offline" ∧
            only_logged (pending_insert pub (mkPendingNatVisitor visitor name (xi_relay_addr owner)) h).1 h'
      | None, Some owner =>
          xi_sk owner = sk ∧ ∃ self, hub_controls h !! xi_run_id owner = Some self ∧
            only_logged (set_heap (alter (enqueue (NatHoleClient (mkNatHoleClientMsg name pub))) self (hub_heap h))
              (pending_insert pub (mkPendingNatVisitor visitor name (xi_relay_addr owner)) h).1) h'
      | None, None => False
      end
  end.
Proof.
  intros name. unfold handle_visitor. fold name. cbv [mbind st_bind inc st_modify st_lift hub_gets].
  destruct (parse_signed_msg (nv_signed_msg msg)) as [[sk addr]|e]; [|by split_and!].
  change (get_xtcp_owner (hub_pm (set_metrics (fetch_add xtcp_visitor_requests_total 1 (hub_metrics h)) h)) name)
    with (get_xtcp_owner (hub_pm h) name).
  change (public_addr (set_metrics _ h) visitor addr) with (public_addr h visitor addr).
  destruct (get_xtcp_owner (hub_pm h) name) as [owner|]; [|exists sk, addr; split; [done|]; by split_and!].
  case_bool_decide as Hsk; cbv [negb]; [|exists sk, addr; split; [done|]; left; by split_and!].
  unfold on_err, cm_send_message. cbv [mbind st_bind pending_insert st_modify].
  simpl hub_controls. destruct (hub_controls h !! xi_run_id owner) as [self|] eqn:E; cbv [ok_or].
  - exists sk, addr. split; [done|]. split; [done|]. exists self. split; [done|]. by split_and!.
  - exists sk, addr. split; [done|]. right. split; [done|]. split; [done|]. by split_and!.
Qed.

(** An answer from any client is forwarded to the visitor that waits under the
    address it names. *)
Lemma handle_client_resp_forwards responder msg v self (h : Hub R) :
  nh_pending (hub_nat h) !! nr_visitor_addr msg = Some v →
  hub_controls h !! pv_visitor_run_id v = Some self →
  let relay := if is_empty (nr_relay_addr msg) then pv_relay_addr v else nr_relay_addr msg in
  let fwd := mkNatHoleRespMsg (nr_visitor_addr msg) (public_addr h responder (nr_client_addr msg)) relay (nr_error msg) in
  ∃ h', handle_client_resp responder msg h = (h', Ok tt) ∧
    only_logged (set_heap (alter (enqueue (NatHoleResp fwd)) self (hub_heap h))
                   (pending_remove (nr_visitor_addr msg) h).1) h'.
Proof.
  intros Hv Hself relay fwd. unfold handle_client_resp, cm_send_message.
  cbv [mbind st_bind hub_gets pending_remove]. rewrite Hv.
  cbv [inc st_modify push_event]. simpl hub_controls. rewrite Hself. cbv [ok_or].
  eexists. split; [reflexivity|]. by split_and!.
Qed.

Lemma handle_client_resp_dropped responder msg (h : Hub R) :
  nh_pending (hub_nat h) !! nr_visitor_addr msg = None →
  ∃ h', handle_client_resp responder msg h = (h', Ok tt) ∧ only_logged h h'.
Proof.
  intros Hv. unfold handle_client_resp. cbv [mbind st_bind hub_gets pending_remove]. rewrite Hv.
  eexists. split; [reflexivity|]. repeat (split; [done|]). simpl. by apply delete_id.
Qed.

(** ** Properties *)

(** The request names a registered proxy with its secret, and the control of the
    proxy's owner is there. *)
Definition passes (msg : NatHoleVisitorMsg) (h : Hub R) (addr : string) (owner : XtcpProxyInfo) (self : Z) : Prop :=
  parse_signed_msg (nv_signed_msg msg) = Ok (xi_sk owner, addr) ∧
  get_xtcp_owner (hub_pm h) (nv_proxy_name msg) = Some owner ∧ hub_controls h !! xi_run_id owner = Some self.

(** C26: a request that names a proxy with its secret, and whose owner's control
    is there, is forwarded: the owner's channel gets the proxy name and the
    visitor's public address, the visitor is remembered under that address and
    gets no reply yet.  A request that does not pass reaches no control: it is
    an error, or the visitor gets a reply with an error and with neither the
    owner's address nor the relay's. *)
Theorem visitor_gate visitor msg (h : Hub R) :
  let '(h', r) := handle_visitor visitor msg h in
  hub_pm h' = hub_pm h ∧ hub_controls h' = hub_controls h ∧ hub_wire h' = hub_wire h ∧
  (∀ addr owner self, passes msg h addr owner self →
     let pub := public_addr h visitor addr in
     r = Ok None ∧
     hub_heap h' = alter (enqueue (NatHoleClient (mkNatHoleClientMsg (nv_proxy_name msg) pub))) self (hub_heap h) ∧
     nh_pending (hub_nat h') !! pub
       = Some (mkPendingNatVisitor visitor (nv_proxy_name msg) (xi_relay_addr owner))) ∧
  ((¬ ∃ addr owner self, passes msg h addr owner self) →
     hub_heap h' = hub_heap h ∧
     ((∃ e, r = Err e) ∨
      ∃ resp, r = Ok (Some resp) ∧ nr_error resp ≠ ""%string ∧
        nr_client_addr resp = ""%string ∧ nr_relay_addr resp = ""%string)).
Proof.
  pose proof (handle_visitor_cases visitor msg h) as Hc. cbv zeta in Hc. unfold passes.
  destruct (handle_visitor visitor msg h) as [h' [[resp|]|e]]; unfold only_logged in Hc.
  - destruct Hc as (sk & addr & Hp & Hc).
    assert (hub_pm h' = hub_pm h ∧ hub_controls h' = hub_controls h ∧ hub_wire h' = hub_wire h ∧ hub_heap h' = hub_heap h)
      as (? & ? & ? & ?) by (destruct (get_xtcp_owner _ _); naive_solver).
    split_and!; [done..| |].
    + intros addr' owner' self' (Hp' & Ho & Hs). exfalso. rewrite Hp in Hp'. injection Hp' as -> ->.
      rewrite Ho in Hc. destruct Hc as [[? _]|(_ & Hn & _)]; congruence.
    + intros _. split; [done|]. right. exists resp. destruct (get_xtcp_owner _ _); naive_solver.
  - destruct Hc as (sk & addr & Hp & Hc). destruct (get_xtcp_owner _ _) as [owner|]; [|done].
    destruct Hc as (Hsk & self & Hs & Hpm & _ & Hcs & Hh & _ & _ & Hw & Hn). split_and!; [done..| |].
    + intros addr' owner' self' (Hp' & [= <-] & Hs'). rewrite Hp in Hp'. injection Hp' as _ ->. rewrite Hs in Hs'. injection Hs' as ->.
      split; [done|]. split; [done|]. rewrite Hn. apply lookup_insert_eq.
    + intros []. exists addr, owner, self. by subst sk.
  - destruct Hc as (Hp & ? & ? & ? & ? & ? & ? & ? & ?). split_and!; [done..| |].
    + intros addr' owner' self' (Hp' & _). by rewrite Hp in Hp'.
    + intros _. split; [done|]. left. by exists e.
Qed.

(** The exchange that sets up a hole: once the visitor's request was
    forwarded, the owner's answer is put into the channel of the visitor's
    control, with the owner's public address and, if the answer has none, the
    relay address of the proxy; a further answer for the same visitor is
    dropped. *)
Theorem hole_exchange visitor msg h owner resp again o_self v_self sk addr :
  parse_signed_msg (nv_signed_msg msg) = Ok (sk, addr) →
  get_xtcp_owner (hub_pm h) (nv_proxy_name msg) = Some owner → xi_sk owner = sk →
  hub_controls h !! xi_run_id owner = Some o_self → hub_controls h !! visitor = Some v_self →
  nr_visitor_addr resp = public_addr h visitor addr → nr_visitor_addr again = nr_visitor_addr resp →
  ∃ h1 h2 h3,
    handle_visitor visitor msg h = (h1, Ok None) ∧
    handle_client_resp (xi_run_id owner) resp h1 = (h2, Ok tt) ∧
    hub_heap h2 = alter (enqueue (NatHoleResp (mkNatHoleRespMsg (nr_visitor_addr resp)
                      (public_addr h1 (xi_run_id owner) (nr_client_addr resp))
                      (if is_empty (nr_relay_addr resp) then xi_relay_addr owner else nr_relay_addr resp)
                      (nr_error resp)))) v_self (hub_heap h1) ∧
    handle_client_resp (xi_run_id owner) again h2 = (h3, Ok tt) ∧ hub_heap h3 = hub_heap h2.
Proof.
  intros Hparse Hown Hsk Ho Hv Hresp Hagain. pose proof (handle_visitor_cases visitor msg h) as Hc. cbv zeta in Hc.
  destruct (handle_visitor visitor msg h) as [h1 [reply|e]]; [|destruct Hc; congruence].
  destruct Hc as (sk' & addr' & Hp & Hc). rewrite Hparse in Hp. injection Hp as <- <-.
  rewrite Hown in Hc. destruct reply as [r|]; [naive_solver|].
  destruct Hc as (_ & self & _ & _ & _ & Hcs & Hh & _ & _ & _ & Hn).
  destruct (handle_client_resp_forwards (xi_run_id owner) resp
    (mkPendingNatVisitor visitor (nv_proxy_name msg) (xi_relay_addr owner)) v_self h1) as (h2 & E2 & L2).
  { rewrite Hn, Hresp. apply lookup_insert_eq. }
  { by rewrite Hcs. }
  destruct L2 as (_ & _ & _ & Hh2 & _ & _ & _ & Hn2).
  destruct (handle_client_resp_dropped (xi_run_id owner) again h2) as (h3 & E3 & L3).
  { rewrite Hn2, Hagain. apply lookup_delete_eq. }
  exists h1, h2, h3. split_and!; try done. apply L3.
Qed.

(** A visitor that is told that the owner is offline stays remembered, and
    the answer for it is taken from any client: whoever names its address gets
    a hole response of its choice, error-free and with its own address,
    delivered to the visitor. *)
Theorem offline_visitor_hijacked visitor msg h owner v_self sk addr attacker resp :
  parse_signed_msg (nv_signed_msg msg) = Ok (sk, addr) →
  get_xtcp_owner (hub_pm h) (nv_proxy_name msg) = Some owner → xi_sk owner = sk →
  hub_controls h !! xi_run_id owner = None → hub_controls h !! visitor = Some v_self →
  nr_visitor_addr resp = public_addr h visitor addr → is_empty (nr_relay_addr resp) = false →
  ∃ h1 h2,
    handle_visitor visitor msg h = (h1, Ok (Some (mkNatHoleRespMsg "" "" "" "owner client offline"))) ∧
    handle_client_resp attacker resp h1 = (h2, Ok tt) ∧
    hub_heap h2 = alter (enqueue (NatHoleResp (mkNatHoleRespMsg (nr_visitor_addr resp)
                      (public_addr h1 attacker (nr_client_addr resp)) (nr_relay_addr resp) (nr_error resp))))
                    v_self (hub_heap h).
Proof.
  intros Hparse Hown Hsk Ho Hv Hresp Hrel. pose proof (handle_visitor_cases visitor msg h) as Hc. cbv zeta in Hc.
  destruct (handle_visitor visitor msg h) as [h1 [reply|e]]; [|destruct Hc; congruence].
  destruct Hc as (sk' & addr' & Hp & Hc). rewrite Hparse in Hp. injection Hp as <- <-.
  rewrite Hown in Hc. destruct reply as [r|]; [|naive_solver].
  destruct Hc as [[? _]|(_ & _ & -> & _ & _ & Hcs & Hh & _ & _ & _ & Hn)]; [done|].
  destruct (handle_client_resp_forwards attacker resp
    (mkPendingNatVisitor visitor (nv_proxy_name msg) (xi_relay_addr owner)) v_self h1) as (h2 & E2 & L2).
  { rewrite Hn, Hresp. apply lookup_insert_eq. }
  { by rewrite Hcs. }
  exists h1, h2. split; [done|]. split; [done|]. destruct L2 as (_ & _ & _ & -> & _).
  rewrite Hrel. simpl. by rewrite Hh.
Qed.

End NatHole.

(** ** Witnesses *)

Module ToyNat.
#[local] Existing Instances ToyProxyManager.json ToyProxyManager.lower ToyProxyManager.iter.

Definition control (run_id peer : string) : Control :=
  control_new run_id "" peer "k" 1 "" "" "" "" 1 90.
Definition pm : ProxyManager :=
  pm_set_xtcp {[ "cam"%string := mkXtcpProxyInfo "own" "s3" "0.0.0.0:7001" ]} (pm_new "0.0.0.0" "" 0 0).
Definition hub (controls : gmap string Z) : Hub ResourceController :=
  set_controls controls {[ 1 := control "own" "5.6.7.8:40"; 2 := control "vis" "1.2.3.4:50" ]} 3
    (hub_new pm ToyProxyManager.rc0).
Definition msg : NatHoleVisitorMsg := mkNatHoleVisitorMsg "cam" "s3|127.0.0.1:999".
Definition resp : NatHoleRespMsg := mkNatHoleRespMsg "1.2.3.4:999" "0.0.0.0:77" "" "".
Definition forged : NatHoleRespMsg := mkNatHoleRespMsg "1.2.3.4:999" "6.6.6.6:77" "6.6.6.6:78" "".

Lemma hole_exchange_witness :
  let h := hub {[ "own"%string := 1; "vis"%string := 2 ]} in
  ∃ h1 h2 h3, handle_visitor "vis" msg h = (h1, Ok None) ∧
    handle_client_resp "own" resp h1 = (h2, Ok tt) ∧
    handle_client_resp "own" resp h2 = (h3, Ok tt) ∧ hub_heap h3 = hub_heap h2.
Proof.
  intros h.
  destruct (hole_exchange "vis" msg h (mkXtcpProxyInfo "own" "s3" "0.0.0.0:7001") resp resp 1 2
              "s3" "127.0.0.1:999") as (h1 & h2 & h3 & E1 & E2 & _ & E3 & E4);
    [vm_compute; reflexivity ..|].
  exists h1, h2, h3. exact (conj E1 (conj E2 (conj E3 E4))).
Defined.

Lemma offline_visitor_hijacked_witness :
  let h := hub {[ "vis"%string := 2 ]} in
  ∃ h1 h2, handle_visitor "vis" msg h
             = (h1, Ok (Some (mkNatHoleRespMsg "" "" "" "owner client offline"))) ∧
    handle_client_resp "evil" forged h1 = (h2, Ok tt).
Proof.
  intros h.
  destruct (offline_visitor_hijacked "vis" msg h (mkXtcpProxyInfo "own" "s3" "0.0.0.0:7001") 2
              "s3" "127.0.0.1:999" "evil" forged) as (h1 & h2 & E1 & E2 & _);
    [vm_compute; reflexivity ..|].
  exists h1, h2. exact (conj E1 E2).
Defined.
End ToyNat.
