(* ===== verification/Control.v ===== *)
(** * The control connection of a client (crates/arp-server/src/control/mod.rs)

    The handlers of [Control] and its [run] loop.  A turn of the loop serves
    one branch of the [select!]; what the other tasks of the server do between
    two turns is part of the turn.  The pool of work connections is also
    given as a step relation in which the request handler, which takes and
    releases the locks several times, interleaves with the delivery of work
    connections by other tasks. *)
From S2P Require Import Prelude RustString Errors Protocol Config Auth Resource Vhost.
From S2P Require Import ProxyManager Hub NatHole.
Local Open Scope Z_scope.

(** The branches of the [select!] with what they got. *)
Inductive select_event `{Json} :=
| Cancelled
| HeartbeatDeadline
| Received (msg : Result (option Message))
| WorkConnReq
| OutboundMsg.

Section Control.
Context `{Json} `{UnicodeLower} `{DashIter} {R : Type} `{PortAllocator R}.
Variable authenticator : Authenticator.
Abbreviation HM A := (st (Hub R) Error.t A).

(** ** Work connections *)

(** [idle.pop()]. *)
Definition pop_idle (self : Z) : HM (option Conn) :=
  c ← deref self;
  _ ← upd_control self (fun c => c_set_idle (List.removelast (c_idle_work_conns c)) c);
  mret (last (c_idle_work_conns c)).

(** [pending.push_back(req)] and [pending.pop_back()]. *)
Definition push_pending (self : Z) (req : WorkConnRequest) : HM unit :=
  upd_control self (fun c => c_set_pending (c_pending_work_conns c ++ [req]) c).
Definition pop_back_pending (self : Z) : HM unit :=
  upd_control self (fun c => c_set_pending (List.removelast (c_pending_work_conns c)) c).

Definition idle_err : Error.t := Error.Transport "failed to send idle work connection".

(** The end of [handle_work_conn_request]: announce the request to the client,
    and take it back when that fails. *)
Definition announce (env : Env) (self : Z) (transport : Conn) (req : WorkConnRequest) : HM unit :=
  on_err (transport_send env transport (ReqWorkConn (mkReqWorkConnMsg (wr_proxy_name req))))
    (fun e => _ ← pop_back_pending self; st_fail e)
    (mret tt).

Definition handle_work_conn_request (env : Env) (self : Z) (transport : Conn) (req : WorkConnRequest)
  : HM unit :=
  _ ← inc req_work_conn_total;
  idle_conn ← pop_idle self;
  match idle_conn with
  | Some idle_conn =>
      _ ← inc idle_work_conn_hits_total;
      reply_send (wr_reply_tx req) idle_conn idle_err
  | None =>
      _ ← push_pending self req;
      announce env self transport req
  end.

Definition work_conn_err : Error.t := Error.Transport "Failed to send work connection to proxy".

Definition handle_work_conn (self : Z) (transport : Conn) : HM unit :=
  c ← deref self;
  match c_pending_work_conns c with
  | [] => upd_control self (fun c => c_set_idle (c_idle_work_conns c ++ [transport]) c)
  | req :: rest =>
      _ ← upd_control self (c_set_pending rest);
      reply_send (wr_reply_tx req) transport work_conn_err
  end.

(** ** Proxies *)

Definition new_proxy_resp (name remote_addr error : string) : Message :=
  NewProxyResp (mkNewProxyRespMsg name remote_addr error).

(** A call whose [Result] is inspected instead of returned. *)
Definition attempt {A} (m : HM A) : HM (Result A) := fun h => let '(h', r) := m h in (h', Ok r).

(** The last part of [handle_new_proxy], from the authorization on. *)
Definition authorize_and_register (env : Env) (self : Z) (transport : Conn) (msg : NewProxyMsg) : HM unit :=
  let name := np_proxy_name msg in
  c ← deref self;
  match auth_authorize_proxy authenticator (c_privilege_key c) (c_pool_count c) msg with
  | Err e =>
      _ ← inc auth_failures_total;
      transport_send env transport (new_proxy_resp name "" (error_to_string e))
  | Ok _ =>
      result ← attempt (on_pm (register_proxy (env_binds env) (c_run_id c) msg self));
      match result with
      | Ok remote_addr =>
          _ ← inc proxy_registrations_total;
          _ ← emit (ProxyRegistered (c_client_id c) (c_run_id c) name (np_proxy_type msg) remote_addr);
          transport_send env transport (new_proxy_resp name remote_addr "")
      | Err e =>
          _ ← inc proxy_registration_failures_total;
          _ ← emit (ProxyRejected (c_client_id c) (c_run_id c) name (error_to_string e));
          transport_send env transport (new_proxy_resp name "" (error_to_string e))
      end
  end.

Definition in_use_err (name : string) : string :=
  "proxy name " +:+ name +:+ " is already in use by another client".

(** [if self.proxy_manager.evict_proxy_by_name(name).is_some() { shutdown_run(owner) }]. *)
Definition take_over (name : string) (owner : ProxyOwner) : HM unit :=
  evicted ← on_pm (evict_proxy_by_name name);
  match evicted with
  | Some _ => shutdown_run (po_run_id owner)
  | None => mret tt
  end.

Definition handle_new_proxy (env : Env) (self : Z) (transport : Conn) (msg : NewProxyMsg) : HM unit :=
  let name := np_proxy_name msg in
  c ← deref self;
  owner ← hub_gets (fun h => find_proxy_owner h name);
  match owner with
  | None => authorize_and_register env self transport msg
  | Some owner =>
      if bool_decide (po_run_id owner = c_run_id c) then authorize_and_register env self transport msg
      else if negb (is_empty (po_client_id owner)) && bool_decide (po_client_id owner = c_client_id c) then
        _ ← take_over name owner;
        authorize_and_register env self transport msg
      else transport_send env transport (new_proxy_resp name "" (in_use_err name))
  end.

Definition handle_close_proxy (self : Z) (msg : CloseProxyMsg) : HM unit :=
  c ← deref self;
  _ ← emit (ProxyClosed (c_run_id c) (cp_proxy_name msg));
  on_pm (unregister_proxy (c_run_id c) (cp_proxy_name msg)).

Definition handle_ping (env : Env) (self : Z) (transport : Conn) (msg : PingMsg) : HM unit :=
  _ ← st_lift (auth_verify_ping authenticator msg);
  transport_send env transport (Pong (mkPongMsg (env_now env))).

Definition handle_nathole_visitor (env : Env) (self : Z) (transport : Conn) (msg : NatHoleVisitorMsg)
  : HM unit :=
  c ← deref self;
  resp ← handle_visitor (c_run_id c) msg;
  match resp with
  | Some resp => transport_send env transport (NatHoleResp resp)
  | None => mret tt
  end.

Definition handle_nathole_resp (self : Z) (msg : NatHoleRespMsg) : HM unit :=
  c ← deref self;
  handle_client_resp (c_run_id c) msg.

(** ** [run] *)

(** The [match] over the message received; errors are logged. *)
Definition handle_message (env : Env) (self : Z) (transport : Conn) (msg : Message) : HM unit :=
  match msg with
  | NewProxy m => log_err (handle_new_proxy env self transport m)
  | CloseProxy m => log_err (handle_close_proxy self m)
  | Ping m => log_err (handle_ping env self transport m)
  | NatHoleVisitor m => log_err (handle_nathole_visitor env self transport m)
  | NatHoleResp m => log_err (handle_nathole_resp self m)
  | _ => mret tt
  end.

(** One turn of the loop; [Some r] when the loop returns [r]. *)
Definition run_select (env : Env) (self : Z) (transport : Conn) (ev : select_event)
  : HM (option (Result unit)) :=
  match ev with
  | Cancelled => mret (Some (Err (Error.Transport "connection superseded")))
  | HeartbeatDeadline => mret (Some (Err (Error.Timeout "server heartbeat timeout")))
  | Received (Err e) => mret (Some (Err e))
  | Received (Ok None) => mret (Some (Ok tt))
  | Received (Ok (Some msg)) => _ ← handle_message env self transport msg; mret None
  | WorkConnReq =>
      c ← deref self;
      match c_work_conn_reqs c with
      | [] => mret None
      | req :: rest =>
          _ ← upd_control self (c_set_reqs rest);
          _ ← log_err (handle_work_conn_request env self transport req);
          mret None
      end
  | OutboundMsg =>
      c ← deref self;
      match c_outbound c with
      | [] => mret None
      | msg :: rest =>
          _ ← upd_control self (c_set_outbound rest);
          _ ← log_err (transport_send env transport msg);
          mret None
      end
  end.

(** A turn: what the other tasks did before it, and the branch taken. *)
Record turn := mkTurn { turn_others : Hub R → Hub R; turn_env : Env; turn_event : select_event }.

(** The loop over the turns it gets; [None] when they are used up. *)
Fixpoint run_loop (self : Z) (transport : Conn) (turns : list turn) : HM (option (Result unit)) :=
  match turns with
  | [] => mret None
  | t :: rest =>
      _ ← st_modify (turn_others t);
      r ← run_select (turn_env t) self transport (turn_event t);
      match r with
      | Some r => mret (Some r)
      | None => run_loop self transport rest
      end
  end.

Definition control_run (self : Z) (turns : list turn) : HM (option (Result unit)) :=
  c ← deref self;
  match c_transport c with
  | None => st_fail (Error.Transport "Control transport already taken")
  | Some transport =>
      _ ← upd_control self (c_set_transport None);
      run_loop self transport turns
  end.

(** ** The pool of work connections under interleaving *)

(** Where the control task is in [handle_work_conn_request]: at the [select!],
    past the idle pool with a request in hand, or with the request queued and
    its announcement being sent. *)
Inductive pc := AtSelect | NoIdle (req : WorkConnRequest) | Queued (req : WorkConnRequest).

(** A connection that was never delivered and is not in the pool. *)
Definition fresh_conn (self : Z) (conn : Conn) (h : Hub R) : Prop :=
  (∀ c, hub_heap h !! self = Some c → conn ∉ c_idle_work_conns c) ∧
  ∀ tx, hub_replies h !! tx ≠ Some (Delivered conn).

Inductive pool_step (self : Z) (transport : Conn) : Hub R * pc → Hub R * pc → Prop :=
| pl_request h p tx name e :                       (* a proxy sends a request *)
    hub_replies h !! tx = None →
    pool_step self transport (h, p)
      ((request_send self (mkWorkConnRequest name tx) e
          (set_replies (<[tx := Waiting]> (hub_replies h)) h)).1, p)
| pl_give_up h p tx :                              (* a proxy stops waiting *)
    hub_replies h !! tx = Some Waiting →
    pool_step self transport (h, p) (set_replies (<[tx := Gone]> (hub_replies h)) h, p)
| pl_deliver h p conn :                            (* a work connection arrives *)
    fresh_conn self conn h →
    pool_step self transport (h, p) ((handle_work_conn self conn h).1, p)
| pl_idle h c req rest conn env :                  (* a request is served from the pool *)
    hub_heap h !! self = Some c → c_work_conn_reqs c = req :: rest →
    last (c_idle_work_conns c) = Some conn →
    pool_step self transport (h, AtSelect)
      (((_ ← upd_control self (c_set_reqs rest); handle_work_conn_request env self transport req) h).1, AtSelect)
| pl_no_idle h c req rest :
    hub_heap h !! self = Some c → c_work_conn_reqs c = req :: rest → c_idle_work_conns c = [] →
    pool_step self transport (h, AtSelect)
      (((_ ← upd_control self (c_set_reqs rest); _ ← inc req_work_conn_total; pop_idle self) h).1, NoIdle req)
| pl_push h req :
    pool_step self transport (h, NoIdle req) ((push_pending self req h).1, Queued req)
| pl_announce h req env :
    pool_step self transport (h, Queued req) ((announce env self transport req h).1, AtSelect).

(** The requests that have no connection yet, the one in hand included. *)
Definition in_hand (p : pc) : list WorkConnRequest := match p with NoIdle req => [req] | _ => [] end.
Definition unserved (c : Control) (p : pc) : list WorkConnRequest :=
  c_pending_work_conns c ++ in_hand p ++ c_work_conn_reqs c.

Record pool_ok (c : Control) (replies : gmap Z Reply) (p : pc) : Prop := {
  po_nodup : NoDup (wr_reply_tx <$> unserved c p);
  po_unserved : ∀ tx, tx ∈ wr_reply_tx <$> unserved c p →
    replies !! tx = Some Waiting ∨ replies !! tx = Some Gone;
  po_idle : NoDup (c_idle_work_conns c);
  po_not_both : ∀ conn tx, conn ∈ c_idle_work_conns c → replies !! tx ≠ Some (Delivered conn);
  po_once : ∀ conn tx1 tx2, replies !! tx1 = Some (Delivered conn) →
    replies !! tx2 = Some (Delivered conn) → tx1 = tx2;
  po_queued : ∀ req, p = Queued req → c_pending_work_conns c = [] ∨ last (c_pending_work_conns c) = Some req;
}.

Definition pool_inv (self : Z) (s : Hub R * pc) : Prop :=
  ∃ c, hub_heap s.1 !! self = Some c ∧ pool_ok c (hub_replies s.1) s.2.

Inductive pool_reachable (self : Z) (transport : Conn) : Hub R * pc → Prop :=
| plr_new h c : hub_heap h !! self = Some c → hub_replies h = ∅ →
    c_work_conn_reqs c = [] → c_pending_work_conns c = [] → c_idle_work_conns c = [] →
    pool_reachable self transport (h, AtSelect)
| plr_step s s' : pool_reachable self transport s → pool_step self transport s s' →
    pool_reachable self transport s'.

Lemma pool_ok_less c c' replies p p' l :
  pool_ok c replies p → unserved c p ≡ₚ l ++ unserved c' p' → c_idle_work_conns c' = c_idle_work_conns c →
  (∀ req, p' = Queued req → c_pending_work_conns c' = [] ∨ last (c_pending_work_conns c') = Some req) →
  pool_ok c' replies p'.
Proof.
  intros [Hnd Hun Hi Hb Ho _] Hp He Hq. rewrite Hp, fmap_app in Hnd. split; rewrite ?He; try done.
  - by apply NoDup_app in Hnd as (_ & _ & ?).
  - intros tx Htx. apply Hun. rewrite Hp, fmap_app, elem_of_app. by right.
Qed.

(** A request leaves the queues, with a connection if its receiver waits. *)
Lemma pool_ok_serve c c' replies p p' req conn :
  pool_ok c replies p → unserved c p ≡ₚ req :: unserved c' p' →
  NoDup (c_idle_work_conns c') → (conn ∉ c_idle_work_conns c') →
  (∀ x, x ∈ c_idle_work_conns c' → x ∈ c_idle_work_conns c) →
  (∀ tx, replies !! tx ≠ Some (Delivered conn)) →
  (∀ req, p' = Queued req → c_pending_work_conns c' = [] ∨ last (c_pending_work_conns c') = Some req) →
  pool_ok c' (match replies !! wr_reply_tx req with
              | Some Waiting => <[wr_reply_tx req := Delivered conn]> replies | _ => replies end) p'.
Proof.
  intros [Hnd Hun Hi Hb Ho _] Hp Hnd' Hconn Hsub Hnew Hq.
  rewrite Hp, fmap_cons in Hnd. apply NoDup_cons in Hnd as [Htx Hnd].
  assert (∀ tx, tx ∈ wr_reply_tx <$> unserved c' p' →
    replies !! tx = Some Waiting ∨ replies !! tx = Some Gone) as Hun'.
  { intros tx Hin. apply Hun. rewrite Hp, fmap_cons, elem_of_cons. by right. }
  destruct (replies !! wr_reply_tx req) as [[]|] eqn:E; [|split; naive_solver..].
  split; try done.
  - intros tx Hin. rewrite lookup_insert_ne by (intros <-; done). by apply Hun'.
  - intros x tx Hx. destruct (decide (tx = wr_reply_tx req)) as [->|Hne].
    + rewrite lookup_insert_eq. intros [= ->]. done.
    + rewrite lookup_insert_ne by done. by apply Hb, Hsub.
  - intros x tx1 tx2. rewrite !lookup_insert_Some. naive_solver.
Qed.

Lemma pool_ok_idle c c' replies p conn :
  pool_ok c replies p → unserved c' p = unserved c p → c_pending_work_conns c' = c_pending_work_conns c →
  c_idle_work_conns c' = c_idle_work_conns c ++ [conn] → (conn ∉ c_idle_work_conns c) →
  (∀ tx, replies !! tx ≠ Some (Delivered conn)) → pool_ok c' replies p.
Proof.
  intros [Hnd Hun Hi Hb Ho Hq] Hu Hpe He Hconn Hnew. split; rewrite ?Hu, ?He, ?Hpe; try done.
  - rewrite NoDup_app. split; [done|]. split; [set_solver|apply NoDup_singleton].
  - intros x tx. rewrite elem_of_app, list_elem_of_singleton. naive_solver.
Qed.

Lemma pool_ok_request c c' replies p req :
  pool_ok c replies p → replies !! wr_reply_tx req = None →
  unserved c' p = unserved c p ++ [req] → c_pending_work_conns c' = c_pending_work_conns c →
  c_idle_work_conns c' = c_idle_work_conns c → pool_ok c' (<[wr_reply_tx req := Waiting]> replies) p.
Proof.
  intros [Hnd Hun Hi Hb Ho Hq] Hnew Hu Hpe He.
  assert (wr_reply_tx req ∉ wr_reply_tx <$> unserved c p) as Hni.
  { intros Hin. destruct (Hun _ Hin); congruence. }
  split; rewrite ?He, ?Hpe; try done.
  - rewrite Hu, fmap_app, NoDup_app. csimpl. split; [done|]. split; [set_solver|apply NoDup_singleton].
  - intros tx. rewrite Hu, fmap_app, elem_of_app. csimpl. rewrite list_elem_of_singleton.
    intros [Hin| ->]; [|left; apply lookup_insert_eq]. rewrite lookup_insert_ne by congruence. auto.
  - intros x tx Hx. rewrite lookup_insert_Some. naive_solver.
  - intros x tx1 tx2. rewrite !lookup_insert_Some. naive_solver.
Qed.

Lemma pool_ok_give_up c replies p tx :
  pool_ok c replies p → replies !! tx = Some Waiting → pool_ok c (<[tx := Gone]> replies) p.
Proof.
  intros [Hnd Hun Hi Hb Ho Hq] Htx. split; try done.
  - intros tx' Hin. rewrite !lookup_insert_Some. destruct (decide (tx = tx')); [naive_solver|].
    destruct (Hun _ Hin); naive_solver.
  - intros x tx' Hx. rewrite lookup_insert_Some. naive_solver.
  - intros x tx1 tx2. rewrite !lookup_insert_Some. naive_solver.
Qed.

Lemma upd_control_lookup self f (h : Hub R) c :
  hub_heap h !! self = Some c → hub_heap (upd_control self f h).1 !! self = Some (f c).
Proof. intros Hc. unfold upd_control, st_modify. simpl. by rewrite lookup_alter_eq, Hc. Qed.

Lemma reply_send_state tx conn e (h : Hub R) :
  hub_heap (reply_send tx conn e h).1 = hub_heap h ∧
  hub_replies (reply_send tx conn e h).1 =
    match hub_replies h !! tx with
    | Some Waiting => <[tx := Delivered conn]> (hub_replies h) | _ => hub_replies h end.
Proof. unfold reply_send. by destruct (hub_replies h !! tx) as [[]|]. Qed.

(** A work connection goes to the oldest pending request, or to the pool. *)
Lemma handle_work_conn_state self conn (h : Hub R) c :
  hub_heap h !! self = Some c →
  let h' := (handle_work_conn self conn h).1 in
  match c_pending_work_conns c with
  | [] => hub_replies h' = hub_replies h ∧
          hub_heap h' !! self = Some (c_set_idle (c_idle_work_conns c ++ [conn]) c)
  | req :: rest =>
      hub_heap h' !! self = Some (c_set_pending rest c) ∧
      hub_replies h' = match hub_replies h !! wr_reply_tx req with
        | Some Waiting => <[wr_reply_tx req := Delivered conn]> (hub_replies h) | _ => hub_replies h end
  end.
Proof.
  intros Hc. unfold handle_work_conn, deref. cbv [mbind st_bind]. rewrite Hc. cbv [ok_or]. cbv zeta.
  destruct (c_pending_work_conns c) as [|req rest].
  - split; [done|]. exact (upd_control_lookup self (fun c => c_set_idle (c_idle_work_conns c ++ [conn]) c) h c Hc).
  - pose proof (upd_control_lookup self (c_set_pending rest) h c Hc) as Hu.
    set (h1 := (upd_control self (c_set_pending rest) h).1) in *.
    change (upd_control self (c_set_pending rest) h) with (h1, @Ok Error.t unit tt). cbv beta iota.
    destruct (reply_send_state (wr_reply_tx req) conn work_conn_err h1) as [-> ->]. done.
Qed.

Lemma handle_request_idle env self transport req (h : Hub R) c conn :
  hub_heap h !! self = Some c → last (c_idle_work_conns c) = Some conn →
  let h' := (handle_work_conn_request env self transport req h).1 in
  hub_heap h' !! self = Some (c_set_idle (List.removelast (c_idle_work_conns c)) c) ∧
  hub_replies h' = match hub_replies h !! wr_reply_tx req with
    | Some Waiting => <[wr_reply_tx req := Delivered conn]> (hub_replies h) | _ => hub_replies h end.
Proof.
  intros Hc Hl. unfold handle_work_conn_request, pop_idle, deref. cbv [mbind st_bind inc st_modify mret st_ret].
  simpl hub_heap. rewrite Hc. cbv [ok_or upd_control st_modify]. rewrite Hl. cbv zeta.
  split; match goal with |- context [reply_send ?tx ?cn ?e ?h1] =>
    destruct (reply_send_state tx cn e h1) as [Hh Hr] end; [rewrite Hh|rewrite Hr]; [|done].
  simpl. by rewrite lookup_alter_eq, Hc.
Qed.

Lemma announce_state env self transport req (h : Hub R) c :
  hub_heap h !! self = Some c →
  let h' := (announce env self transport req h).1 in
  hub_replies h' = hub_replies h ∧
  (hub_heap h' !! self = Some c ∨
   hub_heap h' !! self = Some (c_set_pending (List.removelast (c_pending_work_conns c)) c)).
Proof.
  intros Hc. unfold announce, on_err, transport_send. cbv [mbind st_bind st_lift mret st_ret st_modify].
  destruct (env_send _ _ _) as [u|e]; simpl; [by eauto|]. split; [done|]. right.
  by rewrite lookup_alter_eq, Hc.
Qed.

Lemma pool_idle_inv self transport (h : Hub R) c req rest conn env :
  hub_heap h !! self = Some c → pool_ok c (hub_replies h) AtSelect → c_work_conn_reqs c = req :: rest →
  last (c_idle_work_conns c) = Some conn →
  pool_inv self
    (((_ ← upd_control self (c_set_reqs rest); handle_work_conn_request env self transport req) h).1, AtSelect).
Proof.
  intros Hc Hok Hr Hl. apply last_Some in Hl as [l Hl].
  cbv [mbind st_bind upd_control st_modify].
  match goal with |- pool_inv _ (((handle_work_conn_request _ _ _ _ ?h1).1), _) =>
    destruct (handle_request_idle env self transport req h1 (c_set_reqs rest c) conn) as [H1' H2'] end;
    [simpl; by rewrite lookup_alter_eq, Hc|simpl; rewrite Hl; apply last_snoc|].
  eexists. split; [exact H1'|]. simpl. rewrite H2'. simpl. pose proof (po_idle _ _ _ Hok) as Hn.
  rewrite Hl in *. rewrite List.removelast_last in *. rewrite NoDup_app in Hn. destruct Hn as (Hn & Hd & _).
  apply (pool_ok_serve c _ _ AtSelect); simpl; rewrite ?Hl; try done.
  - unfold unserved. simpl. rewrite Hr. by rewrite Permutation_middle.
  - intros Hin. apply (Hd _ Hin). by apply list_elem_of_singleton.
  - intros x Hx. apply elem_of_app. by left.
  - intros tx. apply (po_not_both _ _ _ Hok). rewrite Hl. set_solver.
Qed.

Lemma pool_announce_inv self transport (h : Hub R) c req env :
  hub_heap h !! self = Some c → pool_ok c (hub_replies h) (Queued req) →
  pool_inv self ((announce env self transport req h).1, AtSelect).
Proof.
  intros Hc Hok.
  destruct (announce_state env self transport req h c Hc) as [H1' [H2'|H2']];
    (eexists; split; [exact H2'|]; simpl; rewrite H1').
  - by apply (pool_ok_less c _ _ (Queued req) _ []).
  - destruct (po_queued _ _ _ Hok req eq_refl) as [E|[l E]%last_Some].
    + apply (pool_ok_less c _ _ (Queued req) _ []); try done. unfold unserved. simpl. by rewrite E.
    + apply (pool_ok_less c _ _ (Queued req) _ [req]); try done. unfold unserved. simpl.
      rewrite E, List.removelast_last, <- app_assoc. symmetry. apply Permutation_middle.
Qed.

(** Without interleaving the steps are the handler. *)
Lemma handler_is_steps self transport env (h : Hub R) c req rest :
  hub_heap h !! self = Some c → c_work_conn_reqs c = req :: rest →
  rtc (pool_step self transport) (h, AtSelect)
    (((_ ← upd_control self (c_set_reqs rest); handle_work_conn_request env self transport req) h).1, AtSelect).
Proof.
  intros Hc Hr. destruct (last (c_idle_work_conns c)) as [conn|] eqn:Hl.
  { apply rtc_once. by apply (pl_idle _ _ _ c req rest conn). }
  apply last_None in Hl. eapply rtc_l; [by apply (pl_no_idle _ _ _ c req rest)|].
  eapply rtc_l; [apply pl_push|]. eapply rtc_l; [apply (pl_announce _ _ _ _ env)|].
  unfold handle_work_conn_request, pop_idle, deref.
  cbv [mbind st_bind upd_control st_modify inc mret st_ret push_pending]. simpl hub_heap.
  rewrite lookup_alter_eq, Hc. cbv [ok_or fmap option_fmap option_map].
  change (c_idle_work_conns (c_set_reqs rest c)) with (c_idle_work_conns c). rewrite Hl. apply rtc_refl.
Qed.

Lemma pool_step_inv self transport s s' : pool_inv self s → pool_step self transport s s' → pool_inv self s'.
Proof.
  intros (c & Hc & Hok) Hs.
  destruct Hs as [h p tx name e Htx|h p tx Htx|h p conn [Hf1 Hf2]|h c' req rest conn env Hc' Hr Hl
                 |h c' req rest Hc' Hr Hi|h req|h req env]; simpl in *.
  - unfold request_send. simpl. rewrite Hc. eexists. split; [by apply (upd_control_lookup _ _ _ c)|].
    apply (pool_ok_request c _ _ p (mkWorkConnRequest name tx)); try done.
    unfold unserved. simpl. by rewrite <- !app_assoc.
  - exists c. split; [done|]. by apply pool_ok_give_up.
  - specialize (Hf1 c Hc). pose proof (handle_work_conn_state self conn h c Hc) as Hst.
    destruct (c_pending_work_conns c) as [|req rest] eqn:Hp; cbv zeta in Hst; destruct Hst as [H1' H2'].
    + eexists. split; [exact H2'|]. simpl. rewrite H1'. by eapply pool_ok_idle.
    + eexists. split; [exact H1'|]. simpl. rewrite H2'.
      apply (pool_ok_serve c _ _ p); try done; [unfold unserved; simpl; by rewrite Hp|apply Hok|].
      intros r ->. destruct (po_queued _ _ _ Hok r eq_refl) as [E|E]; rewrite Hp in E; [done|].
      destruct rest; [by left|by right].
  - assert (c' = c) as -> by congruence. by apply (pool_idle_inv self transport h c req rest conn).
  - assert (c' = c) as -> by congruence. unfold pop_idle, deref.
    cbv [mbind st_bind upd_control st_modify inc mret st_ret]. simpl.
    rewrite lookup_alter_eq, Hc. simpl. eexists. split; [simpl; by rewrite !lookup_alter_eq, Hc|].
    simpl. apply (pool_ok_less c _ _ AtSelect _ []); [done|..]; simpl; try done; [|by rewrite Hi].
    unfold unserved. simpl. by rewrite Hr.
  - eexists. split; [by apply (upd_control_lookup _ _ _ c)|]. simpl.
    apply (pool_ok_less c _ _ (NoIdle req) _ []); [done|..]; simpl; try done.
    + unfold unserved. simpl. by rewrite <- app_assoc.
    + intros r [= ->]. right. apply last_snoc.
  - by apply (pool_announce_inv self transport h c).
Qed.

Lemma pool_reachable_inv self transport s : pool_reachable self transport s → pool_inv self s.
Proof.
  induction 1 as [h c Hc Hr Hq Hp Hi|s s' _ IH Hs]; [|by apply (pool_step_inv _ _ _ _ IH Hs)].
  exists c. split; [done|]. simpl. rewrite Hr. unfold unserved.
  split; unfold unserved; rewrite ?Hq, ?Hp, ?Hi; simpl; try done; try apply NoDup_nil_2.
  by intros tx ?%not_elem_of_nil.
Qed.

(** ** Registration *)

Context `{!PortAllocatorSpec R}.

Definition pm_of (h : Hub R) : ProxyManager * R := (hub_pm h, hub_rc h).

(** What the handlers read of a control. *)
Definition same_client (c c' : Control) : Prop :=
  c_run_id c' = c_run_id c ∧ c_client_id c' = c_client_id c ∧
  c_privilege_key c' = c_privilege_key c ∧ c_pool_count c' = c_pool_count c.

(** The one response to a registration, and what it says. *)
Definition answered (h h' : Hub R) (transport : Conn) (c : Control) (msg : NewProxyMsg) : Prop :=
  ∃ addr err, hub_wire h' = hub_wire h ++ [(transport, new_proxy_resp (np_proxy_name msg) addr err)] ∧
  (err = ""%string →
     auth_authorize_proxy authenticator (c_privilege_key c) (c_pool_count c) msg = Ok tt ∧
     pm_records (hub_pm h') !! proxy_key_of (c_run_id c) (np_proxy_name msg)
       = Some (mkProxyRecord (c_run_id c) (np_proxy_name msg) (np_proxy_type msg) addr) ∧
     is_Some (pm_proxies (hub_pm h') !! proxy_key_of (c_run_id c) (np_proxy_name msg))) ∧
  (err ≠ ""%string → pm_proxies (hub_pm h') ⊆ pm_proxies (hub_pm h)).

Lemma authorize_and_register_spec env self transport msg (h : Hub R) c :
  (∀ m, env_send env transport m = Ok tt) → pm_inv (pm_of h) → hub_heap h !! self = Some c →
  answered h (authorize_and_register env self transport msg h).1 transport c msg.
Proof.
  intros Hsend Hinv Hc. unfold authorize_and_register, deref, transport_send, attempt, on_pm, zoom.
  cbv [mbind st_bind mret st_ret]. rewrite Hc. cbv [ok_or].
  destruct (auth_authorize_proxy _ _ _ _) as [[]|e] eqn:Ha.
  - pose proof (register_proxy_cases (env_binds env) (c_run_id c) msg self (pm_of h) Hinv) as Hreg. cbv zeta in Hreg.
    unfold pm_of in Hreg. destruct (register_proxy _ _ _ _ _) as [s' [addr|e]];
      cbv [inc emit st_modify st_lift]; rewrite Hsend; simpl.
    + exists addr, ""%string. split; [done|]. split; [|done]. intros _.
      destruct Hreg as (_ & _ & [p Hp] & Hr). simpl. rewrite Hp, Hr, !lookup_insert_eq. eauto.
    + exists ""%string, (error_to_string e). split; [done|]. split; [by intros ?%error_to_string_nonempty|].
      intros _. simpl. destruct Hreg as [E _]. rewrite E. done.
  - cbv [inc st_modify st_lift]. rewrite Hsend. simpl.
    exists ""%string, (error_to_string e). split; [done|]. split; [by intros ?%error_to_string_nonempty|done].
Qed.

Lemma shutdown_run_state run_id (h : Hub R) :
  let h' := (shutdown_run run_id h).1 in
  (shutdown_run run_id h).2 = Ok tt ∧ pm_of h' = pm_of h ∧ hub_wire h' = hub_wire h ∧
  hub_controls h' = delete run_id (hub_controls h) ∧ hub_next h' = hub_next h ∧
  hub_heap h' = match hub_controls h !! run_id with
                | Some self => alter control_shutdown self (hub_heap h) | None => hub_heap h end.
Proof.
  unfold shutdown_run. cbv zeta. destruct (hub_controls h !! run_id) as [self|] eqn:E; [by split_and!|].
  split_and!; try done. simpl. by rewrite delete_id.
Qed.

Lemma take_over_state name owner (h : Hub R) :
  pm_inv (pm_of h) →
  let h' := (take_over name owner h).1 in
  (take_over name owner h).2 = Ok tt ∧ pm_inv (pm_of h') ∧ hub_wire h' = hub_wire h ∧
  pm_proxies (hub_pm h') ⊆ pm_proxies (hub_pm h) ∧
  ∀ self c, hub_heap h !! self = Some c → ∃ c', hub_heap h' !! self = Some c' ∧ same_client c c'.
Proof.
  intros Hinv. unfold take_over, on_pm, zoom. cbv [mbind st_bind mret st_ret].
  pose proof (evict_cases name (pm_of h) Hinv) as He. unfold pm_of in He.
  destruct (evict_proxy_by_name name _) as [s' [[run|]|e]]; [| |done].
  - destruct He as (Hinv' & key & _ & _ & Hp & _).
    pose proof (shutdown_run_state (po_run_id owner) (set_pm s' h)) as (Hok & Hpm & Hw & _ & _ & Hh).
    cbv zeta. destruct (shutdown_run _ _) as [h' r]. cbn [fst snd] in *. unfold pm_of in *. simpl in *.
    injection Hpm as Hpm Hrc. split_and!; try done.
    + rewrite Hpm, Hrc. by destruct s'.
    + rewrite Hpm, Hp. apply delete_subseteq.
    + intros self c Hc. rewrite Hh. destruct (hub_controls h !! po_run_id owner) as [a|]; [|by exists c].
      destruct (decide (a = self)) as [->|Hne].
      * rewrite lookup_alter_eq, Hc. by eexists.
      * rewrite lookup_alter_ne by done. by exists c.
  - destruct He as [-> _]. cbv zeta. simpl. split_and!; try done. intros self c Hc. by exists c.
Qed.

Lemma answered_mono h1 h2 h' transport c c' msg :
  answered h2 h' transport c' msg → same_client c c' → hub_wire h2 = hub_wire h1 →
  pm_proxies (hub_pm h2) ⊆ pm_proxies (hub_pm h1) → answered h1 h' transport c msg.
Proof.
  intros (addr & err & Hw & Hok & Hne) (E1 & E2 & E3 & E4) Hw' Hsub. exists addr, err.
  rewrite Hw, Hw'. split; [done|]. rewrite <- E1, <- E3, <- E4. split; [done|]. intros Herr.
  by etrans; [apply Hne|].
Qed.

(** ** Properties *)

(** Work connections and requests, under every interleaving of the control
    task's request handler with the delivery of connections and with proxies
    that stop waiting: no connection is handed to two requests or is both in
    the idle pool and handed out, no request is queued twice or is still queued
    once it has its connection, and when announcing a request to the client
    fails, the [pop_back] that takes it back takes no other request away. *)
Theorem work_conns_once self transport h p :
  pool_reachable self transport (h, p) →
  ∃ c, hub_heap h !! self = Some c ∧
  NoDup (c_idle_work_conns c) ∧
  (∀ conn tx, conn ∈ c_idle_work_conns c → hub_replies h !! tx ≠ Some (Delivered conn)) ∧
  (∀ conn tx1 tx2, hub_replies h !! tx1 = Some (Delivered conn) →
     hub_replies h !! tx2 = Some (Delivered conn) → tx1 = tx2) ∧
  NoDup (wr_reply_tx <$> unserved c p) ∧
  (∀ req conn, req ∈ unserved c p → hub_replies h !! wr_reply_tx req ≠ Some (Delivered conn)) ∧
  ∀ req r, p = Queued req → r ∈ c_pending_work_conns c → r ≠ req →
    r ∈ List.removelast (c_pending_work_conns c).
Proof.
  intros (c & Hc & Hok)%pool_reachable_inv. simpl in Hc, Hok. exists c.
  split_and!; [done|apply Hok..| |].
  - intros req conn Hin. destruct (po_unserved _ _ _ Hok (wr_reply_tx req)) as [->| ->]; try done.
    by apply list_elem_of_fmap_2.
  - intros req r -> Hr Hne. destruct (po_queued _ _ _ Hok req eq_refl) as [E|[l E]%last_Some]; rewrite E in *.
    + by apply not_elem_of_nil in Hr.
    + rewrite List.removelast_last. apply elem_of_app in Hr as [?|Hr%list_elem_of_singleton]; [done|by subst].
Qed.

(** A work connection that arrives while the oldest pending request is one
    whose proxy stopped waiting is lost: the request leaves the queue, the
    connection is dropped with an error, and the next request, which still
    waits, gets nothing. *)
Theorem stale_request_swallows self conn stale req rest c (h : Hub R) :
  hub_heap h !! self = Some c → c_pending_work_conns c = stale :: req :: rest →
  hub_replies h !! wr_reply_tx stale = Some Gone → hub_replies h !! wr_reply_tx req = Some Waiting →
  ∃ h', handle_work_conn self conn h = (h', Err work_conn_err) ∧
    hub_heap h' !! self = Some (c_set_pending (req :: rest) c) ∧
    hub_replies h' = hub_replies h.
Proof.
  intros Hc Hp Hs Hr. unfold handle_work_conn, deref, reply_send. cbv [mbind st_bind].
  rewrite Hc. cbv [ok_or]. rewrite Hp. cbv [upd_control st_modify]. simpl hub_replies. rewrite Hs.
  eexists. split; [done|]. simpl. by rewrite lookup_alter_eq, Hc.
Qed.

(** C18: every registration request is answered by exactly one message; an
    answer without an error means that the client's token is authorized for
    the proxy and that the proxy and its record, with the address announced,
    are registered under the client's own key; an answer with an error means
    that no proxy was added. *)
Theorem new_proxy_answer env self transport msg (h : Hub R) c :
  (∀ m, env_send env transport m = Ok tt) → pm_reachable (pm_of h) → hub_heap h !! self = Some c →
  answered h (handle_new_proxy env self transport msg h).1 transport c msg.
Proof.
  intros Hsend Hinv%pm_reachable_inv Hc. unfold handle_new_proxy, deref, hub_gets. cbv [mbind st_bind].
  rewrite Hc. cbv [ok_or]. destruct (find_proxy_owner h (np_proxy_name msg)) as [owner|];
    [|by apply authorize_and_register_spec].
  case_bool_decide; [by apply authorize_and_register_spec|]. destruct (_ && _).
  - pose proof (take_over_state (np_proxy_name msg) owner h Hinv) as (Hok & Hinv' & Hw & Hsub & Hheap).
    destruct (take_over (np_proxy_name msg) owner h) as [h1 r]. cbn [fst snd] in *. subst r.
    destruct (Hheap self c Hc) as (c' & Hc' & Hsame).
    by apply (answered_mono h h1 _ _ c c'); [apply authorize_and_register_spec|..].
  - unfold transport_send. cbv [mbind st_bind st_lift st_modify]. rewrite Hsend. simpl.
    by exists ""%string, (in_use_err (np_proxy_name msg)).
Qed.

(** A name that a connected client with another (or without a) client id
    uses cannot be taken: the request is answered with an error, and nothing
    else of the server's state changes. *)
Theorem name_in_use env self transport msg (h : Hub R) c owner :
  hub_heap h !! self = Some c → find_proxy_owner h (np_proxy_name msg) = Some owner →
  po_run_id owner ≠ c_run_id c →
  (po_client_id owner = ""%string ∨ po_client_id owner ≠ c_client_id c) →
  handle_new_proxy env self transport msg h =
  transport_send env transport (new_proxy_resp (np_proxy_name msg) "" (in_use_err (np_proxy_name msg))) h.
Proof.
  intros Hc Ho Hrun Hcl. unfold handle_new_proxy, deref, hub_gets. cbv [mbind st_bind].
  rewrite Hc. cbv [ok_or]. rewrite Ho, bool_decide_eq_false_2 by done.
  assert (negb (is_empty (po_client_id owner)) && bool_decide (po_client_id owner = c_client_id c) = false) as ->; [|done].
  unfold is_empty. destruct Hcl as [->|Hne]; [done|]. rewrite (bool_decide_eq_false_2 (_ = c_client_id c)) by done.
  apply andb_false_r.
Qed.

(** The proxy of the former connection is evicted and that connection shut
    down before the request is authorized: a request that the token does not
    permit is answered with an error but still takes the proxy down. *)
Theorem evicted_before_authorized env self transport msg (h : Hub R) c owner e p :
  (∀ m, env_send env transport m = Ok tt) → pm_reachable (pm_of h) → hub_heap h !! self = Some c →
  find_proxy_owner h (np_proxy_name msg) = Some owner → po_run_id owner ≠ c_run_id c →
  po_client_id owner ≠ ""%string → po_client_id owner = c_client_id c →
  pm_proxies (hub_pm h) = {[ proxy_key_of (po_run_id owner) (np_proxy_name msg) := p ]} →
  auth_authorize_proxy authenticator (c_privilege_key c) (c_pool_count c) msg = Err e →
  let h' := (handle_new_proxy env self transport msg h).1 in
  pm_proxies (hub_pm h') = ∅ ∧ hub_controls h' = delete (po_run_id owner) (hub_controls h) ∧
  hub_wire h' = hub_wire h ++ [(transport, new_proxy_resp (np_proxy_name msg) "" (error_to_string e))].
Proof.
  intros Hsend Hinv%pm_reachable_inv Hc Ho Hrun Hne Hcl Hps Ha.
  unfold handle_new_proxy, deref, hub_gets. cbv [mbind st_bind]. rewrite Hc. cbv [ok_or].
  rewrite Ho, bool_decide_eq_false_2 by done. apply is_empty_false in Hne. rewrite Hne.
  rewrite bool_decide_eq_true_2 by done. cbn [negb andb].
  pose proof (take_over_state (np_proxy_name msg) owner h Hinv) as (_ & _ & _ & _ & Hheap).
  revert Hheap. unfold take_over, on_pm, zoom. cbv [mbind st_bind mret st_ret].
  pose proof (evict_cases (np_proxy_name msg) (pm_of h) Hinv) as He. unfold pm_of in He.
  destruct (evict_proxy_by_name _ _) as [s' [[run|]|]]; [|exfalso..|done].
  - destruct He as (_ & key & [q Hq] & _ & Hp & _). simpl in Hq, Hp. rewrite Hps in Hq, Hp.
    apply lookup_singleton_Some in Hq as [<- _]. rewrite delete_singleton_eq in Hp.
    pose proof (shutdown_run_state (po_run_id owner) (set_pm s' h)) as (Hok & Hpm & Hw & Hcs & _).
    destruct (shutdown_run _ _) as [h1 r]. cbn [fst snd] in *. subst r. intros Hheap.
    destruct (Hheap self c Hc) as (c' & Hc' & _ & _ & E3 & E4). injection Hpm as Hpm _.
    unfold authorize_and_register, deref, transport_send. cbv [mbind st_bind]. rewrite Hc'. cbv [ok_or].
    rewrite E3, E4, Ha. cbv [inc st_modify st_lift]. rewrite Hsend. simpl. rewrite Hpm, Hw. by simpl.
  - destruct He as [_ Hnone]. simpl in Hnone. rewrite Hps in Hnone.
    assert (ends_with (proxy_key_of (po_run_id owner) (np_proxy_name msg)) (":" +:+ np_proxy_name msg) = true) as E.
    { apply ends_with_iff. by exists (po_run_id owner). }
    rewrite Hnone in E; [done|]. rewrite lookup_singleton_eq. eauto.
Qed.

End Control.

(** ** Witnesses *)

Module ToyControl.
#[local] Existing Instances ToyProxyManager.json ToyProxyManager.lower ToyProxyManager.iter.

Definition auth : Authenticator :=
  mkAuthenticator (fun _ _ => Ok "k"%string) (fun _ => Ok tt) (fun _ => Ok tt)
    (fun key _ _ => if bool_decide (key = "k"%string) then Ok tt else Err (Error.Auth "Invalid token")).
Definition env : Env := mkEnv ToyProxyManager.binds (fun _ _ => Ok tt) 0.
Definition ctl (run_id client_id key : string) (conn : Conn) : Control :=
  control_new run_id client_id "1.2.3.4:5" key 1 "" "" "" "" conn 90.

(** Run [r1] of client [c1] has the proxy [ssh]; [r2] is the same client with
    another token, [r3] another client. *)
Definition hub (pm : ProxyManager * ResourceController) : Hub ResourceController :=
  set_controls {[ "r1"%string := 1; "r2"%string := 2; "r3"%string := 3 ]}
    {[ 1 := ctl "r1" "c1" "k" 10; 2 := ctl "r2" "c1" "bad" 20; 3 := ctl "r3" "c3" "k" 30 ]} 4
    (hub_new pm.1 pm.2).
Definition h0 : Hub ResourceController := hub ToyProxyManager.s0.
Definition h1 : Hub ResourceController := hub ToyProxyManager.s1.
Definition ssh : NewProxyMsg := ToyProxyManager.msg "ssh" "tcp" 6000.

Lemma h0_reachable : pm_reachable (pm_of h0).
Proof. apply ToyProxyManager.s0_reachable. Qed.
Lemma h1_reachable : pm_reachable (pm_of h1).
Proof. unfold pm_of, h1, hub. simpl. rewrite <- surjective_pairing. apply ToyProxyManager.s1_reachable. Qed.

Lemma new_proxy_answer_witness :
  answered auth h0 (handle_new_proxy auth env 3 30 ssh h0).1 30 (ctl "r3" "c3" "k" 30) ssh.
Proof. exact (new_proxy_answer auth env 3 30 ssh h0 _ (fun _ => eq_refl) h0_reachable eq_refl). Defined.

Lemma name_in_use_witness :
  handle_new_proxy auth env 3 30 ssh h1 =
  transport_send env 30 (new_proxy_resp "ssh" "" (in_use_err "ssh")) h1.
Proof.
  apply (name_in_use auth env 3 30 ssh h1 (ctl "r3" "c3" "k" 30) (mkProxyOwner "r1" "c1")).
  - reflexivity.
  - vm_compute. reflexivity.
  - discriminate.
  - right. discriminate.
Defined.

Lemma evicted_before_authorized_witness :
  pm_proxies (hub_pm (handle_new_proxy auth env 2 20 ssh h1).1) = ∅.
Proof.
  refine (proj1 (evicted_before_authorized auth env 2 20 ssh h1 (ctl "r2" "c1" "bad" 20)
    (mkProxyOwner "r1" "c1") (Error.Auth "Invalid token") (PTcp (mkTcpProxy "ssh" 6000 1 false false "k"))
    (fun _ => eq_refl) h1_reachable _ _ _ _ _ _ _)).
  - reflexivity.
  - vm_compute. reflexivity.
  - discriminate.
  - discriminate.
  - reflexivity.
  - vm_compute. reflexivity.
  - reflexivity.
Defined.

(** A request that was queued, announced and given up. *)
Definition req1 : WorkConnRequest := mkWorkConnRequest "ssh" 1.
Definition req2 : WorkConnRequest := mkWorkConnRequest "ssh" 2.
Definition hq : Hub ResourceController :=
  set_replies {[ 1 := Gone; 2 := Waiting ]} (push_pending 1 req2 (push_pending 1 req1 h0).1).1.

Lemma stale_request_swallows_witness :
  ∃ h', handle_work_conn 1 77 hq = (h', Err work_conn_err) ∧ hub_replies h' = hub_replies hq.
Proof.
  destruct (stale_request_swallows 1 77 req1 req2 [] (c_set_pending [req1; req2] (ctl "r1" "c1" "k" 10)) hq
              eq_refl eq_refl eq_refl eq_refl) as (h' & E & _ & Er).
  exists h'. exact (conj E Er).
Defined.

Lemma work_conns_once_witness :
  let h := (handle_work_conn 1 77 h0).1 in
  ∃ c, hub_heap h !! 1 = Some c ∧ NoDup (c_idle_work_conns c).
Proof.
  intros h.
  destruct (work_conns_once 1 10 h AtSelect) as (c & Hc & Hn & _); [|exists c; exact (conj Hc Hn)].
  eapply plr_step; [eapply (plr_new 1 10 h0); reflexivity|]. apply pl_deliver. split; [|discriminate].
  intros c Hc. change (Some (ctl "r1" "c1" "k" 10) = Some c) in Hc. injection Hc as <-. apply not_elem_of_nil.
Defined.
End ToyControl.
