(* ===== verification/Server.v ===== *)
(** * The server (crates/arp-server/src/service.rs)

    [Service] accepts connections and dispatches on their first message: a
    login starts a control connection, [NewWorkConn] brings a work connection
    to a control, [StcpVisitorConn] joins a visitor with the provider of an
    STCP proxy.  The step relation [srv_step] interleaves all of them with the
    turns of the control loops and with the traffic of the proxies; its
    invariant says who owns what in the whole server.  A turn of a control loop
    is one step of it, with the call of the proxy manager it makes; the overlap
    of such calls is in ProxyTasks.  The TLS acceptor, the
    accept loops and the relaying of bytes are not modelled; a UUID is an
    argument. *)
From S2P Require Import Prelude RustString Errors Protocol Config Crypto Auth Resource Vhost TcpGroup.
From S2P Require Import ProxyManager Hub NatHole Control.
Local Open Scope Z_scope.

(** [env!("CARGO_PKG_VERSION")]. *)
Definition CARGO_PKG_VERSION : string := "0.5.4".

Section Server.
Context `{Json} `{Primitives} `{UnicodeLower} `{DashIter}.

(** [Service::new]; [tls_acceptor] is what [build_tls_acceptor] gives. *)
Definition service_new (config : ServerConfig) (tls_acceptor : Result unit)
  : Result (Authenticator * Hub ResourceController) :=
  create_authenticator (sc_auth config) ≫= fun authenticator =>
  let proxy_manager := pm_new (sc_bind_addr config) (sc_subdomain_host config)
                         (sc_vhost_http_port config) (sc_vhost_https_port config) in
  let resource_controller := resource_new config in
  (if tls_enable (tc_tls (sc_transport config)) then tls_acceptor else Ok tt) ≫= fun _ =>
  Ok (authenticator, hub_new proxy_manager resource_controller).

Context {R : Type} `{PortAllocator R}.
Variable authenticator : Authenticator.
Abbreviation HM A := (st (Hub R) Error.t A).

(** ** Login *)

Definition login_resp (run_id error : string) : Message :=
  LoginResp (mkLoginRespMsg CARGO_PKG_VERSION run_id error).

(** [Arc::new(control)]. *)
Definition alloc_control (c : Control) : HM Z := fun h =>
  (set_controls (hub_controls h) (<[hub_next h := c]> (hub_heap h)) (hub_next h + 1) h, Ok (hub_next h)).

(** [handle_login] up to [control_manager.add]. *)
Definition login_accept (env : Env) (heartbeat_timeout : Z) (run_id : string) (transport : Conn)
    (login_msg : LoginMsg) (peer_addr : string) : HM Z :=
  match auth_verify_login authenticator (env_now env) login_msg with
  | Err e =>
      _ ← inc auth_failures_total;
      _ ← emit (ClientLoginFailed peer_addr (error_to_string e));
      _ ← transport_send env transport (login_resp "" (error_to_string e));
      st_fail e
  | Ok matched_token =>
      _ ← transport_send env transport (login_resp run_id "");
      _ ← emit (ClientLogin (lm_client_id login_msg) peer_addr run_id);
      let heartbeat_timeout := if 0 <? heartbeat_timeout then heartbeat_timeout else 90 in
      self ← alloc_control (control_new run_id (lm_client_id login_msg) peer_addr matched_token
               (lm_pool_count login_msg) (lm_hostname login_msg) (lm_os login_msg) (lm_arch login_msg)
               (lm_user login_msg) transport heartbeat_timeout);
      _ ← cm_add run_id self;
      mret self
  end.

(** The last [Arc] of a control goes, and with it the senders of the replies it
    owes. *)
Definition drop_control (self : Z) : HM unit := st_modify (fun h =>
  let owed := match hub_heap h !! self with
              | Some c => c_pending_work_conns c ++ c_work_conn_reqs c | None => [] end in
  let replies := foldr (fun req rs => alter (fun r => match r with Waiting => Gone | _ => r end)
                                        (wr_reply_tx req) rs) (hub_replies h) owed in
  set_replies replies (set_heap (delete self (hub_heap h)) h)).

(** [handle_login] after [control.run()]. *)
Definition login_finish (self : Z) : HM unit :=
  c ← deref self;
  _ ← log_err (on_pm (unregister_run_proxies (c_run_id c)));
  _ ← cm_remove (c_run_id c);
  _ ← emit (ClientDisconnect (c_client_id c) (c_run_id c));
  drop_control self.

(** [None] when the turns of the control loop are used up. *)
Definition handle_login (env : Env) (heartbeat_timeout : Z) (run_id : string) (transport : Conn)
    (login_msg : LoginMsg) (peer_addr : string) (turns : list turn) : HM (option (Result unit)) :=
  self ← login_accept env heartbeat_timeout run_id transport login_msg peer_addr;
  result ← attempt (control_run authenticator self turns);
  match result with
  | Ok None => mret None
  | Ok (Some result) => _ ← login_finish self; mret (Some result)
  | Err e => _ ← login_finish self; mret (Some (Err e))
  end.

(** ** Work connections and STCP visitors *)

Definition handle_new_work_conn (transport : Conn) (msg : NewWorkConnMsg) : HM unit :=
  _ ← st_guard (is_empty (trim (nw_run_id msg))) (Error.Protocol "Empty run_id in NewWorkConn");
  _ ← inc work_connections_total;
  match auth_verify_new_work_conn authenticator msg with
  | Err e =>
      _ ← inc auth_failures_total;
      _ ← emit (WorkConnAuthFailed (nw_run_id msg) (error_to_string e));
      st_fail e
  | Ok _ =>
      control ← hub_gets (cm_get (nw_run_id msg));
      self ← st_lift (ok_or (Error.Protocol ("Unknown run_id: " +:+ nw_run_id msg)) control);
      handle_work_conn self transport
  end.

(** The receiving end of a reply after at most 10 seconds: a connection, the
    timeout, or a sender that was dropped. *)
Definition await_reply (tx : Z) (timeout_err closed_err : Error.t) : HM Conn := fun h =>
  match hub_replies h !! tx with
  | Some (Delivered conn) => (h, Ok conn)
  | Some Waiting => (set_replies (<[tx := Gone]> (hub_replies h)) h, Err timeout_err)
  | _ => (h, Err closed_err)
  end.

(** [handle_stcp_visitor_conn] up to the request of a work connection. *)
Definition stcp_request (env : Env) (tx : Z) (msg : StcpVisitorConnMsg) : HM unit :=
  info ← hub_gets (fun h => get_stcp_info (hub_pm h) (sv_proxy_name msg));
  info ← st_lift (ok_or (Error.Proxy ("stcp proxy " +:+ sv_proxy_name msg +:+ " not found")) info);
  _ ← st_guard (negb (verify (si_sk info) (pretty (sv_timestamp msg)) (sv_sk_signature msg)))
        (Error.Auth ("stcp visitor sk mismatch for proxy " +:+ sv_proxy_name msg));
  _ ← st_guard (300 <? i64_abs (i64_sub (env_now env) (sv_timestamp msg)))
        (Error.Auth "stcp visitor timestamp expired");
  _ ← st_modify (fun h => set_replies (<[tx := Waiting]> (hub_replies h)) h);
  request_send (si_work_conn_req_tx info) (mkWorkConnRequest (sv_proxy_name msg) tx)
    (Error.Transport "stcp provider work conn channel closed").

(** The rest, up to relaying: the work connection that is joined with the
    visitor's. *)
Definition stcp_start (env : Env) (tx : Z) (msg : StcpVisitorConnMsg) (peer_addr : string) : HM Conn :=
  work_transport ← await_reply tx (Error.Timeout "stcp work connection timeout")
                     (Error.Transport "stcp work connection channel closed");
  _ ← transport_send env work_transport
        (StartWorkConn (mkStartWorkConnMsg (sv_proxy_name msg) peer_addr "" ""));
  mret work_transport.

(** [tx] is the new oneshot channel, [others] what other tasks do meanwhile. *)
Definition handle_stcp_visitor_conn (env : Env) (tx : Z) (others : Hub R → Hub R)
    (msg : StcpVisitorConnMsg) (peer_addr : string) : HM Conn :=
  _ ← stcp_request env tx msg;
  _ ← st_modify others;
  stcp_start env tx msg peer_addr.

(** ** The first message of a connection *)

Inductive served := Closed | LoggedIn (r : option (Result unit)) | WorkConnTaken | Joined (work : Conn).

Definition unexpected_err (msg : Message) : Error.t :=
  Error.Protocol ("Expected Login or NewWorkConn message, got '"
                  +:+ of_bytes [type_byte msg] +:+ "'").

Definition handle_transport (env : Env) (heartbeat_timeout : Z) (run_id : string) (tx : Z)
    (turns : list turn) (others : Hub R → Hub R) (transport : Conn) (first : Result (option Message))
    (peer_addr : string) : HM served :=
  msg ← st_lift first;
  match msg with
  | None => mret Closed
  | Some (Login m) =>
      r ← handle_login env heartbeat_timeout run_id transport m peer_addr turns; mret (LoggedIn r)
  | Some (NewWorkConn m) => _ ← handle_new_work_conn transport m; mret WorkConnTaken
  | Some (StcpVisitorConn m) =>
      work ← handle_stcp_visitor_conn env tx others m peer_addr; mret (Joined work)
  | Some m => st_fail (unexpected_err m)
  end.

(** ** What a step of a task may do *)

Context `{!PortAllocatorSpec R}.

(** From [h] to [h'] controls neither come nor go and keep their run ids, the
    manager only forgets controls, and the only new proxies are those of [run]. *)
Record evolves (run : string) (h h' : Hub R) : Prop := {
  ev_pm : pm_reachable (pm_of h');
  ev_heap : ∀ a, c_run_id <$> hub_heap h' !! a = c_run_id <$> hub_heap h !! a;
  ev_controls : hub_controls h' ⊆ hub_controls h;
  ev_next : hub_next h' = hub_next h;
  ev_proxies : ∀ key, is_Some (pm_proxies (hub_pm h') !! key) → is_Some (pm_proxies (hub_pm h) !! key) ∨
    ∃ name, key = proxy_key_of run name;
  ev_events : (length (recent_events h) ≤ 32)%nat → (length (recent_events h') ≤ 32)%nat;
}.

(** The run id of the control at [self], if there is one. *)
Definition runs (self : Z) (run : string) (h : Hub R) : Prop :=
  ∀ c, hub_heap h !! self = Some c → c_run_id c = run.

Definition safe {A} (self : Z) (run : string) (m : HM A) : Prop :=
  ∀ h, pm_reachable (pm_of h) → runs self run h → evolves run h (m h).1.

Lemma evolves_refl run h : pm_reachable (pm_of h) → evolves run h h.
Proof. intros Hpm. split; auto. Qed.

Lemma evolves_trans run h1 h2 h3 : evolves run h1 h2 → evolves run h2 h3 → evolves run h1 h3.
Proof.
  intros [A1 B1 C1 D1 E1 F1] [A2 B2 C2 D2 E2 F2].
  split; [done|intros a; by rewrite B2|by etrans|congruence| |auto].
  intros key [Hk|?]%E2; auto.
Qed.

Lemma evolves_runs self run run' h h' : evolves run' h h' → runs self run h → runs self run h'.
Proof.
  intros Hev Hr c Hc. pose proof (ev_heap _ _ _ Hev self) as E. rewrite Hc in E. simpl in E.
  destruct (hub_heap h !! self) as [c0|] eqn:E0; [|done]. injection E as ->. by apply Hr.
Qed.

Lemma safe_bind {A B} self run (m : HM A) (f : A → HM B) :
  safe self run m → (∀ a, safe self run (f a)) → safe self run (m ≫= f).
Proof.
  intros Hm Hf h Hpm Hr. specialize (Hm h Hpm Hr). unfold mbind, st_bind. destruct (m h) as [h' [a|e]]; [|done].
  eapply evolves_trans; [exact Hm|]. apply Hf; [apply Hm|by apply (evolves_runs _ _ _ _ _ Hm)].
Qed.

(** Code that touches neither proxies nor controls nor events. *)
Lemma safe_same {A} self run (m : HM A) :
  (∀ h, pm_of (m h).1 = pm_of h ∧ hub_heap (m h).1 = hub_heap h ∧ hub_controls (m h).1 = hub_controls h ∧
        hub_next (m h).1 = hub_next h ∧ recent_events (m h).1 = recent_events h) →
  safe self run m.
Proof.
  intros Hm h Hpm Hr. destruct (Hm h) as (E1 & E2 & E3 & E4 & E5). injection E1 as Ep Er.
  split; [by unfold pm_of; rewrite Ep, Er|by rewrite E2|by rewrite E3|done|rewrite Ep; auto|by rewrite E5].
Qed.

Lemma safe_ret {A} self run (a : A) : safe self run (mret a). Proof. by apply safe_same. Qed.
Lemma safe_fail {A} self run e : safe self run (st_fail e : HM A). Proof. by apply safe_same. Qed.
Lemma safe_lift {A} self run (r : Result A) : safe self run (st_lift r). Proof. by apply safe_same. Qed.
Lemma safe_gets {A} self run (f : Hub R → A) : safe self run (hub_gets f). Proof. by apply safe_same. Qed.
Lemma safe_inc self run c : safe self run (inc c). Proof. by apply safe_same. Qed.
Lemma safe_emit self run e : safe self run (emit e). Proof. by apply safe_same. Qed.
Lemma safe_deref self run a : safe self run (deref a). Proof. by apply safe_same. Qed.
Lemma safe_guard self run b e : safe self run (st_guard b e). Proof. destruct b; by apply safe_same. Qed.
Lemma safe_replies self run f : safe self run (st_modify (fun h => set_replies (f h) h)).
Proof. by apply safe_same. Qed.
Lemma safe_send self run env conn m : safe self run (transport_send env conn m).
Proof. apply safe_bind; [apply safe_lift|]. intros ?. by apply safe_same. Qed.
Lemma safe_reply self run tx conn e : safe self run (reply_send tx conn e).
Proof. apply safe_same. intros h. unfold reply_send. by destruct (hub_replies h !! tx) as [[]|]. Qed.
Lemma safe_await self run tx e1 e2 : safe self run (await_reply tx e1 e2).
Proof. apply safe_same. intros h. unfold await_reply. by destruct (hub_replies h !! tx) as [[]|]. Qed.
Lemma safe_pending_insert self run a v : safe self run (pending_insert a v).
Proof. by apply safe_same. Qed.
Lemma safe_pending_remove self run a : safe self run (pending_remove a).
Proof. by apply safe_same. Qed.
Lemma safe_attempt {A} self run (m : HM A) : safe self run m → safe self run (attempt m).
Proof. intros Hm h Hpm Hr. specialize (Hm h Hpm Hr). unfold attempt. by destruct (m h). Qed.
Lemma safe_log_err self run (m : HM unit) : safe self run m → safe self run (log_err m).
Proof. intros Hm h Hpm Hr. by apply Hm. Qed.

Lemma safe_on_err {A} self run (m : HM unit) handler (k : HM A) :
  safe self run m → (∀ e, safe self run (handler e)) → safe self run k → safe self run (on_err m handler k).
Proof.
  intros Hm Hh Hk h Hpm Hr. specialize (Hm h Hpm Hr). unfold on_err.
  destruct (m h) as [h' [a|e]]; (eapply evolves_trans; [exact Hm|]);
    [apply Hk|apply Hh]; try apply Hm; by apply (evolves_runs _ _ _ _ _ Hm).
Qed.

Lemma safe_push_event self run ev : safe self run (push_event ev).
Proof. intros h Hpm Hr. split; try done; [auto|]. apply length_push_event. Qed.

Lemma safe_upd self run a f : (∀ c, c_run_id (f c) = c_run_id c) → safe self run (upd_control a f).
Proof.
  intros Hf h Hpm Hr. split; try done; [|auto]. intros a'. simpl. destruct (decide (a = a')) as [->|Hne].
  - rewrite lookup_alter_eq. destruct (hub_heap h !! a'); simpl; [by rewrite Hf|done].
  - by rewrite lookup_alter_ne.
Qed.

Lemma safe_request self run tx req e : safe self run (request_send tx req e).
Proof.
  intros h Hpm Hr. unfold request_send. destruct (hub_heap h !! tx); [|by apply evolves_refl].
  by apply (safe_upd self).
Qed.

Lemma safe_cm_send self run run_id m : safe self run (cm_send_message run_id m).
Proof. apply safe_bind; [by apply safe_same|]. intros a. by apply safe_upd. Qed.

Lemma safe_cm_remove self run run_id : safe self run (cm_remove run_id).
Proof. intros h Hpm Hr. split; try done; [|auto]. simpl. apply delete_subseteq. Qed.

Lemma safe_shutdown self run run_id : safe self run (shutdown_run run_id).
Proof.
  intros h Hpm Hr. unfold shutdown_run. destruct (hub_controls h !! run_id); [|by apply evolves_refl].
  apply (safe_bind self); [apply safe_cm_remove| |done..]. intros _. by apply safe_upd.
Qed.

Lemma safe_deref_bind {B} self run (f : Control → HM B) :
  (∀ c, c_run_id c = run → safe self run (f c)) → safe self run (deref self ≫= f).
Proof.
  intros Hf h Hpm Hr. unfold mbind, st_bind, deref.
  destruct (hub_heap h !! self) as [c|] eqn:Hc; simpl; [|by apply evolves_refl]. by apply Hf; [apply Hr|..].
Qed.

(** A call of the proxy manager. *)
Lemma safe_on_pm {A} self run (m : st (ProxyManager * R) Error.t A) :
  (∀ s, pm_step s (m s).1) →
  (∀ s, pm_reachable s → ∀ key, is_Some (pm_proxies (m s).1.1 !! key) →
     is_Some (pm_proxies s.1 !! key) ∨ ∃ name, key = proxy_key_of run name) →
  safe self run (on_pm m).
Proof.
  intros Hs Hp h Hpm Hr. unfold on_pm, zoom. specialize (Hs (pm_of h)). specialize (Hp (pm_of h) Hpm).
  unfold pm_of in *. destruct (m (hub_pm h, hub_rc h)) as [[pm rc] r]. simpl in *.
  split; try done. by eapply pmr_step.
Qed.

Lemma safe_register self run binds msg tx : safe self run (on_pm (register_proxy binds run msg tx)).
Proof.
  apply safe_on_pm; [intros s; apply pms_register|]. intros s Hs%pm_reachable_inv key.
  pose proof (register_proxy_cases binds run msg tx s Hs) as Hc. cbv zeta in Hc.
  destruct (register_proxy binds run msg tx s) as [s' [addr|e]]; simpl.
  - destruct Hc as (_ & _ & [p ->] & _).
    destruct (decide (key = proxy_key_of run (np_proxy_name msg))) as [->|Hne]; [eauto|].
    rewrite lookup_insert_ne by done. auto.
  - destruct Hc as [-> _]. auto.
Qed.

Lemma safe_unregister self run run_id name : safe self run (on_pm (unregister_proxy run_id name)).
Proof.
  apply safe_on_pm; [intros s; apply pms_unregister|]. intros s Hs%pm_reachable_inv key.
  destruct (remove_proxy_spec (proxy_key_of run_id name) s Hs) as (_ & _ & Hp & _).
  unfold unregister_proxy. rewrite Hp, lookup_delete_is_Some. naive_solver.
Qed.

Lemma safe_evict self run name : safe self run (on_pm (evict_proxy_by_name name)).
Proof.
  apply safe_on_pm; [intros s; apply pms_evict|]. intros s Hs%pm_reachable_inv key.
  pose proof (evict_cases name s Hs) as Hc.
  destruct (evict_proxy_by_name name s) as [s' [[r|]|e]]; [|by destruct Hc as [-> _]; auto|done].
  destruct Hc as (_ & k & _ & _ & Hp & _). simpl. rewrite Hp, lookup_delete_is_Some. naive_solver.
Qed.

Lemma safe_unregister_run self run run_id : safe self run (on_pm (unregister_run_proxies run_id)).
Proof.
  apply safe_on_pm; [intros s; apply pms_unregister_run|]. intros s Hs%pm_reachable_inv key.
  destruct (unregister_run_cases run_id s Hs) as (_ & _ & Hk). rewrite Hk.
  destruct (starts_with _ _); [by intros [? ?]|auto].
Qed.

Create HintDb safe.
#[local] Hint Resolve safe_ret safe_fail safe_lift safe_gets safe_inc safe_emit safe_deref safe_guard
  safe_replies safe_send safe_reply safe_await safe_pending_insert safe_pending_remove safe_push_event
  safe_request safe_cm_send safe_cm_remove safe_shutdown safe_register safe_unregister safe_evict
  safe_unregister_run : safe.

(** Walk through a handler. *)
Ltac solve_safe :=
  repeat first
    [ progress intros | assumption | solve [auto with safe nocore]
    | match goal with
      | |- safe _ _ (log_err _) => apply safe_log_err
      | |- safe _ _ (attempt _) => apply safe_attempt
      | |- safe _ _ (on_err _ _ _) => apply safe_on_err
      | |- safe _ _ (upd_control _ _) => by apply safe_upd
      | |- safe ?self _ (deref ?self ≫= _) => apply safe_deref_bind; intros ? ?; subst
      | |- safe _ _ (_ ≫= _) => apply safe_bind
      end
    | case_match ].

Lemma safe_work_conn self run a conn : safe self run (handle_work_conn a conn).
Proof. unfold handle_work_conn. apply safe_bind; solve_safe. Qed.
Lemma safe_work_conn_request self run env a transport req :
  safe self run (handle_work_conn_request env a transport req).
Proof.
  unfold handle_work_conn_request, pop_idle, push_pending, announce, pop_back_pending.
  apply safe_bind; [solve_safe|]. intros _. apply safe_bind; [|solve_safe].
  apply safe_bind; solve_safe.
Qed.
Lemma safe_visitor self run v msg : safe self run (handle_visitor v msg).
Proof. unfold handle_visitor. solve_safe. Qed.
Lemma safe_client_resp self run o msg : safe self run (handle_client_resp o msg).
Proof. unfold handle_client_resp. solve_safe. Qed.
Lemma safe_authorize self run env transport msg :
  safe self run (authorize_and_register authenticator env self transport msg).
Proof. unfold authorize_and_register. solve_safe. Qed.
Lemma safe_new_proxy self run env transport msg :
  safe self run (handle_new_proxy authenticator env self transport msg).
Proof. unfold handle_new_proxy, take_over. solve_safe; apply safe_authorize. Qed.
Lemma safe_message self run env transport msg :
  safe self run (handle_message authenticator env self transport msg).
Proof.
  unfold handle_message, handle_close_proxy, handle_ping, handle_nathole_visitor, handle_nathole_resp.
  solve_safe; first [apply safe_new_proxy|apply safe_visitor|apply safe_client_resp].
Qed.
Lemma safe_select self run env transport ev :
  safe self run (run_select authenticator env self transport ev).
Proof. unfold run_select. solve_safe; first [apply safe_message|apply safe_work_conn_request]. Qed.
Lemma safe_new_work_conn self run conn msg : safe self run (handle_new_work_conn conn msg).
Proof. unfold handle_new_work_conn. solve_safe; apply safe_work_conn. Qed.
Lemma safe_stcp_request self run env tx msg : safe self run (stcp_request env tx msg).
Proof. unfold stcp_request. solve_safe. Qed.
Lemma safe_stcp_start self run env tx msg peer : safe self run (stcp_start env tx msg peer).
Proof. unfold stcp_start. solve_safe. Qed.

(** ** The steps of the server *)

(** What [Uuid::new_v4] gives: no colon, and not the id of a live control. *)
Definition fresh_run (run_id : string) (h : Hub R) : Prop :=
  (":"%byte ∉ to_bytes run_id) ∧ map_Forall (fun _ c => c_run_id c ≠ run_id) (hub_heap h).

(** A turn of a control loop, with the registration or removal it makes, is one
    step: two of them do not overlap here, but do in ProxyTasks. *)
Inductive srv_step (h : Hub R) : Hub R → Prop :=
| ss_login env hb run_id transport msg peer :
    fresh_run run_id h → srv_step h (login_accept env hb run_id transport msg peer h).1
| ss_take self : srv_step h (upd_control self (c_set_transport None) h).1
| ss_turn env self c transport ev :
    hub_heap h !! self = Some c → srv_step h (run_select authenticator env self transport ev h).1
| ss_finish self c : hub_heap h !! self = Some c → srv_step h (login_finish self h).1
| ss_work_conn conn msg : srv_step h (handle_new_work_conn conn msg h).1
| ss_stcp_request env tx msg : hub_replies h !! tx = None → srv_step h (stcp_request env tx msg h).1
| ss_stcp_start env tx msg peer : srv_step h (stcp_start env tx msg peer h).1
| ss_traffic s' :                                    (* a proxy serves a connection *)
    pm_step (pm_of h) s' → pm_proxies s'.1 = pm_proxies (hub_pm h) → srv_step h (set_pm s' h).

Inductive srv_reachable : Hub R → Prop :=
| sr_new addr host p1 p2 r : held_ports r = ∅ → srv_reachable (hub_new (pm_new addr host p1 p2) r)
| sr_step h h' : srv_reachable h → srv_step h h' → srv_reachable h'.

Record srv_inv (h : Hub R) : Prop := {
  sv_pm : pm_reachable (pm_of h);
  sv_managed : ∀ run self, hub_controls h !! run = Some self →
    c_run_id <$> hub_heap h !! self = Some run;
  sv_runs : ∀ a a' run, c_run_id <$> hub_heap h !! a = Some run →
    c_run_id <$> hub_heap h !! a' = Some run → a = a';
  sv_next : ∀ a, is_Some (c_run_id <$> hub_heap h !! a) → a < hub_next h;
  sv_colon : ∀ a run, c_run_id <$> hub_heap h !! a = Some run → ":"%byte ∉ to_bytes run;
  sv_owner : ∀ key, is_Some (pm_proxies (hub_pm h) !! key) →
    ∃ a run name, c_run_id <$> hub_heap h !! a = Some run ∧ key = proxy_key_of run name;
  sv_events : (length (recent_events h) ≤ 32)%nat;
}.

Lemma evolves_inv run self h h' :
  srv_inv h → c_run_id <$> hub_heap h !! self = Some run → evolves run h h' → srv_inv h'.
Proof.
  intros [A B C D E F G] Hself [A' B' C' D' E' F']. split; [done|..].
  - intros r a Hr. rewrite B'. apply B. by eapply lookup_weaken.
  - intros a a' r. rewrite !B'. apply C.
  - intros a. rewrite B', D'. apply D.
  - intros a r. rewrite B'. apply E.
  - intros key [Hk|[name ->]]%E'; [|exists self, run, name; by rewrite B'].
    destruct (F key Hk) as (a & r & n & Ha & ->). exists a, r, n. by rewrite B'.
  - by apply F'.
Qed.

(** A task that is safe for every run adds no proxy at all. *)
Lemma safe_inv {A} (m : HM A) h : (∀ self run, safe self run m) → srv_inv h → srv_inv (m h).1.
Proof.
  intros Hm [A' B C D E F G].
  assert (∀ run, runs (hub_next h) run h) as Hno.
  { intros run c Hc. specialize (D (hub_next h)). rewrite Hc in D.
    assert (hub_next h < hub_next h) by (apply D; by eexists). lia. }
  destruct (Hm (hub_next h) "" h A' (Hno _)) as [A2 B2 C2 D2 E2 F2].
  destruct (Hm (hub_next h) "x" h A' (Hno _)) as [_ _ _ _ E3 _]. split; [done|..]; auto.
  - intros r a Hr. rewrite B2. apply B. by eapply lookup_weaken.
  - intros a a' r. rewrite !B2. apply C.
  - intros a. rewrite B2, D2. apply D.
  - intros a r. rewrite B2. apply E.
  - intros key Hkey. destruct (E2 key Hkey) as [Hk|[n1 ->]]; [|destruct (E3 _ Hkey) as [Hk|[n2 Hn]]; [|done]].
    all: destruct (F _ Hk) as (a & r & n & Ha & Hn); exists a, r, n; by rewrite B2.
Qed.

(** Run ids without a colon are told apart by the keys of their proxies. *)
Lemma key_of_run run run' name :
  (":"%byte ∉ to_bytes run) → (":"%byte ∉ to_bytes run') →
  starts_with (proxy_key_of run' name) (run +:+ ":") = true ↔ run' = run.
Proof.
  intros Hr Hr'. unfold proxy_key_of. split.
  - intros [k Hk]%starts_with_iff. apply (f_equal to_bytes) in Hk. rewrite !to_bytes_app in Hk.
    rewrite <- app_assoc in Hk. apply (f_equal (bytes_split_once ":"%byte)) in Hk.
    change (to_bytes ":" ++ to_bytes name) with (":"%byte :: to_bytes name) in Hk.
    change (to_bytes ":" ++ to_bytes k) with (":"%byte :: to_bytes k) in Hk.
    rewrite !bytes_split_once_app in Hk by done. injection Hk as Hk _. by apply (inj to_bytes).
  - intros ->. apply starts_with_iff. exists name. apply (inj to_bytes). by rewrite !to_bytes_app, <- app_assoc.
Qed.

Lemma login_finish_state self c h :
  pm_reachable (pm_of h) → hub_heap h !! self = Some c →
  let h' := (login_finish self h).1 in
  (login_finish self h).2 = Ok tt ∧ pm_reachable (pm_of h') ∧ hub_heap h' = delete self (hub_heap h) ∧
  hub_controls h' = delete (c_run_id c) (hub_controls h) ∧ hub_next h' = hub_next h ∧
  recent_events h' = recent_events h ∧
  ∀ k, pm_proxies (hub_pm h') !! k =
       if starts_with k (c_run_id c +:+ ":") then None else pm_proxies (hub_pm h) !! k.
Proof.
  intros Hpm Hc. unfold login_finish, deref, log_err, on_pm, zoom. cbv [mbind st_bind]. rewrite Hc. cbv [ok_or].
  destruct (unregister_run_cases (c_run_id c) (pm_of h)) as (_ & _ & Hk); [by apply pm_reachable_inv|].
  pose proof (pms_unregister_run (pm_of h) (c_run_id c)) as Hs. unfold pm_of in *.
  destruct (unregister_run_proxies _ _) as [[pm rc] r]. cbv zeta. simpl in *.
  split_and!; try done. by eapply pmr_step.
Qed.

Lemma login_accept_cases env hb run_id transport msg peer (h : Hub R) :
  let '(h', r) := login_accept env hb run_id transport msg peer h in
  pm_of h' = pm_of h ∧ recent_events h' = recent_events h ∧
  match r with
  | Err _ => hub_heap h' = hub_heap h ∧ hub_controls h' = hub_controls h ∧ hub_next h' = hub_next h
  | Ok self => ∃ token c, auth_verify_login authenticator (env_now env) msg = Ok token ∧
      self = hub_next h ∧ hub_heap h' = <[self := c]> (hub_heap h) ∧
      hub_controls h' = <[run_id := self]> (hub_controls h) ∧ hub_next h' = hub_next h + 1 ∧
      c_run_id c = run_id ∧ c_client_id c = lm_client_id msg ∧ c_privilege_key c = token ∧
      c_pool_count c = lm_pool_count msg ∧ c_transport c = Some transport ∧ c_work_conn_reqs c = [] ∧
      hub_wire h' = hub_wire h ++ [(transport, login_resp run_id "")]
  end.
Proof.
  unfold login_accept, transport_send. destruct (auth_verify_login _ _ _) as [token|e].
  - cbv [mbind st_bind st_lift st_modify emit]. destruct (env_send _ _ _); [|by split_and!]. simpl.
    split; [done|]. split; [done|]. by eexists token, _.
  - cbv [mbind st_bind st_lift st_modify emit inc]. destruct (env_send _ _ _); by split_and!.
Qed.

Lemma login_accept_inv env hb run_id transport msg peer h :
  srv_inv h → fresh_run run_id h → srv_inv (login_accept env hb run_id transport msg peer h).1.
Proof.
  intros [A B C D E F G] [Hcolon Hfresh].
  pose proof (login_accept_cases env hb run_id transport msg peer h) as Hc.
  destruct (login_accept env hb run_id transport msg peer h) as [h' r]. destruct Hc as (Hpm & Hev & Hr).
  simpl. injection Hpm as Hpm Hrc.
  assert (pm_reachable (pm_of h')) as A' by (by unfold pm_of; rewrite Hpm, Hrc).
  destruct r as [self|e].
  2:{ destruct Hr as (H1' & H2' & H3'). split; rewrite ?H1', ?H2', ?H3', ?Hpm, ?Hev; done. }
  destruct Hr as (token & c & _ & -> & Hh & Hcs & Hn & <- & _).
  assert (∀ a run, c_run_id <$> hub_heap h' !! a = Some run ↔
            a = hub_next h ∧ run = c_run_id c ∨ a ≠ hub_next h ∧ c_run_id <$> hub_heap h !! a = Some run) as Hl.
  { intros a run. rewrite Hh. destruct (decide (a = hub_next h)) as [->|Hne].
    - rewrite lookup_insert_eq. simpl. naive_solver.
    - rewrite lookup_insert_ne by done. naive_solver. }
  assert (∀ a run, c_run_id <$> hub_heap h !! a = Some run → a ≠ hub_next h ∧ run ≠ c_run_id c) as Hold.
  { intros a run Ha. split; [intros ->; assert (hub_next h < hub_next h) by (apply D; by eexists); lia|].
    apply fmap_Some in Ha as (c' & Hc' & ->). by apply (Hfresh a c'). }
  split; rewrite ?Hpm, ?Hev; try done.
  - intros run a. rewrite Hcs, Hl, lookup_insert_Some. intros [[<- <-]|[Hne Ha%B]]; [auto|].
    right. split; [|done]. by apply (Hold a run).
  - intros a a' run. rewrite !Hl. intros [[-> ->]|[_ Ha]] [[-> H']|[_ Ha']]; [done|..|by eapply C].
    + by apply Hold in Ha' as [_ ?].
    + subst. by apply Hold in Ha as [_ ?].
  - intros a [run Ha]. rewrite Hn. apply Hl in Ha as [[-> _]|[_ Ha]]; [lia|].
    assert (a < hub_next h) by (apply D; by eexists). lia.
  - intros a run. rewrite Hl. intros [[_ ->]|[_ Ha]]; [done|by eapply E].
  - intros key (a & run & n & Ha & ->)%F. exists a, run, n. rewrite Hl. split; [|done]. right.
    split; [by apply (Hold a run)|done].
Qed.

Lemma login_finish_inv self c h :
  srv_inv h → hub_heap h !! self = Some c → srv_inv (login_finish self h).1.
Proof.
  intros [A B C D E F G] Hc.
  destruct (login_finish_state self c h A Hc) as (_ & A' & Hh & Hcs & Hn & Hev & Hk). cbv zeta in *.
  assert (∀ a run, c_run_id <$> hub_heap (login_finish self h).1 !! a = Some run ↔
            a ≠ self ∧ c_run_id <$> hub_heap h !! a = Some run) as Hl.
  { intros a run. rewrite Hh. destruct (decide (a = self)) as [->|Hne].
    - rewrite lookup_delete_eq. naive_solver.
    - rewrite lookup_delete_ne by done. naive_solver. }
  assert (c_run_id <$> hub_heap h !! self = Some (c_run_id c)) as Hself by (by rewrite Hc).
  split; rewrite ?Hn, ?Hev; try done.
  - intros run a. rewrite Hcs, Hl, lookup_delete_Some. intros [Hne Ha%B]. split; [|done]. intros ->. congruence.
  - intros a a' run. rewrite !Hl. intros [_ ?] [_ ?]. by eapply C.
  - intros a [run [_ Ha]%Hl]. apply D. by eexists.
  - intros a run. rewrite Hl. intros [_ Ha]. by eapply E.
  - intros key. rewrite Hk. destruct (starts_with _ _) eqn:Es; [by intros [? ?]|].
    intros (a & run & n & Ha & ->)%F. exists a, run, n. rewrite Hl. split; [|done]. split; [|done].
    intros ->. rewrite Ha in Hself. injection Hself as ->.
    assert (starts_with (proxy_key_of (c_run_id c) n) (c_run_id c +:+ ":") = true); [|congruence].
    apply key_of_run; [by eapply E..|done].
Qed.

Lemma srv_step_inv h h' : srv_inv h → srv_step h h' → srv_inv h'.
Proof.
  intros Hinv Hs.
  destruct Hs as [env hb run_id transport msg peer Hf|self|env self c transport ev Hc|self c Hc
                 |conn msg|env tx msg _|env tx msg peer|s' Hs Hp].
  - by apply login_accept_inv.
  - apply safe_inv; [|done]. intros ? ?. by apply safe_upd.
  - apply (evolves_inv (c_run_id c) self h); [done|by rewrite Hc|].
    apply safe_select; [apply Hinv|]. intros c'. rewrite Hc. by intros [= ->].
  - by apply (login_finish_inv self c).
  - apply safe_inv; [|done]. intros. apply safe_new_work_conn.
  - apply safe_inv; [|done]. intros. apply safe_stcp_request.
  - apply safe_inv; [|done]. intros. apply safe_stcp_start.
  - destruct Hinv as [A B C D E F G]. split; try done; simpl; [|by rewrite Hp].
    unfold pm_of. simpl. rewrite <- surjective_pairing. by eapply pmr_step.
Qed.

Lemma srv_reachable_inv h : srv_reachable h → srv_inv h.
Proof.
  induction 1 as [addr host p1 p2 r Hr|h h' _ IH Hs]; [|by eapply srv_step_inv].
  split; simpl; try done; [by apply pmr_new|..].
  - by intros a [? ?].
  - by intros key [? ?].
  - unfold recent_events. simpl. lia.
Qed.

(** ** The control loop runs to its end *)

(** The branches that end the loop. *)
Definition ends (ev : select_event) : bool :=
  match ev with
  | Cancelled | HeartbeatDeadline | Received (Err _) | Received (Ok None) => true
  | _ => false
  end.

(** Between two turns other tasks take steps; only its own task ends a control. *)
Definition turn_ok (self : Z) (run_id : string) (t : turn) : Prop :=
  ∀ h, srv_reachable h → c_run_id <$> hub_heap h !! self = Some run_id →
  srv_reachable (turn_others t h) ∧ c_run_id <$> hub_heap (turn_others t h) !! self = Some run_id.

Lemma log_err_bind {A} (m : HM unit) (k : unit → HM A) h : (log_err m ≫= k) h = k tt (m h).1.
Proof. done. Qed.

Lemma run_select_result env self transport ev h c :
  hub_heap h !! self = Some c →
  ∃ o, (run_select authenticator env self transport ev h).2 = Ok o ∧ (ends ev = true ↔ is_Some o).
Proof.
  intros Hc.
  assert (∀ b (m : HM unit) h, b = false →
    ∃ o, ((log_err m ≫= fun _ => mret None) h : Hub R * Result (option (Result unit))).2 = Ok o ∧
         (b = true ↔ is_Some o)) as Hlog.
  { intros b m h1 ->. exists None. split; [done|]. split; [done|by intros [? ?]]. }
  assert (∀ r : option (Result unit), r = None →
    ∃ o, (@Ok Error.t _ r) = Ok o ∧ (false = true ↔ is_Some o)) as Hnone.
  { intros r ->. exists None. split; [done|]. split; [done|by intros [? ?]]. }
  destruct ev as [| |[[m|]|e]| |]; simpl; try (eexists; split; [done|]; by split).
  - destruct m; simpl; try (by apply Hnone); by apply Hlog.
  - unfold deref. cbv [mbind st_bind]. rewrite Hc. cbv [ok_or]. destruct (c_work_conn_reqs c); by apply Hnone.
  - unfold deref. cbv [mbind st_bind]. rewrite Hc. cbv [ok_or]. destruct (c_outbound c); by apply Hnone.
Qed.

Lemma run_select_step env self run_id transport ev h :
  srv_reachable h → c_run_id <$> hub_heap h !! self = Some run_id →
  let h' := (run_select authenticator env self transport ev h).1 in
  srv_reachable h' ∧ c_run_id <$> hub_heap h' !! self = Some run_id.
Proof.
  intros Hr Hself. apply fmap_Some in Hself as (c & Hc & ->). split.
  - eapply sr_step; [done|]. by eapply ss_turn.
  - assert (evolves (c_run_id c) h (run_select authenticator env self transport ev h).1) as Hev.
    { apply (safe_select self); [apply (srv_reachable_inv h Hr)|]. intros c'. rewrite Hc. by intros [= ->]. }
    rewrite (ev_heap _ _ _ Hev). by rewrite Hc.
Qed.

Lemma run_loop_ends self run_id transport turns h :
  srv_reachable h → c_run_id <$> hub_heap h !! self = Some run_id →
  Forall (turn_ok self run_id) turns → existsb (fun t => ends (turn_event t)) turns = true →
  ∃ h' r, run_loop authenticator self transport turns h = (h', Ok (Some r)) ∧
    srv_reachable h' ∧ c_run_id <$> hub_heap h' !! self = Some run_id.
Proof.
  revert h. induction turns as [|t turns IH]; [done|]. intros h Hr Hself [Ht Hts]%Forall_cons Hends.
  cbn [existsb] in Hends. cbn [run_loop]. cbv [mbind st_bind st_modify mret st_ret].
  destruct (Ht h Hr Hself) as [Hr1 Hself1]. set (h1 := turn_others t h) in *.
  pose proof (run_select_step (turn_env t) self run_id transport (turn_event t) h1 Hr1 Hself1) as Hstep.
  apply fmap_Some in Hself1 as (c & Hc & ->).
  destruct (run_select_result (turn_env t) self transport (turn_event t) h1 c Hc) as (o & Ho & He).
  destruct (run_select _ _ _ _ _ h1) as [h2 r]. simpl in Ho, Hstep. subst r. destruct Hstep as [Hr2 Hself2].
  destruct o as [r|]; [by exists h2, r|]. apply IH; try done.
  destruct (ends (turn_event t)); [|done]. by destruct (proj1 He eq_refl).
Qed.

Lemma stcp_request_cases env tx msg h :
  let '(h', r) := stcp_request env tx msg h in
  hub_heap h' = hub_heap h ∨
  ∃ info, get_stcp_info (hub_pm h) (sv_proxy_name msg) = Some info ∧
    verify (si_sk info) (pretty (sv_timestamp msg)) (sv_sk_signature msg) = true ∧
    check_timestamp (env_now env) (sv_timestamp msg) = Ok tt ∧ r = Ok tt ∧
    is_Some (hub_heap h !! si_work_conn_req_tx info) ∧
    hub_replies h' = <[tx := Waiting]> (hub_replies h) ∧
    hub_heap h' = alter (fun c => c_set_reqs (c_work_conn_reqs c ++ [mkWorkConnRequest (sv_proxy_name msg) tx]) c)
                    (si_work_conn_req_tx info) (hub_heap h).
Proof.
  unfold stcp_request. cbv [mbind st_bind hub_gets st_lift].
  destruct (get_stcp_info (hub_pm h) (sv_proxy_name msg)) as [info|]; [|by left]. cbv [ok_or st_guard].
  destruct (verify _ _ _) eqn:Hv; [|by left]. cbn [negb]. cbv [mret st_ret].
  destruct (300 <? _) eqn:Ht; [by left|]. cbv [st_modify request_send]. simpl hub_heap.
  destruct (hub_heap h !! si_work_conn_req_tx info) as [c|] eqn:Hc; [|by left].
  right. exists info. split_and!; try done. unfold check_timestamp, MAX_TIMESTAMP_SKEW. by rewrite Ht.
Qed.

(** ** Properties *)

(** As long as the turns of the control loops do not overlap: every registered proxy belongs to
    a client whose control connection is being served, every run id the control
    manager knows leads to the control with that run id, the ports held are
    exactly those of the proxies and groups, the event log has at most 32
    entries, and once no control is left there is no proxy and no port held. *)
Theorem server_owns h :
  srv_reachable h →
  (∀ key p, pm_proxies (hub_pm h) !! key = Some p →
     ∃ a c name, hub_heap h !! a = Some c ∧ key = proxy_key_of (c_run_id c) name) ∧
  (∀ run self, hub_controls h !! run = Some self → ∃ c, hub_heap h !! self = Some c ∧ c_run_id c = run) ∧
  ports_owned (held_ports (hub_rc h)) (owns (hub_pm h)) ∧
  (length (recent_events h) ≤ 32)%nat ∧
  (hub_heap h = ∅ → pm_proxies (hub_pm h) = ∅ ∧ held_ports (hub_rc h) = ∅).
Proof.
  intros [Hpm%pm_reachable_inv Hman _ _ _ Hown Hev]%srv_reachable_inv.
  assert (∀ key p, pm_proxies (hub_pm h) !! key = Some p →
     ∃ a c name, hub_heap h !! a = Some c ∧ key = proxy_key_of (c_run_id c) name) as Ho.
  { intros key p Hk. destruct (Hown key) as (a & run & name & (c & Hc & ->)%fmap_Some & ->); eauto 10. }
  split; [done|]. split.
  { intros run self (c & Hc & ->)%Hman%fmap_Some. eauto. }
  split; [apply Hpm|]. split; [done|]. intros Hheap.
  assert (pm_proxies (hub_pm h) = ∅) as He; [|split; [done|by apply (ports_of_none (pm_of h))]].
  apply map_empty. intros key. destruct (pm_proxies (hub_pm h) !! key) as [p|] eqn:Hk; [|done].
  destruct (Ho key p Hk) as (a & c & name & Hc & _). by rewrite Hheap in Hc.
Qed.

(** C8: a login that is accepted is served to the end, whatever the client sends
    and whatever the other tasks do meanwhile: once a turn of the loop sees the
    end of the connection, an error, the heartbeat deadline or the shutdown,
    [handle_login] returns, and then the control is gone, the control manager
    does not know its run id and none of its proxies is left. *)
Theorem login_cleanup env hb run_id transport msg peer turns token h :
  srv_reachable h → fresh_run run_id h →
  auth_verify_login authenticator (env_now env) msg = Ok token →
  env_send env transport (login_resp run_id "") = Ok tt →
  Forall (turn_ok (hub_next h) run_id) turns →
  existsb (fun t => ends (turn_event t)) turns = true →
  ∃ h' r, handle_login env hb run_id transport msg peer turns h = (h', Ok (Some r)) ∧
    srv_reachable h' ∧ hub_heap h' !! hub_next h = None ∧ hub_controls h' !! run_id = None ∧
    ∀ name, pm_proxies (hub_pm h') !! proxy_key_of run_id name = None.
Proof.
  intros Hr Hfresh Hauth Hsend Hturns Hends. unfold handle_login. cbv [mbind st_bind].
  pose proof (sr_step h _ Hr (ss_login h env hb run_id transport msg peer Hfresh)) as Hr1.
  pose proof (login_accept_cases env hb run_id transport msg peer h) as Hc.
  assert (∃ a, (login_accept env hb run_id transport msg peer h).2 = Ok a) as [a Ha].
  { unfold login_accept, transport_send. rewrite Hauth. cbv [mbind st_bind st_lift]. rewrite Hsend. by eexists. }
  destruct (login_accept env hb run_id transport msg peer h) as [h1 r1]. simpl in Ha, Hr1. subst r1.
  destruct Hc as (_ & _ & tok & c & _ & -> & Hh & _ & _ & Hrun & _ & _ & _ & Htr & _).
  set (self := hub_next h) in *. assert (hub_heap h1 !! self = Some c) as Hc1 by (by rewrite Hh, lookup_insert_eq).
  unfold attempt, control_run, deref. cbv [mbind st_bind]. rewrite Hc1. cbv [ok_or]. rewrite Htr.
  pose proof (sr_step h1 _ Hr1 (ss_take h1 self)) as Hr2. set (h2 := (upd_control self _ h1).1) in *.
  change (upd_control self (c_set_transport None) h1) with (h2, @Ok Error.t unit tt). cbv beta iota.
  destruct (run_loop_ends self run_id transport turns h2) as (h3 & r & -> & Hr3 & Hself3); try done.
  { unfold h2. simpl. rewrite lookup_alter_eq, Hc1. simpl. by rewrite Hrun. }
  apply fmap_Some in Hself3 as (c3 & Hc3 & Hrun3).
  destruct (login_finish_state self c3 h3) as (Hok & _ & Hh4 & Hcs4 & _ & _ & Hk4);
    [apply (srv_reachable_inv h3 Hr3)|done|].
  pose proof (sr_step h3 _ Hr3 (ss_finish h3 self c3 Hc3)) as Hr4.
  destruct (login_finish self h3) as [h4 r4]. cbn [fst snd] in *. subst r4.
  exists h4, r. split; [done|]. split; [done|]. rewrite Hh4, Hcs4, Hrun3, !lookup_delete_eq.
  split; [done|]. split; [done|]. intros name. rewrite Hk4.
  destruct Hfresh as [Hcolon _]. rewrite Hrun3 in Hcolon.
  by rewrite (proj2 (key_of_run (c_run_id c3) (c_run_id c3) name Hcolon Hcolon) eq_refl).
Qed.

(** A visitor of an STCP proxy gets a work connection requested from the
    provider only if it signed its timestamp with the proxy's secret and the
    timestamp is within 300 seconds of the server's clock (or exactly 2^63
    before it, where the difference wraps around); otherwise no control's
    queues change. *)
Theorem stcp_needs_secret env tx msg h :
  0 ≤ env_now env < 2 ^ 62 → in_i 64 (sv_timestamp msg) →
  let '(h', r) := stcp_request env tx msg h in
  hub_heap h' = hub_heap h ∨
  ∃ info, get_stcp_info (hub_pm h) (sv_proxy_name msg) = Some info ∧ r = Ok tt ∧
    sv_sk_signature msg = sign (si_sk info) (pretty (sv_timestamp msg)) ∧
    (Z.abs (env_now env - sv_timestamp msg) ≤ 300 ∨ env_now env - sv_timestamp msg = 2 ^ 63) ∧
    hub_heap h' = alter (fun c => c_set_reqs (c_work_conn_reqs c ++ [mkWorkConnRequest (sv_proxy_name msg) tx]) c)
                    (si_work_conn_req_tx info) (hub_heap h).
Proof.
  intros Hn Ht. pose proof (stcp_request_cases env tx msg h) as Hc.
  destruct (stcp_request env tx msg h) as [h' r].
  destruct Hc as [Hc|(info & Hi & Hv%verify_iff & Hs & -> & _ & _ & Hh)]; [by left|right].
  exists info. rewrite check_timestamp_Ok in Hs by done. done.
Qed.

End Server.

Section TokenServer.
Context `{Json} `{Primitives} `{UnicodeLower} `{DashIter} {R : Type} `{PortAllocator R}.

(** With the token authenticator, a work connection reaches a control only
    if it carries the HMAC of the control's run id under one of the server's
    tokens; otherwise no queue changes and nobody gets the connection. *)
Theorem work_conn_needs_hmac (a : TokenAuth) conn msg (h : Hub R) :
  let '(h', r) := handle_new_work_conn (token_authenticator a) conn msg h in
  hub_heap h' = hub_heap h ∧ hub_replies h' = hub_replies h ∧ (∃ e, r = Err e) ∨
  ∃ t self, t ∈ known_tokens a ∧ nw_privilege_key msg = sign t (nw_run_id msg) ∧
    hub_controls h !! nw_run_id msg = Some self ∧
    (h', r) = handle_work_conn self conn
                (set_metrics (fetch_add work_connections_total 1 (hub_metrics h)) h).
Proof.
  unfold handle_new_work_conn, st_guard. destruct (is_empty _); [left; by eauto|].
  cbv [mbind st_bind mret st_ret inc st_modify].
  change (auth_verify_new_work_conn (token_authenticator a) msg) with (verify_new_work_conn a msg).
  destruct (verify_new_work_conn a msg) as [[]|e] eqn:Hv; cbv [emit st_modify st_fail]; [|left; by eauto].
  apply verify_new_work_conn_Ok in Hv as (t & Ht & Hsig). cbv [hub_gets cm_get st_lift]. simpl hub_controls.
  destruct (hub_controls h !! nw_run_id msg) as [self|] eqn:Hc; cbv [ok_or]; [|left; by eauto].
  destruct (handle_work_conn self conn _) eqn:Hw. right. exists t, self.
  by rewrite Hw.
Qed.
End TokenServer.

(** ** Witnesses *)

Module ToyServer.
#[local] Existing Instances ToyProxyManager.json ToyProxyManager.lower ToyProxyManager.iter ToyCrypto.prims.
Import ToyControl.

Definition h0 : Hub ResourceController := hub_new (pm_new "0.0.0.0" "" 0 0) ToyProxyManager.rc0.
Definition login : LoginMsg := mkLoginMsg "0.5.4" "" "" "" "" "c1" 0 "" "" 1.
Definition turns : list (turn (R := ResourceController)) :=
  [mkTurn id env (Received (Ok (Some (NewProxy ssh)))); mkTurn id env (Received (Ok None))].

Lemma start_reachable : srv_reachable auth h0.
Proof. by apply (sr_new auth "0.0.0.0" "" 0 0). Qed.
Lemma turns_ok self run : Forall (turn_ok auth self run) turns.
Proof. repeat constructor; done. Qed.
Lemma fresh_r1 : fresh_run "r1" h0.
Proof. split; [by apply bytes_contains_false|apply map_Forall_empty]. Qed.

Lemma server_owns_witness :
  let h := (login_accept auth env 90 "r1" 10 login "1.2.3.4:5" h0).1 in
  ports_owned (held_ports (hub_rc h)) (owns (hub_pm h)) ∧ (length (recent_events h) ≤ 32)%nat.
Proof.
  intros h. destruct (server_owns auth h) as (_ & _ & Hp & He & _); [|exact (conj Hp He)].
  eapply sr_step; [apply start_reachable|]. apply ss_login, fresh_r1.
Defined.

Lemma login_cleanup_witness :
  ∃ h' r, handle_login auth env 90 "r1" 10 login "1.2.3.4:5" turns h0 = (h', Ok (Some r)) ∧
    pm_proxies (hub_pm h') !! "r1:ssh"%string = None.
Proof.
  destruct (login_cleanup auth env 90 "r1" 10 login "1.2.3.4:5" turns "k" h0 start_reachable fresh_r1
              eq_refl eq_refl (turns_ok _ _) eq_refl) as (h' & r & E & _ & _ & _ & Hk).
  exists h', r. exact (conj E (Hk "ssh"%string)).
Defined.

(** A visitor with the secret of the provider of [db]. *)
Definition hs : Hub ResourceController :=
  set_pm (pm_set_stcp {[ "db"%string := mkStcpProxyInfo "r1" "s3" 1 ]} (hub_pm ToyControl.h0), ToyProxyManager.rc0)
    ToyControl.h0.
Definition visit : StcpVisitorConnMsg := mkStcpVisitorConnMsg "db" (sign "s3" "5") 5.

Lemma stcp_needs_secret_witness :
  ∃ info, get_stcp_info (hub_pm hs) "db" = Some info ∧
    sv_sk_signature visit = sign (si_sk info) (pretty (sv_timestamp visit)).
Proof.
  pose proof (stcp_needs_secret env 7 visit hs ltac:(vm_compute; intuition discriminate)
                ltac:(vm_compute; intuition discriminate)) as Hc.
  assert (hub_heap (stcp_request env 7 visit hs).1 ≠ hub_heap hs) as Hne.
  { intros E. apply (f_equal (fun m => (fun c => length (c_work_conn_reqs c)) <$> m !! 1)) in E.
    vm_compute in E. discriminate. }
  destruct (stcp_request env 7 visit hs) as [h' r].
  destruct Hc as [E|(info & Hi & _ & Hs & _)]; [destruct (Hne E)|]. exists info. exact (conj Hi Hs).
Defined.

(** The proxy was really there before the client went. *)
Example registered_meanwhile :
  let h1 := (login_accept auth env 90 "r1" 10 login "1.2.3.4:5" h0).1 in
  let h2 := (run_loop auth 0 10 (take 1 turns) h1).1 in
  bool_decide (is_Some (pm_proxies (hub_pm h2) !! "r1:ssh"%string)) = true.
Proof. vm_compute. reflexivity. Qed.
End ToyServer.
