(* ===== verification/TcpConn.v ===== *)
(** * User connections of TCP proxies (the data plane of the server's
      proxy/tcp.rs and the per-proxy counters of metrics.rs)

    What happens to a connection a user makes to the port of a proxy: the
    accept loop with its backoff, the request for a work connection, the plain
    relay and the relay over a multiplexer tunnel, and the counters they move.
    The tunnel itself is in MuxTunnel; what a relay moved is an argument, and
    [others] is what other tasks do while a task waits. *)
From S2P Require Import Prelude RustString Errors Protocol Config Auth Resource Vhost TcpGroup ProxyManager Hub Control Server Framing MuxTunnel.
Local Open Scope Z_scope.

(** ** Per-proxy counters *)

Record ProxyMetrics := mkProxyMetrics {
  px_bytes_in : Z; px_bytes_out : Z; px_connections_total : Z; px_connections_active : Z; px_errors : Z;
}.

Definition proxy_metrics_new : ProxyMetrics := mkProxyMetrics 0 0 0 0 0.

(** A connection begins: [connections_total] and [connections_active]. *)
Definition px_begin (p : ProxyMetrics) : ProxyMetrics :=
  mkProxyMetrics (px_bytes_in p) (px_bytes_out p) (wrap 64 (px_connections_total p + 1))
    (swrap 64 (px_connections_active p + 1)) (px_errors p).
Definition px_add_bytes (bytes_in bytes_out : Z) (p : ProxyMetrics) : ProxyMetrics :=
  mkProxyMetrics (wrap 64 (px_bytes_in p + bytes_in)) (wrap 64 (px_bytes_out p + bytes_out))
    (px_connections_total p) (px_connections_active p) (px_errors p).
Definition px_finish (p : ProxyMetrics) : ProxyMetrics :=
  mkProxyMetrics (px_bytes_in p) (px_bytes_out p) (px_connections_total p)
    (swrap 64 (px_connections_active p - 1)) (px_errors p).

(** [PROXY_METRICS]: the map holds references, which outlive their entry. *)
Record MetricsTable := mkMetricsTable {
  mx_map : gmap string Z; mx_heap : gmap Z ProxyMetrics; mx_next : Z;
}.

Definition get_or_create_proxy_metrics (proxy_name : string) (m : MetricsTable) : MetricsTable * Z :=
  match mx_map m !! proxy_name with
  | Some a => (m, a)
  | None => (mkMetricsTable (<[proxy_name := mx_next m]> (mx_map m))
               (<[mx_next m := proxy_metrics_new]> (mx_heap m)) (mx_next m + 1), mx_next m)
  end.

Definition remove_proxy_metrics (proxy_name : string) (m : MetricsTable) : MetricsTable :=
  mkMetricsTable (delete proxy_name (mx_map m)) (mx_heap m) (mx_next m).

Definition mx_update (a : Z) (f : ProxyMetrics → ProxyMetrics) (m : MetricsTable) : MetricsTable :=
  mkMetricsTable (mx_map m) (alter f a (mx_heap m)) (mx_next m).

(** ** The accept loop *)

(** What a turn of the loop sees, and what it does. *)
Inductive AcceptEvent := Accepted (client_addr : string) | AcceptFailed (e : IoError) | Shutdown.
Inductive AcceptAction := Spawn (client_addr : string) | Sleep (ms : Z).

(** [TcpProxy::run] once the listener is taken: its actions, and whether it has
    ended.  A permanent error ends it like a shutdown does. *)
Fixpoint accept_loop (backoff_ms : Z) (evs : list AcceptEvent) : list AcceptAction * bool :=
  match evs with
  | [] => ([], false)
  | Accepted addr :: evs' => let '(acts, fin) := accept_loop 0 evs' in (Spawn addr :: acts, fin)
  | AcceptFailed e :: evs' =>
      if is_transient_accept_error e then
        let backoff_ms := next_backoff backoff_ms in
        let '(acts, fin) := accept_loop backoff_ms evs' in (Sleep backoff_ms :: acts, fin)
      else ([], true)
  | Shutdown :: _ => ([], true)
  end.

(** [TcpProxy::run]: [listener] is whether the listener is still there. *)
Definition tcp_run (name : string) (listener : bool) (evs : list AcceptEvent)
  : list AcceptAction * option (Result unit) :=
  if listener then
    let '(acts, fin) := accept_loop 0 evs in (acts, if fin then Some (Ok tt) else None)
  else ([], Some (Err (Error.Transport ("TCP proxy " +:+ name +:+ " listener already taken")))).

(** [GroupedTcpProxy::run_loop]: here a permanent error is returned. *)
Fixpoint group_loop (backoff_ms : Z) (evs : list AcceptEvent) : list AcceptAction * option (Result unit) :=
  match evs with
  | [] => ([], None)
  | Accepted addr :: evs' => let '(acts, fin) := group_loop 0 evs' in (Spawn addr :: acts, fin)
  | AcceptFailed e :: evs' =>
      if is_transient_accept_error e then
        let backoff_ms := next_backoff backoff_ms in
        let '(acts, fin) := group_loop backoff_ms evs' in (Sleep backoff_ms :: acts, fin)
      else ([], Some (Err (Error.Io e)))
  | Shutdown :: _ => ([], Some (Ok tt))
  end.

Definition group_run_loop (group_id : string) (listener : bool) (evs : list AcceptEvent)
  : list AcceptAction * option (Result unit) :=
  if listener then group_loop 0 evs
  else ([], Some (Err (Error.Transport ("TCP group " +:+ group_id +:+ " listener already taken")))).

(** ** Work connections and relays *)

Section Data.
Context `{Json} `{UnicodeLower} `{DashIter} {R : Type} `{PortAllocator R}.

(** The server's shared state, the counters, and the tunnel of the proxy: the
    slot [mux_tunnel] and the tunnels it may refer to. *)
Record Data := mkData {
  d_hub : Hub R; d_metrics : MetricsTable; d_slot : option Z; d_tunnels : gmap Z Endpoint;
}.

Abbreviation DM A := (st Data Error.t A).

Definition d_set_hub (h : Hub R) (d : Data) : Data := mkData h (d_metrics d) (d_slot d) (d_tunnels d).
Definition d_set_metrics (m : MetricsTable) (d : Data) : Data := mkData (d_hub d) m (d_slot d) (d_tunnels d).
Definition d_set_slot (s : option Z) (d : Data) : Data := mkData (d_hub d) (d_metrics d) s (d_tunnels d).
Definition d_set_tunnel (a : Z) (e : Endpoint) (d : Data) : Data :=
  mkData (d_hub d) (d_metrics d) (d_slot d) (<[a := e]> (d_tunnels d)).

Definition on_hub {A} (m : st (Hub R) Error.t A) : DM A := zoom d_hub d_set_hub m.
Definition count_px (a : Z) (f : ProxyMetrics → ProxyMetrics) : DM unit :=
  st_modify (fun d => d_set_metrics (mx_update a f (d_metrics d)) d).
Definition proxy_metrics (name : string) : DM Z := fun d =>
  let '(m, a) := get_or_create_proxy_metrics name (d_metrics d) in (d_set_metrics m d, Ok a).
Definition add_bytes (c : Counter) (v : Z) : st (Hub R) Error.t unit :=
  st_modify (fun h => set_metrics (fetch_add c v (hub_metrics h)) h).

(** [tx] is the new oneshot channel, [others] what other tasks do while this
    one waits. *)
Definition request_work_transport (env : Env) (tx : Z) (others : Data → Data)
    (proxy_name : string) (remote_port : Z) (work_conn_req_tx : Sender) : DM Conn :=
  _ ← on_hub (st_modify (fun h => set_replies (<[tx := Waiting]> (hub_replies h)) h));
  _ ← on_hub (request_send work_conn_req_tx (mkWorkConnRequest proxy_name tx)
                (Error.Transport "Failed to request work connection"));
  _ ← st_modify others;
  work_transport ← on_hub (await_reply tx (Error.Timeout "Work connection timeout")
                      (Error.Transport "Work connection channel closed"));
  _ ← on_hub (transport_send env work_transport
                (StartWorkConn (mkStartWorkConnMsg proxy_name "" ("0.0.0.0:" +:+ pretty remote_port) "")));
  mret work_transport.

(** [relay conn] is what [relay_stcp] (when [stcp]) or [copy_bidirectional]
    gives for the user's connection and the work connection. *)
Definition handle_plain_client_connection (env : Env) (tx : Z) (others relaying : Data → Data)
    (relay : Conn → Result (Z * Z)) (proxy_name : string) (remote_port : Z) (work_conn_req_tx : Sender)
  : DM unit :=
  _ ← on_hub (inc tcp_proxy_connections_total);
  pm ← proxy_metrics proxy_name;
  _ ← count_px pm px_begin;
  work_transport ← request_work_transport env tx others proxy_name remote_port work_conn_req_tx;
  _ ← st_modify relaying;
  moved ← st_lift (relay work_transport);
  _ ← on_hub (add_bytes tcp_bytes_in_total moved.1);
  _ ← on_hub (add_bytes tcp_bytes_out_total moved.2);
  _ ← count_px pm (px_add_bytes moved.1 moved.2);
  count_px pm px_finish.

(** [get_or_create_mux_tunnel]; the slot is locked throughout.  [id] names the
    new tunnel. *)
Definition get_or_create_mux_tunnel (env : Env) (tx id : Z) (others : Data → Data)
    (proxy_name : string) (remote_port : Z) (work_conn_req_tx : Sender) : DM Z := fun d =>
  let create : DM Z :=
    (_ ← request_work_transport env tx others proxy_name remote_port work_conn_req_tx;
     _ ← st_modify (d_set_tunnel id ep_new);
     _ ← st_modify (d_set_slot (Some id));
     mret id) in
  match d_slot d with
  | Some tunnel =>
      match d_tunnels d !! tunnel with
      | Some e => if is_alive e then (d, Ok tunnel) else create (d_set_slot None d)
      | None => create (d_set_slot None d)
      end
  | None => create d
  end.

(** [MuxTunnel::open_stream] on a tunnel of the table. *)
Definition open_stream (tunnel : Z) : DM Z := fun d =>
  match d_tunnels d !! tunnel with
  | Some e =>
      let id := ep_next e in
      let e1 := open_stream_send (length (ep_conns e)) id (open_stream_alloc e) in
      (d_set_tunnel tunnel e1 d,
       if ep_tx e then Ok id else Err (Error.Transport "tcp_mux frame channel closed"))
  | None => (d, Err (Error.Transport "tcp_mux frame channel closed"))
  end.

(** [relaying] contains the tasks of [relay_mux_stream], with the bytes they
    count; [outcome] is its result. *)
Definition handle_mux_client_connection (env : Env) (tx id : Z) (others relaying : Data → Data)
    (outcome : Z → Result unit) (proxy_name : string) (remote_port : Z) (work_conn_req_tx : Sender)
  : DM unit :=
  tunnel ← get_or_create_mux_tunnel env tx id others proxy_name remote_port work_conn_req_tx;
  stream_id ← open_stream tunnel;
  _ ← on_hub (inc tcp_proxy_connections_total);
  _ ← on_hub (inc tcp_mux_streams_opened_total);
  pm ← proxy_metrics proxy_name;
  _ ← count_px pm px_begin;
  _ ← st_modify relaying;
  _ ← count_px pm px_finish;
  st_lift (outcome stream_id).

(** The task [run] spawns for a connection: an error is counted and logged. *)
Definition serve_connection (m : DM unit) : DM unit := fun d =>
  match m d with
  | (d', Ok _) => (d', Ok tt)
  | (d', Err _) => on_hub (inc tcp_proxy_errors_total) d'
  end.

(** ** What a plain connection leaves in the counters *)

(** The counters of a proxy, zero when it has none yet. *)
Definition px_of (name : string) (m : MetricsTable) : ProxyMetrics :=
  default proxy_metrics_new (mx_map m !! name ≫= fun a => mx_heap m !! a).

(** Entries refer to counters, and new references are fresh. *)
Definition table_ok (m : MetricsTable) : Prop :=
  (∀ name a, mx_map m !! name = Some a → is_Some (mx_heap m !! a) ∧ a < mx_next m) ∧
  (∀ name name' a, mx_map m !! name = Some a → mx_map m !! name' = Some a → name = name').

Lemma get_or_create_spec name m :
  table_ok m →
  let '(m', a) := get_or_create_proxy_metrics name m in
  table_ok m' ∧ mx_map m' !! name = Some a ∧ mx_heap m' !! a = Some (px_of name m).
Proof.
  intros [Hok Hinj]. unfold get_or_create_proxy_metrics, px_of. destruct (mx_map m !! name) as [a|] eqn:E; simpl.
  { destruct (Hok name a E) as [[p Hp] _]. rewrite Hp. done. }
  rewrite !lookup_insert_eq. split; [|done]. split; simpl.
  - intros n b [[<- <-]|[Hne Hb]]%lookup_insert_Some; [rewrite lookup_insert_eq; split; [eauto|lia]|].
    destruct (Hok n b Hb) as [Hs Hl]. rewrite lookup_insert_ne by lia. split; [done|lia].
  - intros n n' b [[<- <-]|[Hn Hb]]%lookup_insert_Some [[<- Hb']|[Hn' Hb']]%lookup_insert_Some; try done; eauto.
    + destruct (Hok _ _ Hb') as [_ ?]. lia.
    + subst. destruct (Hok _ _ Hb) as [_ ?]. lia.
Qed.

Lemma px_of_update name a f m p :
  mx_map m !! name = Some a → mx_heap m !! a = Some p → px_of name (mx_update a f m) = f p.
Proof. intros Ha Hp. unfold px_of, mx_update. simpl. rewrite Ha. simpl. by rewrite lookup_alter_eq, Hp. Qed.

(** Tasks that leave the counters alone. *)
Definition keeps_metrics (f : Data → Data) : Prop := ∀ d, d_metrics (f d) = d_metrics d.

Lemma request_keeps_metrics env tx others name port sender d :
  keeps_metrics others → d_metrics (request_work_transport env tx others name port sender d).1 = d_metrics d.
Proof.
  intros Ho. unfold request_work_transport, on_hub, zoom, request_send, await_reply, transport_send.
  cbv [mbind st_bind st_modify st_lift mret st_ret upd_control].
  repeat (case_match; simplify_eq/=; try rewrite Ho); try done.
Qed.

Lemma gauge_balanced p bi bo :
  in_i 64 (px_connections_active p) → in_i 64 (px_connections_active p + 1) →
  px_connections_active (px_finish (px_add_bytes bi bo (px_begin p))) = px_connections_active p.
Proof.
  intros Hi1 Hi2. simpl. rewrite (swrap_small 64 (_ + 1)) by done.
  rewrite Z.add_simpl_r. by apply swrap_small.
Qed.

(** The counters of a plain user connection.  When the connection is served
    the gauge of active connections is back where it was and the bytes of the
    relay are counted; when no work connection comes, it cannot be told to
    start or the relay fails, the gauge stays one too high.  (Other tasks are
    taken not to touch the counters of this proxy meanwhile.) *)
Theorem plain_connection_gauge env tx others relaying relay name port sender d d' r :
  table_ok (d_metrics d) → keeps_metrics others → keeps_metrics relaying →
  in_i 64 (px_connections_active (px_of name (d_metrics d))) →
  in_i 64 (px_connections_active (px_of name (d_metrics d)) + 1) →
  handle_plain_client_connection env tx others relaying relay name port sender d = (d', r) →
  let before := px_of name (d_metrics d) in
  let after := px_of name (d_metrics d') in
  px_connections_total after = wrap 64 (px_connections_total before + 1) ∧
  match r with
  | Ok _ =>
      px_connections_active after = px_connections_active before ∧
      ∃ work bytes_in bytes_out, relay work = Ok (bytes_in, bytes_out) ∧
        px_bytes_in after = wrap 64 (px_bytes_in before + bytes_in) ∧
        px_bytes_out after = wrap 64 (px_bytes_out before + bytes_out)
  | Err _ => px_connections_active after = px_connections_active before + 1
  end.
Proof.
  intros Hok Ho Hr Hi1 Hi2 E. cbv zeta. unfold handle_plain_client_connection in E.
  cbv [mbind st_bind on_hub zoom inc st_modify proxy_metrics count_px] in E. simpl in E.
  pose proof (get_or_create_spec name (d_metrics d) Hok) as Hg.
  destruct (get_or_create_proxy_metrics name (d_metrics d)) as [m a]. destruct Hg as (_ & Ha & Hp).
  set (d1 := d_set_metrics _ _) in E.
  assert (d_metrics d1 = mx_update a px_begin m) as Hm1 by done. clearbody d1.
  pose proof (request_keeps_metrics env tx others name port sender d1 Ho) as Hm2.
  destruct (request_work_transport _ _ _ _ _ _ d1) as [d2 [work|e]]; simpl in *; simplify_eq/=.
  - cbv [st_lift] in E. destruct (relay work) as [[bi bo]|e] eqn:Er; simplify_eq/=.
    + rewrite Hr, Hm2, Hm1. unfold mx_update, px_of. simpl. rewrite Ha. simpl.
      rewrite !lookup_alter_eq, Hp. split; [done|]. split; [by apply gauge_balanced|]. eauto 10.
    + rewrite Hr, Hm2, Hm1, (px_of_update name a _ m _ Ha Hp). split; [done|]. by apply swrap_small.
  - rewrite Hm2, Hm1, (px_of_update name a _ m _ Ha Hp). split; [done|]. by apply swrap_small.
Qed.
End Data.

(** ** The accept loop *)

(** The delay before the accept after [n + 1] transient errors in a row. *)
Definition backoff_ms (n : nat) : Z := Z.min (10 * 2 ^ Z.of_nat n) 1000.

Lemma next_backoff_ms n : next_backoff (backoff_ms n) = backoff_ms (S n).
Proof.
  unfold next_backoff, backoff_ms. assert (0 < 2 ^ Z.of_nat n) by (apply Z.pow_pos_nonneg; lia).
  rewrite (proj2 (Z.eqb_neq _ _)) by lia. rewrite Nat2Z.inj_succ, Z.pow_succ_r by lia. lia.
Qed.

Lemma accept_loop_transient k es evs :
  Forall (fun e => is_transient_accept_error e = true) es →
  accept_loop (backoff_ms k) ((AcceptFailed <$> es) ++ evs)
  = let '(acts, fin) := accept_loop (backoff_ms (k + length es)) evs in
    (((fun n => Sleep (backoff_ms n)) <$> seq (S k) (length es)) ++ acts, fin).
Proof.
  intros Hes. revert k. induction Hes as [|e es He _ IH]; intros k; csimpl.
  { rewrite Nat.add_0_r. by destruct (accept_loop _ _). }
  rewrite He, next_backoff_ms, IH. rewrite Nat.add_succ_r. by destruct (accept_loop _ _).
Qed.

(** Transient accept errors are retried with the delays 10, 20, 40, ...,
    640, 1000, 1000, ... ms, whatever their number, and the next connection is
    accepted and resets the delay; the loop ends only with a permanent error or
    a shutdown. *)
Theorem accept_backoff name es addr evs :
  Forall (fun e => is_transient_accept_error e = true) es →
  tcp_run name true ((AcceptFailed <$> es) ++ Accepted addr :: evs)
  = let '(acts, r) := tcp_run name true evs in
    (((fun n => Sleep (backoff_ms n)) <$> seq 0 (length es)) ++ Spawn addr :: acts, r).
Proof.
  intros Hes. unfold tcp_run. destruct es as [|e es]; csimpl; [by destruct (accept_loop 0 evs)|].
  apply Forall_cons in Hes as [He Hes]. rewrite He. change (next_backoff 0) with (backoff_ms 0).
  rewrite accept_loop_transient by done. simpl. by destruct (accept_loop 0 evs) as [acts []].
Qed.

Lemma accept_backoff_witness :
  tcp_run "ssh" true ([AcceptFailed (mkIoError WouldBlock None ""); AcceptFailed (mkIoError Interrupted None "");
                       Accepted "1.2.3.4:5"; Shutdown])
  = ([Sleep 10; Sleep 20; Spawn "1.2.3.4:5"], Some (Ok tt)).
Proof.
  change (tcp_run "ssh" true ((AcceptFailed <$> [mkIoError WouldBlock None ""; mkIoError Interrupted None ""])
            ++ Accepted "1.2.3.4:5" :: [Shutdown]) = ([Sleep 10; Sleep 20; Spawn "1.2.3.4:5"], Some (Ok tt))).
  rewrite (accept_backoff "ssh"); [reflexivity|]. repeat constructor.
Defined.

(** A proxy of the control at address 1: one connection that is served, and one
    that gets no work connection. *)
Module ToyTcpConn.
#[local] Existing Instances ToyProxyManager.json ToyProxyManager.lower ToyProxyManager.iter.
Definition d0 : Data (R := ResourceController) := mkData ToyControl.h0 (mkMetricsTable ∅ ∅ 0) None ∅.
Definition deliver (d : Data (R := ResourceController)) : Data (R := ResourceController) :=
  d_set_hub (set_replies (<[7 := Delivered 30]> (hub_replies (d_hub d))) (d_hub d)) d.
Definition served : Data * Result unit :=
  handle_plain_client_connection ToyControl.env 7 deliver (fun d => d) (fun _ => Ok (3, 4)) "ssh" 6000 1 d0.
Definition unserved : Data * Result unit :=
  handle_plain_client_connection ToyControl.env 7 (fun d => d) (fun d => d) (fun _ => Ok (3, 4)) "ssh" 6000 1 d0.

Lemma table_empty : table_ok (d_metrics d0).
Proof. split; intros *; simpl; rewrite lookup_empty; done. Defined.

Lemma plain_connection_gauge_witness :
  (served.2 = Ok tt ∧ px_connections_active (px_of "ssh" (d_metrics served.1)) = 0) ∧
  (∃ e, unserved.2 = Err e) ∧ px_connections_active (px_of "ssh" (d_metrics unserved.1)) = 1.
Proof.
  split; [split; [vm_compute; reflexivity|]|split; [eexists; vm_compute; reflexivity|]].
  - destruct (plain_connection_gauge ToyControl.env 7 deliver (fun d => d) (fun _ => Ok (3, 4)) "ssh" 6000 1 d0
      served.1 served.2 table_empty) as [_ Hr]; [done|done|vm_compute; split; congruence..|vm_compute; reflexivity|].
    replace served.2 with (Ok (E := Error.t) tt) in Hr by (vm_compute; reflexivity). apply Hr.
  - destruct (plain_connection_gauge ToyControl.env 7 (fun d => d) (fun d => d) (fun _ => Ok (3, 4)) "ssh" 6000 1 d0
      unserved.1 unserved.2 table_empty) as [_ Hr]; [done|done|vm_compute; split; congruence..|vm_compute; reflexivity|].
    replace unserved.2 with (Err (A := unit) (Error.Timeout "Work connection timeout")) in Hr by (vm_compute; reflexivity).
    exact Hr.
Defined.
End ToyTcpConn.
