(* ===== verification/UserConn.v ===== *)
(** * Connections of HTTP, HTTPS and UDP users (crates/arp-server/src/proxy/vhost.rs
      and udp.rs)

    The shared HTTP and HTTPS listeners, the connections they accept (the
    handlers of Vhost with the exchange with the control task that they leave
    to an argument), and the receive loop of a UDP proxy.  [others] is what
    other tasks of the server do while a task waits. *)
From S2P Require Import Prelude RustString Errors Protocol Config Auth Framing UdpTunnel Resource VhostParse Vhost TcpGroup ProxyManager Hub Control Server.
Local Open Scope Z_scope.

(** ** The two listeners *)

(** The accept loop: the addresses whose connections were handed to a task, and
    the result once it has ended.  Every accept error ends it. *)
Fixpoint vhost_accept_loop (accepts : list (result IoError string)) : list string * option (Result unit) :=
  match accepts with
  | [] => ([], None)
  | Ok addr :: rest => let '(spawned, r) := vhost_accept_loop rest in (addr :: spawned, r)
  | Err e :: _ => ([], Some (Err (Error.Io e)))
  end.

Definition run_listener (bind_addr : string) (port : Z) (bind : string → result IoError unit)
    (accepts : list (result IoError string)) : list string * option (Result unit) :=
  match bind (bind_addr +:+ ":" +:+ pretty port) with
  | Ok _ => vhost_accept_loop accepts
  | Err e => ([], Some (Err (Error.Io e)))
  end.

Definition run_http_listener (vm : VhostManager) :=
  run_listener (vm_bind_addr vm) (vm_vhost_http_port vm).
Definition run_https_listener (vm : VhostManager) :=
  run_listener (vm_bind_addr vm) (vm_vhost_https_port vm).

(** What the task that [ensure_http_listener_started] spawns stores when its
    listener has stopped; [vm] is the manager at that time. *)
Definition http_listener_stopped (vm : VhostManager) : VhostManager :=
  mkVhostManager (vm_bind_addr vm) (vm_subdomain_host vm) (vm_vhost_http_port vm)
    (vm_vhost_https_port vm) (vm_http vm) (vm_https vm) false (vm_https_listener_started vm).
Definition https_listener_stopped (vm : VhostManager) : VhostManager :=
  mkVhostManager (vm_bind_addr vm) (vm_subdomain_host vm) (vm_vhost_http_port vm)
    (vm_vhost_https_port vm) (vm_http vm) (vm_https vm) (vm_http_listener_started vm) false.

Lemma vhost_accept_loop_failed addrs e accepts :
  vhost_accept_loop ((Ok <$> addrs) ++ Err e :: accepts) = (addrs, Some (Err (Error.Io e))).
Proof. induction addrs as [|a addrs IH]; csimpl; [done|]. by rewrite IH. Qed.

(** ** The receive loop of a UDP proxy *)

Definition UDP_PACKET_MAX : Z := 65535.

Inductive UdpEvent := UdpRecv (datagram : bytes) (src_addr : string) | UdpRecvFailed (e : IoError) | UdpShutdown.

(** The packets that were handed to a [handle_udp_packet] task, and whether
    [run] has ended.  The kernel cuts a datagram to the buffer. *)
Fixpoint udp_run (evs : list UdpEvent) : list (bytes * string) * bool :=
  match evs with
  | [] => ([], false)
  | UdpRecv datagram src_addr :: rest =>
      let '(spawned, fin) := udp_run rest in ((take (Z.to_nat UDP_PACKET_MAX) datagram, src_addr) :: spawned, fin)
  | UdpRecvFailed _ :: rest => udp_run rest
  | UdpShutdown :: _ => ([], true)
  end.

(** Receive errors are skipped: what is handled does not depend on them. *)
Lemma udp_run_skips_errors evs :
  udp_run evs = udp_run (List.filter (fun e => match e with UdpRecvFailed _ => false | _ => true end) evs).
Proof. induction evs as [|[d a|e|] evs IH]; simpl; [done|by rewrite IH|done|done]. Qed.

(** ** A connection of an HTTP or HTTPS user *)

Section Conns.
Context `{Json} `{UnicodeLower} `{DashIter} {R : Type} `{PortAllocator R}.
Abbreviation HM A := (st (Hub R) Error.t A).

(** [tx] is the new oneshot channel. *)
Definition request_work_conn (env : Env) (tx : Z) (others : Hub R → Hub R) (work_conn_req_tx : Sender)
    (proxy_name src_addr dst_addr : string) : HM Conn :=
  _ ← st_modify (fun h => set_replies (<[tx := Waiting]> (hub_replies h)) h);
  _ ← request_send work_conn_req_tx (mkWorkConnRequest proxy_name tx)
        (Error.Transport "failed to request work connection from control");
  _ ← st_modify others;
  work_transport ← await_reply tx (Error.Timeout "work connection timeout")
                      (Error.Transport "work connection channel closed");
  _ ← transport_send env work_transport
        (StartWorkConn (mkStartWorkConnMsg proxy_name src_addr dst_addr ""));
  mret work_transport.

(** The handlers up to the copying: [stream_of] is the stream of a work
    connection.  The result is the route, the work connection and its stream
    after the head was written to it. *)
Definition http_conn (env : Env) (tx : Z) (others : Hub R → Hub R) (stream_of : Conn → Writer)
    (reads : list (result IoError bytes)) (src_addr dst_addr : string) : HM (VhostRoute * Conn * Writer) :=
  request_head ← st_lift (read_http_request_head reads);
  host ← st_lift (ok_or (Error.Protocol "missing Host header") (extract_http_host request_head));
  let domain := normalize_host host in
  route ← on_pm (on_vhost (pick_http domain));
  work ← request_work_conn env tx others (vr_work_conn_req_tx route) (vr_proxy_name route) src_addr dst_addr;
  out ← st_lift (forward_head route request_head (stream_of work));
  mret (out.1, work, out.2).

Definition https_conn (env : Env) (tx : Z) (others : Hub R → Hub R) (stream_of : Conn → Writer)
    (timed_out : bool) (stream : Reader) (src_addr dst_addr : string) : HM (VhostRoute * Conn * Writer) :=
  client_hello ← st_lift (read_tls_client_hello timed_out stream).2;
  sni ← st_lift (ok_or (Error.Protocol "missing TLS SNI") (default None (parse_tls_sni client_hello)));
  let domain := normalize_host sni in
  route ← on_pm (on_vhost (pick_https domain));
  work ← request_work_conn env tx others (vr_work_conn_req_tx route) (vr_proxy_name route) src_addr dst_addr;
  out ← st_lift (forward_head route client_hello (stream_of work));
  mret (out.1, work, out.2).

(** The server when the request is in the channel of the control. *)
Definition asked (tx : Z) (proxy_name : string) (sender : Sender) (h : Hub R) : Hub R :=
  let h := set_replies (<[tx := Waiting]> (hub_replies h)) h in
  set_heap (alter (fun c => c_set_reqs (c_work_conn_reqs c ++ [mkWorkConnRequest proxy_name tx]) c)
              sender (hub_heap h)) h.

(** What is made of the answer: the connection, told to start and given the
    bytes that were read, or the error. *)
Definition start_work (env : Env) (tx : Z) (msg : Message) (h : Hub R) : Hub R * Result Conn :=
  match hub_replies h !! tx with
  | Some (Delivered conn) =>
      match env_send env conn msg with
      | Ok _ => (set_wire (hub_wire h ++ [(conn, msg)]) h, Ok conn)
      | Err e => (h, Err e)
      end
  | Some Waiting => (set_replies (<[tx := Gone]> (hub_replies h)) h, Err (Error.Timeout "work connection timeout"))
  | _ => (h, Err (Error.Transport "work connection channel closed"))
  end.

Lemma request_work_conn_spec env tx others sender name src dst h :
  request_work_conn env tx others sender name src dst h =
  match hub_heap h !! sender with
  | Some _ => start_work env tx (StartWorkConn (mkStartWorkConnMsg name src dst "")) (others (asked tx name sender h))
  | None => (set_replies (<[tx := Waiting]> (hub_replies h)) h,
             Err (Error.Transport "failed to request work connection from control"))
  end.
Proof.
  unfold request_work_conn, start_work, request_send, await_reply, transport_send, upd_control.
  cbv [mbind st_bind st_modify st_lift mret st_ret]. simpl. destruct (hub_heap h !! sender); [|done].
  change (set_heap _ _) with (asked tx name sender h). set (h1 := others _). clearbody h1.
  destruct (hub_replies h1 !! tx) as [[|conn|]|]; try done. by destruct (env_send env conn _).
Qed.

(** The hub with the round-robin counter of a domain moved on. *)
Definition picked_http (domain : string) (h : Hub R) : Hub R :=
  (on_pm (on_vhost (pick_http domain)) h).1.

Definition forwarded (route : VhostRoute) (head : bytes) (stream_of : Conn → Writer)
    (x : Hub R * Result Conn) : Hub R * Result (VhostRoute * Conn * Writer) :=
  (x.1, work ← x.2; out ← forward_head route head (stream_of work); Ok (out.1, work, out.2)).

Lemma pick_http_routes domain vm rs :
  vt_routes (vm_http vm) !! domain = Some rs → rs ≠ [] →
  ∃ route, rs !! Z.to_nat (default 0 (vt_rr (vm_http vm) !! domain) mod Z.of_nat (length rs)) = Some route ∧
           (pick_http domain vm).2 = Ok route.
Proof.
  intros Hr Hne. unfold pick_http, pick_route. rewrite Hr. destruct rs as [|r0 rs']; [done|].
  set (rs := r0 :: rs'). set (i := Z.to_nat _).
  assert (i < length rs)%nat as Hi.
  { unfold i. pose proof (Z.mod_pos_bound (default 0 (vt_rr (vm_http vm) !! domain)) (Z.of_nat (length rs))
      ltac:(simpl; lia)). lia. }
  apply lookup_lt_is_Some in Hi as [route Hroute]. exists route. by rewrite Hroute.
Qed.

Lemma pick_http_none domain (h : Hub R) :
  match vt_routes (vm_http (pm_vhost (hub_pm h))) !! domain with None | Some [] => True | _ => False end →
  on_pm (on_vhost (pick_http domain)) h = (h, Err (Error.Proxy ("no http route for host " +:+ domain))).
Proof.
  destruct h as [[? ? [] ? ? ? ? ?]]. unfold on_pm, on_vhost, zoom, pick_http, pick_route. simpl.
  by destruct (vt_routes _ !! domain) as [[|]|].
Qed.

Lemma picked_http_heap domain (h : Hub R) : hub_heap (picked_http domain h) = hub_heap h.
Proof. unfold picked_http, on_pm, zoom. by destruct (on_vhost _ _). Qed.

(** An HTTP user's connection, on every branch.  Its head decides the
    domain.  Without a route for it the user is refused and nothing changes.
    With routes, the next one in turn is taken: its control is asked for a work
    connection under the proxy's name, and when one is delivered it is told to
    start for that proxy with the addresses of the user's connection, and is
    given exactly the head that was read; when none comes in time, the request
    is withdrawn; when the control is gone, the user is refused. *)
Theorem http_conn_served env tx others stream_of reads src dst head host (h : Hub R) :
  read_http_request_head reads = Ok head → extract_http_host head = Some host →
  let domain := normalize_host host in
  let vm := pm_vhost (hub_pm h) in
  match vt_routes (vm_http vm) !! domain with
  | None | Some [] =>
      http_conn env tx others stream_of reads src dst h
      = (h, Err (Error.Proxy ("no http route for host " +:+ domain)))
  | Some rs =>
      ∃ route, rs !! Z.to_nat (default 0 (vt_rr (vm_http vm) !! domain) mod Z.of_nat (length rs)) = Some route ∧
      let h1 := picked_http domain h in
      http_conn env tx others stream_of reads src dst h =
      match hub_heap h !! vr_work_conn_req_tx route with
      | None => (set_replies (<[tx := Waiting]> (hub_replies h1)) h1,
                 Err (Error.Transport "failed to request work connection from control"))
      | Some _ =>
          forwarded route head stream_of
            (start_work env tx (StartWorkConn (mkStartWorkConnMsg (vr_proxy_name route) src dst ""))
               (others (asked tx (vr_proxy_name route) (vr_work_conn_req_tx route) h1)))
      end
  end.
Proof.
  intros Hread Hhost. cbv zeta. unfold http_conn. cbv [mbind st_bind st_lift]. rewrite Hread, Hhost. cbv [ok_or].
  set (domain := normalize_host host).
  destruct (vt_routes _ !! domain) as [[|r0 rs]|] eqn:Hr; try (rewrite pick_http_none by (by rewrite Hr); done).
  destruct (pick_http_routes domain _ (r0 :: rs) Hr ltac:(done)) as (route & Hroute & Hpick).
  exists route. split; [done|].
  assert (on_pm (on_vhost (pick_http domain)) h = (picked_http domain h, Ok route)) as ->.
  { unfold picked_http. unfold on_pm, on_vhost, zoom. simpl. by destruct (pick_http domain _) as [vm' r]; simpl in *; subst r. }
  rewrite request_work_conn_spec, picked_http_heap. destruct (hub_heap h !! _); [|done].
  unfold forwarded. destruct (start_work _ _ _ _) as [h2 [work|e]]; [|done]. simpl.
  by destruct (forward_head route head (stream_of work)).
Qed.
End Conns.

(** Any accept error, also one that a TCP proxy would wait out, stops the shared
    listener: the connections that come later, for whatever domain, are not
    accepted any more, although the routes stay; only the next registration of
    an HTTP proxy starts a listener again. *)
Theorem vhost_listener_stops `{Json} `{UnicodeLower} vm addrs e later run_id msg tx vm' url :
  run_http_listener vm (fun _ => Ok tt) ((Ok <$> addrs) ++ Err e :: later) = (addrs, Some (Err (Error.Io e))) ∧
  (register_http run_id msg tx (http_listener_stopped vm) = (vm', Ok url) → vm_http_listener_started vm' = true).
Proof.
  split; [by apply vhost_accept_loop_failed|]. intros E.
  destruct (register_http_cases run_id msg tx (http_listener_stopped vm)) as [(ds & s & E' & _)|[e' E']];
    rewrite E' in E; [|done]. by injection E as <- _.
Qed.

(** ** Witnesses *)

(** A request for [a.com], whose proxy [web] belongs to the control at address 1;
    while the handler waits, a work connection arrives at that control, which
    then serves the request. *)
Module ToyUserConn.
#[local] Existing Instances ToyProxyManager.json ToyProxyManager.lower ToyProxyManager.iter.

Definition web : VhostRoute := mkVhostRoute "r1:web" "web" 1.
Definition vm : VhostManager :=
  mkVhostManager "0.0.0.0" "" 8080 8443 (mkVhostTable {[ "a.com"%string := [web] ]} {[ "a.com"%string := 0 ]})
    (mkVhostTable ∅ ∅) true false.
Definition h : Hub ResourceController :=
  let h0 := ToyControl.h0 in set_pm (pm_set_vhost vm (hub_pm h0), hub_rc h0) h0.
Definition control_serves (h : Hub ResourceController) : Hub ResourceController :=
  ((_ ← handle_work_conn 1 77; _ ← upd_control 1 (c_set_reqs []);
    handle_work_conn_request ToyControl.env 1 10 (mkWorkConnRequest "web" 5)) h).1.
Definition crlf : string := String (Ascii.ascii_of_nat 13) (String (Ascii.ascii_of_nat 10) EmptyString).
Definition head : bytes := to_bytes ("GET / HTTP/1.1" +:+ crlf +:+ "Host: A.com:80" +:+ crlf +:+ crlf).

Lemma http_conn_served_witness :
  (http_conn ToyControl.env 5 control_serves (fun _ => mkWriter [] None) [Ok head] "u" "s" h).2
  = Ok (web, 77, mkWriter head None).
Proof.
  pose proof (http_conn_served ToyControl.env 5 control_serves (fun _ => mkWriter [] None) [Ok head] "u" "s"
    head "A.com:80" h eq_refl eq_refl) as Hs. cbv zeta in Hs.
  assert (vt_routes (vm_http (pm_vhost (hub_pm h))) !! normalize_host "A.com:80" = Some [web]) as E
    by (vm_compute; reflexivity).
  rewrite E in Hs. destruct Hs as (route & Hroute & ->).
  vm_compute in Hroute. injection Hroute as <-. vm_compute. reflexivity.
Defined.
End ToyUserConn.
