(* ===== verification/Routing.v ===== *)
(** * Users, proxies and work connections across all clients

    The server serves many clients at once: each has its control task, its
    proxies hold a sender to that task, users of the proxies ask it for work
    connections, and the work connections arrive on connections of their own
    that only name a run id.  This file follows a user's request through all
    of it (crates/arp-server/src/service.rs, control/mod.rs and
    proxy/*.rs), for any number of clients and every interleaving of their
    tasks, the request handler taken apart at the points where it releases its
    locks.

    [Net] is the hub with the place every control task is at and a record of
    what happened: which control had which run id, who asked whom for a work
    connection, and with which message a work connection arrived.  Its steps
    are the handlers of Control, Server, TcpConn and UserConn. *)
From S2P Require Import Prelude RustString Errors Protocol Config Auth Crypto Resource VhostParse Vhost TcpGroup.
From S2P Require Import ProxyManager Hub NatHole Control Server TcpConn UserConn.
Local Open Scope Z_scope.

(** ** Whom a proxy asks *)

(** The name and the channel with which a proxy asks for work connections;
    those of groups and virtual hosts are in the group and in the routes. *)
Definition proxy_asks (p : Proxy) : option (string * Sender) :=
  match p with
  | PTcp t | PXtcp _ (Some t) => Some (tp_name t, tp_work_conn_req_tx t)
  | PUdp u => Some (ud_name u, ud_work_conn_req_tx u)
  | _ => None
  end.

Section Asks.
Context `{Json} `{UnicodeLower} `{DashIter} {R : Type} `{PortAllocator R}.

Inductive asks (m : ProxyManager) (key : string) : string → Sender → Prop :=
| asks_own p name tx :
    pm_proxies m !! key = Some p → proxy_asks p = Some (name, tx) → asks m key name tx
| asks_http d rs r :
    vt_routes (vm_http (pm_vhost m)) !! d = Some rs → r ∈ rs → vr_route_key r = key →
    asks m key (vr_proxy_name r) (vr_work_conn_req_tx r)
| asks_https d rs r :
    vt_routes (vm_https (pm_vhost m)) !! d = Some rs → r ∈ rs → vr_route_key r = key →
    asks m key (vr_proxy_name r) (vr_work_conn_req_tx r)
| asks_group addr g b :
    pm_group_heap m !! addr = Some g → b ∈ bs_snapshot <$> g_backends g → b_backend_id b = key →
    asks m key (b_proxy_name b) (b_work_conn_req_tx b)
| asks_stcp name info :
    pm_stcp_registry m !! name = Some info → key = proxy_key_of (si_run_id info) name →
    asks m key name (si_work_conn_req_tx info).

Lemma on_rc_Ok {A} (m : st R Error.t A) (s s' : ProxyManager * R) a :
  on_rc m s = (s', Ok a) → ∃ r, m s.2 = (r, Ok a).
Proof. unfold on_rc, zoom. destruct (m s.2) as [r x]. intros [= _ ->]. eauto. Qed.

(** Whatever asks in [m'] already asked in [m]. *)
Definition asks_less (m' m : ProxyManager) : Prop := ∀ key name tx, asks m' key name tx → asks m key name tx.

#[global] Instance asks_less_preorder : PreOrder asks_less.
Proof. split; [by intros m key name tx|]. intros m1 m2 m3 H1' H2' key name tx Ha. by apply H2', H1'. Qed.

(** The routes of [t'] are among those of [t]. *)
Definition routes_less (t' t : VhostTable) : Prop :=
  ∀ d rs' r, vt_routes t' !! d = Some rs' → r ∈ rs' → ∃ rs, vt_routes t !! d = Some rs ∧ r ∈ rs.

Definition backends_less (heap' heap : gmap Z GroupedTcpProxy) : Prop :=
  ∀ addr g' b, heap' !! addr = Some g' → b ∈ bs_snapshot <$> g_backends g' →
  ∃ g, heap !! addr = Some g ∧ b ∈ bs_snapshot <$> g_backends g.

Lemma routes_less_refl t : routes_less t t.
Proof. intros d rs r Hd Hr. eauto. Qed.
Lemma backends_less_refl heap : backends_less heap heap.
Proof. intros a g b Hg Hb. eauto. Qed.
#[local] Hint Resolve routes_less_refl backends_less_refl : core.

(** Component by component. *)
Lemma asks_less_parts m' m :
  pm_proxies m' ⊆ pm_proxies m →
  routes_less (vm_http (pm_vhost m')) (vm_http (pm_vhost m)) →
  routes_less (vm_https (pm_vhost m')) (vm_https (pm_vhost m)) →
  backends_less (pm_group_heap m') (pm_group_heap m) →
  pm_stcp_registry m' ⊆ pm_stcp_registry m → asks_less m' m.
Proof.
  intros Hp Hh Hs Hg Ht key name tx Ha.
  destruct Ha as [p name tx Hk Hpa|d rs r Hd Hr Hk|d rs r Hd Hr Hk|addr g b Ha Hb Hk|name info Hi Hk].
  - eapply asks_own; [by eapply lookup_weaken|done].
  - destruct (Hh d rs r Hd Hr) as (rs0 & Hd0 & Hr0). by eapply asks_http.
  - destruct (Hs d rs r Hd Hr) as (rs0 & Hd0 & Hr0). by eapply asks_https.
  - destruct (Hg addr g b Ha Hb) as (g0 & Ha0 & Hb0). by eapply asks_group.
  - eapply asks_stcp; [by eapply lookup_weaken|done].
Qed.

(** *** Tables *)

Lemma cut_route_less key o rs r : cut_route key o = Some rs → r ∈ rs → ∃ rs0, o = Some rs0 ∧ r ∈ rs0.
Proof.
  destruct o as [rs0|]; simpl; [|done]. destruct (is_nil _); [done|]. intros [= <-].
  rewrite elem_of_filter_b. naive_solver.
Qed.

Lemma unregister_table_less key t : routes_less (unregister_table key t) t.
Proof.
  intros d rs r. unfold unregister_table. cbv zeta. rewrite drop_routes_lookup.
  destruct (decide _); [apply cut_route_less|eauto].
Qed.

Lemma unregister_route_less key ty vm :
  routes_less (vm_http (unregister_route key ty vm)) (vm_http vm) ∧
  routes_less (vm_https (unregister_route key ty vm)) (vm_https vm).
Proof.
  unfold unregister_route.
  repeat case_bool_decide; simpl; split; first [apply unregister_table_less|apply routes_less_refl].
Qed.

Lemma pick_route_less t d : routes_less (pick_route t d).1 t.
Proof. unfold pick_route. repeat case_match; intros d' rs r Hd Hr; eauto. Qed.

Lemma add_routes_from t ds key name tx d rs r :
  vt_routes (add_routes t ds key name tx) !! d = Some rs → r ∈ rs →
  (∃ rs0, vt_routes t !! d = Some rs0 ∧ r ∈ rs0) ∨ r = mkVhostRoute key name tx.
Proof.
  rewrite add_routes_lookup. destruct (decide _); [|by eauto]. intros [= <-]. unfold put_route.
  destruct (has_key _ _).
  - destruct (vt_routes t !! d) as [rs0|]; simpl; [by eauto|by intros ?%not_elem_of_nil].
  - rewrite elem_of_app, list_elem_of_singleton. intros [Hr| ->]; [left|by right].
    destruct (vt_routes t !! d) as [rs0|]; simpl in *; [by eauto|by apply not_elem_of_nil in Hr].
Qed.

(** *** Groups *)

Lemma backends_less_alter heap addr f :
  (∀ g b, b ∈ bs_snapshot <$> g_backends (f g) → b ∈ bs_snapshot <$> g_backends g) →
  backends_less (alter f addr heap) heap.
Proof.
  intros Hf a g' b Ha Hb. destruct (decide (a = addr)) as [->|Hne].
  - rewrite lookup_alter_eq in Ha. apply fmap_Some in Ha as (g & Hg & ->). eauto.
  - rewrite lookup_alter_ne in Ha by done. eauto.
Qed.

Lemma retain_backends_less id g b :
  b ∈ bs_snapshot <$> g_backends (retain_backends id g).1 → b ∈ bs_snapshot <$> g_backends g.
Proof.
  unfold retain_backends. simpl. rewrite !list_elem_of_fmap. setoid_rewrite elem_of_filter_b. naive_solver.
Qed.

Lemma update_backend_snapshots id f bs :
  (∀ st, bs_snapshot (f st) = bs_snapshot st) → bs_snapshot <$> update_backend id f bs = bs_snapshot <$> bs.
Proof. intros Hf. induction bs as [|st bs IH]; simpl; [done|]. destruct (has_id id st); csimpl; congruence. Qed.

Lemma pick_loop_snapshots now start i n bs :
  bs_snapshot <$> (pick_loop now start i n bs).1 = bs_snapshot <$> bs.
Proof.
  revert i. induction n as [|n IH]; intros i; simpl; [done|].
  destruct (bs !! _) as [st|] eqn:E; [|done]. destruct (ejected now st); [apply IH|]. simpl.
  rewrite list_fmap_insert. apply list_insert_id. rewrite list_lookup_fmap, E. done.
Qed.

Lemma handle_client_snapshots now ended relay g :
  bs_snapshot <$> g_backends (handle_client now ended relay g).1 = bs_snapshot <$> g_backends g.
Proof.
  assert (bs_snapshot <$> g_backends (pick_backend now g).1 = bs_snapshot <$> g_backends g) as Hp.
  { unfold pick_backend. destruct (g_backends g) as [|b bs] eqn:E; [simpl; by rewrite E|].
    rewrite <- (pick_loop_snapshots now (Z.to_nat (g_rr g) mod length (b :: bs)) 0 (length (b :: bs)) (b :: bs)).
    by destruct (pick_loop _ _ _ _ _) as [bs' r]. }
  unfold handle_client. destruct (pick_backend now g) as [g' [b|]]; simpl in *; [|done].
  destruct (relay b); simpl; by rewrite update_backend_snapshots.
Qed.

(** *** The operations of the proxy manager *)

Abbreviation PM A := (st (ProxyManager * R) Error.t A).

(** [m] takes senders away at most. *)
Definition drops {A} (m : PM A) : Prop := ∀ s, asks_less (m s).1.1 s.1.

Lemma drops_bind {A B} (m : PM A) (f : A → PM B) : drops m → (∀ a, drops (f a)) → drops (m ≫= f).
Proof.
  intros Hm Hf s. unfold mbind, st_bind. specialize (Hm s). destruct (m s) as [s' [a|e]]; [|done].
  etrans; [apply Hf|done].
Qed.

Lemma drops_same {A} (m : PM A) : (∀ s, (m s).1.1 = s.1) → drops m.
Proof. intros Hm s. by rewrite Hm. Qed.
Lemma drops_modify f : (∀ m, asks_less (f m) m) → drops (pm_modify f).
Proof. intros Hf s. apply Hf. Qed.
Lemma drops_rc {A} (m : st R Error.t A) : drops (on_rc m).
Proof. apply drops_same. intros s. unfold on_rc, zoom. by destruct (m s.2). Qed.

Lemma drops_update_group addr f :
  (∀ g b, b ∈ bs_snapshot <$> g_backends (f g) → b ∈ bs_snapshot <$> g_backends g) →
  drops (update_group addr f).
Proof. intros Hf. apply drops_modify. intros m. apply asks_less_parts; simpl; auto. by apply backends_less_alter. Qed.

Lemma drops_close_member addr id : drops (close_member addr id).
Proof.
  intros s. unfold close_member. cbv [mbind st_bind pm_get]. destruct (pm_group_heap s.1 !! addr) as [g|] eqn:Hg; [|done].
  pose proof (retain_backends_less id g) as Hr. destruct (retain_backends id g) as [g' empty]. simpl in Hr.
  set (s1 := ((update_group addr (fun _ => g') s).1 : ProxyManager * R)).
  assert (asks_less s1.1 s.1) as H1'.
  { apply asks_less_parts; simpl; auto. intros a g2 b Ha Hb. destruct (decide (a = addr)) as [->|Hne].
    - rewrite lookup_alter_eq, Hg in Ha. injection Ha as <-. eauto.
    - rewrite lookup_alter_ne in Ha by done. eauto. }
  change (update_group addr (fun _ => g') s) with (s1, @Ok Error.t unit tt). cbv iota beta.
  etrans; [|exact H1']. destruct empty; [|done]. apply drops_bind; [apply drops_rc|].
  intros _. apply drops_modify. intros m. by apply asks_less_parts.
Qed.

Lemma drops_close_proxy p : drops (close_proxy p).
Proof.
  destruct p as [t|n addr id|n|k|k|u|n r]; simpl; try apply drops_rc.
  - apply drops_close_member.
  - apply drops_modify. intros m. apply asks_less_parts; simpl; auto. apply delete_subseteq.
  - apply drops_modify. intros m. apply asks_less_parts; simpl; auto; apply (unregister_route_less k "http").
  - apply drops_modify. intros m. apply asks_less_parts; simpl; auto; apply (unregister_route_less k "https").
  - apply drops_bind; [destruct r; [apply drops_rc|by apply drops_same]|]. intros _.
    apply drops_modify. intros m. by apply asks_less_parts.
Qed.

Lemma drops_remove_proxy key : drops (remove_proxy key).
Proof.
  apply drops_bind; [by apply drops_same|]. intros m. destruct (pm_proxies m !! key) as [p|]; [|by apply drops_same].
  apply drops_bind; [|intros _; apply drops_close_proxy].
  apply drops_modify. intros m'. apply asks_less_parts; simpl; auto. apply delete_subseteq.
Qed.

Lemma drops_evict name : drops (evict_proxy_by_name name).
Proof.
  apply drops_bind; [by apply drops_same|]. intros m. destruct (List.find _ _) as [[key p]|]; [|by apply drops_same].
  apply drops_bind; [intros s; apply drops_remove_proxy|]. intros _.
  apply drops_bind; [|intros _; by apply drops_same]. apply drops_modify. intros m'. by apply asks_less_parts.
Qed.

Lemma drops_unregister_run run : drops (unregister_run_proxies run).
Proof.
  apply drops_bind; [by apply drops_same|]. intros m. generalize (List.filter (fun k => starts_with k (run +:+ ":")) (dash_iter (pm_proxies m)).*1).
  intros keys. induction keys as [|key keys IH]; simpl; [by apply drops_same|].
  apply drops_bind; [apply drops_remove_proxy|done].
Qed.

(** What the registration of the proxy [base] of [run] adds: the relay of an XTCP
    proxy asks under a name of its own. *)
Definition mine (run base : string) (tx : Sender) (key name : string) (tx' : Sender) : Prop :=
  key = proxy_key_of run base ∧ tx' = tx ∧ (name = base ∨ name = base +:+ "__relay").

Definition asks_more (run base : string) (tx : Sender) (m' m : ProxyManager) : Prop :=
  ∀ key name tx', asks m' key name tx' → asks m key name tx' ∨ mine run base tx key name tx'.

Lemma less_more run base tx m' m : asks_less m' m → asks_more run base tx m' m.
Proof. intros Hl key name tx' Ha. left. by apply Hl. Qed.

(** Code that creates a proxy. *)
Definition creates (run base : string) (tx : Sender) (m : PM (Proxy * string)) : Prop :=
  ∀ s, asks_more run base tx (m s).1.1 s.1 ∧
       ∀ p addr name tx', (m s).2 = Ok (p, addr) → proxy_asks p = Some (name, tx') →
         tx' = tx ∧ (name = base ∨ name = base +:+ "__relay").

Lemma tcp_proxy_new_asks binds msg tx (r r' : R) p :
  tcp_proxy_new binds msg tx r = (r', Ok p) → tp_name p = np_proxy_name msg ∧ tp_work_conn_req_tx p = tx.
Proof.
  unfold tcp_proxy_new. cbv [mbind st_bind mret st_ret]. repeat case_match; intros; by simplify_eq.
Qed.
Lemma udp_proxy_new_asks binds msg tx (r r' : R) p :
  udp_proxy_new binds msg tx r = (r', Ok p) → ud_name p = np_proxy_name msg ∧ ud_work_conn_req_tx p = tx.
Proof.
  unfold udp_proxy_new. cbv [mbind st_bind mret st_ret]. repeat case_match; intros; by simplify_eq.
Qed.

Lemma creates_port {A} run base tx (m : st R Error.t A) (mk : A → Proxy) (addr : A → string) :
  (∀ r r' a name tx', m r = (r', Ok a) → proxy_asks (mk a) = Some (name, tx') →
     tx' = tx ∧ (name = base ∨ name = base +:+ "__relay")) →
  creates run base tx (a ← on_rc m; mret (mk a, addr a)).
Proof.
  intros Hm s. unfold on_rc, zoom. cbv [mbind st_bind mret st_ret].
  destruct (m s.2) as [r' [a|e]] eqn:E; simpl; (split; [by apply less_more|]); [|done].
  intros p ad name tx' [= <- <-] Hp. by apply (Hm _ _ _ _ _ E).
Qed.

(** The state changes, and the proxy asks for nothing by itself. *)
Lemma creates_unported run base tx (m : PM (Proxy * string)) :
  (∀ s, asks_more run base tx (m s).1.1 s.1) →
  (∀ s p addr, (m s).2 = Ok (p, addr) → proxy_asks p = None) → creates run base tx m.
Proof. intros Hs Hp s. split; [done|]. intros p addr name tx' E. by rewrite (Hp s p addr E). Qed.

Lemma asks_more_routes run msg tx m vm' :
  (∀ d rs r, vt_routes (vm_http vm') !! d = Some rs → r ∈ rs →
     (∃ rs0, vt_routes (vm_http (pm_vhost m)) !! d = Some rs0 ∧ r ∈ rs0) ∨
     r = mkVhostRoute (route_key_of run (np_proxy_name msg)) (np_proxy_name msg) tx) →
  (∀ d rs r, vt_routes (vm_https vm') !! d = Some rs → r ∈ rs →
     (∃ rs0, vt_routes (vm_https (pm_vhost m)) !! d = Some rs0 ∧ r ∈ rs0) ∨
     r = mkVhostRoute (route_key_of run (np_proxy_name msg)) (np_proxy_name msg) tx) →
  asks_more run (np_proxy_name msg) tx (pm_set_vhost vm' m) m.
Proof.
  intros Hh Hs key name tx' Ha.
  destruct Ha as [p name tx' Hk Hpa|d rs r Hd Hr <-|d rs r Hd Hr <-|addr g b Ha Hb Hk|name info Hi Hk].
  - left. by eapply asks_own.
  - destruct (Hh d rs r Hd Hr) as [(rs0 & Hd0 & Hr0)| ->]; [left; by eapply asks_http|right]. unfold mine. auto.
  - destruct (Hs d rs r Hd Hr) as [(rs0 & Hd0 & Hr0)| ->]; [left; by eapply asks_https|right]. unfold mine. auto.
  - left. by eapply asks_group.
  - left. by eapply asks_stcp.
Qed.

Lemma creates_http run msg tx :
  creates run (np_proxy_name msg) tx
    (a ← on_vhost (register_http run msg tx); mret (PHttp (route_key_of run (np_proxy_name msg)), a)).
Proof.
  apply creates_unported; intros s; unfold on_vhost, zoom; cbv [mbind st_bind mret st_ret]; simpl;
    destruct (register_http_cases run msg tx (pm_vhost s.1)) as [(ds & u & -> & _)|[e ->]]; try intros ? ?; simpl; try (by intros [= <- <-]); try done.
  - apply asks_more_routes; simpl; [|by eauto]. intros d rs r. apply add_routes_from.
  - apply less_more. by apply asks_less_parts.
Qed.

Lemma creates_https run msg tx :
  creates run (np_proxy_name msg) tx
    (a ← on_vhost (register_https run msg tx); mret (PHttps (route_key_of run (np_proxy_name msg)), a)).
Proof.
  apply creates_unported; intros s; unfold on_vhost, zoom; cbv [mbind st_bind mret st_ret]; simpl;
    destruct (register_https_cases run msg tx (pm_vhost s.1)) as [(ds & u & -> & _)|[e ->]]; try intros ? ?; simpl; try (by intros [= <- <-]); try done.
  - apply asks_more_routes; simpl; [by eauto|]. intros d rs r. apply add_routes_from.
  - apply less_more. by apply asks_less_parts.
Qed.

Lemma creates_stcp run msg tx : creates run (np_proxy_name msg) tx (register_stcp run msg tx).
Proof.
  apply creates_unported; intros s; unfold register_stcp, st_guard; cbv [mbind st_bind mret st_ret pm_get pm_modify st_fail];
    repeat case_match; simplify_eq/=; try done; try (by intros; simplify_eq); try by apply less_more.
  intros key name tx' Ha.
  destruct Ha as [p name tx' Hk Hpa|d rs r Hd Hr <-|d rs r Hd Hr <-|addr g b Ha Hb Hk|name info Hi Hk].
  - left. by eapply asks_own.
  - left. by eapply asks_http.
  - left. by eapply asks_https.
  - left. by eapply asks_group.
  - simpl in Hi. apply lookup_insert_Some in Hi as [[<- <-]|[_ Hi]]; [right; unfold mine; auto|left; by eapply asks_stcp].
Qed.

(** [m] adds nothing else. *)
Definition adds {A} (run base : string) (tx : Sender) (m : PM A) : Prop := ∀ s, asks_more run base tx (m s).1.1 s.1.

Lemma adds_bind {A B} run base tx (m : PM A) (f : A → PM B) :
  adds run base tx m → (∀ a, adds run base tx (f a)) → adds run base tx (m ≫= f).
Proof.
  intros Hm Hf s. unfold mbind, st_bind. specialize (Hm s). destruct (m s) as [s' [a|e]]; [|done].
  intros key name tx' Ha. destruct (Hf a s' key name tx' Ha) as [?|?]; [by apply Hm|by right].
Qed.
Lemma adds_drops {A} run base tx (m : PM A) : drops m → adds run base tx m.
Proof. intros Hm s. apply less_more, Hm. Qed.
Lemma adds_guard run base tx b e : adds run base tx (st_guard b e : PM unit).
Proof. apply adds_drops, drops_same. intros s. by destruct b. Qed.

Lemma creates_xtcp binds run msg tx : creates run (np_proxy_name msg) tx (register_xtcp binds run msg tx).
Proof.
  intros s. split.
  - revert s. apply adds_bind; [apply adds_guard|]. intros _. apply adds_bind; [by apply adds_drops, drops_same|].
    intros m. apply adds_bind; [apply adds_guard|]. intros _. apply adds_bind.
    { apply adds_drops. case_match; [|by apply drops_same].
      apply drops_bind; [apply drops_rc|]. intros ?. by apply drops_same. }
    intros o. apply adds_bind; [|intros _; by apply adds_drops, drops_same].
    apply adds_drops, drops_modify. intros m'. by apply asks_less_parts.
  - intros p addr name tx'. unfold register_xtcp, st_guard, on_rc, zoom.
    cbv [mbind st_bind mret st_ret pm_get pm_modify st_fail].
    destruct (is_empty _); [done|]. case_bool_decide; [done|]. destruct (np_fallback_to_relay msg); simpl.
    + destruct (tcp_proxy_new _ _ _ _) as [r' [t|e]] eqn:E; simpl; [|done]. apply tcp_proxy_new_asks in E as [En Et].
      intros [= <- <-]. simpl. intros [= <- <-]. rewrite En. auto.
    + by intros [= <- <-].
Qed.

Lemma drops_get_or_create_group binds gid port : drops (get_or_create_group binds gid port).
Proof.
  intros s. unfold get_or_create_group. cbv [mbind st_bind pm_get]. destruct (pm_tcp_groups s.1 !! gid); [done|].
  unfold on_rc, zoom. destruct (grouped_new binds gid port s.2) as [r' [g|e]] eqn:E; [|done].
  assert (g_backends g = []) as Hg.
  { revert E. unfold grouped_new. cbv [mbind st_bind mret st_ret]. repeat case_match; intros; by simplify_eq. }
  apply asks_less_parts; simpl; auto. intros a g' b [[_ <-]|[_ Ha]]%lookup_insert_Some Hb; [|by eauto].
  rewrite Hg in Hb. by apply not_elem_of_nil in Hb.
Qed.

Lemma adds_add_backend run msg tx addr stcp sk :
  adds run (np_proxy_name msg) tx
    (update_group addr (add_backend
       (mkBackend (proxy_key_of run (np_proxy_name msg)) (np_proxy_name msg) tx stcp sk))).
Proof.
  intros s key name tx' Ha. simpl in Ha.
  destruct Ha as [p name tx' Hk Hpa|d rs r Hd Hr <-|d rs r Hd Hr <-|a g b Ha Hb <-|name info Hi Hk].
  - left. by eapply asks_own.
  - left. by eapply asks_http.
  - left. by eapply asks_https.
  - simpl in Ha. destruct (decide (a = addr)) as [->|Hne].
    2:{ rewrite lookup_alter_ne in Ha by done. left. by eapply asks_group. }
    rewrite lookup_alter_eq in Ha. apply fmap_Some in Ha as (g0 & Hg0 & ->). unfold add_backend in Hb.
    destruct (negb _); [|left; by eapply asks_group]. simpl in Hb. rewrite fmap_app, elem_of_app in Hb.
    destruct Hb as [Hb|Hb]; [left; by eapply asks_group|]. csimpl in Hb. apply list_elem_of_singleton in Hb as ->.
    right. unfold mine. auto.
  - left. by eapply asks_stcp.
Qed.

Lemma creates_group_member binds run msg tx gr gk :
  creates run (np_proxy_name msg) tx
    (register_group_member binds (proxy_key_of run (np_proxy_name msg)) msg tx gr gk).
Proof.
  apply creates_unported.
  - apply adds_bind; [apply adds_guard|]. intros _.
    apply adds_bind; [apply adds_drops, drops_get_or_create_group|]. intros addr.
    apply adds_bind; [apply adds_add_backend|]. intros _.
    apply adds_bind; [by apply adds_drops, drops_update_group|]. intros _.
    apply adds_bind; [|intros m]; by apply adds_drops, drops_same.
  - intros s p addr. unfold register_group_member. cbv [mbind st_bind mret st_ret].
    repeat case_match; intros; simplify_eq/=; done.
Qed.

Lemma creates_proxy binds run msg tx : creates run (np_proxy_name msg) tx (create_proxy binds run msg tx).
Proof.
  unfold create_proxy. cbv zeta. case_bool_decide.
  { destruct (parse_lb_group msg) as [gr gk]. destruct (is_empty gr); [|apply creates_group_member].
    apply creates_port. intros r r' p name tx' [En Et]%tcp_proxy_new_asks [= <- <-]. rewrite En. auto. }
  case_bool_decide; [apply creates_stcp|]. case_bool_decide; [apply creates_http|].
  case_bool_decide; [apply creates_https|]. destruct (_ || _).
  { apply creates_port. intros r r' p name tx' [En Et]%udp_proxy_new_asks [= <- <-]. rewrite En. auto. }
  case_bool_decide; [apply creates_xtcp|]. by apply creates_unported; [intros s; apply less_more|].
Qed.

Lemma adds_register binds run msg tx : adds run (np_proxy_name msg) tx (register_proxy binds run msg tx).
Proof.
  apply adds_bind; [by apply adds_drops, drops_same|]. intros m. apply adds_bind; [apply adds_guard|]. intros _ s.
  cbv [mbind st_bind]. destruct (creates_proxy binds run msg tx s) as [Hs Hp].
  destruct (create_proxy binds run msg tx s) as [s' [[p addr]|e]]; [|exact Hs].
  intros key name tx' Ha. simpl in Ha.
  destruct Ha as [q name tx' Hk Hpa|d rs r Hd Hr <-|d rs r Hd Hr <-|a g b Ha Hb <-|name info Hi Hk].
  - simpl in Hk. apply lookup_insert_Some in Hk as [[<- <-]|[_ Hk]]; [|by eapply Hs, asks_own].
    right. destruct (Hp p addr name tx' eq_refl Hpa). by split_and!.
  - by eapply Hs, asks_http.
  - by eapply Hs, asks_https.
  - by eapply Hs, asks_group.
  - by eapply Hs, asks_stcp.
Qed.
End Asks.

(** ** Steps that leave the work connections alone *)

Section Net.
Context `{Json} `{UnicodeLower} `{DashIter} {R : Type} `{PortAllocator R}.
Variable authenticator : Authenticator.
Abbreviation HM A := (st (Hub R) Error.t A).

(** The proxy with this key asks the control of the client it belongs to. *)
Definition owned (own : Sender → string → Prop) (key name : string) (tx : Sender) : Prop :=
  ∃ run base, key = proxy_key_of run base ∧ own tx run ∧ (name = base ∨ name = base +:+ "__relay").

Definition routed (own : Sender → string → Prop) (m : ProxyManager) : Prop :=
  ∀ key name tx, asks m key name tx → owned own key name tx.

Lemma routed_less own m' m : asks_less m' m → routed own m → routed own m'.
Proof. intros Hl Hr key name tx Ha. by apply Hr, Hl. Qed.

Lemma routed_more (own : Sender → string → Prop) run base tx m' m :
  own tx run → asks_more run base tx m' m → routed own m → routed own m'.
Proof.
  intros Ho Hm Hr key name tx' Ha. destruct (Hm key name tx' Ha) as [Ha'|(-> & -> & Hn)]; [by apply Hr|].
  by exists run, base.
Qed.

(** The run id and the queues of a control. *)
Definition queues (c : Control) : string * list WorkConnRequest * list WorkConnRequest * list Conn :=
  (c_run_id c, c_work_conn_reqs c, c_pending_work_conns c, c_idle_work_conns c).

Definition same_pool (h h' : Hub R) : Prop :=
  (∀ a, queues <$> hub_heap h' !! a = queues <$> hub_heap h !! a) ∧ hub_replies h' = hub_replies h.

Definition calm {A} (self : Z) (run : string) (m : HM A) : Prop :=
  ∀ h own, runs self run h → own self run → routed own (hub_pm h) →
  same_pool h (m h).1 ∧ routed own (hub_pm (m h).1).

Lemma same_pool_runs self run h h' : same_pool h h' → runs self run h → runs self run h'.
Proof.
  intros [Hq _] Hr c Hc. specialize (Hq self). rewrite Hc in Hq. simpl in Hq.
  destruct (hub_heap h !! self) as [c0|] eqn:E; [|done]. injection Hq as -> _ _ _. by apply Hr.
Qed.

Lemma same_pool_trans h1 h2 h3 : same_pool h1 h2 → same_pool h2 h3 → same_pool h1 h3.
Proof. intros [A1 B1] [A2 B2]. split; [intros a; by rewrite A2|congruence]. Qed.

Lemma calm_bind {A B} self run (m : HM A) (f : A → HM B) :
  calm self run m → (∀ a, calm self run (f a)) → calm self run (m ≫= f).
Proof.
  intros Hm Hf h own Hr Ho Hm0. unfold mbind, st_bind. destruct (Hm h own Hr Ho Hm0) as [Hs Hm1].
  destruct (m h) as [h' [a|e]]; [|done]. simpl in *.
  destruct (Hf a h' own) as [Hs' Hm2]; [by eapply same_pool_runs|done..|].
  split; [by eapply same_pool_trans|done].
Qed.

Lemma calm_same {A} self run (m : HM A) :
  (∀ h, hub_pm (m h).1 = hub_pm h ∧ hub_heap (m h).1 = hub_heap h ∧ hub_replies (m h).1 = hub_replies h) →
  calm self run m.
Proof. intros Hm h own _ _ Hr. destruct (Hm h) as (Ep & Eh & Er). unfold same_pool. by rewrite Ep, Eh, Er. Qed.

Lemma same_pool_upd a f h : (∀ c, queues (f c) = queues c) → same_pool h (upd_control a f h).1.
Proof.
  intros Hf. split; [|done]. intros a'. simpl. destruct (decide (a = a')) as [->|Hne].
  - rewrite lookup_alter_eq. destruct (hub_heap h !! a'); simpl; [by rewrite Hf|done].
  - by rewrite lookup_alter_ne.
Qed.
Lemma calm_upd self run a f : (∀ c, queues (f c) = queues c) → calm self run (upd_control a f).
Proof. intros Hf h own _ _ Hr. split; [by apply same_pool_upd|done]. Qed.

Lemma calm_drops {A} self run (m : st (ProxyManager * R) Error.t A) : drops m → calm self run (on_pm m).
Proof.
  intros Hm h own _ _ Hr. unfold on_pm, zoom. specialize (Hm (hub_pm h, hub_rc h)).
  destruct (m (hub_pm h, hub_rc h)) as [[pm rc] r]. simpl in *. split; [done|]. by eapply routed_less.
Qed.

Lemma calm_register self run binds msg : calm self run (on_pm (register_proxy binds run msg self)).
Proof.
  intros h own _ Ho Hr. unfold on_pm, zoom. pose proof (adds_register binds run msg self (hub_pm h, hub_rc h)) as Hm.
  destruct (register_proxy binds run msg self (hub_pm h, hub_rc h)) as [[pm rc] r]. simpl in *.
  split; [done|]. by eapply routed_more.
Qed.

Lemma calm_attempt {A} self run (m : HM A) : calm self run m → calm self run (attempt m).
Proof. intros Hm h own Hr Ho Hm0. specialize (Hm h own Hr Ho Hm0). unfold attempt. by destruct (m h). Qed.
Lemma calm_log_err self run (m : HM unit) : calm self run m → calm self run (log_err m).
Proof. intros Hm h own Hr Ho Hm0. by apply (Hm h own). Qed.

Lemma calm_on_err {A} self run (m : HM unit) handler (k : HM A) :
  calm self run m → (∀ e, calm self run (handler e)) → calm self run k → calm self run (on_err m handler k).
Proof.
  intros Hm Hh Hk h own Hr Ho Hm0. destruct (Hm h own Hr Ho Hm0) as [Hs Hm1]. unfold on_err.
  destruct (m h) as [h' [a|e]]; simpl in *.
  - destruct (Hk h' own) as [Hs' Hm2]; [by eapply same_pool_runs|done..|]. split; [by eapply same_pool_trans|done].
  - destruct (Hh e h' own) as [Hs' Hm2]; [by eapply same_pool_runs|done..|]. split; [by eapply same_pool_trans|done].
Qed.

Lemma calm_deref_bind {B} self run (f : Control → HM B) :
  (∀ c, c_run_id c = run → calm self run (f c)) → calm self run (deref self ≫= f).
Proof.
  intros Hf h own Hr Ho Hm. unfold mbind, st_bind, deref.
  destruct (hub_heap h !! self) as [c|] eqn:Hc; simpl; [|done]. by apply Hf; [apply Hr|..].
Qed.

Lemma calm_ret {A} self run (a : A) : calm self run (mret a). Proof. by apply calm_same. Qed.
Lemma calm_fail {A} self run e : calm self run (st_fail e : HM A). Proof. by apply calm_same. Qed.
Lemma calm_lift {A} self run (r : Result A) : calm self run (st_lift r). Proof. by apply calm_same. Qed.
Lemma calm_gets {A} self run (f : Hub R → A) : calm self run (hub_gets f). Proof. by apply calm_same. Qed.
Lemma calm_inc self run c : calm self run (inc c). Proof. by apply calm_same. Qed.
Lemma calm_emit self run e : calm self run (emit e). Proof. by apply calm_same. Qed.
Lemma calm_guard self run b e : calm self run (st_guard b e). Proof. destruct b; by apply calm_same. Qed.
Lemma calm_transport self run env conn m : calm self run (transport_send env conn m).
Proof. apply calm_bind; [apply calm_lift|]. intros ?. by apply calm_same. Qed.
Lemma calm_push_event self run ev : calm self run (push_event ev). Proof. by apply calm_same. Qed.
Lemma calm_pending_insert self run a v : calm self run (pending_insert a v). Proof. by apply calm_same. Qed.
Lemma calm_pending_remove self run a : calm self run (pending_remove a). Proof. by apply calm_same. Qed.
Lemma calm_cm_send self run run_id m : calm self run (cm_send_message run_id m).
Proof. apply calm_bind; [by apply calm_same|]. intros a. by apply calm_upd. Qed.
Lemma calm_shutdown self run run_id : calm self run (shutdown_run run_id).
Proof.
  intros h own Hr Ho Hm. unfold shutdown_run. destruct (hub_controls h !! run_id) as [a|]; [|done].
  apply (calm_bind self run); [by apply calm_same| |done..]. intros _. by apply calm_upd.
Qed.
Lemma calm_unregister self run run_id name : calm self run (on_pm (unregister_proxy run_id name)).
Proof. apply calm_drops, drops_remove_proxy. Qed.
Lemma calm_evict self run name : calm self run (on_pm (evict_proxy_by_name name)).
Proof. apply calm_drops, drops_evict. Qed.

Create HintDb calm.
#[local] Hint Resolve calm_ret calm_fail calm_lift calm_gets calm_inc calm_emit calm_guard calm_transport calm_push_event
  calm_pending_insert calm_pending_remove calm_cm_send calm_shutdown calm_register calm_unregister calm_evict : calm.

(** Walk through a handler. *)
Ltac solve_calm :=
  repeat first
    [ progress intros | assumption | solve [auto with calm nocore]
    | match goal with
      | |- calm _ _ (log_err _) => apply calm_log_err
      | |- calm _ _ (attempt _) => apply calm_attempt
      | |- calm _ _ (on_err _ _ _) => apply calm_on_err
      | |- calm _ _ (upd_control _ _) => by apply calm_upd
      | |- calm ?self _ (deref ?self ≫= _) => apply calm_deref_bind; intros ? ?; subst
      | |- calm _ _ (_ ≫= _) => apply calm_bind
      end
    | case_match ].

Lemma calm_message self run env transport msg : calm self run (handle_message authenticator env self transport msg).
Proof.
  assert (∀ m, calm self run (authorize_and_register authenticator env self transport m)) as Ha.
  { unfold authorize_and_register. solve_calm. }
  unfold handle_message, handle_new_proxy, take_over, handle_close_proxy, handle_ping, handle_nathole_visitor,
    handle_nathole_resp, handle_visitor, handle_client_resp.
  solve_calm; apply Ha.
Qed.

(** Every branch of the [select!] but the one that serves a request. *)
Lemma calm_select self run env transport ev :
  ev ≠ WorkConnReq → calm self run (run_select authenticator env self transport ev).
Proof. intros Hev. unfold run_select. destruct ev as [| |[[m|]|e]| |]; try done; solve_calm; apply calm_message. Qed.
End Net.
