(* ===== verification/Network.v ===== *)
(** * The server with all its clients

    Users' requests and work connections under every interleaving of the tasks
    of the server, for any number of clients (crates/arp-server/src/service.rs,
    control/mod.rs, proxy/tcp.rs and proxy/vhost.rs).  [Net] is the hub with the
    place each control task is at in its request handler, and a record of what
    happened; its steps are the handlers of the other files. *)
From S2P Require Import Prelude RustString Errors Protocol Config Auth Crypto Framing Resource VhostParse Vhost TcpGroup.
From S2P Require Import ProxyManager Hub NatHole Control Server TcpConn UserConn Routing.
Local Open Scope Z_scope.

(** A request as it was made: the key of the proxy, the name and the channel. *)
Abbreviation Ask := (string * string * Sender)%type.

Section Network.
Context `{Json} `{Primitives} `{UnicodeLower} `{DashIter} {R : Type} `{PortAllocator R}.
Variable authenticator : Authenticator.
Abbreviation HM A := (st (Hub R) Error.t A).

Record Net := mkNet {
  n_hub : Hub R;
  n_pc : gmap Z pc;                       (* the control tasks that are not at their [select!] *)
  n_runs : gmap Z string;                 (* the run id of every control there was *)
  n_asked : gmap Z Ask;                   (* the requests, by their reply channel *)
  n_from : gmap Conn NewWorkConnMsg;      (* the work connections, with their first message *)
  n_tasks : list Ask;                     (* the senders that tasks of users have taken *)
}.

Definition pc_of (pcs : gmap Z pc) (a : Z) : pc := default AtSelect (pcs !! a).

Definition n_set (h : Hub R) (s : Net) : Net :=
  mkNet h (n_pc s) (n_runs s) (n_asked s) (n_from s) (n_tasks s).
Definition n_set_pc (a : Z) (p : pc) (s : Net) : Net :=
  mkNet (n_hub s) (<[a := p]> (n_pc s)) (n_runs s) (n_asked s) (n_from s) (n_tasks s).
Definition n_set_run (a : Z) (run : string) (s : Net) : Net :=
  mkNet (n_hub s) (n_pc s) (<[a := run]> (n_runs s)) (n_asked s) (n_from s) (n_tasks s).
Definition n_ask (tx : Z) (ask : Ask) (s : Net) : Net :=
  mkNet (n_hub s) (n_pc s) (n_runs s) (<[tx := ask]> (n_asked s)) (n_from s) (n_tasks s).
Definition n_arrive (conn : Conn) (msg : NewWorkConnMsg) (s : Net) : Net :=
  mkNet (n_hub s) (n_pc s) (n_runs s) (n_asked s) (<[conn := msg]> (n_from s)) (n_tasks s).
Definition n_task (ask : Ask) (s : Net) : Net :=
  mkNet (n_hub s) (n_pc s) (n_runs s) (n_asked s) (n_from s) (ask :: n_tasks s).

(** The work connection was verified and names this run. *)
Definition arrived (from : gmap Conn NewWorkConnMsg) (conn : Conn) (run : string) : Prop :=
  ∃ msg, from !! conn = Some msg ∧ nw_run_id msg = run ∧ auth_verify_new_work_conn authenticator msg = Ok tt.

(** ** The pools of all controls *)

Record pools (heap : gmap Z Control) (rs : gmap Z Reply) (pcs : gmap Z pc) (runs : gmap Z string)
    (asked : gmap Z Ask) (from : gmap Conn NewWorkConnMsg) : Prop := {
  pp_runs : ∀ a c, heap !! a = Some c → runs !! a = Some (c_run_id c);
  pp_pool : ∀ a c, heap !! a = Some c → pool_ok c rs (pc_of pcs a);
  pp_owed : ∀ a c req, heap !! a = Some c → req ∈ unserved c (pc_of pcs a) →
    ∃ key, asked !! wr_reply_tx req = Some (key, wr_proxy_name req, a);
  pp_idle : ∀ a c conn, heap !! a = Some c → conn ∈ c_idle_work_conns c → arrived from conn (c_run_id c);
  pp_delivered : ∀ tx conn, rs !! tx = Some (Delivered conn) →
    ∃ key name a run, asked !! tx = Some (key, name, a) ∧ runs !! a = Some run ∧ arrived from conn run;
  pp_once : ∀ conn tx1 tx2, rs !! tx1 = Some (Delivered conn) → rs !! tx2 = Some (Delivered conn) → tx1 = tx2;
}.

Lemma arrived_mono from from' conn run : from ⊆ from' → arrived from conn run → arrived from' conn run.
Proof. intros Hs (msg & Hm & Hr). exists msg. split; [by eapply lookup_weaken|done]. Qed.

(** A pool depends on the queues only. *)
Lemma pool_ok_queues c c' rs p : queues c' = queues c → pool_ok c rs p → pool_ok c' rs p.
Proof.
  intros [= _ E2 E3 E4] [A B C D E F]. unfold unserved in *.
  split; unfold unserved; rewrite ?E2, ?E3, ?E4; done.
Qed.

Lemma pools_same heap heap' rs pcs runs asked from :
  (∀ a, queues <$> heap' !! a = queues <$> heap !! a) →
  pools heap rs pcs runs asked from → pools heap' rs pcs runs asked from.
Proof.
  intros Hq [A B C D E F].
  assert (∀ a c', heap' !! a = Some c' → ∃ c, heap !! a = Some c ∧ queues c' = queues c) as Hb.
  { intros a c' Hc'. specialize (Hq a). rewrite Hc' in Hq. destruct (heap !! a) as [c|]; [|done].
    exists c. split; [done|]. simpl in Hq. congruence. }
  split; [..|done|done].
  - intros a c' (c & Hc & [= -> _ _ _])%Hb. by apply A.
  - intros a c' (c & Hc & Hqc)%Hb. eapply pool_ok_queues; [done|by apply B].
  - intros a c' req (c & Hc & [= _ E2 E3 _])%Hb. unfold unserved. rewrite E2, E3. by apply C.
  - intros a c' conn (c & Hc & [= -> _ _ ->])%Hb. by apply (D a).
Qed.

(** The control at [self] changes. *)
Lemma pools_at self c c' p' heap heap' rs rs' pcs pcs' runs asked asked' from from' :
  pools heap rs pcs runs asked from → heap !! self = Some c →
  heap' !! self = Some c' → (∀ a, a ≠ self → heap' !! a = heap !! a) → c_run_id c' = c_run_id c →
  pc_of pcs' self = p' → (∀ a, a ≠ self → pc_of pcs' a = pc_of pcs a) →
  pool_ok c' rs' p' → (∀ a c0, a ≠ self → heap !! a = Some c0 → pool_ok c0 rs' (pc_of pcs a)) →
  (∀ req, req ∈ unserved c' p' → ∃ key, asked' !! wr_reply_tx req = Some (key, wr_proxy_name req, self)) →
  asked ⊆ asked' → from ⊆ from' →
  (∀ conn, conn ∈ c_idle_work_conns c' → arrived from' conn (c_run_id c)) →
  (∀ tx conn, rs' !! tx = Some (Delivered conn) → rs !! tx = Some (Delivered conn) ∨
     (∃ key name, asked' !! tx = Some (key, name, self)) ∧ arrived from' conn (c_run_id c)) →
  pools heap' rs' pcs' runs asked' from'.
Proof.
  intros [A B C D E _] Hc Hc' Hne Hrun Hp Hpne Hok Hoks Howed Ha Hf Hidle Hdel.
  assert (∀ a c0, heap' !! a = Some c0 → a = self ∧ c0 = c' ∨ a ≠ self ∧ heap !! a = Some c0) as Hcase.
  { intros a c0 Ha0. destruct (decide (a = self)) as [->|Hn]; [left|right].
    - split; [done|]. congruence.
    - split; [done|]. by rewrite <- (Hne a Hn). }
  split.
  - intros a c0 [[-> ->]|[Hn Ha0]]%Hcase; [rewrite Hrun; by apply A|by apply A].
  - intros a c0 [[-> ->]|[Hn Ha0]]%Hcase; [by rewrite Hp|]. rewrite Hpne by done. by apply Hoks.
  - intros a c0 req [[-> ->]|[Hn Ha0]]%Hcase; [rewrite Hp; apply Howed|]. rewrite Hpne by done.
    intros Hin. destruct (C a c0 req Ha0 Hin) as [key Hk]. exists key. by eapply lookup_weaken.
  - intros a c0 conn [[-> ->]|[Hn Ha0]]%Hcase; [rewrite Hrun; apply Hidle|].
    intros Hin. eapply arrived_mono; [done|]. by eapply D.
  - intros tx conn [Hd|[(key & name & Hk) Harr]]%Hdel.
    + destruct (E tx conn Hd) as (key & name & a & run & Hk & Hr & Harr). exists key, name, a, run.
      split; [by eapply lookup_weaken|]. split; [done|]. by eapply arrived_mono.
    + exists key, name, self, (c_run_id c). split; [done|]. split; [by apply A|done].
  - apply Hok.
Qed.

(** Replies that change elsewhere. *)
Definition serve (tx : Z) (conn : Conn) (rs : gmap Z Reply) : gmap Z Reply :=
  match rs !! tx with Some Waiting => <[tx := Delivered conn]> rs | _ => rs end.

Lemma pool_ok_elsewhere c rs p tx conn :
  pool_ok c rs p → (tx ∉ wr_reply_tx <$> unserved c p) → (conn ∉ c_idle_work_conns c) →
  (∀ tx', rs !! tx' ≠ Some (Delivered conn)) → pool_ok c (serve tx conn rs) p.
Proof.
  intros Hok Htx Hconn Hnew. unfold serve. destruct (rs !! tx) as [[]|] eqn:E; [|done..].
  destruct Hok as [A B C D F G]. split; try done.
  - intros tx' Hin. rewrite lookup_insert_ne; [by apply B|]. by intros <-.
  - intros x tx' Hx. rewrite lookup_insert_Some. naive_solver.
  - intros x tx1 tx2. rewrite !lookup_insert_Some. naive_solver.
Qed.

Lemma pool_ok_channel c rs p tx : pool_ok c rs p → rs !! tx = None → pool_ok c (<[tx := Waiting]> rs) p.
Proof.
  intros [A B C D F G] Htx. split; try done.
  - intros tx' Hin. rewrite !lookup_insert_Some. destruct (decide (tx = tx')); [naive_solver|].
    destruct (B _ Hin); naive_solver.
  - intros x tx' Hx. rewrite lookup_insert_Some. naive_solver.
  - intros x tx1 tx2. rewrite !lookup_insert_Some. naive_solver.
Qed.

Lemma serve_Delivered tx conn rs tx' conn' :
  serve tx conn rs !! tx' = Some (Delivered conn') →
  rs !! tx' = Some (Delivered conn') ∨ tx' = tx ∧ conn' = conn.
Proof.
  unfold serve. destruct (rs !! tx) as [[]|]; auto. rewrite lookup_insert_Some. naive_solver.
Qed.

(** A request of the control at [self] is served with [conn]. *)
Lemma pools_serve self c c' p' req conn heap heap' rs pcs pcs' runs asked from from' :
  pools heap rs pcs runs asked from → heap !! self = Some c →
  heap' !! self = Some c' → (∀ a, a ≠ self → heap' !! a = heap !! a) → c_run_id c' = c_run_id c →
  pc_of pcs' self = p' → (∀ a, a ≠ self → pc_of pcs' a = pc_of pcs a) →
  unserved c (pc_of pcs self) ≡ₚ req :: unserved c' p' →
  NoDup (c_idle_work_conns c') → (conn ∉ c_idle_work_conns c') →
  (∀ x, x ∈ c_idle_work_conns c' → x ∈ c_idle_work_conns c) →
  (∀ tx, rs !! tx ≠ Some (Delivered conn)) →
  (∀ a c0, a ≠ self → heap !! a = Some c0 → conn ∉ c_idle_work_conns c0) →
  (∀ req, p' = Queued req → c_pending_work_conns c' = [] ∨ last (c_pending_work_conns c') = Some req) →
  from ⊆ from' → arrived from' conn (c_run_id c) →
  pools heap' (serve (wr_reply_tx req) conn rs) pcs' runs asked from'.
Proof.
  intros Hpl Hc Hc' Hne Hrun Hp Hpne Hun Hnd Hconn Hsub Hnew Helse Hq Hf Harr.
  assert (∃ key, asked !! wr_reply_tx req = Some (key, wr_proxy_name req, self)) as [key Hkey].
  { apply (pp_owed _ _ _ _ _ _ Hpl self c req Hc). rewrite Hun. apply elem_of_cons. by left. }
  eapply (pools_at self c c' p'); try done.
  - eapply pool_ok_serve; try done. by apply (pp_pool _ _ _ _ _ _ Hpl).
  - intros a c0 Hn Ha. apply pool_ok_elsewhere; [by apply (pp_pool _ _ _ _ _ _ Hpl)| |by eapply Helse|done].
    intros (req0 & E & Hin)%list_elem_of_fmap. destruct (pp_owed _ _ _ _ _ _ Hpl a c0 req0 Ha Hin) as [key0 Hk0].
    congruence.
  - intros req0 Hin. apply (pp_owed _ _ _ _ _ _ Hpl self c req0 Hc). rewrite Hun. apply elem_of_cons. by right.
  - intros x Hx%Hsub. eapply arrived_mono; [done|]. by apply (pp_idle _ _ _ _ _ _ Hpl self c).
  - intros tx conn' [Hd|[-> ->]]%serve_Delivered; [by left|right]. eauto.
Qed.

(** Requests of the control at [self] move, or are withdrawn. *)
Lemma pools_less self c c' p' l heap heap' rs pcs pcs' runs asked from :
  pools heap rs pcs runs asked from → heap !! self = Some c →
  heap' !! self = Some c' → (∀ a, a ≠ self → heap' !! a = heap !! a) → c_run_id c' = c_run_id c →
  pc_of pcs' self = p' → (∀ a, a ≠ self → pc_of pcs' a = pc_of pcs a) →
  unserved c (pc_of pcs self) ≡ₚ l ++ unserved c' p' → c_idle_work_conns c' = c_idle_work_conns c →
  (∀ req, p' = Queued req → c_pending_work_conns c' = [] ∨ last (c_pending_work_conns c') = Some req) →
  pools heap' rs pcs' runs asked from.
Proof.
  intros Hpl Hc Hc' Hne Hrun Hp Hpne Hun Hi Hq. eapply (pools_at self c c' p'); try done.
  - eapply pool_ok_less; try done. by apply (pp_pool _ _ _ _ _ _ Hpl).
  - intros a c0 _. apply (pp_pool _ _ _ _ _ _ Hpl).
  - intros req Hin. apply (pp_owed _ _ _ _ _ _ Hpl self c req Hc). rewrite Hun. apply elem_of_app. by right.
  - rewrite Hi. intros conn. by apply (pp_idle _ _ _ _ _ _ Hpl self c).
  - auto.
Qed.

(** A work connection goes to the idle pool of [self]. *)
Lemma pools_idle self c conn heap heap' rs pcs runs asked from from' :
  pools heap rs pcs runs asked from → heap !! self = Some c →
  heap' !! self = Some (c_set_idle (c_idle_work_conns c ++ [conn]) c) →
  (∀ a, a ≠ self → heap' !! a = heap !! a) → (conn ∉ c_idle_work_conns c) →
  (∀ tx, rs !! tx ≠ Some (Delivered conn)) → from ⊆ from' → arrived from' conn (c_run_id c) →
  pools heap' rs pcs runs asked from'.
Proof.
  intros Hpl Hc Hc' Hne Hconn Hnew Hf Harr. eapply (pools_at self c _ (pc_of pcs self)); try done.
  - apply (pool_ok_idle c _ rs _ conn); try done. by apply (pp_pool _ _ _ _ _ _ Hpl).
  - intros a c0 _. apply (pp_pool _ _ _ _ _ _ Hpl).
  - intros req. by apply (pp_owed _ _ _ _ _ _ Hpl self c req Hc).
  - simpl. intros x [Hx|Hx%list_elem_of_singleton]%elem_of_app; [|by subst].
    eapply arrived_mono; [done|]. by apply (pp_idle _ _ _ _ _ _ Hpl self c).
  - auto.
Qed.

(** A new channel, whose request is not sent. *)
Lemma pools_channel tx ask heap rs pcs runs asked from :
  pools heap rs pcs runs asked from → rs !! tx = None → asked !! tx = None →
  pools heap (<[tx := Waiting]> rs) pcs runs (<[tx := ask]> asked) from.
Proof.
  intros [A B C D E F] Hrs Hask. split; [done|..|done| |].
  - intros a c Hc. apply pool_ok_channel; [by apply B|done].
  - intros a c req Hc Hin. destruct (C a c req Hc Hin) as [key Hk]. exists key.
    rewrite lookup_insert_ne; [done|]. congruence.
  - intros tx' conn [[_ ?]|[Hne Hd]]%lookup_insert_Some; [done|]. destruct (E tx' conn Hd) as (key & name & a & run & ?).
    exists key, name, a, run. by rewrite lookup_insert_ne.
  - intros conn tx1 tx2 [[_ ?]|[_ H1']]%lookup_insert_Some [[_ ?]|[_ H2']]%lookup_insert_Some; try done. by eapply F.
Qed.

(** A request to the control at [self]. *)
Lemma pools_request self c tx key name heap heap' rs pcs runs asked from :
  pools heap rs pcs runs asked from → heap !! self = Some c → rs !! tx = None → asked !! tx = None →
  heap' !! self = Some (c_set_reqs (c_work_conn_reqs c ++ [mkWorkConnRequest name tx]) c) →
  (∀ a, a ≠ self → heap' !! a = heap !! a) →
  pools heap' (<[tx := Waiting]> rs) pcs runs (<[tx := (key, name, self)]> asked) from.
Proof.
  intros Hpl Hc Hrs Hask Hc' Hne.
  assert (unserved (c_set_reqs (c_work_conn_reqs c ++ [mkWorkConnRequest name tx]) c) (pc_of pcs self)
          = unserved c (pc_of pcs self) ++ [mkWorkConnRequest name tx]) as Hun.
  { unfold unserved. simpl. by rewrite <- !app_assoc. }
  eapply (pools_at self c _ (pc_of pcs self)); try done.
  - apply (pool_ok_request c _ rs _ (mkWorkConnRequest name tx)); try done. by apply (pp_pool _ _ _ _ _ _ Hpl).
  - intros a c0 _ Ha. apply pool_ok_channel; [by apply (pp_pool _ _ _ _ _ _ Hpl)|done].
  - rewrite Hun. intros req [Hin|Hin%list_elem_of_singleton]%elem_of_app.
    + destruct (pp_owed _ _ _ _ _ _ Hpl self c req Hc Hin) as [k Hk]. exists k.
      rewrite lookup_insert_ne; [done|]. congruence.
    + subst req. exists key. apply lookup_insert_eq.
  - by apply insert_subseteq.
  - intros conn. by apply (pp_idle _ _ _ _ _ _ Hpl self c).
  - intros tx' conn [[_ ?]|[_ Hd]]%lookup_insert_Some; [done|by left].
Qed.

(** A user stops waiting. *)
Definition abandon (rs : gmap Z Reply) (tx : Z) : gmap Z Reply :=
  alter (fun r => match r with Waiting => Gone | _ => r end) tx rs.

Lemma pools_abandon tx heap rs pcs runs asked from :
  pools heap rs pcs runs asked from → pools heap (abandon rs tx) pcs runs asked from.
Proof.
  intros [A B C D E F]. unfold abandon. destruct (rs !! tx) as [[|conn|]|] eqn:Hrs.
  1:{ assert (alter (fun r => match r with Waiting => Gone | _ => r end) tx rs = <[tx := Gone]> rs) as ->.
      { apply map_eq. intros tx'. destruct (decide (tx' = tx)) as [->|Hn].
        - by rewrite lookup_alter_eq, lookup_insert_eq, Hrs.
        - by rewrite lookup_alter_ne, lookup_insert_ne. }
      split; try done.
      - intros a c Hc. apply pool_ok_give_up; [by apply B|done].
      - intros tx' conn [[_ ?]|[_ Hd]]%lookup_insert_Some; [done|by apply E].
      - intros conn tx1 tx2 [[_ ?]|[_ H1']]%lookup_insert_Some [[_ ?]|[_ H2']]%lookup_insert_Some; try done.
        by eapply F. }
  all: assert (alter (fun r => match r with Waiting => Gone | _ => r end) tx rs = rs) as ->; [|done].
  all: apply map_eq; intros tx'; destruct (decide (tx' = tx)) as [->|Hn]; [by rewrite lookup_alter_eq, Hrs|by rewrite lookup_alter_ne].
Qed.

Lemma pools_abandon_all reqs heap rs pcs runs asked from :
  pools heap rs pcs runs asked from →
  pools heap (foldr (fun req rs => abandon rs (wr_reply_tx req)) rs reqs) pcs runs asked from.
Proof. intros Hp. induction reqs as [|req reqs IH]; [done|]. by apply pools_abandon. Qed.

(** A control is accepted. *)
Lemma pools_accept a c run heap rs pcs runs asked from :
  pools heap rs pcs runs asked from → runs !! a = None → c_run_id c = run →
  c_work_conn_reqs c = [] → c_pending_work_conns c = [] → c_idle_work_conns c = [] →
  pools (<[a := c]> heap) rs (<[a := AtSelect]> pcs) (<[a := run]> runs) asked from.
Proof.
  intros [A B C D E F] Hr <- Hq Hp Hi.
  assert (∀ x, x ≠ a → pc_of (<[a := AtSelect]> pcs) x = pc_of pcs x) as Hpc.
  { intros x Hx. unfold pc_of. by rewrite lookup_insert_ne. }
  assert (pc_of (<[a := AtSelect]> pcs) a = AtSelect) as Hpa by (unfold pc_of; by rewrite lookup_insert_eq).
  split.
  - intros x c0 [[<- <-]|[Hn Hx]]%lookup_insert_Some; [apply lookup_insert_eq|].
    rewrite lookup_insert_ne by done. by apply A.
  - intros x c0 [[<- <-]|[Hn Hx]]%lookup_insert_Some; [|rewrite Hpc by done; by apply B]. rewrite Hpa.
    split; unfold unserved; rewrite ?Hq, ?Hp, ?Hi; simpl; try done; try apply NoDup_nil_2;
      [by intros tx ?%not_elem_of_nil|by intros conn tx ?%not_elem_of_nil].
  - intros x c0 req [[<- <-]|[Hn Hx]]%lookup_insert_Some; [|rewrite Hpc by done; by apply C].
    rewrite Hpa. unfold unserved. rewrite Hq, Hp. simpl. by intros ?%not_elem_of_nil.
  - intros x c0 conn [[<- <-]|[Hn Hx]]%lookup_insert_Some; [rewrite Hi; by intros ?%not_elem_of_nil|by apply (D x)].
  - intros tx conn Hd. destruct (E tx conn Hd) as (key & name & x & r & Hk & Hx & Harr).
    exists key, name, x, r. rewrite lookup_insert_ne; [done|]. congruence.
  - done.
Qed.

(** A control is dropped. *)
Lemma pools_drop a heap rs pcs runs asked from :
  pools heap rs pcs runs asked from → pools (delete a heap) rs pcs runs asked from.
Proof.
  intros [A B C D E F]. split; [..|done|done].
  - intros x c [_ Hx]%lookup_delete_Some. by apply A.
  - intros x c [_ Hx]%lookup_delete_Some. by apply B.
  - intros x c req [_ Hx]%lookup_delete_Some. by apply C.
  - intros x c conn [_ Hx]%lookup_delete_Some. by apply (D x).
Qed.

(** ** The steps *)

(** A oneshot channel nobody used before. *)
Definition new_channel (tx : Z) (s : Net) : Prop := hub_replies (n_hub s) !! tx = None ∧ n_asked s !! tx = None.

(** [let (tx, rx) = oneshot::channel()], and the request is sent. *)
Definition send_request (tx : Z) (name : string) (sender : Sender) (e : Error.t) : HM unit :=
  _ ← st_modify (fun h => set_replies (<[tx := Waiting]> (hub_replies h)) h);
  request_send sender (mkWorkConnRequest name tx) e.

Inductive net_step (s : Net) : Net → Prop :=
| nt_login env hb run_id transport msg peer h' self :          (* a client logs in *)
    fresh_run run_id (n_hub s) →
    login_accept authenticator env hb run_id transport msg peer (n_hub s) = (h', Ok self) →
    net_step s (n_set_run self run_id (n_set_pc self AtSelect (n_set h' s)))
| nt_refused env hb run_id transport msg peer h' e :           (* a client is refused *)
    login_accept authenticator env hb run_id transport msg peer (n_hub s) = (h', Err e) →
    net_step s (n_set h' s)
| nt_take self :                                               (* a control task starts *)
    net_step s (n_set (upd_control self (c_set_transport None) (n_hub s)).1 s)
| nt_turn env self c transport ev :                            (* and serves its client *)
    hub_heap (n_hub s) !! self = Some c → pc_of (n_pc s) self = AtSelect → ev ≠ WorkConnReq →
    net_step s (n_set (run_select authenticator env self transport ev (n_hub s)).1 s)
| nt_idle self c req rest conn env transport :                 (* a request meets an idle connection *)
    hub_heap (n_hub s) !! self = Some c → pc_of (n_pc s) self = AtSelect →
    c_work_conn_reqs c = req :: rest → last (c_idle_work_conns c) = Some conn →
    net_step s (n_set ((_ ← upd_control self (c_set_reqs rest);
                        handle_work_conn_request env self transport req) (n_hub s)).1 s)
| nt_no_idle self c req rest :                                 (* or none *)
    hub_heap (n_hub s) !! self = Some c → pc_of (n_pc s) self = AtSelect →
    c_work_conn_reqs c = req :: rest → c_idle_work_conns c = [] →
    net_step s (n_set_pc self (NoIdle req)
      (n_set ((_ ← upd_control self (c_set_reqs rest); _ ← inc req_work_conn_total; pop_idle self) (n_hub s)).1 s))
| nt_push self c req :                                         (* and is queued *)
    hub_heap (n_hub s) !! self = Some c → pc_of (n_pc s) self = NoIdle req →
    net_step s (n_set_pc self (Queued req) (n_set (push_pending self req (n_hub s)).1 s))
| nt_announce self c req env transport :                       (* and announced to the client *)
    hub_heap (n_hub s) !! self = Some c → pc_of (n_pc s) self = Queued req →
    net_step s (n_set_pc self AtSelect (n_set (announce env self transport req (n_hub s)).1 s))
| nt_finish self c :                                           (* a control task ends *)
    hub_heap (n_hub s) !! self = Some c → pc_of (n_pc s) self = AtSelect →
    net_step s (n_set (login_finish self (n_hub s)).1 s)
| nt_work_conn conn msg :                                      (* a work connection arrives *)
    n_from s !! conn = None →
    net_step s (n_arrive conn msg (n_set (handle_new_work_conn authenticator conn msg (n_hub s)).1 s))
| nt_pick key name tx :                                        (* a user's task takes a sender *)
    asks (hub_pm (n_hub s)) key name tx → net_step s (n_task (key, name, tx) s)
| nt_request tx key name sender e :                            (* and asks with it *)
    new_channel tx s → (key, name, sender) ∈ n_tasks s →
    net_step s (n_ask tx (key, name, sender) (n_set (send_request tx name sender e (n_hub s)).1 s))
| nt_stcp env tx msg info :                                    (* a visitor asks *)
    new_channel tx s → get_stcp_info (hub_pm (n_hub s)) (sv_proxy_name msg) = Some info →
    net_step s (n_ask tx (proxy_key_of (si_run_id info) (sv_proxy_name msg), sv_proxy_name msg,
                          si_work_conn_req_tx info)
                  (n_set (stcp_request env tx msg (n_hub s)).1 s))
| nt_await tx e1 e2 :                                          (* the answer, or the timeout *)
    net_step s (n_set (await_reply tx e1 e2 (n_hub s)).1 s)
| nt_send env conn m :                                         (* [StartWorkConn] *)
    net_step s (n_set (transport_send env conn m (n_hub s)).1 s)
| nt_http reads connect :                                      (* routes and backends in turn *)
    net_step s (n_set (set_pm (pm_set_vhost (handle_http_conn reads connect (pm_vhost (hub_pm (n_hub s)))).1
                                 (hub_pm (n_hub s)), hub_rc (n_hub s)) (n_hub s)) s)
| nt_https timed_out stream connect :
    net_step s (n_set (set_pm (pm_set_vhost (handle_https_conn timed_out stream connect
                                               (pm_vhost (hub_pm (n_hub s)))).1
                                 (hub_pm (n_hub s)), hub_rc (n_hub s)) (n_hub s)) s)
| nt_group addr g now ended relay :
    pm_group_heap (hub_pm (n_hub s)) !! addr = Some g →
    net_step s (n_set (on_pm (update_group addr (fun g => (handle_client now ended relay g).1)) (n_hub s)).1 s).

Context `{!PortAllocatorSpec R}.

Inductive net_reachable : Net → Prop :=
| nr_new addr host p1 p2 r :
    held_ports r = ∅ → net_reachable (mkNet (hub_new (pm_new addr host p1 p2) r) ∅ ∅ ∅ ∅ [])
| nr_step s s' : net_reachable s → net_step s s' → net_reachable s'.

Record net_inv (s : Net) : Prop := {
  ni_srv : srv_inv (n_hub s);
  ni_fresh : ∀ a, is_Some (n_runs s !! a) → a < hub_next (n_hub s);
  ni_routed : routed (fun tx run => n_runs s !! tx = Some run) (hub_pm (n_hub s));
  ni_tasks : ∀ key name tx, (key, name, tx) ∈ n_tasks s → owned (fun tx run => n_runs s !! tx = Some run) key name tx;
  ni_asked : ∀ tx key name a, n_asked s !! tx = Some (key, name, a) →
    owned (fun tx run => n_runs s !! tx = Some run) key name a;
  ni_pools : pools (hub_heap (n_hub s)) (hub_replies (n_hub s)) (n_pc s) (n_runs s) (n_asked s) (n_from s);
}.

Lemma owned_mono (own own' : Sender → string → Prop) key name tx :
  (∀ run, own tx run → own' tx run) → owned own key name tx → owned own' key name tx.
Proof. intros Ho (run & base & Hk & Hr & Hn). exists run, base. auto. Qed.

(** The records grow. *)
Lemma net_step_grows s s' :
  net_inv s → net_step s s' → n_runs s ⊆ n_runs s' ∧ n_asked s ⊆ n_asked s' ∧ n_from s ⊆ n_from s'.
Proof.
  intros Hinv Hs. destruct Hs; simpl; try done.
  - split; [|done]. apply insert_subseteq. destruct (n_runs s !! self) eqn:E; [|done]. exfalso.
    assert (self < hub_next (n_hub s)) as Hlt by (by apply (ni_fresh _ Hinv); eauto).
    match goal with Hl : login_accept _ _ _ _ _ _ _ _ = _ |- _ =>
      pose proof (login_accept_cases authenticator env hb run_id transport msg peer (n_hub s)) as Hc; rewrite Hl in Hc end.
    destruct Hc as (_ & _ & tok & c & _ & -> & _). lia.
  - split; [done|]. split; [done|]. by apply insert_subseteq.
  - split; [done|]. split; [|done]. apply insert_subseteq. by match goal with Hn : new_channel _ _ |- _ => apply Hn end.
  - split; [done|]. split; [|done]. apply insert_subseteq. by match goal with Hn : new_channel _ _ |- _ => apply Hn end.
Qed.

(** Code that is safe for every run. *)
Lemma safe_step {A} (m : HM A) h :
  (∀ self run, safe self run m) → srv_inv h → srv_inv (m h).1 ∧ hub_next (m h).1 = hub_next h.
Proof.
  intros Hm Hinv. split; [by apply safe_inv|]. apply (ev_next "" h), (Hm (hub_next h)); [apply Hinv|].
  intros c Hc. pose proof (sv_next _ Hinv (hub_next h)) as Hn. rewrite Hc in Hn.
  assert (hub_next h < hub_next h) by (apply Hn; by eexists). lia.
Qed.

(** Steps that leave the work connections alone. *)
Lemma frame_inv s h' :
  net_inv s → srv_inv h' → hub_next h' = hub_next (n_hub s) → same_pool (n_hub s) h' →
  routed (fun tx run => n_runs s !! tx = Some run) (hub_pm h') → net_inv (n_set h' s).
Proof.
  intros [A B C D E F] Hsrv Hn [Hq Hr] Hm. split; simpl; try done.
  - by rewrite Hn.
  - rewrite Hr. by eapply pools_same.
Qed.

Lemma turn_inv s env self c transport ev :
  net_inv s → hub_heap (n_hub s) !! self = Some c → ev ≠ WorkConnReq →
  net_inv (n_set (run_select authenticator env self transport ev (n_hub s)).1 s).
Proof.
  intros Hinv Hc Hev. pose proof (ni_srv _ Hinv) as Hsrv.
  assert (runs self (c_run_id c) (n_hub s)) as Hr by (intros c'; rewrite Hc; by intros [= ->]).
  destruct (calm_select authenticator self (c_run_id c) env transport ev Hev (n_hub s)
              (fun tx run => n_runs s !! tx = Some run) Hr) as [Hs Hm];
    [by apply (pp_runs _ _ _ _ _ _ (ni_pools _ Hinv))|apply Hinv|].
  apply frame_inv; try done.
  - apply (srv_step_inv authenticator (n_hub s)); [done|]. by apply (ss_turn _ _ _ _ c).
  - apply (ev_next (c_run_id c)), (safe_select authenticator self (c_run_id c)); [apply Hsrv|done].
Qed.

Lemma login_inv s env hb run_id transport msg peer h' self :
  net_inv s → fresh_run run_id (n_hub s) →
  login_accept authenticator env hb run_id transport msg peer (n_hub s) = (h', Ok self) →
  net_inv (n_set_run self run_id (n_set_pc self AtSelect (n_set h' s))).
Proof.
  intros Hinv Hf Hl. pose proof (srv_step_inv authenticator (n_hub s) _ (ni_srv _ Hinv)
    (ss_login authenticator _ env hb run_id transport msg peer Hf)) as Hsrv. rewrite Hl in Hsrv. simpl in Hsrv.
  assert (hub_replies h' = hub_replies (n_hub s) ∧ ∃ c, hub_heap h' !! self = Some c ∧
            c_pending_work_conns c = [] ∧ c_idle_work_conns c = []) as (Hrep & c0 & Hc0 & Hp0 & Hi0).
  { revert Hl. unfold login_accept, transport_send. cbv [mbind st_bind st_lift st_modify emit inc st_fail mret st_ret].
    destruct (auth_verify_login _ _ _); destruct (env_send _ _ _); intros [= <- <-]. simpl.
    split; [done|]. rewrite lookup_insert_eq. by eexists. }
  pose proof (login_accept_cases authenticator env hb run_id transport msg peer (n_hub s)) as Hc. rewrite Hl in Hc.
  destruct Hc as (Hpm & _ & tok & c & _ & -> & Hh & _ & Hn & Hrun & _ & _ & _ & _ & Hq & _).
  rewrite Hh, lookup_insert_eq in Hc0. injection Hc0 as <-.
  destruct Hinv as [A B C D E F]. injection Hpm as Hpm _.
  assert (n_runs s !! hub_next (n_hub s) = None) as Hnone.
  { destruct (n_runs s !! hub_next (n_hub s)) eqn:Er; [|done].
    assert (hub_next (n_hub s) < hub_next (n_hub s)) by (apply B; eauto). lia. }
  assert (∀ key name tx, owned (fun tx run => n_runs s !! tx = Some run) key name tx →
    owned (fun tx run => <[hub_next (n_hub s) := run_id]> (n_runs s) !! tx = Some run) key name tx) as Hown.
  { intros key name tx. apply owned_mono. intros run Hr. rewrite lookup_insert_ne; [done|]. congruence. }
  split; simpl.
  - done.
  - intros a [<-|Ha]%lookup_insert_is_Some'; rewrite Hn; [lia|]. pose proof (B a Ha). lia.
  - rewrite Hpm. intros key name tx Ha. by apply Hown, C.
  - intros key name tx Ha. by apply Hown, D.
  - intros tx key name a Ha. by eapply Hown, E.
  - rewrite Hh, Hrep. by apply pools_accept.
Qed.

(** Steps that touch queues, replies and records but neither controls nor proxies. *)
Lemma queues_inv {A} s (m : HM A) pcs' asked' from' :
  net_inv s → (∀ self run, safe self run m) → hub_pm (m (n_hub s)).1 = hub_pm (n_hub s) →
  (∀ tx key name a, asked' !! tx = Some (key, name, a) →
     n_asked s !! tx = Some (key, name, a) ∨ owned (fun tx run => n_runs s !! tx = Some run) key name a) →
  pools (hub_heap (m (n_hub s)).1) (hub_replies (m (n_hub s)).1) pcs' (n_runs s) asked' from' →
  net_inv (mkNet (m (n_hub s)).1 pcs' (n_runs s) asked' from' (n_tasks s)).
Proof.
  intros [A' B C D E F] Hm Hpm Hask Hp. destruct (safe_step m (n_hub s) Hm A') as [Hsrv Hn].
  split; simpl; try done.
  - by rewrite Hn.
  - by rewrite Hpm.
  - intros tx key name a [Ha|Ha]%Hask; [by eapply E|done].
Qed.

(** Code that only changes the control at [self], and no proxy. *)
Definition local {A} (self : Z) (m : HM A) : Prop :=
  ∀ h, hub_pm (m h).1 = hub_pm h ∧ ∀ a, a ≠ self → hub_heap (m h).1 !! a = hub_heap h !! a.

Lemma local_bind {A B} self (m : HM A) (f : A → HM B) : local self m → (∀ a, local self (f a)) → local self (m ≫= f).
Proof.
  intros Hm Hf h. unfold mbind, st_bind. destruct (Hm h) as [Hp Hh]. destruct (m h) as [h' [a|e]]; [|done].
  destruct (Hf a h') as [Hp' Hh']. cbn [fst] in *. split; [congruence|]. intros x Hx. rewrite Hh' by done. by apply Hh.
Qed.
Lemma local_same {A} self (m : HM A) :
  (∀ h, hub_pm (m h).1 = hub_pm h ∧ hub_heap (m h).1 = hub_heap h) → local self m.
Proof. intros Hm h. destruct (Hm h) as [-> ->]. done. Qed.
Lemma local_upd self f : local self (upd_control self f).
Proof. intros h. split; [done|]. intros a Ha. simpl. by rewrite lookup_alter_ne. Qed.
Lemma local_reply self tx conn e : local self (reply_send tx conn e).
Proof. apply local_same. intros h. unfold reply_send. by destruct (hub_replies h !! tx) as [[]|]. Qed.
Lemma local_deref self a : local self (deref a). Proof. by apply local_same. Qed.
Lemma local_inc self c : local self (inc c). Proof. by apply local_same. Qed.
Lemma local_ret {A} self (a : A) : local self (mret a). Proof. by apply local_same. Qed.
Lemma local_announce self env transport req : local self (announce env self transport req).
Proof.
  intros h. unfold announce, on_err, transport_send. cbv [mbind st_bind st_lift st_modify].
  destruct (env_send _ _ _); [done|]. apply (local_bind self); [apply local_upd|]. intros _. by apply local_same.
Qed.

Create HintDb local.
#[local] Hint Resolve local_upd local_reply local_deref local_inc local_ret local_announce : local.
Ltac solve_local :=
  repeat first [ progress intros | solve [auto with local nocore]
               | match goal with |- local _ (_ ≫= _) => apply local_bind end | case_match ].

Lemma local_request self env transport req : local self (handle_work_conn_request env self transport req).
Proof. unfold handle_work_conn_request, pop_idle, push_pending. solve_local. Qed.
Lemma local_work_conn self conn : local self (handle_work_conn self conn).
Proof. unfold handle_work_conn. solve_local. Qed.
Lemma local_pop_idle self : local self (pop_idle self).
Proof. unfold pop_idle. solve_local. Qed.

(** The work connections in pools are those of their clients. *)
Lemma idle_one_control s a1 a2 c1 c2 conn :
  net_inv s → hub_heap (n_hub s) !! a1 = Some c1 → hub_heap (n_hub s) !! a2 = Some c2 →
  conn ∈ c_idle_work_conns c1 → conn ∈ c_idle_work_conns c2 → a1 = a2.
Proof.
  intros Hinv Hc1 Hc2 Hi1 Hi2. pose proof (ni_pools _ Hinv) as Hp.
  destruct (pp_idle _ _ _ _ _ _ Hp a1 c1 conn Hc1 Hi1) as (m1 & Hm1 & Hr1 & _).
  destruct (pp_idle _ _ _ _ _ _ Hp a2 c2 conn Hc2 Hi2) as (m2 & Hm2 & Hr2 & _).
  apply (sv_runs _ (ni_srv _ Hinv) a1 a2 (c_run_id c1)); [by rewrite Hc1|]. rewrite Hc2. simpl. congruence.
Qed.

Lemma idle_inv s self c req rest conn env transport :
  net_inv s → hub_heap (n_hub s) !! self = Some c → pc_of (n_pc s) self = AtSelect →
  c_work_conn_reqs c = req :: rest → last (c_idle_work_conns c) = Some conn →
  net_inv (n_set ((_ ← upd_control self (c_set_reqs rest);
                   handle_work_conn_request env self transport req) (n_hub s)).1 s).
Proof.
  intros Hinv Hc Hpc Hr Hl. pose proof (ni_pools _ Hinv) as Hp.
  set (m := (_ ← upd_control self (c_set_reqs rest); handle_work_conn_request env self transport req : HM unit)).
  set (h1 := (upd_control self (c_set_reqs rest) (n_hub s)).1).
  assert (m (n_hub s) = handle_work_conn_request env self transport req h1) as Em by done.
  destruct (handle_request_idle env self transport req h1 (c_set_reqs rest c) conn) as [Hc' Hrs];
    [by apply upd_control_lookup|done|].
  apply (queues_inv s m); [done|..|by auto|].
  - intros self' run. apply safe_bind; [by apply safe_upd|]. intros _. apply safe_work_conn_request.
  - rewrite Em. by destruct (local_request self env transport req h1) as [-> _].
  - rewrite Em, Hrs. apply last_Some in Hl as [l Hl].
    pose proof (po_idle _ _ _ (pp_pool _ _ _ _ _ _ Hp self c Hc)) as Hnd. rewrite Hl, NoDup_app in Hnd.
    destruct Hnd as (Hnd & Hd & _).
    assert (conn ∈ c_idle_work_conns c) as Hin by (rewrite Hl; set_solver).
    eapply (pools_serve self c _ AtSelect req conn); [exact Hp|exact Hc|exact Hc'|..]; try done; simpl;
      rewrite ?Hpc, ?Hl, ?List.removelast_last; try done.
    + intros a Ha. destruct (local_request self env transport req h1) as [_ ->]; [|done].
      by apply (local_upd self (c_set_reqs rest) (n_hub s)).
    + unfold unserved. simpl. rewrite Hr. by rewrite Permutation_middle.
    + intros Hin'. apply (Hd _ Hin'). by apply list_elem_of_singleton.
    + set_solver.
    + intros tx. by apply (po_not_both _ _ _ (pp_pool _ _ _ _ _ _ Hp self c Hc)).
    + intros a c0 Hn Ha Hin'. apply Hn. by eapply (idle_one_control s a self c0 c).
    + by apply (pp_idle _ _ _ _ _ _ Hp self c).
Qed.

Lemma pc_of_eq pcs a p : pc_of (<[a := p]> pcs) a = p.
Proof. unfold pc_of. by rewrite lookup_insert_eq. Qed.
Lemma pc_of_ne pcs a b p : b ≠ a → pc_of (<[a := p]> pcs) b = pc_of pcs b.
Proof. intros Hne. unfold pc_of. by rewrite lookup_insert_ne. Qed.
#[local] Hint Resolve pc_of_eq pc_of_ne : core.

(** The request in hand goes on to its next place. *)
Lemma move_inv {A} s self c c' p' l (m : HM A) :
  net_inv s → hub_heap (n_hub s) !! self = Some c →
  (∀ self run, safe self run m) → local self m → hub_replies (m (n_hub s)).1 = hub_replies (n_hub s) →
  hub_heap (m (n_hub s)).1 !! self = Some c' → c_run_id c' = c_run_id c →
  unserved c (pc_of (n_pc s) self) ≡ₚ l ++ unserved c' p' → c_idle_work_conns c' = c_idle_work_conns c →
  (∀ req, p' = Queued req → c_pending_work_conns c' = [] ∨ last (c_pending_work_conns c') = Some req) →
  net_inv (n_set_pc self p' (n_set (m (n_hub s)).1 s)).
Proof.
  intros Hinv Hc Hsafe Hloc Hrs Hc' Hrun Hun Hi Hq. destruct (Hloc (n_hub s)) as [Hpm Hne].
  apply (queues_inv s m); try done; [by auto|]. rewrite Hrs.
  apply (pools_less self c c' p' l (hub_heap (n_hub s)) _ _ (n_pc s)); simpl; auto. apply Hinv.
Qed.

Lemma no_idle_inv s self c req rest :
  net_inv s → hub_heap (n_hub s) !! self = Some c → pc_of (n_pc s) self = AtSelect →
  c_work_conn_reqs c = req :: rest → c_idle_work_conns c = [] →
  net_inv (n_set_pc self (NoIdle req)
    (n_set ((_ ← upd_control self (c_set_reqs rest); _ ← inc req_work_conn_total; pop_idle self) (n_hub s)).1 s)).
Proof.
  intros Hinv Hc Hpc Hr Hi.
  assert (∀ self' run, safe self' run (_ ← upd_control self (c_set_reqs rest); _ ← inc req_work_conn_total; pop_idle self)
          : Prop) as Hsafe.
  { intros self' run. unfold pop_idle. repeat (apply safe_bind; [|intros ?]); auto using safe_inc, safe_deref, safe_ret.
    all: by apply safe_upd. }
  apply (move_inv s self c (c_set_idle (List.removelast (c_idle_work_conns c)) (c_set_reqs rest c)) _ []); try done.
  - apply local_bind; [apply local_upd|]. intros _. apply local_bind; [apply local_inc|]. intros _. apply local_pop_idle.
  - unfold pop_idle, deref. cbv [mbind st_bind upd_control st_modify inc mret st_ret]. simpl.
    by rewrite lookup_alter_eq, Hc.
  - unfold pop_idle, deref. cbv [mbind st_bind upd_control st_modify inc mret st_ret]. simpl.
    rewrite lookup_alter_eq, Hc. simpl. by rewrite !lookup_alter_eq, Hc.
  - unfold unserved. simpl. by rewrite Hpc, Hr.
  - simpl. by rewrite Hi.
Qed.

Lemma push_inv s self c req :
  net_inv s → hub_heap (n_hub s) !! self = Some c → pc_of (n_pc s) self = NoIdle req →
  net_inv (n_set_pc self (Queued req) (n_set (push_pending self req (n_hub s)).1 s)).
Proof.
  intros Hinv Hc Hpc. apply (move_inv s self c (c_set_pending (c_pending_work_conns c ++ [req]) c) _ []); try done.
  - intros self' run. by apply safe_upd.
  - apply local_upd.
  - exact (upd_control_lookup self (fun c => c_set_pending (c_pending_work_conns c ++ [req]) c) (n_hub s) c Hc).
  - unfold unserved. simpl. rewrite Hpc. simpl. by rewrite <- app_assoc.
  - intros r [= ->]. right. apply last_snoc.
Qed.

Lemma announce_inv s self c req env transport :
  net_inv s → hub_heap (n_hub s) !! self = Some c → pc_of (n_pc s) self = Queued req →
  net_inv (n_set_pc self AtSelect (n_set (announce env self transport req (n_hub s)).1 s)).
Proof.
  intros Hinv Hc Hpc. pose proof (pp_pool _ _ _ _ _ _ (ni_pools _ Hinv) self c Hc) as Hok. rewrite Hpc in Hok.
  assert (∀ self' run, safe self' run (announce env self transport req)) as Hsafe.
  { intros self' run. apply safe_on_err; [apply safe_send| |apply safe_ret]. intros e.
    apply safe_bind; [by apply safe_upd|]. intros _. apply safe_fail. }
  destruct (announce_state env self transport req (n_hub s) c Hc) as [Hrs [Hc'|Hc']].
  - apply (move_inv s self c c _ []); try done; [apply local_announce|]. by rewrite Hpc.
  - destruct (po_queued _ _ _ Hok req eq_refl) as [E|[l E]%last_Some].
    + apply (move_inv s self c _ _ [] _ Hinv Hc Hsafe (local_announce _ _ _ _) Hrs Hc'); try done.
      rewrite Hpc. unfold unserved. simpl. by rewrite E.
    + apply (move_inv s self c _ _ [req] _ Hinv Hc Hsafe (local_announce _ _ _ _) Hrs Hc'); try done. rewrite Hpc. unfold unserved. simpl.
      rewrite E, List.removelast_last, <- app_assoc. symmetry. apply Permutation_middle.
Qed.

(** A new work connection reaches the control of its run id, or nobody. *)
Lemma new_work_conn_cases conn msg (h : Hub R) :
  let h' := (handle_new_work_conn authenticator conn msg h).1 in
  hub_pm h' = hub_pm h ∧ hub_heap h' = hub_heap h ∧ hub_replies h' = hub_replies h ∨
  auth_verify_new_work_conn authenticator msg = Ok tt ∧ ∃ self h1,
    hub_controls h !! nw_run_id msg = Some self ∧ hub_pm h1 = hub_pm h ∧ hub_heap h1 = hub_heap h ∧
    hub_replies h1 = hub_replies h ∧ h' = (handle_work_conn self conn h1).1.
Proof.
  unfold handle_new_work_conn, st_guard. destruct (is_empty _); [by left|].
  cbv [mbind st_bind mret st_ret inc st_modify].
  destruct (auth_verify_new_work_conn authenticator msg) as [[]|e]; cbv [emit st_modify st_fail]; [|by left].
  cbv [hub_gets cm_get st_lift]. simpl hub_controls.
  destruct (hub_controls h !! nw_run_id msg) as [self|]; cbv [ok_or]; [|by left].
  right. split; [done|].
  exists self, (set_metrics (fetch_add work_connections_total 1 (hub_metrics h)) h). by split_and!.
Qed.

Lemma fresh_conn_nowhere s conn :
  net_inv s → n_from s !! conn = None →
  (∀ a c, hub_heap (n_hub s) !! a = Some c → conn ∉ c_idle_work_conns c) ∧
  ∀ tx, hub_replies (n_hub s) !! tx ≠ Some (Delivered conn).
Proof.
  intros Hinv Hf. pose proof (ni_pools _ Hinv) as Hp. split.
  - intros a c Hc Hin. destruct (pp_idle _ _ _ _ _ _ Hp a c conn Hc Hin) as (msg & Hm & _). congruence.
  - intros tx Hd. destruct (pp_delivered _ _ _ _ _ _ Hp tx conn Hd) as (? & ? & ? & ? & _ & _ & msg & Hm & _). congruence.
Qed.

Lemma pools_from heap rs pcs runs asked from from' :
  from ⊆ from' → pools heap rs pcs runs asked from → pools heap rs pcs runs asked from'.
Proof.
  intros Hf [A B C D E F]. split; try done.
  - intros a c conn Hc Hin. eapply arrived_mono; [done|]. by apply (D a).
  - intros tx conn Hd. destruct (E tx conn Hd) as (key & name & a & run & Hk & Hr & Harr).
    exists key, name, a, run. split; [done|]. split; [done|]. by eapply arrived_mono.
Qed.

Lemma work_conn_inv s conn msg :
  net_inv s → n_from s !! conn = None →
  net_inv (n_arrive conn msg (n_set (handle_new_work_conn authenticator conn msg (n_hub s)).1 s)).
Proof.
  intros Hinv Hf. pose proof (ni_pools _ Hinv) as Hp.
  assert (n_from s ⊆ <[conn := msg]> (n_from s)) as Hsub by by apply insert_subseteq.
  destruct (fresh_conn_nowhere s conn Hinv Hf) as [Hidle Hdel].
  pose proof (new_work_conn_cases conn msg (n_hub s)) as Hcase. cbv zeta in Hcase.
  apply (queues_inv s (handle_new_work_conn authenticator conn msg)); [done|..|by auto|].
  - intros self run. apply safe_new_work_conn.
  - destruct Hcase as [(-> & _)|(_ & self & h1 & _ & Ep & _ & _ & ->)]; [done|].
    by destruct (local_work_conn self conn h1) as [-> _].
  - simpl. destruct Hcase as [(_ & -> & ->)|(Hv & self & h1 & Hcs & _ & Eh & Er & ->)]; [by eapply pools_from|].
    pose proof (sv_managed _ (ni_srv _ Hinv) _ _ Hcs) as (c & Hc & Hrun)%fmap_Some.
    assert (arrived (<[conn := msg]> (n_from s)) conn (c_run_id c)) as Harr.
    { exists msg. rewrite lookup_insert_eq. by rewrite Hrun. }
    destruct (local_work_conn self conn h1) as [_ Hne]. rewrite Eh in Hne.
    pose proof (handle_work_conn_state self conn h1 c) as Hst. rewrite Eh, Er in Hst. specialize (Hst Hc). cbv zeta in Hst.
    pose proof (pp_pool _ _ _ _ _ _ Hp self c Hc) as Hok.
    destruct (c_pending_work_conns c) as [|req rest] eqn:Hpend; destruct Hst as [Hst1 Hst2].
    + rewrite Hst1. apply (pools_idle self c conn (hub_heap (n_hub s)) _ _ _ _ _ (n_from s)); try done. by eapply Hidle.
    + rewrite Hst2. apply (pools_serve self c (c_set_pending rest c) (pc_of (n_pc s) self) req conn
        (hub_heap (n_hub s)) _ _ (n_pc s) _ _ _ (n_from s)); try done.
      * unfold unserved. simpl. by rewrite Hpend.
      * simpl. apply Hok.
      * simpl. by eapply Hidle.
      * intros a c0 _. apply Hidle.
      * intros r Hr. rewrite Hr in Hok. simpl. destruct (po_queued _ _ _ Hok r eq_refl) as [E|E]; rewrite Hpend in E; [done|].
        destruct rest; [by left|by right].
Qed.

Lemma send_request_state tx name sender e (h : Hub R) :
  let h' := (send_request tx name sender e h).1 in
  hub_pm h' = hub_pm h ∧ hub_replies h' = <[tx := Waiting]> (hub_replies h) ∧
  hub_heap h' = alter (fun c => c_set_reqs (c_work_conn_reqs c ++ [mkWorkConnRequest name tx]) c) sender (hub_heap h).
Proof.
  unfold send_request, request_send. cbv [mbind st_bind st_modify]. simpl.
  destruct (hub_heap h !! sender) as [c|] eqn:Hc; simpl; [done|]. split; [done|]. split; [done|].
  symmetry. apply map_eq. intros a. destruct (decide (a = sender)) as [->|Hn]; [by rewrite lookup_alter_eq, Hc|].
  by rewrite lookup_alter_ne.
Qed.

Lemma safe_send_request self run tx name sender e : safe self run (send_request tx name sender e).
Proof. apply safe_bind; [apply safe_replies|]. intros _. apply safe_request. Qed.

(** A request, whether its control is still there or not. *)
Lemma asked_pools s tx key name sender heap' :
  net_inv s → new_channel tx s →
  heap' = alter (fun c => c_set_reqs (c_work_conn_reqs c ++ [mkWorkConnRequest name tx]) c) sender (hub_heap (n_hub s)) →
  pools heap' (<[tx := Waiting]> (hub_replies (n_hub s))) (n_pc s) (n_runs s)
    (<[tx := (key, name, sender)]> (n_asked s)) (n_from s).
Proof.
  intros Hinv [Hrs Hask] ->. pose proof (ni_pools _ Hinv) as Hp.
  destruct (hub_heap (n_hub s) !! sender) as [c|] eqn:Hc.
  - apply (pools_request sender c tx key name (hub_heap (n_hub s))); try done.
    + by rewrite lookup_alter_eq, Hc.
    + intros a Ha. by rewrite lookup_alter_ne.
  - eapply pools_same; [|by apply pools_channel]. intros a. destruct (decide (a = sender)) as [->|Hn].
    + by rewrite lookup_alter_eq, Hc.
    + by rewrite lookup_alter_ne.
Qed.

Lemma request_inv s tx key name sender e :
  net_inv s → new_channel tx s → (key, name, sender) ∈ n_tasks s →
  net_inv (n_ask tx (key, name, sender) (n_set (send_request tx name sender e (n_hub s)).1 s)).
Proof.
  intros Hinv Hnew Hin. destruct (send_request_state tx name sender e (n_hub s)) as (Hpm & Hrs & Hh).
  apply (queues_inv s (send_request tx name sender e)); [done| |done|..].
  - intros self run. apply safe_send_request.
  - simpl. intros tx' k n a [[<- [= <- <- <-]]|[_ Ha]]%lookup_insert_Some; [right; by apply (ni_tasks _ Hinv)|by left].
  - rewrite Hrs. simpl. by apply asked_pools.
Qed.

Lemma pools_asked tx ask heap rs pcs runs asked from :
  asked !! tx = None → pools heap rs pcs runs asked from → pools heap rs pcs runs (<[tx := ask]> asked) from.
Proof.
  intros Hask [A B C D E F]. split; try done.
  - intros a c req Hc Hin. destruct (C a c req Hc Hin) as [key Hk]. exists key.
    rewrite lookup_insert_ne; [done|]. congruence.
  - intros tx' conn Hd. destruct (E tx' conn Hd) as (key & name & a & run & Hk & ?).
    exists key, name, a, run. rewrite lookup_insert_ne; [done|]. congruence.
Qed.

Lemma stcp_request_state env tx msg info (h : Hub R) :
  get_stcp_info (hub_pm h) (sv_proxy_name msg) = Some info →
  let h' := (stcp_request env tx msg h).1 in
  h' = h ∨ h' = (send_request tx (sv_proxy_name msg) (si_work_conn_req_tx info)
                   (Error.Transport "stcp provider work conn channel closed") h).1.
Proof.
  intros Hi. unfold stcp_request, st_guard. cbv [mbind st_bind hub_gets st_lift]. rewrite Hi. cbv [ok_or mret st_ret].
  destruct (negb _); [by left|]. destruct (300 <? _); [by left|by right].
Qed.

Lemma stcp_inv s env tx msg info :
  net_inv s → new_channel tx s → get_stcp_info (hub_pm (n_hub s)) (sv_proxy_name msg) = Some info →
  net_inv (n_ask tx (proxy_key_of (si_run_id info) (sv_proxy_name msg), sv_proxy_name msg, si_work_conn_req_tx info)
             (n_set (stcp_request env tx msg (n_hub s)).1 s)).
Proof.
  intros Hinv Hnew Hi. pose proof (stcp_request_state env tx msg info (n_hub s) Hi) as Hst. cbv zeta in Hst.
  destruct (send_request_state tx (sv_proxy_name msg) (si_work_conn_req_tx info)
              (Error.Transport "stcp provider work conn channel closed") (n_hub s)) as (Hpm & Hrs & Hh).
  apply (queues_inv s (stcp_request env tx msg)); [done|..].
  - intros self run. apply safe_stcp_request.
  - by destruct Hst as [-> | ->].
  - simpl. intros tx' k n a [[<- [= <- <- <-]]|[_ Ha]]%lookup_insert_Some; [right|by left].
    by apply (ni_routed _ Hinv), asks_stcp.
  - simpl. destruct Hst as [-> | ->].
    + apply pools_asked; [apply Hnew|apply Hinv].
    + rewrite Hrs. by apply asked_pools.
Qed.

Lemma await_inv s tx e1 e2 : net_inv s → net_inv (n_set (await_reply tx e1 e2 (n_hub s)).1 s).
Proof.
  intros Hinv. pose proof (ni_pools _ Hinv) as Hp.
  assert (hub_pm (await_reply tx e1 e2 (n_hub s)).1 = hub_pm (n_hub s) ∧
          hub_heap (await_reply tx e1 e2 (n_hub s)).1 = hub_heap (n_hub s) ∧
          (hub_replies (await_reply tx e1 e2 (n_hub s)).1 = hub_replies (n_hub s) ∨
           hub_replies (await_reply tx e1 e2 (n_hub s)).1 = abandon (hub_replies (n_hub s)) tx)) as (Hpm & Hh & Hrs).
  { unfold await_reply, abandon. destruct (hub_replies (n_hub s) !! tx) as [[]|] eqn:E; simpl; auto.
    split; [done|]. split; [done|]. right. apply map_eq. intros tx'. destruct (decide (tx' = tx)) as [->|Hn].
    - by rewrite lookup_insert_eq, lookup_alter_eq, E.
    - by rewrite lookup_insert_ne, lookup_alter_ne. }
  apply (queues_inv s (await_reply tx e1 e2)); [done| |done|by auto|].
  - intros self run. apply safe_await.
  - rewrite Hh. destruct Hrs as [-> | ->]; [done|]. by apply pools_abandon.
Qed.

Lemma finish_inv s self c :
  net_inv s → hub_heap (n_hub s) !! self = Some c → net_inv (n_set (login_finish self (n_hub s)).1 s).
Proof.
  intros Hinv Hc. pose proof (ni_srv _ Hinv) as Hsrv.
  destruct (login_finish_state self c (n_hub s) (sv_pm _ Hsrv) Hc) as (_ & _ & Hh & _ & Hn & _).
  pose proof (srv_step_inv authenticator _ _ Hsrv (ss_finish authenticator _ self c Hc)) as Hsrv'.
  assert (asks_less (hub_pm (login_finish self (n_hub s)).1) (hub_pm (n_hub s)) ∧
          hub_replies (login_finish self (n_hub s)).1 =
            foldr (fun req rs => abandon rs (wr_reply_tx req)) (hub_replies (n_hub s))
              (c_pending_work_conns c ++ c_work_conn_reqs c)) as [Hless Hrs].
  { unfold login_finish, deref, log_err, on_pm, zoom. cbv [mbind st_bind]. rewrite Hc. cbv [ok_or].
    pose proof (drops_unregister_run (c_run_id c) (hub_pm (n_hub s), hub_rc (n_hub s))) as Hd.
    destruct (unregister_run_proxies _ _) as [[pm rc] r]. simpl in *. split; [done|]. by rewrite Hc. }
  destruct Hinv as [A B C D E F]. split; simpl; try done.
  - by rewrite Hn.
  - by eapply routed_less.
  - rewrite Hh, Hrs. by apply pools_drop, pools_abandon_all.
Qed.

Lemma traffic_inv s s' :
  net_inv s → pm_step (pm_of (n_hub s)) s' → pm_proxies s'.1 = pm_proxies (hub_pm (n_hub s)) →
  asks_less s'.1 (hub_pm (n_hub s)) → net_inv (n_set (set_pm s' (n_hub s)) s).
Proof.
  intros Hinv Hs Hp Hl. apply frame_inv; try done.
  - apply (srv_step_inv authenticator (n_hub s)); [apply Hinv|]. by apply ss_traffic.
  - eapply routed_less; [done|apply Hinv].
Qed.

Lemma net_step_inv s s' : net_inv s → net_step s s' → net_inv s'.
Proof.
  intros Hinv Hs. pose proof (ni_srv _ Hinv) as Hsrv. destruct Hs as
    [env hb run_id transport msg peer h' self Hf Hl|env hb run_id transport msg peer h' e Hl|self
    |env self c transport ev Hc Hp Hev|self c req rest conn env transport Hc Hp Hr Hl|self c req rest Hc Hp Hr Hi
    |self c req Hc Hp|self c req env transport Hc Hp|self c Hc Hp|conn msg Hf|key name tx Ha|tx key name sender e Hn Hin
    |env tx msg info Hn Hi|tx e1 e2|env conn m|reads connect|timed_out stream connect|addr g now ended relay Hg].
  - by eapply login_inv.
  - pose proof (login_accept_cases authenticator env hb run_id transport msg peer (n_hub s)) as Hc. rewrite Hl in Hc.
    destruct Hc as (Hpm & Hev & Hh & Hcs & Hn). injection Hpm as Hpm Hrc.
    assert (hub_replies h' = hub_replies (n_hub s)) as Hrs.
    { revert Hl. unfold login_accept, transport_send. cbv [mbind st_bind st_lift st_modify emit inc st_fail mret st_ret].
      destruct (auth_verify_login _ _ _); destruct (env_send _ _ _); by intros [= <- <-]. }
    apply frame_inv; try done; [|by split; [rewrite Hh|]|rewrite Hpm; apply Hinv].
    destruct Hsrv as [A B C D E F G]. split; unfold pm_of; rewrite ?Hpm, ?Hrc, ?Hh, ?Hcs, ?Hn, ?Hev; done.
  - apply frame_inv; try done; [|by apply same_pool_upd|apply Hinv].
    apply (safe_step (upd_control self (c_set_transport None)) (n_hub s)); [|done]. intros ? ?. by apply safe_upd.
  - by eapply turn_inv.
  - by eapply idle_inv.
  - by eapply no_idle_inv.
  - by eapply push_inv.
  - by eapply announce_inv.
  - by eapply finish_inv.
  - by apply work_conn_inv.
  - destruct Hinv as [A B C D E F]. split; simpl; try done.
    intros k n t [[= -> -> ->]|Ht]%elem_of_cons; [by apply C|by apply D].
  - by apply request_inv.
  - by apply stcp_inv.
  - by apply await_inv.
  - destruct (safe_step (transport_send env conn m) (n_hub s)) as [Hsrv' Hn]; [intros ? ?; apply safe_send|done|].
    unfold transport_send in *. cbv [mbind st_bind st_lift st_modify] in *.
    destruct (env_send _ _ _); simpl in *; apply frame_inv; try done; apply Hinv.
  - apply traffic_inv; try done; [apply pms_vhost, step_http_conn|].
    destruct (handle_http_conn_state reads connect (pm_vhost (hub_pm (n_hub s)))) as [-> |[d ->]];
      apply asks_less_parts; simpl; eauto using routes_less_refl, backends_less_refl, pick_route_less.
  - apply traffic_inv; try done; [apply pms_vhost, step_https_conn|].
    destruct (handle_https_conn_state timed_out stream connect (pm_vhost (hub_pm (n_hub s)))) as [-> |[d ->]];
      apply asks_less_parts; simpl; eauto using routes_less_refl, backends_less_refl, pick_route_less.
  - pose proof (drops_update_group (R := R) addr (fun g => (handle_client now ended relay g).1)) as Hd.
    unfold on_pm, zoom. eapply traffic_inv; try done; [by eapply pms_group_client|].
    apply Hd. intros g0 b. by rewrite handle_client_snapshots.
Qed.

Lemma net_reachable_inv s : net_reachable s → net_inv s.
Proof.
  induction 1 as [addr host p1 p2 r Hr|s s' _ IH Hs]; [|by eapply net_step_inv].
  assert (srv_inv (hub_new (pm_new addr host p1 p2) r)) as Hsrv.
  { by apply (srv_reachable_inv authenticator), sr_new. }
  split; simpl; try done.
  - by intros a [? ?].
  - intros key name tx Ha. by inversion Ha.
  - by intros key name tx ?%not_elem_of_nil.
Qed.

(** ** A task of a user among the others *)

Lemma rtc_reachable s s' : net_reachable s → rtc net_step s s' → net_reachable s'.
Proof. intros Hr. induction 1; [done|]. eauto using nr_step. Qed.

Lemma rtc_grows s s' :
  net_reachable s → rtc net_step s s' → n_runs s ⊆ n_runs s' ∧ n_asked s ⊆ n_asked s' ∧ n_from s ⊆ n_from s'.
Proof.
  intros Hr Hs. induction Hs as [|s1 s2 s3 Hs _ IH]; [done|].
  destruct (net_step_grows s1 s2 (net_reachable_inv _ Hr) Hs) as (A1 & B1 & C1).
  destruct (IH ltac:(by eapply nr_step)) as (A2 & B2 & C2). split_and!; by etrans.
Qed.

(** What the other tasks do while the task of a user, which began in [s], waits:
    steps of the server.  Its own steps bring no work connection and move no
    control task. *)
Definition net_others (s : Net) (others : Hub R → Hub R) : Prop :=
  ∀ s1, net_reachable s1 → n_from s1 = n_from s → n_pc s1 = n_pc s →
  ∃ s', n_hub s' = others (n_hub s1) ∧ rtc net_step s1 s'.

(** The work connection [work] answers the request [tx] that was made for the
    proxy [key], and belongs to the client of that proxy; nobody else has it. *)
Definition joined (s : Net) (tx : Z) (work : Conn) (key name : string) (run : string) (msg : NewWorkConnMsg) : Prop :=
  (∃ base, key = proxy_key_of run base ∧ (name = base ∨ name = base +:+ "__relay")) ∧
  n_from s !! work = Some msg ∧ nw_run_id msg = run ∧ auth_verify_new_work_conn authenticator msg = Ok tt ∧
  ∀ tx', hub_replies (n_hub s) !! tx' = Some (Delivered work) → tx' = tx.

Lemma delivered_joined s tx work key name sender :
  net_reachable s → hub_replies (n_hub s) !! tx = Some (Delivered work) →
  n_asked s !! tx = Some (key, name, sender) → ∃ run msg, joined s tx work key name run msg.
Proof.
  intros Hinv%net_reachable_inv Hd Hask. pose proof (ni_pools _ Hinv) as Hp.
  destruct (pp_delivered _ _ _ _ _ _ Hp tx work Hd) as (k & n & a & run & Hk & Hr & msg & Hm & Hrun & Hv).
  rewrite Hask in Hk. injection Hk as <- <- <-.
  destruct (ni_asked _ Hinv tx key name sender Hask) as (run' & base & -> & Hr' & Hn).
  rewrite Hr in Hr'. injection Hr' as <-. exists run, msg. split; [by exists base|]. split_and!; try done.
  intros tx' Hd'. by eapply (pp_once _ _ _ _ _ _ Hp).
Qed.

(** From the request to the start of the work connection. *)
Lemma served_joined s s1 env tx msg e1 e2 key name sender h' work :
  net_reachable s → rtc net_step s s1 → n_asked s !! tx = Some (key, name, sender) →
  (work ← await_reply tx e1 e2; _ ← transport_send env work msg; mret work) (n_hub s1) = (h', Ok work) →
  ∃ s' run wmsg, n_hub s' = h' ∧ rtc net_step s1 s' ∧ last (hub_wire h') = Some (work, msg) ∧
    joined s' tx work key name run wmsg.
Proof.
  intros Hr Hs Hask E. destruct (rtc_grows s s1 Hr Hs) as (_ & Hsub & _).
  pose proof (rtc_reachable _ _ Hr Hs) as Hr1. revert E. cbv [mbind st_bind mret st_ret].
  destruct (await_reply tx e1 e2 (n_hub s1)) as [h1 [w|e]] eqn:Ea; [|done].
  assert (h1 = n_hub s1 ∧ hub_replies (n_hub s1) !! tx = Some (Delivered w)) as [-> Hd].
  { revert Ea. unfold await_reply. destruct (hub_replies (n_hub s1) !! tx) as [[]|]; by intros [= <- <-]. }
  destruct (transport_send env w msg (n_hub s1)) as [h2 [[]|e]] eqn:Et; [|done]. intros [= <- <-].
  pose proof (nt_send s1 env w msg) as Hstep. rewrite Et in Hstep. simpl in Hstep.
  destruct (delivered_joined (n_set h2 s1) tx w key name sender) as (run & wmsg & Hj).
  - by eapply nr_step.
  - revert Et. unfold transport_send. cbv [mbind st_bind st_lift st_modify]. destruct (env_send _ _ _); [|done].
    by intros [= <-].
  - simpl. by eapply lookup_weaken.
  - exists (n_set h2 s1), run, wmsg. split; [done|]. split; [by apply rtc_once|]. split; [|done].
    revert Et. unfold transport_send. cbv [mbind st_bind st_lift st_modify]. destruct (env_send _ _ _); [|done].
    intros [= <-]. apply last_snoc.
Qed.

Lemma request_work_conn_joined s env tx others sender name src dst key h' work :
  net_reachable s → new_channel tx s → (key, name, sender) ∈ n_tasks s → net_others s others →
  request_work_conn env tx others sender name src dst (n_hub s) = (h', Ok work) →
  ∃ s' run msg, n_hub s' = h' ∧ rtc net_step s s' ∧
    last (hub_wire h') = Some (work, StartWorkConn (mkStartWorkConnMsg name src dst "")) ∧
    joined s' tx work key name run msg.
Proof.
  intros Hr Hnew Hin Hoth E. set (e := Error.Transport "failed to request work connection from control").
  pose proof (nt_request s tx key name sender e Hnew Hin) as Hstep.
  set (s1 := n_ask tx (key, name, sender) (n_set (send_request tx name sender e (n_hub s)).1 s)) in *.
  pose proof (nr_step _ _ Hr Hstep) as Hr1. destruct (Hoth s1 Hr1 eq_refl eq_refl) as (s2 & Hs2 & Hrtc).
  assert ((work ← await_reply tx (Error.Timeout "work connection timeout")
                    (Error.Transport "work connection channel closed");
           _ ← transport_send env work (StartWorkConn (mkStartWorkConnMsg name src dst "")); mret work) (n_hub s2)
          = (h', Ok work)) as E2.
  { rewrite <- E, Hs2. unfold s1. simpl n_hub. unfold request_work_conn, send_request, request_send in *.
    cbv [mbind st_bind st_modify] in *. simpl in *. by destruct (hub_heap (n_hub s) !! sender). }
  eapply (served_joined s1 s2) in E2 as (s' & run & msg & Hs' & Hrtc' & Hj); [|done..|apply lookup_insert_eq].
  exists s', run, msg. split; [done|]. split; [|done]. eapply rtc_l; [done|]. by etrans.
Qed.

(** The step of an HTTP user that takes the next route of its domain. *)
Lemma pick_http_net s reads head host route h1 :
  net_reachable s → read_http_request_head reads = Ok head → extract_http_host head = Some host →
  on_pm (on_vhost (pick_http (normalize_host host))) (n_hub s) = (h1, Ok route) →
  (∃ rs, vt_routes (vm_http (pm_vhost (hub_pm (n_hub s)))) !! normalize_host host = Some rs ∧ route ∈ rs) ∧
  rtc net_step s (n_task (vr_route_key route, vr_proxy_name route, vr_work_conn_req_tx route) (n_set h1 s)).
Proof.
  intros Hr Hread Hhost Hpick. set (connect := fun _ : VhostRoute => @Err Error.t Writer Error.ConnectionClosed).
  pose proof (nt_http s reads connect) as Hstep. revert Hpick Hstep.
  unfold on_pm, on_vhost, zoom, handle_http_conn, pick_http, pick_route. cbv [mbind st_bind st_lift].
  rewrite Hread, Hhost. cbv [ok_or]. cbn [fst snd].
  set (t := vm_http (pm_vhost (hub_pm (n_hub s)))). set (d := normalize_host host).
  destruct (vt_routes t !! d) as [[|r0 rs]|] eqn:Ed; [done| |done].
  set (i := Z.to_nat _). clearbody i. set (w := wrap 64 _). clearbody w. destruct ((r0 :: rs) !! i) as [r|] eqn:Eo; cbv iota beta; [|done].
  intros [= <- <-] Hstep. assert (r ∈ r0 :: rs) as Hin by (by eapply list_elem_of_lookup_2).
  split; [by eexists|]. eapply rtc_l; [exact Hstep|]. apply rtc_once, nt_pick.
  apply (asks_http _ _ d (r0 :: rs)); done.
Qed.

(** The same for HTTPS, by the name in the TLS greeting. *)
Lemma pick_https_net s timed_out stream hello sni route h1 :
  net_reachable s → (read_tls_client_hello timed_out stream).2 = Ok hello → default None (parse_tls_sni hello) = Some sni →
  on_pm (on_vhost (pick_https (normalize_host sni))) (n_hub s) = (h1, Ok route) →
  (∃ rs, vt_routes (vm_https (pm_vhost (hub_pm (n_hub s)))) !! normalize_host sni = Some rs ∧ route ∈ rs) ∧
  rtc net_step s (n_task (vr_route_key route, vr_proxy_name route, vr_work_conn_req_tx route) (n_set h1 s)).
Proof.
  intros Hr Hread Hsni Hpick. set (connect := fun _ : VhostRoute => @Err Error.t Writer Error.ConnectionClosed).
  pose proof (nt_https s timed_out stream connect) as Hstep. revert Hpick Hstep.
  unfold on_pm, on_vhost, zoom, handle_https_conn, pick_https, pick_route. cbv [mbind st_bind st_lift].
  rewrite Hread, Hsni. cbv [ok_or]. cbn [fst snd].
  set (t := vm_https (pm_vhost (hub_pm (n_hub s)))). set (d := normalize_host sni).
  destruct (vt_routes t !! d) as [[|r0 rs]|] eqn:Ed; [done| |done].
  set (i := Z.to_nat _). clearbody i. set (w := wrap 64 _). clearbody w. destruct ((r0 :: rs) !! i) as [r|] eqn:Eo; cbv iota beta; [|done].
  intros [= <- <-] Hstep. assert (r ∈ r0 :: rs) as Hin by (by eapply list_elem_of_lookup_2).
  split; [by eexists|]. eapply rtc_l; [exact Hstep|]. apply rtc_once, nt_pick.
  apply (asks_https _ _ d (r0 :: rs)); done.
Qed.

(** What follows for both, once the route [r] is taken. *)
Lemma routed_user_joined s env tx others stream_of head src dst r h1 h' route work out :
  net_reachable s → new_channel tx s → net_others s others → hub_replies h1 = hub_replies (n_hub s) →
  rtc net_step s (n_task (vr_route_key r, vr_proxy_name r, vr_work_conn_req_tx r) (n_set h1 s)) →
  (work ← request_work_conn env tx others (vr_work_conn_req_tx r) (vr_proxy_name r) src dst;
   out ← st_lift (forward_head r head (stream_of work)); mret (out.1, work, out.2)) h1 = (h', Ok (route, work, out)) →
  route = r ∧ wr_out out = wr_out (stream_of work) ++ head ∧
  ∃ s' run msg, n_hub s' = h' ∧ rtc net_step s s' ∧
    last (hub_wire h') = Some (work, StartWorkConn (mkStartWorkConnMsg (vr_proxy_name r) src dst "")) ∧
    joined s' tx work (vr_route_key r) (vr_proxy_name r) run msg.
Proof.
  intros Hr Hnew Hoth Hrep Hrtc. cbv [mbind st_bind st_lift mret st_ret].
  destruct (request_work_conn env tx others _ _ src dst h1) as [h2 [w|]] eqn:Hreq; [|done].
  destruct (forward_head r head (stream_of w)) as [o|] eqn:Hfw; [|done]. intros [= <- Ho <- <-].
  assert (route = r ∧ wr_out o.2 = wr_out (stream_of w) ++ head) as [-> Hout].
  { revert Hfw. unfold forward_head. pose proof (write_all_writes head (stream_of w)) as Hw.
    destruct (write_all _ _) as [? []]; [|done]. simpl in Hw. intros [= <-]. naive_solver. }
  split; [done|]. split; [done|]. set (s1 := n_task _ (n_set h1 s)) in Hrtc. pose proof (rtc_reachable _ _ Hr Hrtc) as Hr1.
  destruct (request_work_conn_joined s1 env tx others (vr_work_conn_req_tx r) (vr_proxy_name r) src dst
              (vr_route_key r) h2 w) as (s' & run & msg & Hs' & Hrtc' & Hw & Hj); try done.
  - destruct Hnew as [Hn1 Hn2]. split; simpl; [by rewrite Hrep|done].
  - simpl. apply elem_of_cons. by left.
  - exists s', run, msg. split; [done|]. split; [by etrans|done].
Qed.

Lemma on_pm_replies {A} (m : st (ProxyManager * R) Error.t A) (h h1 : Hub R) r : on_pm m h = (h1, r) → hub_replies h1 = hub_replies h.
Proof. unfold on_pm, zoom. destruct (m _). by intros [= <- _]. Qed.

(** ** Properties *)

(** C2: across all clients and under every interleaving of the server's tasks: a
    user whose request was answered with a work connection asked through a
    proxy of some client, and the connection is one of that same client: it
    arrived with a [NewWorkConn] that was verified and names that client's run
    id.  No connection answers two requests. *)
Theorem users_reach_their_client s tx work :
  net_reachable s → hub_replies (n_hub s) !! tx = Some (Delivered work) →
  ∃ key name sender run base msg,
    n_asked s !! tx = Some (key, name, sender) ∧ key = proxy_key_of run base ∧
    (name = base ∨ name = base +:+ "__relay") ∧
    n_from s !! work = Some msg ∧ nw_run_id msg = run ∧ auth_verify_new_work_conn authenticator msg = Ok tt ∧
    ∀ tx', hub_replies (n_hub s) !! tx' = Some (Delivered work) → tx' = tx.
Proof.
  intros Hr Hd. pose proof (ni_pools _ (net_reachable_inv _ Hr)) as Hp.
  destruct (pp_delivered _ _ _ _ _ _ Hp tx work Hd) as (key & name & sender & _ & Hask & _).
  destruct (delivered_joined s tx work key name sender Hr Hd Hask) as (run & msg & (base & Hk & Hn) & Hm).
  exists key, name, sender, run, base, msg. done.
Qed.

(** C9: the pools of all clients, under every interleaving: a work connection
    lies in the pool of the client it came from, of no other, once, and not
    when it was handed out; a request waits at one control only, once, and no
    longer once it has its connection; and the [pop_back] with which a control
    takes back a request it could not announce takes no other request away. *)
Theorem pools_apart s :
  net_reachable s →
  (∀ a c, hub_heap (n_hub s) !! a = Some c →
     NoDup (c_idle_work_conns c) ∧ NoDup (wr_reply_tx <$> unserved c (pc_of (n_pc s) a)) ∧
     (∀ work, work ∈ c_idle_work_conns c → arrived (n_from s) work (c_run_id c) ∧
        ∀ tx, hub_replies (n_hub s) !! tx ≠ Some (Delivered work)) ∧
     (∀ req work, req ∈ unserved c (pc_of (n_pc s) a) →
        hub_replies (n_hub s) !! wr_reply_tx req ≠ Some (Delivered work)) ∧
     ∀ req r, pc_of (n_pc s) a = Queued req → r ∈ c_pending_work_conns c → r ≠ req →
       r ∈ List.removelast (c_pending_work_conns c)) ∧
  ∀ a1 a2 c1 c2, hub_heap (n_hub s) !! a1 = Some c1 → hub_heap (n_hub s) !! a2 = Some c2 → a1 ≠ a2 →
    c_idle_work_conns c1 ## c_idle_work_conns c2 ∧
    (wr_reply_tx <$> unserved c1 (pc_of (n_pc s) a1)) ## (wr_reply_tx <$> unserved c2 (pc_of (n_pc s) a2)).
Proof.
  intros Hinv%net_reachable_inv. pose proof (ni_pools _ Hinv) as Hp. split.
  - intros a c Hc. pose proof (pp_pool _ _ _ _ _ _ Hp a c Hc) as Hok. split_and!; [apply Hok..| | |].
    + intros work Hin. split; [by apply (pp_idle _ _ _ _ _ _ Hp a)|]. intros tx. by apply (po_not_both _ _ _ Hok).
    + intros req work Hin. destruct (po_unserved _ _ _ Hok (wr_reply_tx req)) as [->| ->]; try done.
      by apply list_elem_of_fmap_2.
    + intros req r Hq Hr Hne. destruct (po_queued _ _ _ Hok req Hq) as [E|[l E]%last_Some]; rewrite E in *.
      * by apply not_elem_of_nil in Hr.
      * rewrite List.removelast_last. apply elem_of_app in Hr as [?|Hr%list_elem_of_singleton]; [done|by subst].
  - intros a1 a2 c1 c2 Hc1 Hc2 Hne. split.
    + intros work Hi1 Hi2. apply Hne. by eapply idle_one_control.
    + intros tx (r1 & -> & Hr1)%list_elem_of_fmap (r2 & E & Hr2)%list_elem_of_fmap.
      destruct (pp_owed _ _ _ _ _ _ Hp a1 c1 r1 Hc1 Hr1) as [k1 Hk1].
      destruct (pp_owed _ _ _ _ _ _ Hp a2 c2 r2 Hc2 Hr2) as [k2 Hk2]. congruence.
Qed.

(** C10: an HTTP user, whatever the other tasks do while it waits: the route is one
    of the host the user asked for; the work connection is one of that route's
    client and serves no other user; the last message on it starts it for the
    proxy of the route, and the head the user sent is what is then written to it. *)
Theorem http_user_joined s env tx others stream_of reads src dst h' route work out :
  net_reachable s → new_channel tx s → net_others s others →
  http_conn env tx others stream_of reads src dst (n_hub s) = (h', Ok (route, work, out)) →
  ∃ s' head host rs run msg,
    n_hub s' = h' ∧ rtc net_step s s' ∧
    read_http_request_head reads = Ok head ∧ extract_http_host head = Some host ∧
    vt_routes (vm_http (pm_vhost (hub_pm (n_hub s)))) !! normalize_host host = Some rs ∧ route ∈ rs ∧
    last (hub_wire h') = Some (work, StartWorkConn (mkStartWorkConnMsg (vr_proxy_name route) src dst "")) ∧
    wr_out out = wr_out (stream_of work) ++ head ∧
    joined s' tx work (vr_route_key route) (vr_proxy_name route) run msg.
Proof.
  intros Hr Hnew Hoth. unfold http_conn. cbv [mbind st_bind st_lift mret st_ret].
  destruct (read_http_request_head reads) as [head|] eqn:Hread; [|done].
  destruct (extract_http_host head) as [host|] eqn:Hhost; [|done]. cbv [ok_or].
  destruct (on_pm (on_vhost (pick_http (normalize_host host))) (n_hub s)) as [h1 [r|]] eqn:Hpick; [|done].
  destruct (pick_http_net s reads head host r h1 Hr Hread Hhost Hpick) as [(rs & Hrs & Hin) Hrtc].
  intros E. destruct (routed_user_joined s env tx others stream_of head src dst r h1 h' route work out)
    as (-> & Hout & s' & run & msg & Hs' & Hrtc' & Hw & Hj); try done; [by eapply on_pm_replies|].
  exists s', head, host, rs, run, msg. done.
Qed.

(** An HTTPS user likewise, by the server name of its TLS greeting. *)
Theorem https_user_joined s env tx others stream_of timed_out stream src dst h' route work out :
  net_reachable s → new_channel tx s → net_others s others →
  https_conn env tx others stream_of timed_out stream src dst (n_hub s) = (h', Ok (route, work, out)) →
  ∃ s' hello sni rs run msg,
    n_hub s' = h' ∧ rtc net_step s s' ∧
    (read_tls_client_hello timed_out stream).2 = Ok hello ∧ default None (parse_tls_sni hello) = Some sni ∧
    vt_routes (vm_https (pm_vhost (hub_pm (n_hub s)))) !! normalize_host sni = Some rs ∧ route ∈ rs ∧
    last (hub_wire h') = Some (work, StartWorkConn (mkStartWorkConnMsg (vr_proxy_name route) src dst "")) ∧
    wr_out out = wr_out (stream_of work) ++ hello ∧
    joined s' tx work (vr_route_key route) (vr_proxy_name route) run msg.
Proof.
  intros Hr Hnew Hoth. unfold https_conn. cbv [mbind st_bind st_lift mret st_ret].
  destruct (read_tls_client_hello timed_out stream).2 as [hello|] eqn:Hread; [|done].
  destruct (default None (parse_tls_sni hello)) as [sni|] eqn:Hsni; [|done]. cbv [ok_or].
  destruct (on_pm (on_vhost (pick_https (normalize_host sni))) (n_hub s)) as [h1 [r|]] eqn:Hpick; [|done].
  destruct (pick_https_net s timed_out stream hello sni r h1 Hr Hread Hsni Hpick) as [(rs & Hrs & Hin) Hrtc].
  intros E. destruct (routed_user_joined s env tx others stream_of hello src dst r h1 h' route work out)
    as (-> & Hout & s' & run & msg & Hs' & Hrtc' & Hw & Hj); try done; [by eapply on_pm_replies|].
  exists s', hello, sni, rs, run, msg. done.
Qed.

(** C11: an STCP visitor, whatever the other tasks do while it waits: it is joined
    only with a work connection of the client that provides the proxy it named,
    and only after it signed its timestamp with that proxy's secret; no other
    user or visitor has the connection. *)
Theorem stcp_visitor_joined s env tx others msg peer h' work :
  net_reachable s → new_channel tx s → net_others s others →
  handle_stcp_visitor_conn env tx others msg peer (n_hub s) = (h', Ok work) →
  ∃ s' info run wmsg,
    n_hub s' = h' ∧ rtc net_step s s' ∧
    get_stcp_info (hub_pm (n_hub s)) (sv_proxy_name msg) = Some info ∧
    sv_sk_signature msg = sign (si_sk info) (pretty (sv_timestamp msg)) ∧
    check_timestamp (env_now env) (sv_timestamp msg) = Ok tt ∧
    last (hub_wire h') = Some (work, StartWorkConn (mkStartWorkConnMsg (sv_proxy_name msg) peer "" "")) ∧
    joined s' tx work (proxy_key_of (si_run_id info) (sv_proxy_name msg)) (sv_proxy_name msg) run wmsg.
Proof.
  intros Hr Hnew Hoth E. unfold handle_stcp_visitor_conn in E. apply st_bind_Ok in E as ([] & h1 & Hreq & E).
  assert (∃ info, get_stcp_info (hub_pm (n_hub s)) (sv_proxy_name msg) = Some info ∧
            verify (si_sk info) (pretty (sv_timestamp msg)) (sv_sk_signature msg) = true ∧
            check_timestamp (env_now env) (sv_timestamp msg) = Ok tt) as (info & Hi & Hv%verify_iff & Hts).
  { revert Hreq. unfold stcp_request, st_guard. cbv [mbind st_bind hub_gets st_lift].
    destruct (get_stcp_info _ _) as [info|]; [|done]. cbv [ok_or mret st_ret st_fail].
    destruct (verify _ _ _) eqn:Hv; [|done]. cbn [negb]. destruct (300 <? _) eqn:Ht; [done|]. intros _.
    exists info. split_and!; try done. unfold check_timestamp, MAX_TIMESTAMP_SKEW. by rewrite Ht. }
  pose proof (nt_stcp s env tx msg info Hnew Hi) as Hstep. rewrite Hreq in Hstep. simpl fst in Hstep.
  set (s1 := n_ask tx _ _) in Hstep. pose proof (nr_step _ _ Hr Hstep) as Hr1.
  destruct (Hoth s1 Hr1 eq_refl eq_refl) as (s2 & Hs2 & Hrtc). unfold stcp_start in E.
  assert (∀ m : HM Conn, (_ ← st_modify others; m) h1 = m (n_hub s2)) as Hm by (intros m; by rewrite Hs2).
  rewrite Hm in E.
  eapply (served_joined s1 s2) in E as (s' & run & wmsg & Hs' & Hrtc' & Hj); [|done..|apply lookup_insert_eq].
  exists s', info, run, wmsg. split; [done|]. split; [|done]. eapply rtc_l; [done|]. by etrans.
Qed.

(** A user of a TCP proxy, whatever the other tasks do while it waits: the
    work connection it gets belongs to the client of the proxy whose sender the
    task holds. *)
Theorem tcp_user_joined s d env tx others name port sender key d' work :
  net_reachable s → n_hub s = d_hub d → new_channel tx s → (key, name, sender) ∈ n_tasks s →
  (∀ s1 d1, net_reachable s1 → n_hub s1 = d_hub d1 → n_from s1 = n_from s → n_pc s1 = n_pc s →
     ∃ s', n_hub s' = d_hub (others d1) ∧ rtc net_step s1 s') →
  request_work_transport env tx others name port sender d = (d', Ok work) →
  ∃ s' run msg, n_hub s' = d_hub d' ∧ rtc net_step s s' ∧
    last (hub_wire (d_hub d')) =
      Some (work, StartWorkConn (mkStartWorkConnMsg name "" ("0.0.0.0:" +:+ pretty port) "")) ∧
    joined s' tx work key name run msg.
Proof.
  intros Hr Hd Hnew Hin Hoth E. set (e := Error.Transport "Failed to request work connection").
  pose proof (nt_request s tx key name sender e Hnew Hin) as Hstep.
  set (s1 := n_ask tx (key, name, sender) (n_set (send_request tx name sender e (n_hub s)).1 s)) in *.
  pose proof (nr_step _ _ Hr Hstep) as Hr1.
  set (d1 := d_set_hub (send_request tx name sender e (d_hub d)).1 d).
  destruct (Hoth s1 d1 Hr1) as (s2 & Hs2 & Hrtc); [unfold s1, d1; simpl; by rewrite Hd|done..|].
  assert ((work ← await_reply tx (Error.Timeout "Work connection timeout")
                    (Error.Transport "Work connection channel closed");
           _ ← transport_send env work
             (StartWorkConn (mkStartWorkConnMsg name "" ("0.0.0.0:" +:+ pretty port) "")); mret work) (n_hub s2)
          = (d_hub d', Ok work)) as E2.
  { rewrite Hs2. revert E. unfold request_work_transport, on_hub, zoom.
    cbv [mbind st_bind st_modify mret st_ret]. unfold d1, send_request, request_send. cbv [mbind st_bind st_modify].
    simpl. destruct (hub_heap (d_hub d) !! sender); [|done]. simpl.
    assert (∀ (h h1 : Hub R) d, d_set_hub h (d_set_hub h1 d) = d_set_hub h d) as Htwice by done. rewrite Htwice.
    match goal with |- context [others ?x] => generalize (others x) end. intros d2.
    destruct (await_reply tx _ _ (d_hub d2)) as [h3 [w|]]; [|done]. simpl.
    destruct (transport_send env w _ h3) as [h4 [[]|]]; [|done]. by intros [= <- <-]. }
  eapply (served_joined s1 s2) in E2 as (s' & run & msg & Hs' & Hrtc' & Hj); [|done..|apply lookup_insert_eq].
  exists s', run, msg. split; [done|]. split; [|done]. eapply rtc_l; [done|]. by etrans.
Qed.
End Network.

(** ** Witnesses *)

(** Two clients: [r1] has the route [a.com], [r2] provides the STCP proxy [db].
    While the user waits, a work connection of the right client arrives and its
    control serves the request from the pool. *)
Module ToyNetwork.
#[local] Existing Instances ToyProxyManager.json ToyProxyManager.lower ToyProxyManager.iter ToyCrypto.prims.
Import ToyControl.

Abbreviation Net := (Net (R := ResourceController)).
Definition start : Net :=
  mkNet (hub_new (pm_new "0.0.0.0" "" 8080 0) ToyProxyManager.rc0) ∅ ∅ ∅ ∅ [].
Definition login_net (run : string) (conn : Conn) (s : Net) : Net :=
  n_set_run (hub_next (n_hub s)) run (n_set_pc (hub_next (n_hub s)) AtSelect
    (n_set (login_accept auth env 90 run conn ToyServer.login "1.2.3.4:5" (n_hub s)).1 s)).
Definition proxy_net (self : Z) (msg : NewProxyMsg) (s : Net) : Net :=
  n_set (run_select auth env self 10 (Received (Ok (Some (NewProxy msg)))) (n_hub s)).1 s.

Definition web : NewProxyMsg :=
  mkNewProxyMsg "web" "http" false false "127.0.0.1" 80 0 ["a.com"%string] "" [] "" "" "" false tt.
Definition db : NewProxyMsg :=
  mkNewProxyMsg "db" "stcp" false false "127.0.0.1" 80 0 [] "" [] "" "s3" "" false tt.
Definition s4 : Net := proxy_net 1 db (proxy_net 0 web (login_net "r2" 11 (login_net "r1" 10 start))).

Lemma login_reachable run conn (s : Net) :
  net_reachable auth s → fresh_run run (n_hub s) → net_reachable auth (login_net run conn s).
Proof.
  intros Hr Hf. eapply nr_step; [exact Hr|]. unfold login_net.
  eapply (nt_login auth s env 90 run conn ToyServer.login "1.2.3.4:5"); [done|]. reflexivity.
Qed.
Lemma proxy_reachable self c msg (s : Net) :
  net_reachable auth s → hub_heap (n_hub s) !! self = Some c → pc_of (n_pc s) self = AtSelect →
  net_reachable auth (proxy_net self msg s).
Proof. intros Hr Hc Hp. eapply nr_step; [exact Hr|]. by apply (nt_turn auth s env self c 10). Qed.

Lemma fresh_run_dec run (h : Hub ResourceController) :
  bytes_contains ":"%byte (to_bytes run) = false →
  bool_decide (map_Forall (fun _ c => c_run_id c ≠ run) (hub_heap h)) = true → fresh_run run h.
Proof. intros Hc Hm%bool_decide_eq_true. split; [by apply bytes_contains_false|done]. Qed.

(** The arrival of a work connection, and the control at [self] takes a request. *)
Definition serves (self : Z) (conn : Conn) (run : string) (h : Hub ResourceController) : Hub ResourceController :=
  let h1 := (handle_new_work_conn auth conn (mkNewWorkConnMsg run "") h).1 in
  match hub_heap h1 !! self with
  | Some c =>
      match c_work_conn_reqs c, last (c_idle_work_conns c) with
      | req :: rest, Some _ =>
          ((_ ← upd_control self (c_set_reqs rest); handle_work_conn_request env self 10 req) h1).1
      | _, _ => h1
      end
  | None => h1
  end.

Lemma serves_others (s : Net) self conn run :
  n_from s !! conn = None → pc_of (n_pc s) self = AtSelect → net_others auth s (serves self conn run).
Proof.
  intros Hf Hp s1 Hr Ef Ep. rewrite <- Ef in Hf. rewrite <- Ep in Hp.
  pose proof (nt_work_conn auth s1 conn (mkNewWorkConnMsg run "") Hf) as Hstep. unfold serves.
  set (h1 := (handle_new_work_conn auth conn (mkNewWorkConnMsg run "") (n_hub s1)).1) in *.
  set (s2 := n_arrive conn _ (n_set h1 s1)) in *.
  assert (∃ s', n_hub s' = h1 ∧ rtc (net_step auth) s1 s') as Hnow by (exists s2; split; [done|by apply rtc_once]).
  destruct (hub_heap h1 !! self) as [c|] eqn:Hc; [|done].
  destruct (c_work_conn_reqs c) as [|req rest] eqn:Hq; [done|].
  destruct (last (c_idle_work_conns c)) as [w|] eqn:Hl; [|done].
  eexists. split; [|eapply rtc_l; [exact Hstep|]; eapply rtc_once; by apply (nt_idle auth s2 self c req rest w env 10)].
  done.
Qed.

Lemma s4_reachable : net_reachable auth s4.
Proof.
  assert (net_reachable auth start) as H0 by by apply (nr_new auth).
  assert (net_reachable auth (login_net "r1" 10 start)) as H1.
  { apply login_reachable; [done|]. by apply fresh_run_dec; vm_compute. }
  assert (net_reachable auth (login_net "r2" 11 (login_net "r1" 10 start))) as H2.
  { apply login_reachable; [done|]. by apply fresh_run_dec; vm_compute. }
  unfold s4. set (s2 := login_net _ _ _) in *.
  assert (is_Some (hub_heap (n_hub s2) !! 0)) as [c0 Hc0] by (vm_compute; eauto).
  eapply proxy_reachable; [eapply proxy_reachable; [done|exact Hc0|vm_compute; reflexivity]| |vm_compute; reflexivity].
  vm_compute. reflexivity.
Qed.

Definition crlf : string := String (Ascii.ascii_of_nat 13) (String (Ascii.ascii_of_nat 10) EmptyString).
Definition head : bytes := to_bytes ("GET / HTTP/1.1" +:+ crlf +:+ "Host: A.com:80" +:+ crlf +:+ crlf).
Definition webroute : VhostRoute := mkVhostRoute "r1:web" "web" 0.

(** The user of [a.com] gets connection 77 of [r1], the visitor of [db] connection
    88 of [r2]. *)
Lemma http_user_joined_witness :
  ∃ (s' : Net) run msg, rtc (net_step auth) s4 s' ∧
    last (hub_wire (n_hub s')) = Some (77, StartWorkConn (mkStartWorkConnMsg "web" "u" "s" "")) ∧
    joined auth s' 5 77 "r1:web" "web" run msg.
Proof.
  assert ((http_conn env 5 (serves 0 77 "r1") (fun _ => mkWriter [] None) [Ok head] "u" "s" (n_hub s4)).2
          = Ok (webroute, 77, mkWriter head None)) as E by (vm_compute; reflexivity).
  apply ok_pair in E.
  destruct (http_user_joined auth s4 env 5 (serves 0 77 "r1") (fun _ => mkWriter [] None) [Ok head] "u" "s" _
    webroute 77 (mkWriter head None) s4_reachable ltac:(split; vm_compute; reflexivity)
    (serves_others s4 0 77 "r1" ltac:(vm_compute; reflexivity) ltac:(vm_compute; reflexivity)) E)
    as (s' & hd & host & rs & run & msg & Hh & Hrtc & _ & _ & _ & _ & Hw & _ & Hj).
  exists s', run, msg. rewrite Hh. exact (conj Hrtc (conj Hw Hj)).
Defined.

Definition visit : StcpVisitorConnMsg := mkStcpVisitorConnMsg "db" (sign "s3" "5") 5.
Lemma stcp_visitor_joined_witness :
  ∃ (s' : Net) info run msg, get_stcp_info (hub_pm (n_hub s4)) "db" = Some info ∧
    joined auth s' 6 88 (proxy_key_of (si_run_id info) "db") "db" run msg.
Proof.
  assert ((handle_stcp_visitor_conn env 6 (serves 1 88 "r2") visit "v" (n_hub s4)).2 = Ok 88) as E
    by (vm_compute; reflexivity).
  apply ok_pair in E.
  destruct (stcp_visitor_joined auth s4 env 6 (serves 1 88 "r2") visit "v" _ 88 s4_reachable
    ltac:(split; vm_compute; reflexivity)
    (serves_others s4 1 88 "r2" ltac:(vm_compute; reflexivity) ltac:(vm_compute; reflexivity)) E)
    as (s' & info & run & msg & _ & _ & Hi & _ & _ & _ & Hj).
  exists s', info, run, msg. exact (conj Hi Hj).
Defined.

(** A state in which the user of [a.com] has its connection. *)
Definition s7 : Net :=
  let s5 := n_task ("r1:web", "web", 0)%string s4 in
  let s6 := n_ask 5 ("r1:web", "web", 0)%string
              (n_set (send_request 5 "web" 0 (Error.Transport "x") (n_hub s5)).1 s5) in
  n_arrive 77 (mkNewWorkConnMsg "r1" "") (n_set (handle_new_work_conn auth 77 (mkNewWorkConnMsg "r1" "") (n_hub s6)).1 s6).
Definition s8 : Net :=
  n_set ((_ ← upd_control 0 (c_set_reqs []);
          handle_work_conn_request env 0 10 (mkWorkConnRequest "web" 5)) (n_hub s7)).1 s7.

Lemma s7_reachable : net_reachable auth s7.
Proof.
  eapply nr_step; [eapply nr_step; [eapply nr_step; [exact s4_reachable|]|]|].
  - apply nt_pick. eapply (asks_http _ _ "a.com" [webroute]); [vm_compute; reflexivity|apply elem_of_cons; by left|done].
  - apply (nt_request auth); [split; vm_compute; reflexivity|apply elem_of_cons; by left].
  - apply nt_work_conn. vm_compute. reflexivity.
Qed.

Lemma s8_reachable : net_reachable auth s8.
Proof.
  eapply nr_step; [exact s7_reachable|].
  assert ((fun c => (c_work_conn_reqs c, last (c_idle_work_conns c))) <$> hub_heap (n_hub s7) !! 0
          = Some ([mkWorkConnRequest "web" 5], Some 77)) as (c & Hc & [= Hq Hl])%fmap_Some by (vm_compute; reflexivity).
  apply (nt_idle auth s7 0 c (mkWorkConnRequest "web" 5) [] 77 env 10 Hc); [vm_compute; reflexivity|done|done].
Qed.

Lemma users_reach_their_client_witness :
  hub_replies (n_hub s8) !! 5 = Some (Delivered 77) ∧
  ∃ msg, n_from s8 !! 77 = Some msg ∧ auth_verify_new_work_conn auth msg = Ok tt.
Proof.
  assert (hub_replies (n_hub s8) !! 5 = Some (Delivered 77)) as Hd by (vm_compute; reflexivity).
  destruct (users_reach_their_client auth s8 5 77 s8_reachable Hd) as (_ & _ & _ & _ & _ & msg & _ & _ & _ & Hm & _ & Hv & _).
  exact (conj Hd (ex_intro _ msg (conj Hm Hv))).
Defined.

Lemma pools_apart_witness :
  ∃ c1 c2, hub_heap (n_hub s7) !! 0 = Some c1 ∧ hub_heap (n_hub s7) !! 1 = Some c2 ∧
    c_idle_work_conns c1 = [77] ∧ c_idle_work_conns c1 ## c_idle_work_conns c2.
Proof.
  assert (c_idle_work_conns <$> hub_heap (n_hub s7) !! 0 = Some [77]) as (c1 & Hc1 & Hi)%fmap_Some
    by (vm_compute; reflexivity).
  assert (c_idle_work_conns <$> hub_heap (n_hub s7) !! 1 = Some []) as (c2 & Hc2 & _)%fmap_Some
    by (vm_compute; reflexivity).
  exists c1, c2. refine (conj Hc1 (conj Hc2 (conj (eq_sym Hi) _))).
  exact (proj1 (proj2 (pools_apart auth s7 s7_reachable) 0 1 c1 c2 Hc1 Hc2 ltac:(discriminate))).
Defined.
End ToyNetwork.
