(* ===== verification/ProxyKinds.v ===== *)
(** * The trait [Proxy] and its implementations (crates/arp-server/src/proxy/)

    What the trait asks of an implementation, as a class with an instance for
    each type that implements it, and the dispatch over them.  [close] is
    [close_proxy] of ProxyManager. *)
From S2P Require Import Prelude RustString Errors Protocol Config Auth Framing UdpTunnel Resource VhostParse Vhost TcpGroup.
From S2P Require Import ProxyManager Hub Control Server TcpConn UserConn Routing.
Local Open Scope Z_scope.

(** What the sockets of a proxy see: its listener and its UDP socket. *)
Record Traffic := mkTraffic { tr_accepts : list AcceptEvent; tr_packets : list UdpEvent }.

(** [run] gives [None] while it goes on. *)
Class ProxyTrait (P : Type) := {
  proxy_name : P → string;
  proxy_type : P → string;
  proxy_run : Traffic → P → option (Result unit);
}.

#[global] Instance TcpProxy_trait : ProxyTrait TcpProxy := {|
  proxy_name := tp_name;
  proxy_type := fun _ => "tcp"%string;
  proxy_run := fun t p => (tcp_run (tp_name p) true (tr_accepts t)).2;
|}.

#[global] Instance UdpProxy_trait : ProxyTrait UdpProxy := {|
  proxy_name := ud_name;
  proxy_type := fun _ => "udp"%string;
  proxy_run := fun t p => if (udp_run (tr_packets t)).2 then Some (Ok tt) else None;
|}.

(** The types whose listeners are elsewhere: only a name or a route key. *)
Record HttpProxy := mkHttpProxy { hp_route_key : string }.
Record HttpsProxy := mkHttpsProxy { hs_route_key : string }.
Record GroupedMemberProxy := mkGroupedMemberProxy { gm_name : string; gm_grouped : Z; gm_backend_id : string }.
Record StcpServerProxy := mkStcpServerProxy { ss_name : string }.
Record XtcpProxy := mkXtcpProxy { xp_name : string; xp_relay_proxy : option TcpProxy }.

#[global] Instance HttpProxy_trait : ProxyTrait HttpProxy := {|
  proxy_name := hp_route_key; proxy_type := fun _ => "http"%string; proxy_run := fun _ _ => Some (Ok tt) |}.
#[global] Instance HttpsProxy_trait : ProxyTrait HttpsProxy := {|
  proxy_name := hs_route_key; proxy_type := fun _ => "https"%string; proxy_run := fun _ _ => Some (Ok tt) |}.
#[global] Instance GroupedMemberProxy_trait : ProxyTrait GroupedMemberProxy := {|
  proxy_name := gm_name; proxy_type := fun _ => "tcp"%string; proxy_run := fun _ _ => Some (Ok tt) |}.
#[global] Instance StcpServerProxy_trait : ProxyTrait StcpServerProxy := {|
  proxy_name := ss_name; proxy_type := fun _ => "stcp"%string; proxy_run := fun _ _ => Some (Ok tt) |}.
#[global] Instance XtcpProxy_trait : ProxyTrait XtcpProxy := {|
  proxy_name := xp_name;
  proxy_type := fun _ => "xtcp"%string;
  proxy_run := fun t p =>
    match xp_relay_proxy p with
    | Some relay => match proxy_run t relay with
                    | None => None
                    | Some (Err e) => Some (Err e)
                    | Some (Ok _) => Some (Ok tt)
                    end
    | None => Some (Ok tt)
    end;
|}.

(** [dyn Proxy]. *)
Inductive dyn_proxy := Dyn (P : Type) (T : ProxyTrait P) (p : P).
#[global] Arguments Dyn {P T} p.

Definition as_dyn (p : Proxy) : dyn_proxy :=
  match p with
  | PTcp t => Dyn t
  | PUdp u => Dyn u
  | PHttp key => Dyn (mkHttpProxy key)
  | PHttps key => Dyn (mkHttpsProxy key)
  | PGroupMember name grouped id => Dyn (mkGroupedMemberProxy name grouped id)
  | PStcp name => Dyn (mkStcpServerProxy name)
  | PXtcp name relay => Dyn (mkXtcpProxy name relay)
  end.

#[global] Instance Proxy_trait : ProxyTrait Proxy := {|
  proxy_name := fun p => match as_dyn p with @Dyn _ _ q => proxy_name q end;
  proxy_type := fun p => match as_dyn p with @Dyn _ _ q => proxy_type q end;
  proxy_run := fun t p => match as_dyn p with @Dyn _ _ q => proxy_run t q end;
|}.

Section Kinds.
Context `{Json} `{UnicodeLower} `{DashIter} {R : Type} `{PortAllocator R} `{!PortAllocatorSpec R}.

Lemma group_member_is binds key msg tx gr gk (s s' : ProxyManager * R) p addr :
  register_group_member binds key msg tx gr gk s = (s', Ok (p, addr)) →
  ∃ a, p = PGroupMember (np_proxy_name msg) a key.
Proof.
  unfold register_group_member. do 5 (intros (? & ? & _ & E)%st_bind_Ok; revert E). intros [= _ <- _]. eauto.
Qed.

Lemma stcp_is run msg tx (s s' : ProxyManager * R) p addr :
  register_stcp run msg tx s = (s', Ok (p, addr)) → p = PStcp (np_proxy_name msg).
Proof. unfold register_stcp. do 4 (intros (? & ? & _ & E)%st_bind_Ok; revert E). by intros [= _ <- _]. Qed.

Lemma xtcp_is binds run msg tx (s s' : ProxyManager * R) p addr :
  register_xtcp binds run msg tx s = (s', Ok (p, addr)) → ∃ relay, p = PXtcp (np_proxy_name msg) relay.
Proof. unfold register_xtcp. do 5 (intros (? & ? & _ & E)%st_bind_Ok; revert E). intros [= _ <- _]. eauto. Qed.

(** What the trait reports of the proxy that was made for a message: the type of
    the message, but plain UDP for secure UDP, and its name, but the route key
    for a virtual host. *)
Theorem created_proxy_reports binds run msg tx (s s' : ProxyManager * R) p addr :
  create_proxy binds run msg tx s = (s', Ok (p, addr)) →
  (proxy_type p = np_proxy_type msg ∨ np_proxy_type msg = "sudp"%string ∧ proxy_type p = "udp"%string) ∧
  (proxy_name p = np_proxy_name msg ∨
   (np_proxy_type msg = "http"%string ∨ np_proxy_type msg = "https"%string) ∧
   proxy_name p = proxy_key_of run (np_proxy_name msg)).
Proof.
  unfold create_proxy. cbv zeta.
  case_bool_decide as H1'; [rewrite H1'|].
  { destruct (parse_lb_group msg) as [gr gk]. destruct (is_empty gr).
    - intros (t & s1 & (r & E%tcp_proxy_new_asks)%on_rc_Ok & [= _ <- _])%st_bind_Ok. simpl. destruct E as [-> _]. auto.
    - intros [a ->]%group_member_is. auto. }
  case_bool_decide as H2'; [rewrite H2'; intros ->%stcp_is; auto|].
  case_bool_decide as H3'; [rewrite H3'; intros (a & s1 & _ & [= _ <- _])%st_bind_Ok; auto|].
  case_bool_decide as H4'; [rewrite H4'; intros (a & s1 & _ & [= _ <- _])%st_bind_Ok; auto|].
  destruct (bool_decide (_ = "udp") || _) eqn:Hu.
  { intros (t & s1 & (r & E%udp_proxy_new_asks)%on_rc_Ok & [= _ <- _])%st_bind_Ok. simpl. destruct E as [-> _].
    apply orb_true_iff in Hu as [Hu%bool_decide_eq_true|Hu%bool_decide_eq_true]; rewrite Hu; auto. }
  clear Hu. case_bool_decide as H5'; [rewrite H5'; intros [relay ->]%xtcp_is; auto|done].
Qed.
End Kinds.
