(* ===== verification/ProxyLife.v ===== *)
(** * The life of a proxy's listener (crates/arp-server/src/proxy/tcp.rs and udp.rs)

    [run] and [close] of a proxy are two tasks that share a broadcast channel
    for the shutdown, a watch channel for its acknowledgement, the slot the
    listener is taken from and the lock of the tunnel.  Their steps, with the
    time in milliseconds, as a machine.  Time passes only when no task can go
    on.  ProxyManager takes [close] as one step; here is what is inside it. *)
From S2P Require Import Prelude Errors TcpGroup.
Local Open Scope Z_scope.

(** ** [TcpProxy] *)

(** The task of [run]. *)
Inductive run_pc :=
| Spawned                                   (* the listener is in its slot *)
| Taken                                     (* taken; not yet subscribed to the shutdown *)
| Looping (backoff : Z) (sleep : option Z) (notice : bool)
                                            (* sleeping until; the shutdown waits to be received *)
| Left                                      (* out of the loop *)
| Notified                                  (* [close_done_tx.send(true)] *)
| Returned.                                 (* the listener is dropped *)

(** The task of [close]. *)
Inductive close_pc :=
| Serving                                   (* not called *)
| Signalled                                 (* [shutdown_tx.send(())] *)
| Waiting (deadline : Z)                    (* for the acknowledgement *)
| Releasing
| Closed.

(** The task that sets up the mux tunnel: it holds the lock of the slot while it
    waits for its work connection, at most until [deadline]; [queued] while its
    request is still in the channel of the control. *)
Record setup := mkSetup { su_deadline : Z; su_queued : bool }.

Record TcpLife := mkLife {
  l_run : run_pc; l_close : close_pc; l_done : bool; l_setup : option setup;
  l_port : bool;                            (* the port is held in the controller *)
  l_accepted : nat;                         (* the users' connections so far *)
  l_timed_out : bool;
  l_clock : Z;
}.

Definition CLOSE_TIMEOUT_MS : Z := 3000.
Definition WORK_CONN_TIMEOUT_MS : Z := 10000.

Definition life_new : TcpLife := mkLife Spawned Serving false None true 0 false 0.

Definition set_run (p : run_pc) (s : TcpLife) : TcpLife :=
  mkLife p (l_close s) (l_done s) (l_setup s) (l_port s) (l_accepted s) (l_timed_out s) (l_clock s).
Definition set_close (c : close_pc) (s : TcpLife) : TcpLife :=
  mkLife (l_run s) c (l_done s) (l_setup s) (l_port s) (l_accepted s) (l_timed_out s) (l_clock s).
Definition set_setup (u : option setup) (s : TcpLife) : TcpLife :=
  mkLife (l_run s) (l_close s) (l_done s) u (l_port s) (l_accepted s) (l_timed_out s) (l_clock s).

Inductive life_event :=
| RunTake | RunSubscribe | AcceptOk | AcceptTransient | AcceptPermanent | SleepOver | SeeShutdown
| NotifyDone | RunReturn
| CloseSend | CloseLock | CloseSeesDone | CloseTimesOut | Release
| SetupStart | ControlServes | SetupEnd
| Tick.

#[global] Instance life_event_eq_dec : EqDecision life_event.
Proof. solve_decision. Defined.

(** [run]. *)
Definition run_step (ev : life_event) (s : TcpLife) : option TcpLife :=
  match ev, l_run s with
  | RunTake, Spawned => Some (set_run Taken s)
  | RunSubscribe, Taken => Some (set_run (Looping 0 None false) s)
  | AcceptOk, Looping _ None n =>
      Some (mkLife (Looping 0 None n) (l_close s) (l_done s) (l_setup s) (l_port s) (S (l_accepted s))
              (l_timed_out s) (l_clock s))
  | AcceptTransient, Looping b None n =>
      Some (set_run (Looping (next_backoff b) (Some (l_clock s + next_backoff b)) n) s)
  | AcceptPermanent, Looping _ None _ => Some (set_run Left s)
  | SleepOver, Looping b (Some w) n => if w <=? l_clock s then Some (set_run (Looping b None n) s) else None
  | SeeShutdown, Looping _ None true => Some (set_run Left s)
  | NotifyDone, Left =>
      Some (mkLife Notified (l_close s) true (l_setup s) (l_port s) (l_accepted s) (l_timed_out s) (l_clock s))
  | RunReturn, Notified => Some (set_run Returned s)
  | _, _ => None
  end.

(** A broadcast reaches the receivers there are. *)
Definition notify (p : run_pc) : run_pc :=
  match p with Looping b w _ => Looping b w true | _ => p end.

(** [close], on the task of the control that serves the client.  The message of
    [timeout] is looked at only when the inner future is not ready. *)
Definition close_step (ev : life_event) (s : TcpLife) : option TcpLife :=
  match ev, l_close s with
  | CloseSend, Serving => Some (set_close Signalled (set_run (notify (l_run s)) s))
  | CloseLock, Signalled =>
      match l_setup s with
      | Some _ => None
      | None => Some (set_close (if l_done s then Releasing else Waiting (l_clock s + CLOSE_TIMEOUT_MS)) s)
      end
  | CloseSeesDone, Waiting _ => if l_done s then Some (set_close Releasing s) else None
  | CloseTimesOut, Waiting d =>
      if negb (l_done s) && (d <=? l_clock s)
      then Some (mkLife (l_run s) Releasing (l_done s) (l_setup s) (l_port s) (l_accepted s) true (l_clock s))
      else None
  | Release, Releasing =>
      Some (mkLife (l_run s) Closed (l_done s) (l_setup s) false (l_accepted s) (l_timed_out s) (l_clock s))
  | _, _ => None
  end.

(** [get_or_create_mux_tunnel] of a user's connection: the lock, the request to
    the control, which takes it only at its [select!], and the end of it: the
    work connection of a request that was announced, or the timeout. *)
Definition setup_step (ev : life_event) (s : TcpLife) : option TcpLife :=
  match ev, l_setup s with
  | SetupStart, None =>
      if (0 <? Z.of_nat (l_accepted s)) then Some (set_setup (Some (mkSetup (l_clock s + WORK_CONN_TIMEOUT_MS) true)) s) else None
  | ControlServes, Some u =>
      match l_close s with Serving => Some (set_setup (Some (mkSetup (su_deadline u) false)) s) | _ => None end
  | SetupEnd, Some u => if negb (su_queued u) || (su_deadline u <=? l_clock s) then Some (set_setup None s) else None
  | _, _ => None
  end.

(** No task can go on at this time. *)
Definition at_rest (s : TcpLife) : bool :=
  match l_run s with
  | Looping _ (Some w) _ => l_clock s <? w
  | Looping _ None n => negb n
  | Returned => true
  | _ => false
  end &&
  match l_close s with
  | Serving | Closed => true
  | Signalled => match l_setup s with Some _ => true | None => false end
  | Waiting d => (l_clock s <? d) && negb (l_done s)
  | Releasing => false
  end &&
  match l_setup s with Some u => l_clock s <? su_deadline u | None => true end.

Definition tick (s : TcpLife) : option TcpLife :=
  if at_rest s
  then Some (mkLife (l_run s) (l_close s) (l_done s) (l_setup s) (l_port s) (l_accepted s) (l_timed_out s) (l_clock s + 1))
  else None.

Definition life_step (ev : life_event) (s : TcpLife) : option TcpLife :=
  match ev with
  | CloseSend | CloseLock | CloseSeesDone | CloseTimesOut | Release => close_step ev s
  | SetupStart | ControlServes | SetupEnd => setup_step ev s
  | Tick => tick s
  | _ => run_step ev s
  end.

Fixpoint life_run (evs : list life_event) (s : TcpLife) : option TcpLife :=
  match evs with
  | [] => Some s
  | ev :: rest => s' ← life_step ev s; life_run rest s'
  end.

(** The kernel still has the port bound. *)
Definition bound (s : TcpLife) : bool := match l_run s with Returned => false | _ => true end.

(** ** Invariants *)

Lemma next_backoff_bound b : 0 ≤ b → 0 ≤ next_backoff b ≤ 1000.
Proof. unfold next_backoff. intros Hb. destruct (b =? 0); lia. Qed.

(** Destruct an event and the places of the tasks. *)
Ltac life_cases Hs :=
  unfold life_step, run_step, close_step, setup_step, tick in Hs;
  repeat (case_match; simplify_eq/=); bool_to_prop; simplify_eq/=.

Record life_ok (s : TcpLife) : Prop := {
  lo_done : l_done s = true ↔ l_run s = Notified ∨ l_run s = Returned;
  lo_sleep : ∀ b w n, l_run s = Looping b w n → 0 ≤ b ∧ ∀ t, w = Some t → t ≤ l_clock s + 1000;
  lo_close : l_close s = Serving → l_timed_out s = false ∧ l_port s = true ∧ ∀ b w n, l_run s = Looping b w n → n = false;
}.

Lemma life_step_done ev s s' :
  (l_done s = true ↔ l_run s = Notified ∨ l_run s = Returned) → life_step ev s = Some s' →
  (l_done s' = true ↔ l_run s' = Notified ∨ l_run s' = Returned).
Proof.
  intros Hd E. destruct s as [run close done setup port acc out clock]. simpl in *.
  destruct ev; life_cases E; try exact Hd; try (destruct run); simpl in *; intuition congruence.
Qed.

Lemma life_step_sleep ev s s' :
  (∀ b w n, l_run s = Looping b w n → 0 ≤ b ∧ ∀ t, w = Some t → t ≤ l_clock s + 1000) → life_step ev s = Some s' →
  ∀ b w n, l_run s' = Looping b w n → 0 ≤ b ∧ ∀ t, w = Some t → t ≤ l_clock s' + 1000.
Proof.
  intros Hs E b w n Hr. destruct s as [run close done setup port acc out clock]. simpl in *.
  destruct ev; life_cases E; try (by eapply Hs); try (destruct run; simplify_eq/=);
    try (destruct (Hs _ _ _ eq_refl) as [Hb Hw]; pose proof (next_backoff_bound _ Hb));
    (split; [lia|]); intros t Ht; simplify_eq/=; try specialize (Hw _ eq_refl); lia.
Qed.

Lemma life_step_close ev s s' :
  (l_close s = Serving → l_timed_out s = false ∧ l_port s = true ∧ ∀ b w n, l_run s = Looping b w n → n = false) →
  life_step ev s = Some s' →
  l_close s' = Serving → l_timed_out s' = false ∧ l_port s' = true ∧ ∀ b w n, l_run s' = Looping b w n → n = false.
Proof.
  intros Hc E Hcl. destruct s as [run close done setup port acc out clock]. simpl in *.
  destruct ev; life_cases E; try done; destruct (Hc eq_refl) as (Ho & Hp & Hn); (split; [done|]); (split; [done|]);
    intros b0 w0 n0 Hr; simplify_eq/=; try done; by eapply Hn.
Qed.

Lemma life_step_ok ev s s' : life_ok s → life_step ev s = Some s' → life_ok s'.
Proof.
  intros [Hd Hs Hc] E. split; [by eapply life_step_done|by eapply life_step_sleep|by eapply life_step_close].
Qed.

(** Induction along a run. *)
Lemma life_run_ind (P : TcpLife → Prop) (ok : life_event → Prop) evs s s' :
  (∀ ev s1 s2, ok ev → P s1 → life_step ev s1 = Some s2 → P s2) →
  P s → Forall ok evs → life_run evs s = Some s' → P s'.
Proof.
  intros Hstep HP Hok. revert s HP. induction Hok as [|ev evs Hev _ IH]; intros s HP E; [by injection E as <-|].
  cbn [life_run] in E. apply bind_Some in E as (s1 & E1 & E). apply (IH s1); [by eapply Hstep|done].
Qed.

Lemma life_reachable_ok evs s : life_run evs life_new = Some s → life_ok s.
Proof.
  apply (life_run_ind life_ok (fun _ => True)); [intros ev s1 s2 _; apply life_step_ok| |by apply Forall_true].
  split; simpl; intuition congruence.
Qed.

(** Once the shutdown was sent at [sent] to a listener that was subscribed. *)
Definition stopping (sent : Z) (s : TcpLife) : Prop :=
  l_timed_out s = false ∧ sent ≤ l_clock s ∧
  match l_close s with
  | Serving => False
  | Signalled => True
  | Waiting d => sent + CLOSE_TIMEOUT_MS ≤ d
  | Releasing | Closed => l_done s = true
  end ∧
  match l_run s with
  | Looping _ w n => n = true ∧ l_done s = false ∧ l_clock s ≤ sent + 1000 ∧ ∀ t, w = Some t → t ≤ sent + 1000
  | Left => l_done s = false ∧ l_clock s ≤ sent + 1000
  | Notified => l_done s = true ∧ l_clock s ≤ sent + 1000
  | Returned => l_done s = true
  | _ => False
  end.

Lemma stopping_step sent ev s s' :
  ev ≠ AcceptTransient → stopping sent s → life_step ev s = Some s' → stopping sent s'.
Proof.
  intros Hev (Ho & Hsent & Hc & Hr) E. destruct s as [run close done setup port acc out clock]. simpl in *.
  unfold stopping, CLOSE_TIMEOUT_MS in *.
  destruct ev; try done; life_cases E; try (destruct run; simplify_eq/=; try done);
    try match goal with Hr : _ = true ∧ _ = false ∧ _ |- _ => destruct Hr as (? & Hd & Hcl & Hw) end;
    try match goal with Hr : _ = _ ∧ _ ≤ _ |- _ => destruct Hr as (Hd & Hcl) end; simplify_eq/=;
    unfold at_rest, CLOSE_TIMEOUT_MS in *; simpl in *; bool_to_prop; split_and!; try done; try lia;
    destruct sleep as [t|]; try done; specialize (Hw t eq_refl); bool_to_prop; lia.
Qed.

(** The step that sends it. *)
Lemma stopping_sent s s1 b w :
  life_ok s → l_run s = Looping b w false → l_close s = Serving → life_step CloseSend s = Some s1 →
  stopping (l_clock s) s1.
Proof.
  intros Hok Hr Hc E1. destruct (lo_close _ Hok Hc) as (Ho & _). destruct (lo_sleep _ Hok b w false Hr) as [_ Hw].
  pose proof (lo_done _ Hok) as Hd. rewrite Hr in Hd. cbn [life_step close_step] in E1. rewrite Hc in E1.
  injection E1 as <-. unfold stopping. simpl. rewrite Hr. simpl. split_and!; try done; try lia.
  destruct (l_done s); intuition congruence.
Qed.

(** *** Closing comes to an end *)

(** What users do.  The rest is the steps of [run], of [close] and of a setup under
    way, and the clock.  (The lock is given out in the order it was asked for, so a
    setup that starts after [close] does not hold it up.) *)
Definition users_event (ev : life_event) : bool :=
  match ev with AcceptOk | AcceptTransient | SetupStart => true | _ => false end.

Definition finished (s : TcpLife) : Prop := l_run s = Returned ∧ l_close s = Closed.

Lemma finished_or_not s : finished s ∨ ¬ finished s.
Proof. unfold finished. destruct (l_run s), (l_close s); (by left) || (right; naive_solver). Qed.

(** The steps that are left, at most: those of the tasks, and the time until the
    last sleep or timeout. *)
Definition tasks_left (s : TcpLife) : Z :=
  match l_run s with
  | Looping _ (Some _) _ => 5 | Looping _ None _ => 4 | Left => 3 | Notified => 2 | _ => 0
  end +
  match l_close s with Serving => 4 | Signalled => 3 | Waiting _ => 2 | Releasing => 1 | Closed => 0 end +
  match l_setup s with Some u => if su_queued u then 2 else 1 | None => 0 end.
Definition sleep_left (s : TcpLife) : Z :=
  match l_run s with Looping _ (Some w) _ => Z.max 0 (w - l_clock s) | _ => 0 end.
Definition setup_left (s : TcpLife) : Z :=
  match l_setup s with Some u => Z.max 0 (su_deadline u - l_clock s) | None => 0 end.
Definition work_left (s : TcpLife) : Z := tasks_left s + Z.max (sleep_left s) (setup_left s).

Lemma work_left_nonneg s : 0 ≤ work_left s.
Proof.
  unfold work_left, tasks_left, sleep_left, setup_left.
  destruct (l_run s) as [| |b [w|] n| | |], (l_close s), (l_setup s) as [[d []]|]; simpl; lia.
Qed.

(** A step of the tasks leaves less to do. *)
Lemma work_step sent ev s s' :
  users_event ev = false → stopping sent s → ¬ finished s → life_step ev s = Some s' → work_left s' < work_left s.
Proof.
  intros Hev (_ & _ & Hc & Hr) Hf E. destruct s as [run close done setup port acc out clock].
  unfold finished in Hf. simpl in *. unfold work_left, tasks_left, sleep_left, setup_left.
  destruct ev; try done; life_cases E; try (destruct run; simplify_eq/=; try done); unfold at_rest in *; simpl in *;
    repeat (case_match; simplify_eq/=); bool_to_prop; intuition (try congruence); try lia.
Qed.

(** The event goes through. *)
Ltac life_goes ev := exists ev; eexists; split; [reflexivity|];
  unfold life_step, run_step, close_step, setup_step, tick, at_rest; simpl; rewrite ?Z.ltb_antisym;
  repeat match goal with E : (_ <=? _) = _ |- _ => rewrite E end; reflexivity.

(** And until closing has come to its end some task can go on, or time passes. *)
Lemma work_progress sent s :
  stopping sent s → ¬ finished s → ∃ ev s', users_event ev = false ∧ life_step ev s = Some s'.
Proof.
  intros (_ & _ & Hc & Hr) Hf. destruct s as [run close done setup port acc out clock]. unfold finished in Hf. simpl in *.
  assert (∀ u, setup = Some u → (negb (su_queued u) || (su_deadline u <=? clock)) = true →
          ∃ ev s', users_event ev = false ∧
            life_step ev (mkLife run close done setup port acc out clock) = Some s') as Hend.
  { intros u -> E. exists SetupEnd. eexists. split; [done|]. simpl. by rewrite E. }
  destruct setup as [u|]; [destruct (negb (su_queued u) || (su_deadline u <=? clock)) eqn:Eu; [by eapply Hend|];
    apply orb_false_iff in Eu as [_ Eu]|]; clear Hend;
  (destruct run as [| |b [w|] n| | |]; try done;
    [destruct Hr as (-> & -> & _); destruct (w <=? clock) eqn:Ew; [life_goes SleepOver|]
    |destruct Hr as (-> & -> & _); life_goes SeeShutdown|life_goes NotifyDone|life_goes RunReturn|subst done]);
  (destruct close as [| |d| |]; try done; try (by destruct Hf); try life_goes Release;
    try life_goes CloseSeesDone; try life_goes CloseLock; try life_goes Tick);
  destruct (d <=? clock) eqn:Ed; solve [life_goes CloseTimesOut|life_goes Tick].
Qed.

Lemma finished_step ev s s' : finished s → life_step ev s = Some s' → finished s'.
Proof.
  intros [Hr Hc] E. destruct s as [run close done setup port acc out clock]. simpl in *; subst.
  unfold finished. destruct ev; life_cases E; by split.
Qed.

Lemma closed_released ev s s' :
  (l_close s = Closed → l_port s = false) → life_step ev s = Some s' → l_close s' = Closed → l_port s' = false.
Proof.
  intros Hp E. destruct s as [run close done setup port acc out clock]. simpl in *.
  destruct ev; life_cases E; intros ?; simplify_eq/=; auto.
Qed.

(** So after at most [work_left] steps of the tasks closing has ended, *)
Lemma work_run sent evs s s' :
  stopping sent s → Forall (fun ev => users_event ev = false) evs → life_run evs s = Some s' →
  finished s' ∨ Z.of_nat (length evs) + work_left s' ≤ work_left s.
Proof.
  intros Hs Hevs. revert s Hs. induction Hevs as [|ev evs Hev Hevs IH]; intros s Hs E.
  { injection E as <-. right. simpl. lia. }
  cbn [life_run] in E. apply bind_Some in E as (s1 & E1 & E).
  destruct (finished_or_not s) as [Hf|Hf].
  - left. apply (life_run_ind finished (fun _ => True) evs s1); [intros ? ? ? _; apply finished_step| |by apply Forall_true|done].
    by eapply finished_step.
  - destruct (IH s1) as [?|Hw]; [eapply stopping_step; [|done..]; by destruct ev|done|by left|].
    right. pose proof (work_step sent ev s s1 Hev Hs Hf E1). simpl length. lia.
Qed.

(** and it does end. *)
Lemma work_ends sent s :
  stopping sent s → ∃ evs s', Forall (fun ev => users_event ev = false) evs ∧ life_run evs s = Some s' ∧ finished s'.
Proof.
  remember (Z.to_nat (work_left s)) as k eqn:Hk. revert s Hk.
  induction (lt_wf k) as [k _ IH]. intros s Hk Hs.
  destruct (finished_or_not s) as [Hf|Hf].
  { by exists [], s. }
  destruct (work_progress sent s Hs Hf) as (ev & s1 & Hev & E1).
  assert (stopping sent s1) as Hs1 by (eapply stopping_step; [|done..]; by destruct ev).
  pose proof (work_step sent ev s s1 Hev Hs Hf E1) as Hlt. pose proof (work_left_nonneg s1).
  destruct (IH (Z.to_nat (work_left s1)) ltac:(lia) s1 eq_refl Hs1) as (evs & s' & Hevs & E & Hfin).
  exists (ev :: evs), s'. split; [by constructor|]. split; [cbn [life_run]; by rewrite E1|done].
Qed.

(** C20: closing a TCP proxy whose listener task had subscribed, whatever the tasks
    do in whatever order, as long as no accept fails with a transient error
    meanwhile: the listener is out of its loop within a second, also when the
    shutdown reaches it in the middle of its backoff; [close] gets the
    acknowledgement and never runs into its timeout; when it has given the port
    back no user can be accepted any more.  And closing comes to its end: from
    wherever it is the tasks can take it there, and no order in which they take
    their steps keeps it from it for more than [work_left] of them. *)
Theorem close_stops_listener pre evs s s' b w :
  life_run pre life_new = Some s → l_run s = Looping b w false → l_close s = Serving →
  life_run (CloseSend :: evs) s = Some s' → Forall (fun ev => ev ≠ AcceptTransient) evs →
  l_timed_out s' = false ∧
  (l_run s' = Returned ∨ l_clock s' ≤ l_clock s + 1000) ∧
  (l_close s' = Releasing ∨ l_close s' = Closed → l_run s' = Notified ∨ l_run s' = Returned) ∧
  (l_close s' = Closed → l_port s' = false ∧ life_step AcceptOk s' = None) ∧
  (∃ more s'', Forall (fun ev => users_event ev = false) more ∧ life_run more s' = Some s'' ∧ finished s'') ∧
  ∀ more s'', Forall (fun ev => users_event ev = false) more → life_run more s' = Some s'' →
    work_left s' < Z.of_nat (length more) → finished s''.
Proof.
  intros Hpre Hr Hc E Hevs. pose proof (life_reachable_ok _ _ Hpre) as Hok.
  pose proof E as Hrun1. cbn [life_run] in E. apply bind_Some in E as (s1 & E1 & E).
  assert (stopping (l_clock s) s') as Hstop.
  { eapply life_run_ind; [intros ev s2 s3; apply stopping_step|by eapply stopping_sent|done..]. }
  assert (l_close s' = Closed → l_port s' = false) as Hport.
  { eapply (life_run_ind (fun s => l_close s = Closed → l_port s = false) (fun _ => True));
      [intros ? ? ? _; apply closed_released| |by apply Forall_true|exact Hrun1]. congruence. }
  pose proof Hstop as (Ho & _ & Hcl & Hrun). split; [done|]. split; [destruct (l_run s'); intuition|].
  assert (l_close s' = Releasing ∨ l_close s' = Closed → l_run s' = Notified ∨ l_run s' = Returned) as Hfin.
  { intros [Ec|Ec]; rewrite Ec in Hcl; destruct (l_run s') as [| |? ? ?| | |]; intuition congruence. }
  split; [done|]. split.
  { intros Ec. split; [by apply Hport|]. unfold life_step, run_step. destruct Hfin as [-> | ->]; by auto. }
  split; [by eapply work_ends|]. intros more s'' Hmore Em Hlen.
  destruct (work_run _ _ _ _ Hstop Hmore Em) as [?|?]; [done|]. pose proof (work_left_nonneg s''). lia.
Qed.

(** The shutdown is sent before the task of [run] has subscribed. *)
Definition missed (s : TcpLife) : Prop :=
  l_done s = false ∧ l_close s ≠ Serving ∧
  match l_run s with Spawned | Taken => True | Looping _ _ n => n = false | _ => False end ∧
  (l_close s = Closed → l_timed_out s = true ∧ l_port s = false) ∧ (l_close s = Releasing → l_timed_out s = true).

Lemma missed_step ev s s' : ev ≠ AcceptPermanent → missed s → life_step ev s = Some s' → missed s'.
Proof.
  intros Hev (Hd & Hc & Hr & Hcl & Hre) E. destruct s as [run close done setup port acc out clock]. simpl in *.
  unfold missed. destruct ev; try done; life_cases E; try (destruct run; simplify_eq/=; try done);
    split_and!; simpl in *; try done; intuition.
Qed.

(** A shutdown that is sent before the task of [run] has subscribed is lost:
    whatever happens then, short of a permanent accept error, the listener is
    never told, goes on being bound, and once it is in its loop accepts users;
    [close] ends by its timeout and gives the port back all the same. *)
Theorem close_before_run_is_lost evs s s' :
  l_run s = Spawned ∨ l_run s = Taken → l_close s = Serving → l_done s = false →
  life_run (CloseSend :: evs) s = Some s' → Forall (fun ev => ev ≠ AcceptPermanent) evs →
  bound s' = true ∧ l_done s' = false ∧
  (∀ b w n, l_run s' = Looping b w n → n = false) ∧
  (∀ b n, l_run s' = Looping b None n → is_Some (life_step AcceptOk s')) ∧
  (l_close s' = Closed → l_timed_out s' = true ∧ l_port s' = false).
Proof.
  intros Hr Hc Hd E Hevs. cbn [life_run] in E. apply bind_Some in E as (s1 & E1 & E).
  assert (missed s1) as Hs1.
  { cbn [life_step close_step] in E1. rewrite Hc in E1. injection E1 as <-. unfold missed. simpl.
    split_and!; try done. by destruct Hr as [-> | ->]. }
  assert (missed s') as (Hd' & _ & Hr' & Hcl & _).
  { eapply life_run_ind; [|done..]. intros ev s2 s3. apply missed_step. }
  split_and!; try done.
  - unfold bound. by destruct (l_run s').
  - intros b w n En. by rewrite En in Hr'.
  - intros b n En. unfold life_step, run_step. rewrite En. eauto.
Qed.

(** Closing while the tunnel is being set up. *)
Definition stalled (d : Z) (s : TcpLife) : Prop :=
  l_clock s ≤ d ∧ l_close s = Signalled ∧ l_port s = true ∧ l_setup s = Some (mkSetup d true) ∨ d ≤ l_clock s.

Lemma stalled_step d ev s s' : stalled d s → life_step ev s = Some s' → stalled d s'.
Proof.
  intros [(Hk & Hc & Hp & Hs)|Hk] E; destruct s as [run close done setup port acc out clock]; simpl in *; subst;
    unfold stalled; destruct ev; life_cases E; try (by left); try (right; lia).
  destruct (decide (clock + 1 ≤ d)); [left|right; lia]. by split_and!.
Qed.

(** Closing a mux proxy while a user's connection sets up its tunnel, on the
    control connection that is to announce the request: the setup holds the
    lock that [close] needs, and the control, which is in [close], does not take
    the request from its channel, so neither goes on before the work connection
    of the setup times out; until then the client is not served. *)
Theorem close_stalls_control evs s s' d :
  l_close s = Serving → l_port s = true → l_setup s = Some (mkSetup d true) → l_clock s ≤ d →
  life_run (CloseSend :: evs) s = Some s' → l_clock s' < d →
  l_close s' = Signalled ∧ l_port s' = true ∧ life_step ControlServes s' = None ∧ life_step SetupEnd s' = None.
Proof.
  intros Hc Hp Hs Hk E Hlt. cbn [life_run] in E. apply bind_Some in E as (s1 & E1 & E).
  assert (stalled d s1) as Hs1.
  { cbn [life_step close_step] in E1. rewrite Hc in E1. injection E1 as <-. left. by split_and!. }
  assert (stalled d s') as [(_ & Hc' & Hp' & Hs')|?]; [..|lia].
  { eapply (life_run_ind (stalled d) (fun _ => True)); [|done|by apply Forall_true|done].
    intros ev s2 s3 _. apply stalled_step. }
  split_and!; try done; cbn [life_step setup_step]; rewrite Hs', ?Hc'; [done|].
  simpl. by rewrite (proj2 (Z.leb_gt _ _)).
Qed.

(** ** [UdpProxy] *)

Inductive udp_pc := UdpSpawned | UdpLooping (notice : bool) | UdpReturned.

(** The socket is shared by the proxy, the task of [run], which holds the proxy,
    and the tasks of the packets in flight. *)
Record UdpLife := mkUdpLife {
  u_run : udp_pc; u_close : close_pc; u_setup : option setup; u_packets : nat;
  u_registered : bool;                      (* the manager still has the proxy *)
  u_port : bool; u_clock : Z;
}.

Inductive udp_event :=
| UdpSubscribe | UdpReceive | UdpRecvError | UdpPacketDone | UdpSeeShutdown | UdpCloseSend | UdpCloseRelease
| UdpSetupStart | UdpControlServes | UdpSetupEnd | UdpTick.

Definition udp_bound (s : UdpLife) : bool :=
  u_registered s || match u_run s with UdpReturned => false | _ => true end || negb (u_packets s =? 0)%nat.

Definition u_set_run p (s : UdpLife) : UdpLife :=
  mkUdpLife p (u_close s) (u_setup s) (u_packets s) (u_registered s) (u_port s) (u_clock s).
Definition u_set_packets n (s : UdpLife) : UdpLife :=
  mkUdpLife (u_run s) (u_close s) (u_setup s) n (u_registered s) (u_port s) (u_clock s).
Definition u_set_setup u (s : UdpLife) : UdpLife :=
  mkUdpLife (u_run s) (u_close s) u (u_packets s) (u_registered s) (u_port s) (u_clock s).

(** [UdpProxy::close] waits for the lock of the tunnel and for nothing else. *)
Definition udp_step (ev : udp_event) (s : UdpLife) : option UdpLife :=
  match ev with
  | UdpSubscribe => match u_run s with UdpSpawned => Some (u_set_run (UdpLooping false) s) | _ => None end
  | UdpReceive => match u_run s with UdpLooping _ => Some (u_set_packets (S (u_packets s)) s) | _ => None end
  | UdpRecvError => match u_run s with UdpLooping _ => Some s | _ => None end
  | UdpPacketDone => match u_packets s with S n => Some (u_set_packets n s) | O => None end
  | UdpSeeShutdown => match u_run s with UdpLooping true => Some (u_set_run UdpReturned s) | _ => None end
  | UdpCloseSend =>
      match u_close s with
      | Serving =>
          let run := match u_run s with UdpLooping _ => UdpLooping true | p => p end in
          Some (mkUdpLife run Signalled (u_setup s) (u_packets s) (u_registered s) (u_port s) (u_clock s))
      | _ => None
      end
  | UdpCloseRelease =>
      match u_close s, u_setup s with
      | Signalled, None => Some (mkUdpLife (u_run s) Closed None (u_packets s) false false (u_clock s))
      | _, _ => None
      end
  | UdpSetupStart =>
      match u_setup s, u_packets s with
      | None, S _ => Some (u_set_setup (Some (mkSetup (u_clock s + WORK_CONN_TIMEOUT_MS) true)) s)
      | _, _ => None
      end
  | UdpControlServes =>
      match u_setup s, u_close s with
      | Some u, Serving => Some (u_set_setup (Some (mkSetup (su_deadline u) false)) s)
      | _, _ => None
      end
  | UdpSetupEnd =>
      match u_setup s with
      | Some u => if negb (su_queued u) || (su_deadline u <=? u_clock s) then Some (u_set_setup None s) else None
      | None => None
      end
  | UdpTick => Some (mkUdpLife (u_run s) (u_close s) (u_setup s) (u_packets s) (u_registered s) (u_port s) (u_clock s + 1))
  end.

Fixpoint udp_life (evs : list udp_event) (s : UdpLife) : option UdpLife :=
  match evs with
  | [] => Some s
  | ev :: rest => s' ← udp_step ev s; udp_life rest s'
  end.

(** Closing a UDP proxy gives the port back at once, while the socket is bound
    for as long as its task has not seen the shutdown or a packet is in flight;
    a registration that gets the port meanwhile fails to bind it.  It is unbound
    once the task has ended and the last packet is done. *)
Theorem udp_port_back_while_bound evs s s' :
  u_close s = Serving → u_setup s = None → u_run s ≠ UdpReturned →
  (∃ s1, udp_life [UdpCloseSend; UdpCloseRelease] s = Some s1 ∧ u_port s1 = false ∧ udp_bound s1 = true) ∧
  (udp_life evs s = Some s' → u_close s' = Closed →
   u_port s' = false ∧ (udp_bound s' = false ↔ u_run s' = UdpReturned ∧ u_packets s' = 0%nat)).
Proof.
  intros Hc Hs Hr. split.
  - cbn [udp_life udp_step]. rewrite Hc. simpl. rewrite Hs. simpl. eexists. split; [done|]. split; [done|].
    unfold udp_bound. simpl. by destruct (u_run s).
  - assert (u_close s = Closed → u_port s = false ∧ u_registered s = false) as Hinit by congruence.
    clear Hc Hs Hr. revert s Hinit. induction evs as [|ev evs IH]; intros s Hinit; cbn [udp_life].
    + intros [= <-] Hcl. destruct (Hinit Hcl) as [Hp Hreg]. split; [done|]. unfold udp_bound. rewrite Hreg.
      destruct (u_run s), (u_packets s); simpl; intuition congruence.
    + intros (s1 & E1 & E)%bind_Some. apply (IH s1); [|done].
      destruct s; unfold udp_step in E1; destruct ev; repeat (case_match; simplify_eq/=); intros ?; simplify_eq/=; auto.
Qed.

(** ** Witnesses *)

Module ToyLife.
(** A listener in its backoff is closed. *)
Definition started : list life_event := [RunTake; RunSubscribe; AcceptOk; AcceptTransient].
Definition ticks (n : nat) : list life_event := replicate n Tick.
Definition closing : list life_event :=
  [CloseLock] ++ ticks 10 ++ [SleepOver; SeeShutdown; NotifyDone; CloseSeesDone; Release; RunReturn].

Lemma close_stops_listener_witness :
  ∃ s s', life_run started life_new = Some s ∧ life_run (CloseSend :: closing) s = Some s' ∧
    l_close s' = Closed ∧ l_timed_out s' = false.
Proof.
  destruct (life_run started life_new) as [s|] eqn:E; [|vm_compute in E; discriminate].
  assert (l_run s = Looping 10 (Some 10) false ∧ l_close s = Serving) as [Hr Hc]
    by (vm_compute in E; injection E as <-; split; reflexivity).
  assert (∃ s', life_run (CloseSend :: closing) s = Some s' ∧ l_close s' = Closed) as (s' & E' & Hcl).
  { vm_compute in E. injection E as <-. eexists. split; [vm_compute; reflexivity|reflexivity]. }
  exists s, s'. refine (conj eq_refl (conj E' (conj Hcl _))).
  refine (proj1 (close_stops_listener started closing s s' 10 (Some 10) E Hr Hc E' _)).
  apply (bool_decide_unpack (Forall _ closing)). vm_compute. exact I.
Defined.

(** The proxy is closed before its task has run at all. *)
Definition too_early : list life_event :=
  [CloseLock; RunTake; RunSubscribe] ++ ticks 3000 ++ [CloseTimesOut; Release; AcceptOk].

Lemma close_before_run_is_lost_witness :
  ∃ s', life_run (CloseSend :: too_early) life_new = Some s' ∧ l_close s' = Closed ∧ l_port s' = false ∧
    bound s' = true ∧ l_accepted s' = 1%nat.
Proof.
  destruct (life_run (CloseSend :: too_early) life_new) as [s'|] eqn:E; [|vm_compute in E; discriminate].
  exists s'. destruct (close_before_run_is_lost too_early life_new s' (or_introl eq_refl) eq_refl eq_refl E)
    as (Hb & _ & _ & _ & Hcl).
  - apply (bool_decide_unpack (Forall _ too_early)). vm_compute. exact I.
  - assert (l_close s' = Closed ∧ l_accepted s' = 1%nat) as [Hc Ha]
      by (vm_compute in E; injection E as <-; split; reflexivity).
    exact (conj eq_refl (conj Hc (conj (proj2 (Hcl Hc)) (conj Hb Ha)))).
Defined.

(** The acknowledgement is sent before the listener is dropped: the port can be
    back in the controller while it is still bound. *)
Example released_before_dropped :
  (fun s => (l_close s, l_port s, bound s, l_timed_out s)) <$>
    life_run [RunTake; RunSubscribe; CloseSend; CloseLock; SeeShutdown; NotifyDone; CloseSeesDone; Release] life_new
  = Some (Closed, false, true, false).
Proof. vm_compute. reflexivity. Qed.
End ToyLife.
