(* ===== verification/ProxyTasks.v ===== *)
(** * Registrations that overlap (crates/arp-server/src/proxy/mod.rs, proxy/tcp.rs, proxy/udp.rs and resource/mod.rs)

    ProxyManager takes a call of [register_proxy], [unregister_proxy] and the
    like as one step.  The server runs them on as many tasks as it has clients,
    with no lock around them: between two accesses to a shared map anything can
    happen.  Here each call is a program of such accesses, a [prog]; an access is
    a call of a [DashMap] or of an atomic, what is done under one lock, an
    iteration over a map, or a call of the virtual host manager.  Run without
    interruption a program is the function of ProxyManager
    ([programs_uninterrupted]).

    [Tasks] is the shared state with the task of every client, and [task_event]
    one step of it: a login, the start of a call, one access, the end of a
    client, or the traffic of the proxies.  The proof is an ownership argument:
    every task has claims, on the port it allocated, the backend it put into a
    group or the key it registers, [shared] says that what is held is a
    registered proxy's or claimed, and [keeps] that a program keeps this at each
    of its accesses whatever the other tasks do in between.  [clients_own_proxies]
    and [no_port_leaks] are what follows for all schedules; [ToyTasks] also has
    the two schedules that show what the code does not guarantee. *)
From stdpp Require Import functions.
From S2P Require Import Prelude RustString Errors Protocol Config Auth Resource Vhost TcpGroup ProxyManager Hub Control Server.
Local Open Scope Z_scope.

(** ** Programs of atomic accesses *)

(** The rest of a program depends on the state its access met. *)
Inductive prog (S A : Type) : Type :=
| Done (r : Result A)
| Act (f : S → S) (k : S → prog S A).
Arguments Done {S A} r.
Arguments Act {S A} f k.

#[global] Instance prog_ret {S} : MRet (prog S) := fun A a => Done (Ok a).
Fixpoint prog_bind_go {S A B} (f : A → prog S B) (t : prog S A) : prog S B :=
  match t with
  | Done (Ok a) => f a
  | Done (Err e) => Done (Err e)
  | Act g k => Act g (fun s => prog_bind_go f (k s))
  end.
#[global] Instance prog_bind {S} : MBind (prog S) := fun A B f t => prog_bind_go f t.

(** One access, and an error that is only logged. *)
Definition act {S A} (m : st S Error.t A) : prog S A := Act (fun s => (m s).1) (fun s => Done (m s).2).
Fixpoint ignore_err {S A} (t : prog S A) : prog S unit :=
  match t with
  | Done _ => Done (Ok tt)
  | Act f k => Act f (fun s => ignore_err (k s))
  end.

(** Without interruption. *)
Fixpoint uninterrupted {S A} (t : prog S A) : st S Error.t A := fun s =>
  match t with
  | Done r => (s, r)
  | Act f k => uninterrupted (k s) (f s)
  end.

Lemma uninterrupted_bind {S A B} (t : prog S A) (f : A → prog S B) s :
  uninterrupted (t ≫= f) s = (uninterrupted t ≫= fun a => uninterrupted (f a)) s.
Proof.
  unfold mbind at 1, prog_bind. revert s. induction t as [[a|e]|g k IH]; intros s; [done..|]. simpl. rewrite IH. done.
Qed.
Lemma uninterrupted_act {S A} (m : st S Error.t A) s : uninterrupted (act m) s = m s.
Proof. simpl. by destruct (m s). Qed.
Lemma uninterrupted_ignore {S} (t : prog S unit) s : uninterrupted (ignore_err t) s = log_err (uninterrupted t) s.
Proof. unfold log_err. revert s. induction t as [r|f k IH]; intros s; [done|]. simpl. by rewrite IH. Qed.

Lemma act_bind {S A B} (m : st S Error.t A) (f : A → prog S B) s :
  uninterrupted (act m ≫= f) s = (m ≫= fun a => uninterrupted (f a)) s.
Proof. rewrite uninterrupted_bind. cbv [mbind st_bind]. by rewrite uninterrupted_act. Qed.

Lemma bind_run {S E A B} (m : st S E A) (f : A → st S E B) s :
  (m ≫= f) s = match m s with (s1, Ok a) => f a s1 | (s1, Err e) => (s1, Err e) end.
Proof. done. Qed.

(** Two computations that agree in every state. *)
Lemma st_bind_same {S E A B} (m m' : st S E A) (f f' : A → st S E B) s :
  (∀ s, m s = m' s) → (∀ a s, f a s = f' a s) → (m ≫= f) s = (m' ≫= f') s.
Proof. intros Hm Hf. cbv [mbind st_bind]. rewrite Hm. destruct (m' s) as [s1 [a|e]]; [apply Hf|done]. Qed.

(** ** The calls of the proxy manager *)

Section Programs.
Context `{Json} `{UnicodeLower} `{DashIter}.

Abbreviation PS := (ProxyManager * ResourceController)%type.
Abbreviation P A := (prog PS A).
Definition fail_with {A} (e : Error.t) : P A := Done (Err e).
Definition guard_that (bad : bool) (e : Error.t) : P unit := if bad then fail_with e else mret tt.

(** [allocate_tcp_port]: the test and the insertion are two accesses. *)
Definition allocate_p (port : Z) : P Z :=
  _ ← act (on_rc (rc ← st_get;
                  _ ← st_guard (negb (is_port_allowed rc port))
                        (Error.Proxy ("Port " +:+ pretty port +:+ " is not in allowed range"));
                  st_guard (contains_port rc port)
                    (Error.Proxy ("Port " +:+ pretty port +:+ " is already allocated"))));
  _ ← act (on_rc (st_modify (insert_port port)));
  mret port.

Fixpoint random_p (attempts : nat) : P Z :=
  match attempts with
  | O => fail_with (Error.Proxy "Failed to allocate random port after 1000 attempts")
  | S attempts' =>
      port ← act (on_rc fetch_add_port);
      if 65535 <=? port then _ ← act (on_rc (store_port 10000)); random_p attempts'
      else
        free ← act (on_rc (rc ← st_get; mret (is_port_allowed rc port && negb (contains_port rc port))));
        if free : bool then _ ← act (on_rc (st_modify (insert_port port))); mret port
        else random_p attempts'
  end.

Definition take_port_p (requested : Z) : P Z := if 0 <? requested then allocate_p requested else random_p 1000.
Definition bind_p (bind : Z → option IoError) (port : Z) : P unit :=
  match bind port with
  | None => mret tt
  | Some e => _ ← act (on_rc (release_tcp_port port)); fail_with (Error.Io e)
  end.

Definition tcp_proxy_p (binds : Binds) (msg : NewProxyMsg) (tx : Sender) : P TcpProxy :=
  let stcp := bool_decide (np_proxy_type msg = "stcp"%string) in
  remote_port ← take_port_p (np_remote_port msg);
  _ ← bind_p (bind_tcp binds) remote_port;
  mret (mkTcpProxy (np_proxy_name msg) remote_port tx (is_mux_name (np_multiplexer msg) && negb stcp)
          stcp (np_sk msg)).
Definition udp_proxy_p (binds : Binds) (msg : NewProxyMsg) (tx : Sender) : P UdpProxy :=
  let force_secure := bool_decide (np_proxy_type msg = "sudp"%string) in
  remote_port ← take_port_p (np_remote_port msg);
  _ ← bind_p (bind_udp binds) remote_port;
  mret (mkUdpProxy (np_proxy_name msg) remote_port tx (np_use_compression msg)
          (np_use_encryption msg || force_secure) (np_sk msg)).
Definition grouped_p (binds : Binds) (group_id : string) (port : Z) : P GroupedTcpProxy :=
  remote_port ← allocate_p port;
  _ ← bind_p (bind_tcp binds) remote_port;
  mret (mkGroupedTcpProxy group_id remote_port false 0 []).

(** [tcp_groups.insert(group_id, created)], and the address of the group. *)
Definition add_group (group_id : string) (created : GroupedTcpProxy) : st PS Error.t Z := fun s =>
  let m := s.1 in
  ((pm_set_groups (<[group_id := pm_next_group m]> (pm_tcp_groups m))
      (<[pm_next_group m := created]> (pm_group_heap m)) (pm_next_group m + 1) m, s.2), Ok (pm_next_group m)).

Definition group_p (binds : Binds) (group_id : string) (port : Z) : P Z :=
  existing ← act (m ← pm_get; mret (pm_tcp_groups m !! group_id));
  match existing with
  | Some addr => mret addr
  | None => created ← grouped_p binds group_id port; act (add_group group_id created)
  end.

Definition group_port (addr : Z) : st PS Error.t Z :=
  m ← pm_get; mret (match pm_group_heap m !! addr with Some g => g_remote_port g | None => 0 end).

Definition group_member_p (binds : Binds) (proxy_key : string) (msg : NewProxyMsg) (tx : Sender)
    (lb_group lb_group_key : string) : P (Proxy * string) :=
  _ ← guard_that (np_remote_port msg =? 0)
        (Error.Proxy "tcp/stcp load_balancer.group requires fixed remote_port");
  let group_id := np_proxy_type msg +:+ ":" +:+ pretty (np_remote_port msg) +:+ ":" +:+ lb_group
                  +:+ ":" +:+ lb_group_key in
  addr ← group_p binds group_id (np_remote_port msg);
  _ ← act (update_group addr (add_backend (mkBackend proxy_key (np_proxy_name msg) tx
             (bool_decide (np_proxy_type msg = "stcp"%string)) (np_sk msg))));
  _ ← act (update_group addr ensure_started);
  remote_port ← act (group_port addr);
  mret (PGroupMember (np_proxy_name msg) addr proxy_key, port_addr remote_port).

Definition stcp_p (run_id : string) (msg : NewProxyMsg) (tx : Sender) : P (Proxy * string) :=
  _ ← guard_that (is_empty (trim (np_sk msg))) (Error.Proxy "stcp proxy requires sk");
  _ ← act (m ← pm_get;
           st_guard (bool_decide (is_Some (pm_stcp_registry m !! np_proxy_name msg)))
             (Error.Proxy ("stcp proxy " +:+ np_proxy_name msg +:+ " already exists")));
  _ ← act (pm_modify (fun m => pm_set_stcp
             (<[np_proxy_name msg := mkStcpProxyInfo run_id (np_sk msg) tx]> (pm_stcp_registry m)) m));
  mret (PStcp (np_proxy_name msg), "stcp"%string).

Definition xtcp_p (binds : Binds) (run_id : string) (msg : NewProxyMsg) (tx : Sender) : P (Proxy * string) :=
  _ ← guard_that (is_empty (trim (np_sk msg))) (Error.Proxy "xtcp proxy requires sk");
  _ ← act (m ← pm_get;
           st_guard (bool_decide (is_Some (pm_xtcp_registry m !! np_proxy_name msg)))
             (Error.Proxy ("xtcp proxy " +:+ np_proxy_name msg +:+ " already exists")));
  relay_proxy ← (if np_fallback_to_relay msg
                 then p ← tcp_proxy_p binds (relay_msg_of msg) tx; mret (Some p)
                 else mret None : P (option TcpProxy));
  let relay_addr := match relay_proxy with Some p => port_addr (tp_remote_port p) | None => ""%string end in
  _ ← act (pm_modify (fun m => pm_set_xtcp
             (<[np_proxy_name msg := mkXtcpProxyInfo run_id (np_sk msg) relay_addr]> (pm_xtcp_registry m)) m));
  mret (PXtcp (np_proxy_name msg) relay_proxy,
        if is_empty relay_addr then "xtcp"%string else "xtcp(relay=" +:+ relay_addr +:+ ")").

Definition create_p (binds : Binds) (run_id : string) (msg : NewProxyMsg) (tx : Sender) : P (Proxy * string) :=
  let ty := np_proxy_type msg in
  if bool_decide (ty = "tcp"%string) then
    let '(lb_group, lb_group_key) := parse_lb_group msg in
    if is_empty lb_group then
      p ← tcp_proxy_p binds msg tx; mret (PTcp p, port_addr (tp_remote_port p))
    else group_member_p binds (proxy_key_of run_id (np_proxy_name msg)) msg tx lb_group lb_group_key
  else if bool_decide (ty = "stcp"%string) then stcp_p run_id msg tx
  else if bool_decide (ty = "http"%string) then
    a ← act (on_vhost (register_http run_id msg tx)); mret (PHttp (route_key_of run_id (np_proxy_name msg)), a)
  else if bool_decide (ty = "https"%string) then
    a ← act (on_vhost (register_https run_id msg tx)); mret (PHttps (route_key_of run_id (np_proxy_name msg)), a)
  else if bool_decide (ty = "udp"%string) || bool_decide (ty = "sudp"%string) then
    p ← udp_proxy_p binds msg tx; mret (PUdp p, port_addr (ud_remote_port p))
  else if bool_decide (ty = "xtcp"%string) then xtcp_p binds run_id msg tx
  else fail_with (Error.Proxy ("Unsupported proxy type: " +:+ ty)).

(** [proxies.insert] and [records.insert]. *)
Definition insert_proxy (key : string) (p : Proxy) : st PS Error.t unit :=
  pm_modify (fun m => pm_set_proxies (<[key := p]> (pm_proxies m)) (pm_records m) m).
Definition insert_record (key : string) (r : ProxyRecord) : st PS Error.t unit :=
  pm_modify (fun m => pm_set_proxies (pm_proxies m) (<[key := r]> (pm_records m)) m).

Definition register_p (binds : Binds) (run_id : string) (msg : NewProxyMsg) (tx : Sender) : P string :=
  let proxy_key := proxy_key_of run_id (np_proxy_name msg) in
  _ ← act (m ← pm_get;
           st_guard (bool_decide (is_Some (pm_proxies m !! proxy_key)))
             (Error.Proxy ("Proxy " +:+ np_proxy_name msg +:+ " already exists")));
  '(proxy, remote_addr) ← create_p binds run_id msg tx;
  _ ← act (insert_proxy proxy_key proxy);
  _ ← act (insert_record proxy_key (mkProxyRecord run_id (np_proxy_name msg) (np_proxy_type msg) remote_addr));
  mret remote_addr.

(** [remove_backend] under its lock: whether the group is empty now, with its
    port and id. *)
Definition retain_group (addr : Z) (backend_id : string) : st PS Error.t (option (Z * string)) := fun s =>
  match pm_group_heap s.1 !! addr with
  | None => (s, Ok None)
  | Some g =>
      let '(g', empty) := retain_backends backend_id g in
      ((update_group addr (fun _ => g') s).1,
       Ok (if empty : bool then Some (g_remote_port g, g_group_id g) else None))
  end.

Definition close_member_p (addr : Z) (backend_id : string) : P unit :=
  emptied ← act (retain_group addr backend_id);
  match emptied with
  | Some (port, group_id) =>
      _ ← act (on_rc (release_tcp_port port));
      act (pm_modify (fun m => pm_set_groups (delete group_id (pm_tcp_groups m)) (pm_group_heap m) (pm_next_group m) m))
  | None => mret tt
  end.

Definition close_p (p : Proxy) : P unit :=
  match p with
  | PTcp t => act (on_rc (release_tcp_port (tp_remote_port t)))
  | PUdp u => act (on_rc (release_tcp_port (ud_remote_port u)))
  | PGroupMember _ addr id => close_member_p addr id
  | PStcp name => act (pm_modify (fun m => pm_set_stcp (delete name (pm_stcp_registry m)) m))
  | PHttp key => act (pm_modify (fun m => pm_set_vhost (http_proxy_close key (pm_vhost m)) m))
  | PHttps key => act (pm_modify (fun m => pm_set_vhost (https_proxy_close key (pm_vhost m)) m))
  | PXtcp name relay =>
      _ ← (match relay with Some t => act (on_rc (release_tcp_port (tp_remote_port t))) | None => mret tt end : P unit);
      act (pm_modify (fun m => pm_set_xtcp (delete name (pm_xtcp_registry m)) m))
  end.

(** [proxies.remove(&key)]. *)
Definition remove_entry (key : string) : st PS Error.t (option Proxy) := fun s =>
  match pm_proxies s.1 !! key with
  | None => (s, Ok None)
  | Some p => ((pm_set_proxies (delete key (pm_proxies s.1)) (pm_records s.1) s.1, s.2), Ok (Some p))
  end.

Definition remove_p (key : string) : P unit :=
  taken ← act (remove_entry key);
  match taken with
  | None => mret tt
  | Some p =>
      _ ← act (pm_modify (fun m => pm_set_proxies (pm_proxies m) (delete key (pm_records m)) m));
      close_p p
  end.

Definition unregister_p (run_id proxy_name : string) : P unit := remove_p (proxy_key_of run_id proxy_name).

Definition evict_p (proxy_name : string) : P (option string) :=
  existing ← act (m ← pm_get;
                  mret (List.find (fun e => ends_with e.1 (":" +:+ proxy_name)) (dash_iter (pm_proxies m))));
  match existing with
  | None => mret None
  | Some (key, _) =>
      let owner_run_id := match split_once ":"%byte key with Some (r, _) => r | None => key end in
      _ ← ignore_err (remove_p key);
      _ ← act (pm_modify (fun m => pm_set_xtcp (delete proxy_name (pm_xtcp_registry m)) m));
      mret (Some owner_run_id)
  end.

Fixpoint remove_all_p (keys : list string) : P unit :=
  match keys with
  | [] => mret tt
  | key :: rest => _ ← remove_p key; remove_all_p rest
  end.

Definition run_keys (run_id : string) (m : ProxyManager) : list string :=
  List.filter (fun k => starts_with k (run_id +:+ ":")) (dash_iter (pm_proxies m)).*1.
Definition unregister_run_p (run_id : string) : P unit :=
  keys ← act (m ← pm_get; mret (run_keys run_id m)); remove_all_p keys.
End Programs.

(** ** Without interruption they are the functions of ProxyManager *)

Section Uninterrupted.
Context `{Json} `{UnicodeLower} `{DashIter}.
Abbreviation PS := (ProxyManager * ResourceController)%type.

(** Step into the first access or call of a program. *)
Ltac unint := repeat (rewrite uninterrupted_bind; apply st_bind_same; [intros ?|intros ? ?]);
  rewrite ?uninterrupted_act; try done.

Lemma guard_uninterrupted bad e (s : PS) : uninterrupted (guard_that bad e) s = st_guard bad e s.
Proof. by destruct bad. Qed.

Lemma on_rc_bind {A B} (m : st ResourceController Error.t A) (f : A → st ResourceController Error.t B) (s : PS) :
  on_rc (m ≫= f) s = (on_rc m ≫= fun a => on_rc (f a)) s.
Proof. unfold on_rc, zoom. cbv [mbind st_bind]. destruct s as [pm r]. simpl. by destruct (m r) as [r' [a|e]]. Qed.

Lemma on_rc_bind_same {A B} (m : st ResourceController Error.t A) (f : A → st ResourceController Error.t B)
    (t : prog PS A) (g : A → prog PS B) (s : PS) :
  (∀ s, uninterrupted t s = on_rc m s) → (∀ a s, uninterrupted (g a) s = on_rc (f a) s) →
  uninterrupted (t ≫= g) s = on_rc (m ≫= f) s.
Proof. intros Hm Hf. rewrite uninterrupted_bind, on_rc_bind. by apply st_bind_same. Qed.

Lemma allocate_uninterrupted port (s : PS) : uninterrupted (allocate_p port) s = on_rc (allocate_tcp_port port) s.
Proof.
  destruct s as [pm rc]. unfold allocate_p, allocate_tcp_port, on_rc, zoom, st_guard, st_modify, st_get, act.
  cbv [mbind st_bind prog_bind mret prog_ret st_ret]. simpl.
  destruct (is_port_allowed rc port); simpl; [|done]. by destruct (contains_port rc port).
Qed.

Lemma random_uninterrupted n (s : PS) : uninterrupted (random_p n) s = on_rc (random_loop n) s.
Proof.
  revert s. induction n as [|n IH]; intros s; [by destruct s|]. cbn [random_p random_loop].
  apply on_rc_bind_same; [intros; apply uninterrupted_act|]. clear s. intros port s. destruct (65535 <=? port).
  { apply on_rc_bind_same; [intros; apply uninterrupted_act|]. intros _. apply IH. }
  destruct s as [pm rc]. rewrite act_bind. cbv [mbind st_bind on_rc zoom st_get mret st_ret]. simpl.
  destruct (is_port_allowed rc port && negb (contains_port rc port)); [done|].
  specialize (IH (pm, rc)). unfold on_rc, zoom in IH. by rewrite IH.
Qed.

#[local] Arguments uninterrupted : simpl never.
#[local] Arguments prog_bind_go : simpl never.

Lemma take_port_uninterrupted p (s : PS) : uninterrupted (take_port_p p) s = on_rc (take_port p) s.
Proof. unfold take_port_p, take_port. destruct (0 <? p); [apply allocate_uninterrupted|apply random_uninterrupted]. Qed.

Lemma bind_uninterrupted bind p (s : PS) : uninterrupted (bind_p bind p) s = on_rc (bind_or_release bind p) s.
Proof. unfold bind_p, bind_or_release. by destruct (bind p), s. Qed.

Lemma tcp_uninterrupted binds msg tx (s : PS) :
  uninterrupted (tcp_proxy_p binds msg tx) s = on_rc (tcp_proxy_new binds msg tx) s.
Proof.
  apply on_rc_bind_same; [apply take_port_uninterrupted|]. intros p. intros.
  apply on_rc_bind_same; [apply bind_uninterrupted|]. by intros _ [].
Qed.
Lemma udp_uninterrupted binds msg tx (s : PS) :
  uninterrupted (udp_proxy_p binds msg tx) s = on_rc (udp_proxy_new binds msg tx) s.
Proof.
  apply on_rc_bind_same; [apply take_port_uninterrupted|]. intros p. intros.
  apply on_rc_bind_same; [apply bind_uninterrupted|]. by intros _ [].
Qed.
Lemma grouped_uninterrupted binds gid p (s : PS) :
  uninterrupted (grouped_p binds gid p) s = on_rc (grouped_new binds gid p) s.
Proof.
  apply on_rc_bind_same; [apply allocate_uninterrupted|]. intros q. intros.
  apply on_rc_bind_same; [apply bind_uninterrupted|]. by intros _ [].
Qed.

(** The first access reads, or tests. *)
Lemma act_get {A B} (h : ProxyManager → A) (f : A → prog PS B) s :
  uninterrupted (act (m ← pm_get; mret (h m)) ≫= f) s = uninterrupted (f (h s.1)) s.
Proof. by destruct s. Qed.
Lemma act_guard {B} (bad : ProxyManager → bool) e (f : unit → prog PS B) s :
  uninterrupted (act (m ← pm_get; st_guard (bad m) e) ≫= f) s =
  if bad s.1 then (s, Err e) else uninterrupted (f tt) s.
Proof. destruct s as [m rc]. rewrite act_bind. rewrite bind_run. cbv [pm_get mbind st_bind]. simpl. by destruct (bad m). Qed.
Lemma get_run {B} (f : ProxyManager → st PS Error.t B) s : (pm_get ≫= f) s = f s.1 s.
Proof. done. Qed.
Lemma guard_run {B} bad e (f : unit → st PS Error.t B) s :
  (st_guard bad e ≫= f) s = if bad then (s, Err e) else f tt s.
Proof. by destruct bad. Qed.
Opaque pm_get.

Lemma group_uninterrupted binds gid p (s : PS) :
  uninterrupted (group_p binds gid p) s = get_or_create_group binds gid p s.
Proof.
  unfold group_p, get_or_create_group. rewrite act_get, get_run. destruct (pm_tcp_groups s.1 !! gid); [done|].
  rewrite uninterrupted_bind, !bind_run, grouped_uninterrupted. unfold on_rc, zoom. simpl.
  by destruct (grouped_new binds gid p s.2) as [rc' [g|e]].
Qed.

Lemma group_member_uninterrupted binds key msg tx g gk (s : PS) :
  uninterrupted (group_member_p binds key msg tx g gk) s = register_group_member binds key msg tx g gk s.
Proof.
  unfold group_member_p, register_group_member. unint; [apply guard_uninterrupted|apply group_uninterrupted|..].
  all: try apply uninterrupted_act.
Qed.

Lemma stcp_uninterrupted run msg tx (s : PS) : uninterrupted (stcp_p run msg tx) s = register_stcp run msg tx s.
Proof.
  unfold stcp_p, register_stcp. rewrite uninterrupted_bind.
  apply st_bind_same; [intros; apply guard_uninterrupted|]. clear s. intros _ s.
  by rewrite act_guard, get_run, guard_run.
Qed.

Lemma xtcp_uninterrupted binds run msg tx (s : PS) :
  uninterrupted (xtcp_p binds run msg tx) s = register_xtcp binds run msg tx s.
Proof.
  unfold xtcp_p, register_xtcp. rewrite uninterrupted_bind.
  apply st_bind_same; [intros; apply guard_uninterrupted|]. clear s. intros _ s.
  rewrite act_guard, get_run, guard_run. destruct (bool_decide _); [done|].
  rewrite uninterrupted_bind. apply st_bind_same; [|done]. clear s. intros s.
  destruct (np_fallback_to_relay msg); [|done].
  rewrite uninterrupted_bind. apply st_bind_same; [apply tcp_uninterrupted|done].
Qed.

Lemma create_uninterrupted binds run msg tx (s : PS) :
  uninterrupted (create_p binds run msg tx) s = create_proxy binds run msg tx s.
Proof.
  unfold create_p, create_proxy. cbv zeta.
  repeat case_bool_decide; try done;
    try (destruct (parse_lb_group msg) as [g gk]; destruct (is_empty g); [|apply group_member_uninterrupted]);
    try apply stcp_uninterrupted; try apply xtcp_uninterrupted; cbn [orb];
    rewrite uninterrupted_bind; apply st_bind_same; try done; intros;
    first [apply tcp_uninterrupted|apply udp_uninterrupted|apply uninterrupted_act].
Qed.

Lemma register_uninterrupted binds run msg tx (s : PS) :
  uninterrupted (register_p binds run msg tx) s = register_proxy binds run msg tx s.
Proof.
  unfold register_p, register_proxy. cbv zeta. rewrite act_guard, get_run, guard_run.
  destruct (bool_decide _); [done|]. rewrite uninterrupted_bind.
  apply st_bind_same; [apply create_uninterrupted|]. by intros [p addr].
Qed.

Lemma close_uninterrupted p (s : PS) : uninterrupted (close_p p) s = close_proxy p s.
Proof.
  destruct p as [t|n a id|n|k|k|u|n [t|]]; try (by destruct s). cbn [close_p close_proxy].
  unfold close_member_p, close_member. rewrite act_bind, bind_run, get_run. unfold retain_group.
  destruct (pm_group_heap s.1 !! a) as [g|]; [|done]. by destruct s, (retain_backends id g) as [g' []].
Qed.

Lemma remove_uninterrupted key (s : PS) : uninterrupted (remove_p key) s = remove_proxy key s.
Proof.
  unfold remove_p, remove_proxy. rewrite act_bind, bind_run, get_run. unfold remove_entry.
  destruct (pm_proxies s.1 !! key) as [p|]; [|done]. rewrite act_bind, !bind_run. apply close_uninterrupted.
Qed.

Lemma remove_all_uninterrupted keys (s : PS) : uninterrupted (remove_all_p keys) s = remove_proxies keys s.
Proof.
  revert s. induction keys as [|k ks IH]; intros s; [done|]. cbn [remove_all_p remove_proxies].
  rewrite uninterrupted_bind. apply st_bind_same; [apply remove_uninterrupted|by intros _].
Qed.

Transparent pm_get.
End Uninterrupted.

(** ** What a task answers for *)

(** A port it allocated and has not handed over; a backend it put into a group,
    or is about to take out; the key it is registering; and, when its client
    goes, the keys it still has to remove. *)
Inductive claim :=
| CPort (port : Z)
| CMember (addr : Z) (backend_id : string)
| CKey (key : string)
| CEnding (run_id : string) (keys : list string).

Abbreviation PS := (ProxyManager * ResourceController)%type.
Abbreviation P A := (prog PS A).

Definition held (s : PS) : gset Z := dom (tcp_ports s.2).

(** The proxy listens on the port, itself or through its group. *)
Definition listens (heap : gmap Z GroupedTcpProxy) (p : Proxy) (port : Z) : Prop :=
  port_of p = Some port ∨
  ∃ name addr id g, p = PGroupMember name addr id ∧ heap !! addr = Some g ∧ g_remote_port g = port.

(** The shared state, with the claims [C] of all tasks: every held port and every
    backend of a group is a registered proxy's or claimed. *)
Record shared (s : PS) (C : claim → Prop) : Prop := {
  sh_held : ∀ p, p ∈ held s →
    (∃ key h, pm_proxies s.1 !! key = Some h ∧ listens (pm_group_heap s.1) h p) ∨ C (CPort p) ∨
    (∃ addr id g, C (CMember addr id) ∧ pm_group_heap s.1 !! addr = Some g ∧ g_remote_port g = p);
  sh_backends : ∀ addr g id, pm_group_heap s.1 !! addr = Some g → id ∈ ids (g_backends g) →
    (∃ name, pm_proxies s.1 !! id = Some (PGroupMember name addr id)) ∨ C (CMember addr id);
  sh_keys : ∀ key, C (CKey key) → pm_proxies s.1 !! key = None;
  sh_ending : ∀ run keys name, C (CEnding run keys) →
    is_Some (pm_proxies s.1 !! proxy_key_of run name) → proxy_key_of run name ∈ keys;
  sh_fresh : ∀ addr, is_Some (pm_group_heap s.1 !! addr) → addr < pm_next_group s.1;
}.

(** The claims of a task beside those of the others. *)
Definition beside (X : list claim) (Y : claim → Prop) (c : claim) : Prop := c ∈ X ∨ Y c.

(** A task speaks of keys of its own client only. *)
Definition own_claim (run : string) (c : claim) : Prop :=
  match c with
  | CKey key => ∃ name, key = proxy_key_of run name
  | CEnding run' _ => run' = run
  | _ => True
  end.
Definition others_claim (run : string) (Y : claim → Prop) : Prop :=
  (∀ name, ¬ Y (CKey (proxy_key_of run name))) ∧
  ∀ run' keys, Y (CEnding run' keys) → ∀ name name', proxy_key_of run' name ≠ proxy_key_of run name'.

(** Claims on ports and backends have to be settled, the others not. *)
Definition owing (c : claim) : Prop := match c with CPort _ | CMember _ _ => True | _ => False end.

(** The claims of a task: one to settle at most. *)
Record own_list (run : string) (X : list claim) : Prop := {
  ow_own : Forall (own_claim run) X;
  ow_one : ∀ c c', c ∈ X → c' ∈ X → owing c → owing c' → c = c';
}.
Record framed (run : string) (X : list claim) : Prop := {
  fr_own : Forall (own_claim run) X;
  fr_settled : ∀ c, c ∈ X → ¬ owing c;
}.

Lemma own_nil run : own_list run [].
Proof. split; [done|]. by intros c c' ?%elem_of_nil. Qed.
Lemma framed_nil run : framed run [].
Proof. split; [done|]. by intros c ?%elem_of_nil. Qed.
Lemma framed_own run X : framed run X → own_list run X.
Proof. intros [A B]. split; [done|]. intros c c' Hc _ Ho. by destruct (B c Hc). Qed.
Lemma own_cons run c X : owing c → framed run X → own_list run (c :: X).
Proof.
  intros Ho [A B]. split; [constructor; [by destruct c|done]|].
  intros c1 c2 [->|H1]%elem_of_cons [->|H2]%elem_of_cons O1 O2; [done| | |]; exfalso; by (apply (B c2) || apply (B c1)).
Qed.

Lemma shared_ext s C C' : (∀ c, C c ↔ C' c) → shared s C → shared s C'.
Proof.
  intros He [A B K D F]. split; [| | | |done].
  - intros p Hp. destruct (A p Hp) as [?|[?|(a & i & g & Hc & ?)]]; [by left|right; left; by apply He|].
    right; right. exists a, i, g. split; [by apply He|done].
  - intros a g i Hg Hi. destruct (B a g i Hg Hi); [by left|right; by apply He].
  - intros key Hk. by apply K, He.
  - intros run keys name Hc. by apply D, He.
Qed.

(** Nothing the invariant speaks of changes. *)
Lemma shared_same s s' C :
  pm_proxies s'.1 = pm_proxies s.1 → pm_group_heap s'.1 = pm_group_heap s.1 → pm_next_group s'.1 = pm_next_group s.1 →
  held s' = held s → shared s C → shared s' C.
Proof. intros E1 E2 E3 E4 [A B K D F]. split; rewrite ?E1, ?E2, ?E3, ?E4; done. Qed.

(** Claims may be added to ports and backends, and dropped from keys. *)
Lemma shared_more s X X' Y :
  (∀ c, c ∈ X' → c ∈ X ∨ owing c) → (∀ c, c ∈ X → owing c → c ∈ X') →
  shared s (beside X Y) → shared s (beside X' Y).
Proof.
  intros Hn Ho [A B K D F]. unfold beside in *. split; [| | | |done].
  - intros p Hp. destruct (A p Hp) as [?|[[?|?]|(a & i & g & [Hc|Hc] & ?)]]; [by left|right; left..|right; right|right; right].
    + left. by apply Ho.
    + by right.
    + exists a, i, g. split; [left; by apply Ho|done].
    + exists a, i, g. split; [by right|done].
  - intros a g i Hg Hi. destruct (B a g i Hg Hi) as [?|[?|?]]; [by left|right; left; by apply Ho|right; by right].
  - intros key [Hk|Hk]; apply K; [|by right]. destruct (Hn _ Hk) as [?|Hs]; [by left|done].
  - intros run keys name [Hc|Hc]; apply D; [|by right]. destruct (Hn _ Hc) as [?|Hs]; [by left|done].
Qed.

Section Claims.
Context (run : string).

(** The rest of a task keeps the invariant at every access, whatever the others
    did in between, and ends with the claims [Q] says. *)
Fixpoint keeps {A} (t : P A) (X : list claim) (Q : Result A → list claim → Prop) : Prop :=
  match t with
  | Done r => Q r X
  | Act f k => ∀ s Y, others_claim run Y → shared s (beside X Y) →
      ∃ X', own_list run X' ∧ shared (f s) (beside X' Y) ∧ keeps (k s) X' Q
  end.

Lemma keeps_mono {A} (t : P A) X (Q Q' : Result A → list claim → Prop) :
  (∀ r X, Q r X → Q' r X) → keeps t X Q → keeps t X Q'.
Proof.
  intros HQ. revert X. induction t as [r|f k IH]; intros X; simpl; [apply HQ|].
  intros Hk s Y HY Hs. destruct (Hk s Y HY Hs) as (X' & Ho & Hs' & Hr). exists X'. split_and!; try done. by apply IH.
Qed.

Lemma keeps_bind {A B} (t : P A) (f : A → P B) X Q :
  keeps t X (fun r X' => match r with Ok a => keeps (f a) X' Q | Err e => Q (Err e) X' end) → keeps (t ≫= f) X Q.
Proof.
  unfold mbind, prog_bind. revert X. induction t as [[a|e]|g k IH]; intros X; simpl; try done.
  intros Hk s Y HY Hs. destruct (Hk s Y HY Hs) as (X' & Ho & Hs' & Hr). exists X'. split_and!; try done. by apply IH.
Qed.

Lemma keeps_ignore {A} (t : P A) X Q : keeps t X (fun _ X' => Q (Ok tt) X') → keeps (ignore_err t) X Q.
Proof.
  revert X. induction t as [r|f k IH]; intros X; simpl; [done|].
  intros Hk s Y HY Hs. destruct (Hk s Y HY Hs) as (X' & Ho & Hs' & Hr). exists X'. split_and!; try done. by apply IH.
Qed.

Lemma keeps_done {A} (r : Result A) X (Q : Result A → list claim → Prop) : Q r X → keeps (Done r) X Q.
Proof. done. Qed.

Lemma keeps_act {A} (m : st PS Error.t A) X Q :
  (∀ s Y, others_claim run Y → shared s (beside X Y) →
     ∃ X', own_list run X' ∧ shared (m s).1 (beside X' Y) ∧ Q (m s).2 X') → keeps (act m) X Q.
Proof. done. Qed.

(** An access that changes nothing the invariant speaks of. *)
Lemma keeps_same {A} (m : st PS Error.t A) X Q :
  own_list run X →
  (∀ s, pm_proxies (m s).1.1 = pm_proxies s.1 ∧ pm_group_heap (m s).1.1 = pm_group_heap s.1 ∧
        pm_next_group (m s).1.1 = pm_next_group s.1 ∧ held (m s).1 = held s) →
  (∀ s, Q (m s).2 X) → keeps (act m) X Q.
Proof.
  intros Ho Hm HQ. apply keeps_act. intros s Y _ Hs. exists X. split; [done|]. split; [|done].
  destruct (Hm s) as (E1 & E2 & E3 & E4). by eapply shared_same.
Qed.
End Claims.

(** ** The accesses *)

Definition claims_of (p : Proxy) : list claim :=
  match p with
  | PGroupMember _ addr id => [CMember addr id]
  | _ => match port_of p with Some port => [CPort port] | None => [] end
  end.
Definition strike (key : string) (c : claim) : claim :=
  match c with CEnding run keys => CEnding run (List.filter (fun k => negb (bool_decide (k = key))) keys) | _ => c end.

Lemma held_insert p (s : PS) : held (s.1, insert_port p s.2) = {[p]} ∪ held s.
Proof. unfold held, insert_port. simpl. by rewrite dom_insert_L. Qed.
Lemma held_release p (s : PS) : held (on_rc (release_tcp_port p) s).1 = held s ∖ {[p]}.
Proof. unfold held. simpl. by rewrite dom_delete_L. Qed.

Lemma beside_cons c X Y c' : beside (c :: X) Y c' ↔ c' = c ∨ beside X Y c'.
Proof. unfold beside. rewrite elem_of_cons. tauto. Qed.

Lemma shared_insert_port p s X Y : shared s (beside X Y) → shared (s.1, insert_port p s.2) (beside (CPort p :: X) Y).
Proof.
  intros Hs. apply (shared_more s X (CPort p :: X)) in Hs as [A B K D F];
    [|intros c [->|?]%elem_of_cons; [by right|by left]|intros c ? _; by right].
  split; try done. intros q. rewrite held_insert, elem_of_union, elem_of_singleton. intros [->|Hq]; [|by apply A].
  right; left. apply beside_cons. by left.
Qed.

Lemma shared_release p s X Y :
  shared s (beside (CPort p :: X) Y) → shared (on_rc (release_tcp_port p) s).1 (beside X Y).
Proof.
  intros [A B K D F]. split; [| | | |done].
  - intros q. rewrite held_release, elem_of_difference, not_elem_of_singleton. intros [Hq Hne].
    destruct (A q Hq) as [?|[Hc|(a & i & g & Hc & ?)]]; [by left|right; left|right; right].
    + apply beside_cons in Hc as [[= ->]|?]; done.
    + exists a, i, g. split; [|done]. by apply beside_cons in Hc as [?|?].
  - intros a g i Hg Hi. destruct (B a g i Hg Hi) as [?|Hc]; [by left|right]. by apply beside_cons in Hc as [?|?].
  - intros key Hk. apply K, beside_cons. by right.
  - intros run keys name Hc. apply D, beside_cons. by right.
Qed.

(** A group is changed in place: it keeps its port, and its new backends are claimed. *)
Lemma shared_alter f addr s C :
  (∀ g, pm_group_heap s.1 !! addr = Some g → g_remote_port (f g) = g_remote_port g ∧
     ∀ id, id ∈ ids (g_backends (f g)) → id ∈ ids (g_backends g) ∨ C (CMember addr id)) →
  shared s C → shared (update_group addr f s).1 C.
Proof.
  intros Hf [A B K D F]. unfold update_group. simpl.
  assert (∀ a g, pm_group_heap s.1 !! a = Some g →
    ∃ g', alter f addr (pm_group_heap s.1) !! a = Some g' ∧ g_remote_port g' = g_remote_port g) as Hport.
  { intros a g Hg. destruct (decide (addr = a)) as [->|Hne].
    - exists (f g). rewrite lookup_alter_eq, Hg. split; [done|by apply Hf].
    - exists g. by rewrite lookup_alter_ne. }
  split; simpl; [| |done..|].
  - intros p Hp. destruct (A p Hp) as [(k & h & Hk & [Hl|(n & a & i & g & -> & Hg & <-)])|[?|(a & i & g & Hc & Hg & <-)]].
    + left. exists k, h. split; [done|by left].
    + left. exists k, (PGroupMember n a i). split; [done|]. right. destruct (Hport a g Hg) as (g' & ? & ?). by exists n, a, i, g'.
    + right. by left.
    + right. right. destruct (Hport a g Hg) as (g' & ? & ?). by exists a, i, g'.
  - intros a g i Hg Hi. destruct (decide (addr = a)) as [->|Hne].
    + rewrite lookup_alter_eq in Hg. apply fmap_Some in Hg as (g0 & Hg0 & ->).
      destruct (Hf g0 Hg0) as [_ Hids]. destruct (Hids i Hi) as [?|?]; [by eapply B|by right].
    + rewrite lookup_alter_ne in Hg by done. by eapply B.
  - intros a Ha. apply F. destruct (decide (addr = a)) as [->|Hne].
    + rewrite lookup_alter_eq in Ha. by apply fmap_is_Some in Ha.
    + by rewrite lookup_alter_ne in Ha.
Qed.

Lemma add_backend_in b g id :
  id ∈ ids (g_backends (add_backend b g)) → id ∈ ids (g_backends g) ∨ id = b_backend_id b.
Proof.
  unfold add_backend. destruct (negb _); [|by left]. simpl. unfold ids. rewrite fmap_app, elem_of_app.
  intros [?|Hs]; [by left|right]. simpl in Hs. by apply list_elem_of_singleton in Hs.
Qed.

(** The group loses a backend: the next of its members answers for the port, or
    who emptied it. *)
Lemma shared_retain addr id g s X Y :
  pm_group_heap s.1 !! addr = Some g → shared s (beside (CMember addr id :: X) Y) →
  shared (update_group addr (fun _ => (retain_backends id g).1) s).1
    (beside (if (retain_backends id g).2 then CPort (g_remote_port g) :: X else X) Y).
Proof.
  intros Hg Hs. set (g' := (retain_backends id g).1).
  assert (g_remote_port g' = g_remote_port g) as Hp by done.
  assert (∀ i, i ∈ ids (g_backends g') ↔ i ≠ id ∧ i ∈ ids (g_backends g)) as Hids by apply retain_backends_ids.
  assert (shared (update_group addr (fun _ => g') s).1 (beside (CMember addr id :: X) Y)) as Hs'.
  { apply shared_alter; [|done]. intros g0 Hg0. rewrite Hg in Hg0. injection Hg0 as <-. split; [done|].
    intros i Hi. left. by apply Hids. }
  assert (pm_group_heap (update_group addr (fun _ => g') s).1.1 !! addr = Some g') as Hg'.
  { simpl. by rewrite lookup_alter_eq, Hg. }
  assert ((retain_backends id g).2 = false → ∃ i, i ∈ ids (g_backends g')) as Hne.
  { intros E. destruct (g_backends g') as [|b bs] eqn:Eb.
    - apply retain_backends_empty in Eb. congruence.
    - exists (b_backend_id (bs_snapshot b)). apply elem_of_cons. by left. }
  clear Hs. destruct Hs' as [A B K D F]. set (s' := (update_group addr (fun _ => g') s).1) in *.
  assert (∀ a gg i, pm_group_heap s'.1 !! a = Some gg → i ∈ ids (g_backends gg) →
    (∃ name, pm_proxies s'.1 !! i = Some (PGroupMember name a i)) ∨ beside X Y (CMember a i)) as B'.
  { intros a gg i Ha Hi. destruct (B a gg i Ha Hi) as [?|[[= -> ->]|?]%beside_cons]; [by left| |by right].
    rewrite Hg' in Ha. injection Ha as <-. apply Hids in Hi as [? _]. done. }
  destruct (retain_backends id g).2 eqn:E; split; try done.
  - intros p Hpp. destruct (A p Hpp) as [?|[Hc|(a & i & gg & Hc & Ha & <-)]]; [by left|right; left|].
    + apply beside_cons. right. by apply beside_cons in Hc as [?|?].
    + apply beside_cons in Hc as [[= -> ->]|Hc].
      * right; left. apply beside_cons. left. rewrite Hg' in Ha. by injection Ha as <-.
      * right; right. exists a, i, gg. split; [by apply beside_cons; right|done].
  - intros a gg i Ha Hi. destruct (B' a gg i Ha Hi); [by left|right]. apply beside_cons. by right.
  - intros key [?|?]%beside_cons; [done|]. apply K, beside_cons. by right.
  - intros run keys name [?|?]%beside_cons; [done|]. apply D, beside_cons. by right.
  - intros p Hpp. destruct (A p Hpp) as [?|[Hc|(a & i & gg & Hc & Ha & <-)]]; [by left|right; left|].
    + by apply beside_cons in Hc as [?|?].
    + apply beside_cons in Hc as [[= -> ->]|Hc]; [|right; right; by exists a, i, gg].
      rewrite Hg' in Ha. injection Ha as <-. destruct (Hne eq_refl) as [i' Hi'].
      destruct (B' addr g' i' Hg' Hi') as [[n Hn]|Hc].
      * left. exists i', (PGroupMember n addr i'). split; [done|]. right. by exists n, addr, i', g'.
      * right; right. by exists addr, i', g'.
  - intros key Hk. apply K, beside_cons. by right.
  - intros run keys name Hc. apply D, beside_cons. by right.
Qed.

Lemma shared_add_group gid created key s X Y :
  g_backends created = [] → shared s (beside (CPort (g_remote_port created) :: X) Y) →
  shared (add_group gid created s).1 (beside (CMember (pm_next_group s.1) key :: X) Y).
Proof.
  intros Hb [A B K D F]. set (a0 := pm_next_group s.1) in *.
  assert (∀ a g, pm_group_heap s.1 !! a = Some g → <[a0 := created]> (pm_group_heap s.1) !! a = Some g) as Hold.
  { intros a g Hg. rewrite lookup_insert_ne; [done|]. intros <-. assert (a0 < a0); [apply F; by eexists|lia]. }
  split; simpl; fold a0.
  - intros p Hp. destruct (A p Hp) as [(k & h & Hk & [Hl|(n & a & i & g & -> & Hg & <-)])|[Hc|(a & i & g & Hc & Hg & <-)]].
    + left. exists k, h. split; [done|by left].
    + left. exists k, (PGroupMember n a i). split; [done|]. right. exists n, a, i, g. by auto.
    + apply beside_cons in Hc as [[= ->]|Hc]; [|right; left; by apply beside_cons; right].
      right; right. exists a0, key, created. split; [by apply beside_cons; left|]. by rewrite lookup_insert_eq.
    + apply beside_cons in Hc as [?|Hc]; [done|]. right; right. exists a, i, g. split; [by apply beside_cons; right|auto].
  - intros a g i Hg Hi. destruct (decide (a0 = a)) as [<-|Hne].
    + rewrite lookup_insert_eq in Hg. injection Hg as <-. rewrite Hb in Hi. by apply not_elem_of_nil in Hi.
    + rewrite lookup_insert_ne in Hg by done. destruct (B a g i Hg Hi) as [?|Hc]; [by left|right].
      apply beside_cons. right. by apply beside_cons in Hc as [?|?].
  - intros k [?|?]%beside_cons; [done|]. apply K, beside_cons. by right.
  - intros run keys name [?|?]%beside_cons; [done|]. apply D, beside_cons. by right.
  - intros a Ha. destruct (decide (a0 = a)) as [<-|Hne]; [lia|]. rewrite lookup_insert_ne in Ha by done.
    specialize (F a Ha). lia.
Qed.

Lemma listens_claimed h p heap :
  listens heap h p → CPort p ∈ claims_of h ∨
  ∃ addr id g, CMember addr id ∈ claims_of h ∧ heap !! addr = Some g ∧ g_remote_port g = p.
Proof.
  intros [Hp|(n & a & i & g & -> & Hg & <-)]; [left|right].
  - destruct h as [t|n a i|n|k|k|u|n [t|]]; simplify_eq/=; by left.
  - exists a, i, g. split; [by left|done].
Qed.
Lemma claimed_listens h c : c ∈ claims_of h →
  match c with
  | CPort p => port_of h = Some p
  | CMember addr id => ∃ name, h = PGroupMember name addr id
  | _ => False
  end.
Proof. destruct h as [t|n a i|n|k|k|u|n [t|]]; simpl; rewrite ?elem_of_nil, ?list_elem_of_singleton; naive_solver. Qed.

Lemma strike_owing key c (X : list claim) : owing c → c ∈ strike key <$> X ↔ c ∈ X.
Proof.
  intros Hc. rewrite list_elem_of_fmap. split.
  - intros ([] & -> & Hx); done.
  - intros Hx. exists c. split; [by destruct c|done].
Qed.

(** A proxy is taken out: who took it answers for what it had. *)
Lemma shared_take key s X Y :
  shared s (beside X Y) →
  shared (remove_entry key s).1
    (beside (match pm_proxies s.1 !! key with Some h => claims_of h | None => [] end ++ (strike key <$> X)) Y).
Proof.
  intros [A B K D F]. unfold remove_entry.
  set (Z' := match pm_proxies s.1 !! key with Some h => claims_of h | None => [] end).
  assert (∀ c, owing c → beside X Y c → beside (Z' ++ (strike key <$> X)) Y c) as Hup.
  { intros c Hc [Hx|Hy]; [left|by right]. apply elem_of_app. right. by apply strike_owing. }
  assert (∀ c, c ∈ Z' → owing c) as HZ.
  { intros c. unfold Z'. destruct (_ !! key); [|by intros ?%elem_of_nil]. intros Hc%claimed_listens. by destruct c. }
  assert (∀ s', pm_proxies s'.1 = delete key (pm_proxies s.1) → pm_group_heap s'.1 = pm_group_heap s.1 →
    pm_next_group s'.1 = pm_next_group s.1 → held s' = held s → shared s' (beside (Z' ++ (strike key <$> X)) Y)) as Hgo.
  { intros s' E1 E2 E3 E4. split; rewrite ?E1, ?E2, ?E3, ?E4; [| | | |done].
    - intros p Hp. destruct (A p Hp) as [(k & h & Hk & Hl)|[?|(a & i & g & Hc & Ha)]].
      + destruct (decide (k = key)) as [->|Hne]; [|left; exists k, h; by rewrite lookup_delete_ne].
        unfold Z'. rewrite Hk. destruct (listens_claimed _ _ _ Hl) as [Hc|(a & i & g & Hc & Ha)].
        * right; left; left. apply elem_of_app. by left.
        * right; right. exists a, i, g. split; [left; apply elem_of_app; by left|done].
      + right; left. by apply Hup.
      + right; right. exists a, i, g. split; [by apply Hup|done].
    - intros a g i Hg Hi. destruct (B a g i Hg Hi) as [[n Hn]|?]; [|right; by apply Hup].
      destruct (decide (i = key)) as [->|Hne]; [|left; exists n; by rewrite lookup_delete_ne].
      right; left. apply elem_of_app. left. unfold Z'. rewrite Hn. by left.
    - intros k Hk. destruct (decide (k = key)) as [->|Hne]; [by apply lookup_delete_eq|]. rewrite lookup_delete_ne by done.
      apply K. destruct Hk as [[Hz|([] & [= ->] & Hx)%list_elem_of_fmap]%elem_of_app|Hy]; [by apply HZ in Hz|by left|by right].
    - intros run keys name Hc Hk. destruct (decide (proxy_key_of run name = key)) as [E|Hne].
      { rewrite E, lookup_delete_eq in Hk. by destruct Hk. }
      rewrite lookup_delete_ne in Hk by done.
      destruct Hc as [[Hz|([] & Ec & Hx)%list_elem_of_fmap]%elem_of_app|Hy]; simplify_eq/=; [by apply HZ in Hz| |].
      + apply elem_of_filter_b. split; [by rewrite bool_decide_false|]. eapply D; [by left|done].
      + eapply D; [by right|done]. }
  destruct (pm_proxies s.1 !! key) eqn:E; apply Hgo; try done. by rewrite delete_id.
Qed.

(** The proxy is put in, and what it has goes with it. *)
Lemma shared_insert_proxy run name h s Y :
  let key := proxy_key_of run name in
  match h with PGroupMember _ _ id => id = key | _ => True end →
  others_claim run Y → shared s (beside (claims_of h ++ [CKey key]) Y) → shared (insert_proxy key h s).1 (beside [] Y).
Proof.
  intros key Hid [HY1 HY2] [A B K D F].
  assert (pm_proxies s.1 !! key = None) as Hnone by (apply K; left; apply elem_of_app; right; by left).
  assert (∀ c, owing c → beside (claims_of h ++ [CKey key]) Y c → c ∈ claims_of h ∨ beside [] Y c) as Hdown.
  { intros c Hc [[?| ->%list_elem_of_singleton]%elem_of_app|?]; [by left|done|right; by right]. }
  assert (∀ k h', pm_proxies s.1 !! k = Some h' → <[key := h]> (pm_proxies s.1) !! k = Some h') as Hold.
  { intros k h' Hk. rewrite lookup_insert_ne; [done|]. intros <-. congruence. }
  split; simpl.
  - intros p Hp. destruct (A p Hp) as [(k & h' & Hk & Hl)|[Hc|(a & i & g & Hc & Ha & <-)]].
    + left. exists k, h'. split; [by apply Hold|done].
    + destruct (Hdown (CPort p) I Hc) as [Hh%claimed_listens|?]; [|right; by left].
      left. exists key, h. split; [by rewrite lookup_insert_eq|by left].
    + destruct (Hdown (CMember a i) I Hc) as [[n ->]%claimed_listens|?]; [|right; right; by exists a, i, g].
      left. exists key, (PGroupMember n a i). split; [by rewrite lookup_insert_eq|]. right. by exists n, a, i, g.
  - intros a g i Hg Hi. destruct (B a g i Hg Hi) as [[n Hn]|Hc]; [left; exists n; by apply Hold|].
    destruct (Hdown (CMember a i) I Hc) as [[n ->]%claimed_listens|?]; [|by right]. left. exists n. subst i. by rewrite lookup_insert_eq.
  - intros k [?%not_elem_of_nil|Hy]; [done|]. rewrite lookup_insert_ne; [apply K; by right|].
    intros <-. by destruct (HY1 name).
  - intros run' keys name' [?%not_elem_of_nil|Hy]; [done|]. rewrite lookup_insert_ne; [apply D; by right|].
    intros E. by apply (HY2 run' keys Hy name' name).
  - done.
Qed.

(** ** The calls keep the invariant *)

Section Calls.
Context `{Json} `{UnicodeLower} `{DashIter} (run : string).
#[local] Arguments keeps : simpl never.
#[local] Arguments act : simpl never.
#[local] Arguments prog_bind_go : simpl never.
Abbreviation own X := (own_list run X).
Abbreviation frame X := (framed run X).

(** At the end of a program. *)
Ltac ends := first [done | apply keeps_done; done | apply keeps_done; simpl; by auto].

(** The result of a constructor: a success claims [c a], an error nothing. *)
Definition claiming {A} (c : A → list claim) (X : list claim) (r : Result A) (X' : list claim) : Prop :=
  match r with Ok a => X' = c a ++ X | Err _ => X' = X end.

Definition created (key : string) (X : list claim) (r : Result (Proxy * string)) (X' : list claim) : Prop :=
  match r with
  | Ok pa => X' = claims_of pa.1 ++ X ∧ match pa.1 with PGroupMember _ _ id => id = key | _ => True end
  | Err _ => X' = X
  end.

Lemma own_port p X : frame X → own (CPort p :: X). Proof. by apply own_cons. Qed.

Lemma keeps_insert_port p X Q :
  frame X → Q (Ok tt) (CPort p :: X) → keeps run (act (on_rc (st_modify (insert_port p)))) X Q.
Proof.
  intros Ho HQ; pose proof (framed_own _ _ Ho). apply keeps_act. intros s Y _ Hs. exists (CPort p :: X). split; [by apply own_port|].
  split; [by apply shared_insert_port|done].
Qed.
Lemma keeps_release p X Q :
  frame X → Q (Ok tt) X → keeps run (act (on_rc (release_tcp_port p))) (CPort p :: X) Q.
Proof.
  intros Ho HQ; pose proof (framed_own _ _ Ho). apply keeps_act. intros s Y _ Hs. exists X. split; [done|]. split; [by apply shared_release|done].
Qed.

Lemma keeps_allocate p X : frame X → keeps run (allocate_p p) X (claiming (fun q => [CPort q]) X).
Proof.
  intros Ho; pose proof (framed_own _ _ Ho). apply keeps_bind, keeps_same; [done| |].
  - intros [m rc]. unfold on_rc, zoom, st_guard. cbv [mbind st_bind st_get]. simpl.
    destruct (is_port_allowed rc p); [|done]. simpl. by destruct (contains_port rc p).
  - intros s. destruct (on_rc _ s).2; [|done]. apply keeps_bind, keeps_insert_port; ends.
Qed.

Lemma keeps_random n X : frame X → keeps run (random_p n) X (claiming (fun q => [CPort q]) X).
Proof.
  intros Ho; pose proof (framed_own _ _ Ho). induction n as [|n IH]; [ends|]. cbn [random_p]. apply keeps_bind, keeps_same; [done|by intros []|].
  intros s. destruct (on_rc fetch_add_port s).2 as [port|e]; [|done]. destruct (65535 <=? port).
  - apply keeps_bind, keeps_same; [done|by intros []|]. intros s'. by destruct (on_rc _ s').2.
  - apply keeps_bind, keeps_same; [done|by intros []|]. intros s'.
    destruct (on_rc _ s').2 as [[]|e]; [|done..].
    apply keeps_bind, keeps_insert_port; ends.
Qed.

Lemma keeps_take_port p X : frame X → keeps run (take_port_p p) X (claiming (fun q => [CPort q]) X).
Proof. intros Ho; pose proof (framed_own _ _ Ho). unfold take_port_p. destruct (0 <? p); [by apply keeps_allocate|by apply keeps_random]. Qed.

(** A port is taken and bound: its taker has it, or it was given back. *)
Lemma keeps_bound {A} (t : P Z) bind (mk : Z → A) X Q :
  frame X → keeps run t X (claiming (fun q => [CPort q]) X) →
  (∀ p, Q (Ok (mk p)) (CPort p :: X)) → (∀ e, Q (Err e) X) →
  keeps run (p ← t; _ ← bind_p bind p; mret (mk p)) X Q.
Proof.
  intros Ho Ht Hok Herr; pose proof (framed_own _ _ Ho). apply keeps_bind. eapply keeps_mono; [|exact Ht]. intros [p|e] X' HX; simpl in HX; subst X'; [|done].
  apply keeps_bind. unfold bind_p. destruct (bind p) as [e|]; [|apply keeps_done, keeps_done, Hok].
  apply keeps_bind, keeps_release; [done|]. apply keeps_done, Herr.
Qed.

Lemma keeps_tcp binds msg tx X :
  frame X → keeps run (tcp_proxy_p binds msg tx) X (claiming (fun t => [CPort (tp_remote_port t)]) X).
Proof. intros Ho; pose proof (framed_own _ _ Ho). apply keeps_bound; [done|by apply keeps_take_port|done..]. Qed.
Lemma keeps_udp binds msg tx X :
  frame X → keeps run (udp_proxy_p binds msg tx) X (claiming (fun t => [CPort (ud_remote_port t)]) X).
Proof. intros Ho; pose proof (framed_own _ _ Ho). apply keeps_bound; [done|by apply keeps_take_port|done..]. Qed.

(** An access that reads may show what is to be claimed. *)
Lemma keeps_get {A B} (h : ProxyManager → A) (f : A → P B) X Q :
  (∀ s Y, others_claim run Y → shared s (beside X Y) →
     ∃ X', own X' ∧ shared s (beside X' Y) ∧ keeps run (f (h s.1)) X' Q) →
  keeps run (act (m ← pm_get; mret (h m)) ≫= f) X Q.
Proof.
  intros Hk. apply keeps_bind, keeps_act. intros [m rc] Y HY Hs. destruct (Hk _ _ HY Hs) as (X' & ? & ? & ?). by exists X'.
Qed.

(** The group of a member: the member answers for it from here on. *)
Lemma keeps_group binds gid p key X :
  frame X → keeps run (group_p binds gid p) X (claiming (fun addr => [CMember addr key]) X).
Proof.
  intros Ho; pose proof (framed_own _ _ Ho). apply keeps_get. intros s Y _ Hs.
  destruct (pm_tcp_groups s.1 !! gid) as [addr|].
  { exists (CMember addr key :: X). split; [by apply own_cons|]. split; [|ends].
    revert Hs. apply shared_more; [|intros; by right]. intros c [->|?]%elem_of_cons; [by right|by left]. }
  exists X. split; [done|]. split; [done|]. apply keeps_bind. unfold grouped_p.
  apply keeps_bound; [done|by apply keeps_allocate| |done]. clear s Y Hs. intros q.
  apply keeps_act. intros s Y _ Hs. exists (CMember (pm_next_group s.1) key :: X). split; [by apply own_cons|].
  split; [|done]. by apply shared_add_group.
Qed.

Lemma keeps_update addr f X Q :
  own X →
  (∀ g id, g_remote_port (f g) = g_remote_port g ∧
     (id ∈ ids (g_backends (f g)) → id ∈ ids (g_backends g) ∨ CMember addr id ∈ X)) →
  Q (Ok tt) X → keeps run (act (update_group addr f)) X Q.
Proof.
  intros Ho Hf HQ. apply keeps_act. intros s Y _ Hs. exists X. split; [done|]. split; [|done].
  apply shared_alter; [|done]. intros g _. split; [by apply (Hf g ""%string)|]. intros id Hid.
  destruct (proj2 (Hf g id) Hid); [by left|right; by left].
Qed.

Lemma keeps_group_member binds key msg tx g gk X :
  frame X → keeps run (group_member_p binds key msg tx g gk) X (created key X).
Proof.
  intros Ho; pose proof (framed_own _ _ Ho). apply keeps_bind. unfold guard_that. destruct (_ =? 0); [ends|]. apply keeps_done.
  apply keeps_bind. eapply keeps_mono; [|by apply (keeps_group _ _ _ key)].
  intros [addr|e] X' HX; simpl in HX; subst X'; [|done].
  assert (own (CMember addr key :: X)) by (by apply own_cons).
  apply keeps_bind, keeps_update; [done| |].
  { intros gr id. split; [unfold add_backend; by destruct (negb _)|]. intros [?| ->]%add_backend_in; [by left|right; by left]. }
  apply keeps_bind, keeps_update; [done|intros gr id; split; [done|by left]|].
  apply keeps_bind, keeps_same; [done|by intros []|]. intros s. ends.
Qed.

Lemma keeps_guard_get {B} (bad : ProxyManager → bool) e (f : unit → P B) X Q :
  own X → Q (Err e) X → keeps run (f tt) X Q →
  keeps run (act (m ← pm_get; st_guard (bad m) e) ≫= f) X Q.
Proof.
  intros Ho He Hf. apply keeps_bind, keeps_same; [done|intros s; cbv [mbind st_bind pm_get]; by destruct (bad _)|].
  intros s. cbv [mbind st_bind pm_get]. by destruct (bad _) as [|].
Qed.

Lemma keeps_create binds msg tx X :
  frame X → keeps run (create_p binds run msg tx) X (created (proxy_key_of run (np_proxy_name msg)) X).
Proof.
  intros Ho; pose proof (framed_own _ _ Ho). unfold create_p. cbv zeta.
  destruct (bool_decide (_ = "tcp"%string)).
  { destruct (parse_lb_group msg) as [g gk]. destruct (is_empty g); [|by apply keeps_group_member].
    apply keeps_bind. eapply keeps_mono; [|by apply keeps_tcp]. intros [t|e] X' HX; simpl in HX; subst X'; ends. }
  destruct (bool_decide (_ = "stcp"%string)).
  { apply keeps_bind. unfold guard_that. destruct (is_empty _); [ends|]. apply keeps_done.
    apply keeps_guard_get; [done..|]. apply keeps_bind, keeps_same; [done|by intros []|intros s; ends]. }
  do 2 (destruct (bool_decide (_ = _));
    [apply keeps_bind, keeps_same; [done|intros s; unfold on_vhost, zoom; by destruct (register_http _ _ _ _) || by destruct (register_https _ _ _ _)|];
     intros s; destruct (on_vhost _ s).2; ends|]).
  destruct (_ || _).
  { apply keeps_bind. eapply keeps_mono; [|by apply keeps_udp]. intros [t|e] X' HX; simpl in HX; subst X'; ends. }
  destruct (bool_decide (_ = "xtcp"%string)); [|ends].
  apply keeps_bind. unfold guard_that. destruct (is_empty _); [ends|]. apply keeps_done.
  apply keeps_guard_get; [done..|]. apply keeps_bind. destruct (np_fallback_to_relay msg).
  - apply keeps_bind. eapply keeps_mono; [|by apply keeps_tcp]. intros [t|e] X' HX; simpl in HX; subst X'; [|done].
    apply keeps_done, keeps_bind, keeps_same; [by apply own_port|by intros []|intros s; ends].
  - apply keeps_done, keeps_bind, keeps_same; [done|by intros []|intros s; ends].
Qed.

Lemma own_claims h X : frame X → own (claims_of h ++ X).
Proof. intros HX. destruct h as [t|n a i|n|k|k|u|n [t|]]; by first [apply own_cons|apply framed_own]. Qed.
Lemma frame_strike key X : frame X → frame (strike key <$> X).
Proof.
  intros [A B]. split; [apply Forall_fmap; eapply Forall_impl; [exact A|]; by intros []|].
  intros c (c' & -> & Hc)%list_elem_of_fmap Ho. apply (B c' Hc). by destruct c'.
Qed.

(** What a call may leave behind: no claim on a port or a backend. *)
Definition ended {A} (r : Result A) (X : list claim) : Prop := ∀ c, c ∈ X → ¬ owing c.
Lemma ended_key {A} (r : Result A) key : ended r [CKey key].
Proof. intros c ->%list_elem_of_singleton []. Qed.
Lemma ended_nil {A} (r : Result A) : ended r [].
Proof. by intros c ?%elem_of_nil. Qed.

Lemma keeps_register binds msg tx : keeps run (register_p binds run msg tx) [] ended.
Proof.
  unfold register_p. cbv zeta. set (key := proxy_key_of run (np_proxy_name msg)).
  assert (frame [CKey key]) as Hf.
  { split; [constructor; [by eexists|done]|]. intros c ->%list_elem_of_singleton []. }
  pose proof (framed_own _ _ Hf) as Ho. pose proof (own_nil run) as Hnil. pose proof (framed_nil run) as Hfnil.
  apply keeps_bind, keeps_act. intros s Y HY Hs.
  assert (Hc : ∃ r, (m ← pm_get; st_guard (bool_decide (is_Some (pm_proxies m !! key)))
    (Error.Proxy ("Proxy " +:+ np_proxy_name msg +:+ " already exists"))) s = (s, r) ∧ (is_ok r = true → pm_proxies s.1 !! key = None)).
  { cbv [mbind st_bind pm_get st_guard]. case_bool_decide as Hk; eexists; (split; [reflexivity|]); [done|].
    intros _. by apply eq_None_not_Some. }
  destruct Hc as (r & -> & Hnone). destruct r as [[]|e]; [|exists []; split; [done|]; split; [done|apply ended_nil]].
  exists [CKey key]. split; [done|]. split.
  { destruct Hs as [A B K D F]. split; [| | | |done].
    - intros p Hp. destruct (A p Hp) as [?|[[?%elem_of_nil|?]|(a & i & g & [?%elem_of_nil|?] & ?)]]; [by left|done| |done|].
      + right; left. by right.
      + right; right. exists a, i, g. split; [by right|done].
    - intros a g i Hg Hi. destruct (B a g i Hg Hi) as [?|[?%elem_of_nil|?]]; [by left|done|right; by right].
    - intros k [[= ->]%list_elem_of_singleton|?]; [by apply Hnone|apply K; by right].
    - intros run' keys name [?%list_elem_of_singleton|?]; [done|apply D; by right]. }
  cbn [snd]. clear s Y HY Hs Hnone. apply keeps_bind. eapply keeps_mono; [|by apply keeps_create].
  intros [[h addr]|e] X' HX; simpl in HX; [|subst X'; apply ended_key]. destruct HX as [-> Hid].
  apply keeps_bind, keeps_act. intros s Y HY Hs. exists []. split; [done|].
  split; [by eapply shared_insert_proxy|]. apply keeps_bind, keeps_same; [done|by intros []|]. intros s'.
  apply keeps_done, ended_nil.
Qed.

Lemma keeps_close h X : frame X → keeps run (close_p h) (claims_of h ++ X) (fun r X' => r = Ok tt ∧ X' = X).
Proof.
  intros Ho; pose proof (framed_own _ _ Ho). destruct h as [t|n a i|n|k|k|u|n [t|]]; simpl.
  1, 6: by apply keeps_release.
  2, 3, 4: apply keeps_same; [done|by intros []|by intros []].
  - apply keeps_bind, keeps_act. intros s Y _ Hs. unfold retain_group.
    destruct (pm_group_heap s.1 !! a) as [g|] eqn:Hg.
    + pose proof (shared_retain a i g s X Y Hg Hs) as Hs'. destruct (retain_backends i g) as [g' empty]. simpl in Hs'.
      exists (if empty then CPort (g_remote_port g) :: X else X). split; [destruct empty; [by apply own_port|done]|].
      split; [done|]. destruct empty; [|ends]. apply keeps_bind, keeps_release; [done|].
      apply keeps_same; [done|by intros []|by intros []].
    + exists X. split; [done|]. split; [|ends]. destruct Hs as [A B K D F]. split; [| | | |done].
      * intros p Hp. destruct (A p Hp) as [?|[Hc|(a' & i' & g & Hc & Hg' & ?)]]; [by left|right; left|right; right].
        -- by apply beside_cons in Hc as [?|?].
        -- apply beside_cons in Hc as [[= -> ->]|Hc]; [by rewrite Hg in Hg'|by exists a', i', g].
      * intros a' g i' Hg' Hi. destruct (B a' g i' Hg' Hi) as [?|[[= E1 E2]|?]%beside_cons]; [by left| |by right].
        simpl in Hg'. subst. congruence.
      * intros k Hk. apply K, beside_cons. by right.
      * intros run' keys name Hc. apply D, beside_cons. by right.
  - apply keeps_bind, keeps_release; [done|]. apply keeps_same; [done|by intros []|by intros []].
  - apply keeps_bind, keeps_done, keeps_same; [done|by intros []|by intros []].
Qed.

Lemma keeps_remove key X : frame X → keeps run (remove_p key) X (fun r X' => r = Ok tt ∧ X' = strike key <$> X).
Proof.
  intros Ho; pose proof (framed_own _ _ Ho). apply keeps_bind, keeps_act. intros s Y _ Hs. pose proof (shared_take key s X Y Hs) as Hs'.
  eexists. split; [|split; [exact Hs'|]].
  - destruct (pm_proxies s.1 !! key); [by apply own_claims, frame_strike|by apply framed_own, frame_strike].
  - unfold remove_entry. destruct (pm_proxies s.1 !! key) as [h|]; [|ends].
    apply keeps_bind, keeps_same; [by apply own_claims, frame_strike|by intros []|]. intros s'.
    by apply keeps_close, frame_strike.
Qed.

Lemma keeps_evict name : keeps run (evict_p name) [] ended.
Proof.
  pose proof (own_nil run) as Hnil. pose proof (framed_nil run) as Hfnil.
  apply keeps_get. intros s Y _ Hs. exists []. split; [done|]. split; [done|].
  destruct (List.find _ _) as [[key h]|]; [|apply keeps_done, ended_nil].
  apply keeps_bind, keeps_ignore. eapply keeps_mono; [|by apply keeps_remove]. intros r X [_ ->].
  apply keeps_bind, keeps_same; [done|by intros []|]. intros s'. apply keeps_done, ended_nil.
Qed.

Lemma frame_ending keys : frame [CEnding run keys].
Proof. split; [by constructor|]. intros c ->%list_elem_of_singleton []. Qed.

Lemma keeps_remove_all keys L :
  L ⊆ keys → keeps run (remove_all_p keys) [CEnding run L] (fun r X' => r = Ok tt ∧ X' = [CEnding run []]).
Proof.
  revert L. induction keys as [|key rest IH]; intros L HL; cbn [remove_all_p].
  { apply keeps_done. apply list_nil_subseteq in HL. by subst. }
  apply keeps_bind. eapply keeps_mono; [|apply keeps_remove, frame_ending].
  intros r X [-> ->]. apply IH. intros k [Hk HkL]%elem_of_filter_b. apply negb_true_iff, bool_decide_eq_false in Hk.
  apply HL in HkL. by apply elem_of_cons in HkL as [?|?].
Qed.

Lemma keeps_unregister_run :
  keeps run (unregister_run_p run) [] (fun r X' => r = Ok tt ∧ X' = [CEnding run []]).
Proof.
  apply keeps_get. intros s Y _ Hs. exists [CEnding run (run_keys run s.1)]. split; [apply framed_own, frame_ending|].
  split; [|by apply keeps_remove_all]. destruct Hs as [A B K D F]. split; [| | | |done].
  - intros p Hp. destruct (A p Hp) as [?|[[?%elem_of_nil|?]|(a & i & g & [?%elem_of_nil|?] & ?)]]; [by left|done| |done|].
    + right; left. by right.
    + right; right. exists a, i, g. split; [by right|done].
  - intros a g i Hg Hi. destruct (B a g i Hg Hi) as [?|[?%elem_of_nil|?]]; [by left|done|right; by right].
  - intros k [?%list_elem_of_singleton|?]; [done|apply K; by right].
  - intros run' keys name [[= -> ->]%list_elem_of_singleton|?]; [|apply D; by right]. intros [h Hh].
    apply elem_of_filter_b. split.
    + apply starts_with_iff. exists name. unfold proxy_key_of. apply (inj to_bytes). by rewrite !to_bytes_app, <- app_assoc.
    + apply list_elem_of_fmap. exists (proxy_key_of run name, h). split; [done|].
      rewrite dash_iter_perm. by apply elem_of_map_to_list.
Qed.
End Calls.

(** A program puts no proxies in but under the keys of its own client. *)
Fixpoint puts_own {A} (run : string) (t : P A) : Prop :=
  match t with
  | Done _ => True
  | Act f k => (∀ s key, is_Some (pm_proxies (f s).1 !! key) →
                  is_Some (pm_proxies s.1 !! key) ∨ ∃ name, key = proxy_key_of run name) ∧
               ∀ s, puts_own run (k s)
  end.

Section Adds.
Context `{Json} `{UnicodeLower} `{DashIter} (run : string).

Lemma puts_bind {A B} (t : P A) (f : A → P B) : puts_own run t → (∀ a, puts_own run (f a)) → puts_own run (t ≫= f).
Proof.
  intros Ht Hf. unfold mbind, prog_bind. induction t as [[a|e]|g k IH]; simpl; [apply Hf|done|].
  destruct Ht as [Hg Hk]. split; [done|]. intros s. by apply IH.
Qed.
Lemma puts_ignore {A} (t : P A) : puts_own run t → puts_own run (ignore_err t).
Proof. induction t as [r|g k IH]; simpl; [done|]. intros [Hg Hk]. split; [done|]. intros s. by apply IH. Qed.
Lemma puts_act {A} (m : st PS Error.t A) : (∀ s, pm_proxies (m s).1.1 ⊆ pm_proxies s.1) → puts_own run (act m).
Proof. intros Hm. split; [|done]. intros s key [h Hh]. left. exists h. by eapply lookup_weaken. Qed.
Lemma puts_rc {A} (m : st ResourceController Error.t A) : puts_own run (act (on_rc m)).
Proof. apply puts_act. intros [pm rc]. unfold on_rc, zoom. simpl. by destruct (m rc). Qed.
Lemma puts_get {A} (h : ProxyManager → A) : puts_own run (act (m ← pm_get; mret (h m))).
Proof. apply puts_act. by intros []. Qed.
Lemma puts_guard (bad : ProxyManager → bool) e : puts_own run (act (m ← pm_get; st_guard (bad m) e)).
Proof. apply puts_act. intros [m rc]. cbv [mbind st_bind pm_get]. simpl. by destruct (bad m). Qed.
Lemma puts_modify f : (∀ m, pm_proxies (f m) ⊆ pm_proxies m) → puts_own run (act (pm_modify f)).
Proof. intros Hf. apply puts_act. intros [m rc]. apply Hf. Qed.

#[local] Arguments act : simpl never.
#[local] Arguments puts_own : simpl never.
(** The next access, or the end. *)
Ltac puts := repeat first
  [ done | intros ? | apply puts_bind | apply puts_rc | apply puts_get | apply puts_guard
  | (apply puts_modify; done) | (apply puts_act; done) ].

Lemma puts_allocate p : puts_own run (allocate_p p).
Proof. unfold allocate_p. puts. Qed.
Lemma puts_random n : puts_own run (random_p n).
Proof.
  induction n as [|n IH]; [done|]. cbn [random_p]. apply puts_bind; [apply puts_rc|]. intros port. destruct (_ <=? _).
  - by puts.
  - apply puts_bind; [apply puts_rc|]. intros []; by puts.
Qed.
Lemma puts_bound {A} (t : P Z) bind (mk : Z → A) :
  puts_own run t → puts_own run (p ← t; _ ← bind_p bind p; mret (mk p)).
Proof. intros Ht. apply puts_bind; [done|]. intros p. unfold bind_p. destruct (bind p); by puts. Qed.
Lemma puts_tcp binds msg tx : puts_own run (tcp_proxy_p binds msg tx).
Proof. apply puts_bound. unfold take_port_p. destruct (_ <? _); [apply puts_allocate|apply puts_random]. Qed.

Lemma puts_create binds msg tx : puts_own run (create_p binds run msg tx).
Proof.
  unfold create_p. cbv zeta. destruct (bool_decide (_ = "tcp"%string)).
  { destruct (parse_lb_group msg) as [g gk]. destruct (is_empty g); [apply puts_bind; [apply puts_tcp|done]|].
    unfold group_member_p, guard_that. apply puts_bind; [by destruct (_ =? 0)|]. intros _. cbv zeta.
    apply puts_bind; [|by puts]. unfold group_p. apply puts_bind; [by puts|]. intros [addr|]; [done|].
    apply puts_bind; [apply puts_bound, puts_allocate|]. by puts. }
  destruct (bool_decide (_ = "stcp"%string)).
  { unfold stcp_p, guard_that. apply puts_bind; [by destruct (is_empty _)|]. by puts. }
  do 2 (destruct (bool_decide (_ = _)); [apply puts_bind; [|done]; apply puts_act; intros s; unfold on_vhost, zoom;
    by destruct (register_http _ _ _ _) || by destruct (register_https _ _ _ _)|]).
  destruct (_ || _).
  { apply puts_bind; [|done]. apply puts_bound. unfold take_port_p. destruct (_ <? _); [apply puts_allocate|apply puts_random]. }
  destruct (bool_decide (_ = "xtcp"%string)); [|done].
  unfold xtcp_p, guard_that. apply puts_bind; [by destruct (is_empty _)|]. intros _. apply puts_bind; [by puts|]. intros _.
  apply puts_bind; [destruct (np_fallback_to_relay msg); [apply puts_bind; [apply puts_tcp|done]|done]|]. by puts.
Qed.

Lemma puts_register binds msg tx : puts_own run (register_p binds run msg tx).
Proof.
  unfold register_p. cbv zeta. apply puts_bind; [by puts|]. intros _. apply puts_bind; [apply puts_create|]. intros [h addr].
  apply puts_bind; [|by puts]. split; [|done]. intros s key [h' Hh]. simpl in Hh.
  apply lookup_insert_Some in Hh as [[<- _]|[_ Hh]]; [right; by eexists|left; by eexists].
Qed.

Lemma puts_remove key : puts_own run (remove_p key).
Proof.
  unfold remove_p. apply puts_bind.
  { apply puts_act. intros s. unfold remove_entry. destruct (pm_proxies s.1 !! key); [apply delete_subseteq|done]. }
  intros [h|]; [|done]. apply puts_bind; [by puts|]. intros _. destruct h as [t|n a i|n|k|k|u|n [t|]]; cbn [close_p]; try (by puts).
  unfold close_member_p. apply puts_bind.
  - apply puts_act. intros s. unfold retain_group. destruct (pm_group_heap s.1 !! a) as [g|]; [|done].
    by destruct (retain_backends i g) as [g' []].
  - intros [[port gid]|]; by puts.
Qed.

Lemma puts_evict name : puts_own run (evict_p name).
Proof.
  unfold evict_p. apply puts_bind; [by puts|]. intros [[key h]|]; [|done].
  apply puts_bind; [apply puts_ignore, puts_remove|]. by puts.
Qed.
Lemma puts_unregister_run : puts_own run (unregister_run_p run).
Proof.
  unfold unregister_run_p. apply puts_bind; [by puts|]. intros keys. induction keys as [|key rest IH]; [done|].
  cbn [remove_all_p]. apply puts_bind; [apply puts_remove|done].
Qed.
End Adds.

(** ** The tasks of the clients *)

Section Machine.
Context `{Json} `{UnicodeLower} `{DashIter}.

(** What the task of a client calls for a message: [handle_new_proxy] takes a
    name over and registers, [handle_close_proxy] closes.  What the calls return
    goes into answers and logs. *)
Inductive op :=
| ORegister (binds : Binds) (msg : NewProxyMsg) (tx : Sender)
| OClose (proxy_name : string)
| OTakeOver (proxy_name : string).
Definition op_p (run_id : string) (o : op) : P unit :=
  match o with
  | ORegister binds msg tx => ignore_err (register_p binds run_id msg tx)
  | OClose name => unregister_p run_id name
  | OTakeOver name => ignore_err (evict_p name)
  end.

(** The task of a client awaits each call before it reads the next message; when
    its connection ends it unregisters the proxies of the run and is gone. *)
Inductive phase := Idle | Busy (t : P unit) | Leaving (t : P unit).
Record Tasks := mkTasks { tk_state : PS; tk_runs : gmap string phase }.

Definition tasks_new (addr host : string) (http https : Z) (config : ServerConfig) : Tasks :=
  mkTasks (pm_new addr host http https, resource_new config) ∅.

(** One access of a task. *)
Definition access (t : P unit) (s : PS) : option (PS * P unit) :=
  match t with Done _ => None | Act f k => Some (f s, k s) end.

(** The steps of the machine: a login, whose run id is a new UUID; a task begins
    a call, makes one access or ends; the traffic of the proxies, that picks
    backends and routes. *)
Inductive event :=
| ELogin (run_id : string)
| EBegin (run_id : string) (o : op)
| EAccess (run_id : string)
| ELeave (run_id : string)
| EPick (addr now : Z)
| EMark (addr now : Z) (backend_id : string) (success : bool)
| EHttp (domain : string)
| EHttps (domain : string).

Definition task_event (e : event) (T : Tasks) : option Tasks :=
  let s := tk_state T in
  let runs := tk_runs T in
  match e with
  | ELogin run =>
      match runs !! run with
      | None => if bool_decide (":"%byte ∈ to_bytes run) then None else Some (mkTasks s (<[run := Idle]> runs))
      | Some _ => None
      end
  | EBegin run o =>
      match runs !! run with Some Idle => Some (mkTasks s (<[run := Busy (op_p run o)]> runs)) | _ => None end
  | EAccess run =>
      match runs !! run with
      | Some (Busy t) =>
          Some match access t s with
               | Some (s', t') => mkTasks s' (<[run := Busy t']> runs)
               | None => mkTasks s (<[run := Idle]> runs)
               end
      | Some (Leaving t) =>
          Some match access t s with
               | Some (s', t') => mkTasks s' (<[run := Leaving t']> runs)
               | None => mkTasks s (delete run runs)
               end
      | _ => None
      end
  | ELeave run =>
      match runs !! run with Some Idle => Some (mkTasks s (<[run := Leaving (unregister_run_p run)]> runs)) | _ => None end
  | EPick addr now => Some (mkTasks (update_group addr (fun g => (pick_backend now g).1) s).1 runs)
  | EMark addr now id success =>
      Some (mkTasks (update_group addr (if success : bool then mark_backend_success id else mark_backend_failure now id) s).1 runs)
  | EHttp domain => Some (mkTasks (on_vhost (pick_http domain) s).1 runs)
  | EHttps domain => Some (mkTasks (on_vhost (pick_https domain) s).1 runs)
  end.

Fixpoint run_events (es : list event) (T : Tasks) : option Tasks :=
  match es with [] => Some T | e :: rest => task_event e T ≫= run_events rest end.

(** ** The invariant of the machine *)

Definition all_claims (runs : gmap string phase) (C : string → list claim) (c : claim) : Prop :=
  ∃ run, is_Some (runs !! run) ∧ c ∈ C run.
Definition other_claims (runs : gmap string phase) (C : string → list claim) (run : string) (c : claim) : Prop :=
  ∃ run', run' ≠ run ∧ is_Some (runs !! run') ∧ c ∈ C run'.

(** What the task of [run] has to do, with the claims it has. *)
Definition task_ok (run : string) (ph : phase) (X : list claim) : Prop :=
  match ph with
  | Idle => X = []
  | Busy t => puts_own run t ∧ keeps run t X ended
  | Leaving t => puts_own run t ∧ keeps run t X (fun r X' => r = Ok tt ∧ X' = [CEnding run []])
  end.

Definition owned (s : PS) (runs : gmap string phase) : Prop :=
  ∀ key, is_Some (pm_proxies s.1 !! key) → ∃ run name, is_Some (runs !! run) ∧ key = proxy_key_of run name.

Record tasks_inv (T : Tasks) (C : string → list claim) : Prop := {
  ti_shared : shared (tk_state T) (all_claims (tk_runs T) C);
  ti_colon : ∀ run, is_Some (tk_runs T !! run) → ":"%byte ∉ to_bytes run;
  ti_claims : ∀ run, is_Some (tk_runs T !! run) → own_list run (C run);
  ti_task : ∀ run ph, tk_runs T !! run = Some ph → task_ok run ph (C run);
  ti_owned : owned (tk_state T) (tk_runs T);
}.

Lemma keys_apart run run' name name' :
  (":"%byte ∉ to_bytes run) → (":"%byte ∉ to_bytes run') → run ≠ run' → proxy_key_of run name ≠ proxy_key_of run' name'.
Proof.
  intros Hr Hr' Hne E. apply Hne. symmetry. apply (key_of_run run run' name' Hr Hr'). rewrite <- E.
  by apply (key_of_run run run name Hr Hr).
Qed.

Lemma others_ok T C run : tasks_inv T C → (":"%byte ∉ to_bytes run) → others_claim run (other_claims (tk_runs T) C run).
Proof.
  intros HT Hr. assert (∀ c, other_claims (tk_runs T) C run c →
    ∃ run', run' ≠ run ∧ (":"%byte ∉ to_bytes run') ∧ own_claim run' c) as Hown.
  { intros c (run' & Hne & Hl & Hc). exists run'. split; [done|]. split; [by apply (ti_colon T C HT)|].
    eapply Forall_forall; [by apply (ow_own run' (C run')), (ti_claims T C HT)|done]. }
  split.
  - intros name (run' & Hne & Hcol & name' & E)%Hown. by apply (keys_apart run' run name' name) in Hne.
  - intros run' keys (run2 & Hne & Hcol & E)%Hown name name'. simpl in E. subst run2. by apply keys_apart.
Qed.

Lemma claims_split runs C run :
  is_Some (runs !! run) → ∀ c, all_claims runs C c ↔ beside (C run) (other_claims runs C run) c.
Proof.
  intros Hl c. split.
  - intros (run' & Hl' & Hc). destruct (decide (run' = run)) as [->|Hne]; [by left|right; by exists run'].
  - intros [Hc|(run' & _ & Hl' & Hc)]; [by exists run|by exists run'].
Qed.

Lemma claims_update runs C run ph X c :
  all_claims (<[run := ph]> runs) (<[run := X]> C) c ↔ beside X (other_claims runs C run) c.
Proof.
  split.
  - intros (run' & Hl & Hc). destruct (decide (run = run')) as [<-|Hne].
    + left. by rewrite fn_lookup_insert in Hc.
    + right. exists run'. rewrite lookup_insert_ne in Hl by done. by rewrite fn_lookup_insert_ne in Hc.
  - intros [Hc|(run' & Hne & Hl & Hc)].
    + exists run. rewrite lookup_insert_eq, fn_lookup_insert. by split; [eexists|].
    + exists run'. rewrite lookup_insert_ne, fn_lookup_insert_ne by done. done.
Qed.

(** A live task, or a new one, goes on with other claims. *)
Lemma tasks_update T C run ph X s :
  tasks_inv T C → (":"%byte ∉ to_bytes run) → shared s (beside X (other_claims (tk_runs T) C run)) →
  own_list run X → task_ok run ph X →
  (∀ key, is_Some (pm_proxies s.1 !! key) → is_Some (pm_proxies (tk_state T).1 !! key) ∨ ∃ name, key = proxy_key_of run name) →
  tasks_inv (mkTasks s (<[run := ph]> (tk_runs T))) (<[run := X]> C).
Proof.
  intros [A B D E F] Hr Hs HX Hph Hk.
  assert (∀ run', is_Some (<[run := ph]> (tk_runs T) !! run') → run' ≠ run → is_Some (tk_runs T !! run')) as Hlive.
  { intros run' Hl Hne. by rewrite lookup_insert_ne in Hl. }
  split; simpl.
  - eapply shared_ext; [|exact Hs]. intros c. symmetry. apply claims_update.
  - intros run' Hl. destruct (decide (run' = run)) as [->|Hne]; [done|auto].
  - intros run' Hl. destruct (decide (run' = run)) as [->|Hne]; [by rewrite fn_lookup_insert|].
    rewrite fn_lookup_insert_ne by done. auto.
  - intros run' ph' Hp. destruct (decide (run' = run)) as [->|Hne].
    + rewrite lookup_insert_eq in Hp. injection Hp as <-. by rewrite fn_lookup_insert.
    + rewrite lookup_insert_ne in Hp by done. rewrite fn_lookup_insert_ne by done. auto.
  - intros key [Hin|[name ->]]%Hk.
    + destruct (F key Hin) as (run' & name & Hl & ->). exists run', name. split; [|done].
      destruct (decide (run' = run)) as [->|Hne]; [rewrite lookup_insert_eq; by eexists|by rewrite lookup_insert_ne].
    + exists run, name. split; [|done]. rewrite lookup_insert_eq. by eexists.
Qed.

(** Only what the invariant does not speak of changes. *)
Lemma tasks_traffic T C s :
  tasks_inv T C → pm_proxies s.1 = pm_proxies (tk_state T).1 → shared s (all_claims (tk_runs T) C) →
  tasks_inv (mkTasks s (tk_runs T)) C.
Proof. intros [A B D E F] Ep Hs. split; try done. unfold owned. simpl. by rewrite Ep. Qed.

Lemma op_keeps run o : puts_own run (op_p run o) ∧ keeps run (op_p run o) [] ended.
Proof.
  destruct o as [binds msg tx|name|name]; cbn [op_p]; split.
  - apply puts_ignore, puts_register.
  - apply keeps_ignore. eapply keeps_mono; [|apply keeps_register]. done.
  - apply puts_remove.
  - eapply keeps_mono; [|apply keeps_remove, framed_nil]. intros r X [_ ->]. apply ended_nil.
  - apply puts_ignore, puts_evict.
  - apply keeps_ignore. eapply keeps_mono; [|apply keeps_evict]. done.
Qed.

(** A task whose call is over has nothing left to settle. *)
Lemma shared_settled s X Y : (∀ c, c ∈ X → ¬ owing c) → shared s (beside X Y) → shared s (beside [] Y).
Proof. intros HX. apply shared_more; [by intros c ?%elem_of_nil|]. intros c Hc Ho. by destruct (HX c Hc). Qed.

Lemma shared_of T C run : tasks_inv T C → is_Some (tk_runs T !! run) →
  shared (tk_state T) (beside (C run) (other_claims (tk_runs T) C run)).
Proof. intros HT Hl. eapply shared_ext; [by apply claims_split|apply (ti_shared T C HT)]. Qed.

(** The run of an ended task is gone, with its proxies. *)
Lemma tasks_gone T C run r : tasks_inv T C → tk_runs T !! run = Some (Leaving (Done r)) →
  ∀ name, pm_proxies (tk_state T).1 !! proxy_key_of run name = None.
Proof.
  intros HT Hph name. destruct (ti_task T C HT run _ Hph) as [_ [_ HX]]. apply eq_None_not_Some. intros Hk.
  assert (is_Some (tk_runs T !! run)) as Hl by by eexists. destruct (shared_of T C run HT Hl) as [_ _ _ D _].
  apply (elem_of_nil (proxy_key_of run name)). eapply (D run []); [|done]. left. rewrite HX. by left.
Qed.

Lemma tasks_delete T C run r : tasks_inv T C → tk_runs T !! run = Some (Leaving (Done r)) →
  tasks_inv (mkTasks (tk_state T) (delete run (tk_runs T))) C.
Proof.
  intros HT Hph. pose proof (tasks_gone T C run r HT Hph) as Hgone.
  assert (is_Some (tk_runs T !! run)) as Hl by by eexists.
  assert (∀ run', is_Some (delete run (tk_runs T) !! run') → run' ≠ run ∧ is_Some (tk_runs T !! run')) as Hd.
  { intros run' [ph [Hne Hp]%lookup_delete_Some]. split; [done|by eexists]. }
  split; simpl.
  - assert (shared (tk_state T) (beside [] (other_claims (tk_runs T) C run))) as Hs.
    { eapply shared_settled; [|by apply (shared_of T C run)]. destruct (ti_task T C HT run _ Hph) as [_ [_ ->]].
      intros c ->%list_elem_of_singleton []. }
    eapply shared_ext; [|exact Hs]. intros c. split.
    + intros [?%elem_of_nil|(run' & Hne & Hl' & Hc)]; [done|]. exists run'. by rewrite lookup_delete_ne.
    + intros (run' & [Hne Hl']%Hd & Hc). right. by exists run'.
  - intros run' [_ Hl']%Hd. by apply (ti_colon T C HT).
  - intros run' [_ Hl']%Hd. by apply (ti_claims T C HT).
  - intros run' ph [_ Hp]%lookup_delete_Some. by apply (ti_task T C HT).
  - intros key Hk. destruct (ti_owned T C HT key Hk) as (run' & name & Hl' & ->). exists run', name. split; [|done].
    destruct (decide (run' = run)) as [->|Hne]; [rewrite Hgone in Hk; by destruct Hk|by rewrite lookup_delete_ne].
Qed.

(** One access of a live task. *)
Lemma access_ok T C run t Q s' t' : tasks_inv T C → is_Some (tk_runs T !! run) →
  puts_own run t → keeps run t (C run) Q → access t (tk_state T) = Some (s', t') →
  ∃ X, own_list run X ∧ shared s' (beside X (other_claims (tk_runs T) C run)) ∧
    puts_own run t' ∧ keeps run t' X Q ∧
    ∀ key, is_Some (pm_proxies s'.1 !! key) → is_Some (pm_proxies (tk_state T).1 !! key) ∨ ∃ name, key = proxy_key_of run name.
Proof.
  intros HT Hl Ha Hk Hacc. destruct t as [r|f k]; simplify_eq/=. destruct Ha as [Ha1 Ha2].
  destruct (Hk (tk_state T) (other_claims (tk_runs T) C run)) as (X & ? & ? & ?).
  { apply others_ok; [done|by apply (ti_colon T C HT)]. }
  { by apply shared_of. }
  exists X. split_and!; auto.
Qed.

Lemma access_inv T C run T' : tasks_inv T C → task_event (EAccess run) T = Some T' → ∃ C', tasks_inv T' C'.
Proof.
  intros HT. simpl. destruct (tk_runs T !! run) as [[|t|t]|] eqn:Hph; try done.
  all: assert (is_Some (tk_runs T !! run)) as Hl by by eexists.
  all: pose proof (ti_task T C HT run _ Hph) as [Ha Hk]; pose proof (ti_colon T C HT run Hl) as Hr.
  all: destruct (access t (tk_state T)) as [[s' t']|] eqn:Hacc; intros [= <-].
  - destruct (access_ok T C run t _ s' t' HT Hl Ha Hk Hacc) as (X & ? & ? & ? & ? & ?).
    exists (<[run := X]> C). by apply tasks_update.
  - destruct t as [r|]; [|done]. pose proof (own_nil run). exists (<[run := []]> C). apply tasks_update; try done; [|by left].
    eapply shared_settled; [|by apply shared_of]. apply Hk.
  - destruct (access_ok T C run t _ s' t' HT Hl Ha Hk Hacc) as (X & ? & ? & ? & ? & ?).
    exists (<[run := X]> C). by apply tasks_update.
  - destruct t as [r|]; [|done]. exists C. by eapply tasks_delete.
Qed.

(** Traffic changes a group in place. *)
Lemma traffic_group T C addr f : tasks_inv T C →
  (∀ g, g_remote_port (f g) = g_remote_port g ∧ ids (g_backends (f g)) = ids (g_backends g)) →
  tasks_inv (mkTasks (update_group addr f (tk_state T)).1 (tk_runs T)) C.
Proof.
  intros HT Hf. apply tasks_traffic; [done..|]. apply shared_alter; [|apply (ti_shared T C HT)].
  intros g _. destruct (Hf g) as [? Hi]. split; [done|]. intros id Hid. left. by rewrite <- Hi.
Qed.
Lemma traffic_vhost {A} T C (m : st VhostManager Error.t A) : tasks_inv T C →
  tasks_inv (mkTasks (on_vhost m (tk_state T)).1 (tk_runs T)) C.
Proof.
  intros HT. unfold on_vhost, zoom. destruct (m _) as [vm r].
  apply tasks_traffic; [done..|]. apply (shared_same (tk_state T)); [done..|apply (ti_shared T C HT)].
Qed.

Lemma event_inv e T C T' : tasks_inv T C → task_event e T = Some T' → ∃ C', tasks_inv T' C'.
Proof.
  intros HT He. destruct e as [run|run o|run|run|addr now|addr now id ok|d|d]; [..|by eapply access_inv| | | | |]; simpl in He.
  - destruct (tk_runs T !! run) eqn:Hph; [done|]. case_bool_decide as Hr; simplify_eq.
    pose proof (own_nil run). exists (<[run := []]> C). apply tasks_update; try done; [|by left].
    eapply shared_ext; [|apply (ti_shared T C HT)]. intros c. split.
    + intros (run' & Hl & Hc). right. exists run'. split; [|done]. intros ->. rewrite Hph in Hl. by destruct Hl.
    + intros [?%elem_of_nil|(run' & _ & Hl & Hc)]; [done|by exists run'].
  - destruct (tk_runs T !! run) as [[]|] eqn:Hph; simplify_eq. assert (is_Some (tk_runs T !! run)) as Hl by by eexists.
    pose proof (own_nil run). exists (<[run := []]> C). destruct (op_keeps run o). pose proof (ti_task T C HT run _ Hph) as HX. simpl in HX.
    apply tasks_update; try done; [by apply (ti_colon T C HT)|rewrite <- HX; by apply shared_of|by left].
  - destruct (tk_runs T !! run) as [[]|] eqn:Hph; simplify_eq. assert (is_Some (tk_runs T !! run)) as Hl by by eexists.
    pose proof (own_nil run). exists (<[run := []]> C). pose proof (ti_task T C HT run _ Hph) as HX. simpl in HX.
    apply tasks_update; try done; [by apply (ti_colon T C HT)|rewrite <- HX; by apply shared_of| |by left].
    split; [apply puts_unregister_run|apply keeps_unregister_run].
  - simplify_eq. exists C. apply traffic_group; [done|]. intros g. split; [|apply ids_pick_backend].
    unfold pick_backend. destruct (g_backends g); [done|]. by destruct (pick_loop _ _ _ _ _).
  - simplify_eq. exists C. apply traffic_group; [done|]. intros g. destruct ok; (split; [done|]); by apply ids_update_backend.
  - simplify_eq. exists C. by apply traffic_vhost.
  - simplify_eq. exists C. by apply traffic_vhost.
Qed.

Lemma new_inv addr host p1 p2 config : tasks_inv (tasks_new addr host p1 p2 config) (fun _ => []).
Proof.
  split; simpl; [split; simpl|..].
  - intros p. unfold held. simpl. by rewrite dom_empty_L, elem_of_empty.
  - intros a g i Hg. by rewrite lookup_empty in Hg.
  - by intros key (run & ? & ?%elem_of_nil).
  - by intros run keys name (r & ? & ?%elem_of_nil).
  - intros a Ha. rewrite lookup_empty in Ha. by destruct Ha.
  - intros run Hl. rewrite lookup_empty in Hl. by destruct Hl.
  - intros run _. apply own_nil.
  - intros run ph Hp. by rewrite lookup_empty in Hp.
  - intros key Hk. simpl in Hk. rewrite lookup_empty in Hk. by destruct Hk.
Qed.

Lemma events_inv es T C T' : tasks_inv T C → run_events es T = Some T' → ∃ C', tasks_inv T' C'.
Proof.
  revert T C. induction es as [|e es IH]; intros T C HT He; simplify_eq/=; [by exists C|].
  apply bind_Some in He as (T1 & He & Hes). destruct (event_inv e T C T1 HT He) as [C1 HT1]. by eapply IH.
Qed.

(** A run that is not there has no proxies. *)
Lemma tasks_no_run T C run name : tasks_inv T C → (":"%byte ∉ to_bytes run) → tk_runs T !! run = None →
  pm_proxies (tk_state T).1 !! proxy_key_of run name = None.
Proof.
  intros HT Hr Hno. apply eq_None_not_Some. intros Hk. destruct (ti_owned T C HT _ Hk) as (run' & name' & Hl & E).
  revert E. apply keys_apart; [done|by apply (ti_colon T C HT)|]. intros <-. rewrite Hno in Hl. by destruct Hl.
Qed.

(** ** What the machine guarantees *)

(** A call that still has accesses to make. *)
Definition under_way (ph : phase) : bool :=
  match ph with Busy (Act _ _) | Leaving (Act _ _) => true | _ => false end.

Lemma owing_under_way run ph X c : task_ok run ph X → c ∈ X → owing c → under_way ph = true.
Proof.
  destruct ph as [|[r|f k]|[r|f k]]; simpl; try done.
  - intros ->. by intros ?%elem_of_nil.
  - intros [_ Hend] Hc Ho. by destruct (Hend c Hc).
  - intros [_ [_ ->]] ->%list_elem_of_singleton. done.
Qed.

(** The port a claim is about. *)
Definition claims_port (heap : gmap Z GroupedTcpProxy) (p : Z) (c : claim) : Prop :=
  match c with
  | CPort q => q = p
  | CMember addr _ => g_remote_port <$> heap !! addr = Some p
  | _ => False
  end.

Definition listened (s : PS) (p : Z) : Prop :=
  ∃ key h, pm_proxies s.1 !! key = Some h ∧ listens (pm_group_heap s.1) h p.

Lemma loose_port T C p : tasks_inv T C → p ∈ held (tk_state T) → ¬ listened (tk_state T) p →
  ∃ run ph c, tk_runs T !! run = Some ph ∧ under_way ph = true ∧ c ∈ C run ∧ owing c ∧
    claims_port (pm_group_heap (tk_state T).1) p c.
Proof.
  intros HT Hp Hl. assert (∀ c, all_claims (tk_runs T) C c → owing c → claims_port (pm_group_heap (tk_state T).1) p c →
    ∃ run ph c, tk_runs T !! run = Some ph ∧ under_way ph = true ∧ c ∈ C run ∧ owing c ∧
      claims_port (pm_group_heap (tk_state T).1) p c) as Hgo.
  { intros c (run & [ph Hph] & Hc) Ho Hcp. exists run, ph, c. split_and!; try done.
    eapply owing_under_way; [by apply (ti_task T C HT)|done..]. }
  destruct (sh_held _ _ (ti_shared T C HT) p Hp) as [?|[Hc|(a & i & g & Hc & Hg & Ep)]]; [done|by eapply Hgo|].
  eapply Hgo; [exact Hc|done|]. simpl. rewrite Hg. simpl. by rewrite Ep.
Qed.

Lemma leaving_ends T run t : tk_runs T !! run = Some (Leaving t) →
  ∃ n T', run_events (replicate n (EAccess run)) T = Some T' ∧ tk_runs T' = delete run (tk_runs T).
Proof.
  destruct T as [s runs]. revert s runs. induction t as [r|f k IH]; intros s runs Hph; simpl in Hph.
  - exists 1%nat, (mkTasks s (delete run runs)). simpl. by rewrite Hph.
  - destruct (IH s (f s) (<[run := Leaving (k s)]> runs)) as (n & T' & Hn & Hr); [simpl; by rewrite lookup_insert_eq|].
    exists (S n), T'. simpl in *. rewrite Hph. split; [done|]. by rewrite Hr, delete_insert_eq.
Qed.

(** C1: At every moment, with the calls of all clients interleaved access by
    access: every registered proxy is under the key of a client that is connected
    or being cleaned up, and a run that is over has none; a client that leaves is
    always cleaned up, its own task getting there without the help of others; and
    when no client is left there is no proxy, no held port and no backend in any
    group. *)
Theorem clients_own_proxies addr host p1 p2 config es T :
  run_events es (tasks_new addr host p1 p2 config) = Some T →
  (∀ key, is_Some (pm_proxies (tk_state T).1 !! key) →
     ∃ run name, is_Some (tk_runs T !! run) ∧ key = proxy_key_of run name) ∧
  (∀ run name, (":"%byte ∉ to_bytes run) → tk_runs T !! run = None →
     pm_proxies (tk_state T).1 !! proxy_key_of run name = None) ∧
  (∀ run t, tk_runs T !! run = Some (Leaving t) →
     ∃ n T', run_events (replicate n (EAccess run)) T = Some T' ∧ tk_runs T' = delete run (tk_runs T) ∧
       ∀ name, pm_proxies (tk_state T').1 !! proxy_key_of run name = None) ∧
  (tk_runs T = ∅ → pm_proxies (tk_state T).1 = ∅ ∧ held (tk_state T) = ∅ ∧
     map_Forall (fun _ g => g_backends g = []) (pm_group_heap (tk_state T).1)).
Proof.
  intros Hes. destruct (events_inv es _ _ T (new_inv addr host p1 p2 config) Hes) as [C HT].
  split; [apply (ti_owned T C HT)|]. split; [intros run name; by apply (tasks_no_run T C)|]. split.
  - intros run t Hph. destruct (leaving_ends T run t Hph) as (n & T' & Hn & Hr). exists n, T'. split_and!; [done..|].
    destruct (events_inv _ T C T' HT Hn) as [C' HT']. intros name. eapply tasks_no_run; [done| |].
    + apply (ti_colon T C HT). by eexists.
    + by rewrite Hr, lookup_delete_eq.
  - intros Hr. assert (∀ c, ¬ all_claims (tk_runs T) C c) as Hno.
    { intros c (run & Hl & _). rewrite Hr, lookup_empty in Hl. by destruct Hl. }
    assert (pm_proxies (tk_state T).1 = ∅) as Hp.
    { apply map_empty. intros key. apply eq_None_not_Some. intros Hk.
      destruct (ti_owned T C HT key Hk) as (run & _ & Hl & _). rewrite Hr, lookup_empty in Hl. by destruct Hl. }
    destruct (ti_shared T C HT) as [A B _ _ _]. split; [done|]. split.
    + apply elem_of_equiv_empty_L. intros p Hin. destruct (A p Hin) as [(k & h & Hk & _)|[Hc|(a & i & g & Hc & _)]].
      * by rewrite Hp, lookup_empty in Hk.
      * by apply Hno in Hc.
      * by apply Hno in Hc.
    + intros a g Hg. destruct (g_backends g) as [|b bs] eqn:Eb; [done|]. exfalso.
      destruct (B a g (b_backend_id (bs_snapshot b)) Hg) as [[n Hn]|Hc]; [rewrite Eb; by left| |by apply Hno in Hc].
      by rewrite Hp, lookup_empty in Hn.
Qed.

(** C5: However the calls of the clients overlap, no port leaks: a held port that
    no registered proxy listens on, itself or through its group, is in the hands
    of a call that is under way, and each call has one at most.  So there are at
    most as many such ports as calls under way, and none when there is no call. *)
Theorem no_port_leaks addr host p1 p2 config es T ps :
  run_events es (tasks_new addr host p1 p2 config) = Some T →
  NoDup ps → (∀ p, p ∈ ps → p ∈ held (tk_state T) ∧ ¬ listened (tk_state T) p) →
  (length ps ≤ size (filter (fun kv => under_way kv.2 = true) (tk_runs T)))%nat.
Proof.
  intros Hes Hnd Hps. destruct (events_inv es _ _ T (new_inv addr host p1 p2 config) Hes) as [C HT].
  set (busy := filter _ _). set (heap := pm_group_heap (tk_state T).1).
  set (R p run := is_Some (busy !! run) ∧ ∃ c, c ∈ C run ∧ owing c ∧ claims_port heap p c).
  assert (Forall (fun p => ∃ run, R p run) ps) as Hall.
  { apply Forall_forall. intros p Hp. destruct (Hps p Hp) as [Hh Hl].
    destruct (loose_port T C p HT Hh Hl) as (run & ph & c & Hph & Hu & Hc & Ho & Hcp).
    exists run. split; [exists ph; by apply map_lookup_filter_Some|by exists c]. }
  apply Forall_exists_Forall2_l in Hall as [rs Hrs].
  assert (∀ p p' run, R p run → R p' run → p = p') as Hfun.
  { intros p p' run [[ph [Hl _]%map_lookup_filter_Some] (c & Hc & Ho & Hp)] [_ (c' & Hc' & Ho' & Hp')].
    destruct (ti_claims T C HT run) as [_ Hone]; [by eexists|].
    specialize (Hone c c' Hc Hc' Ho Ho') as <-. destruct c; simpl in Hp, Hp'; done || congruence. }
  rewrite (Forall2_length _ _ _ Hrs), <- (length_map_to_list busy).
  assert (NoDup rs) as Hrn.
  { clear Hps. induction Hrs as [|p run ps rs HR Hrs IH]; [constructor|]. apply NoDup_cons in Hnd as [Hp Hnd].
    constructor; [|by apply IH]. intros [i Hi]%list_elem_of_lookup. destruct (Forall2_lookup_r _ _ _ _ _ Hrs Hi) as (p' & Hp' & HR').
    rewrite (Hfun p p' run HR HR') in Hp. by apply Hp, (list_elem_of_lookup_2 ps i). }
  rewrite <- (length_fmap fst (map_to_list busy)). apply submseteq_length, NoDup_submseteq; [done|].
  intros run [i Hi]%list_elem_of_lookup. destruct (Forall2_lookup_r _ _ _ _ _ Hrs Hi) as (p & _ & [[ph Hl] _]).
  apply list_elem_of_fmap. exists (run, ph). split; [done|]. by apply elem_of_map_to_list.
Qed.
End Machine.

(** ** Examples *)

Module ToyTasks.
#[local] Existing Instances ToyProxyManager.json ToyProxyManager.lower ToyProxyManager.iter.
Import ToyProxyManager.

Definition config : ServerConfig :=
  mkServerConfig _ "0.0.0.0" 7000 0 0 0 0 "" 0 "" "" "" "" 1 AuthConfig_default TransportConfig_default [] 0 0 "" false ∅.
Definition start : Tasks := tasks_new "0.0.0.0" "" 0 0 config.
Definition after (es : list event) : Tasks := default start (run_events es start).

(** [n] accesses of a client. *)
Definition go (n : nat) (run_id : string) : list event := replicate n (EAccess run_id).
Definition reg (run_id name ty : string) (port : Z) : event := EBegin run_id (ORegister binds (msg name ty port) 1).

(** [r1] has a proxy; both clients register another, and neither is done. *)
Definition overlap : list event :=
  [ELogin "r1"; ELogin "r2"; reg "r1" "ssh" "tcp" 12000] ++ go 6 "r1" ++
  [reg "r1" "dns" "udp" 12002; reg "r2" "web" "tcp" 12001] ++
  go 1 "r1" ++ go 2 "r2" ++ go 2 "r1" ++ go 1 "r2".
(** They finish; then [r1] goes, and [r2] takes one of its proxies over before
    its task gets there. *)
Definition departure : list event :=
  overlap ++ go 3 "r1" ++ go 3 "r2" ++ [ELeave "r1"] ++ go 1 "r1" ++ [EBegin "r2" (OTakeOver "dns")] ++ go 3 "r2".

Lemma run_of es : bool_decide (is_Some (run_events es start)) = true → run_events es start = Some (after es).
Proof. unfold after. intros [T ->]%bool_decide_eq_true. done. Qed.

Definition registered (key : string) (T : Tasks) : bool := bool_decide (is_Some (pm_proxies (tk_state T).1 !! key)).
Definition recorded (key : string) (T : Tasks) : bool := bool_decide (is_Some (pm_records (tk_state T).1 !! key)).
Definition holds (port : Z) (T : Tasks) : bool := bool_decide (is_Some (tcp_ports (tk_state T).2 !! port)).

Lemma clients_own_proxies_witness :
  let T := after departure in
  registered "r1:ssh" T = true ∧ registered "r2:web" T = true ∧ holds 12000 T = true ∧
  ∃ n T', run_events (go n "r1") T = Some T' ∧ ∀ name, pm_proxies (tk_state T').1 !! proxy_key_of "r1" name = None.
Proof.
  intros T. split; [vm_compute; reflexivity|]. split; [vm_compute; reflexivity|]. split; [vm_compute; reflexivity|].
  destruct (clients_own_proxies "0.0.0.0" "" 0 0 config departure T (run_of departure ltac:(vm_compute; reflexivity)))
    as (_ & _ & Hleave & _).
  destruct (tk_runs T !! "r1"%string) as [[|t|t]|] eqn:E.
  - exfalso. apply (f_equal (fun o => match o with Some (Leaving _) => true | _ => false end)) in E. vm_compute in E. discriminate E.
  - exfalso. apply (f_equal (fun o => match o with Some (Leaving _) => true | _ => false end)) in E. vm_compute in E. discriminate E.
  - destruct (Hleave "r1"%string t E) as (n & T' & Hn & _ & Hk). exists n, T'. exact (conj Hn Hk).
  - exfalso. apply (f_equal (fun o => match o with Some (Leaving _) => true | _ => false end)) in E. vm_compute in E. discriminate E.
Defined.

(** Two ports are held, nobody listens on them yet, and two calls are under way. *)
Definition loose (ports : list Z) (T : Tasks) : bool :=
  forallb (fun p => holds p T && forallb (fun kh => negb (bool_decide (port_of kh.2 = Some p)) &&
    match kh.2 with PGroupMember _ _ _ => false | _ => true end) (map_to_list (pm_proxies (tk_state T).1))) ports.

Lemma loose_unlistened ports T : loose ports T = true →
  ∀ p, p ∈ ports → p ∈ held (tk_state T) ∧ ¬ listened (tk_state T) p.
Proof.
  intros Hl p Hp. unfold loose in Hl. rewrite forallb_True in Hl. apply Hl in Hp as [Hh Hno]%andb_true_iff.
  rewrite forallb_True in Hno. unfold holds in Hh. apply bool_decide_eq_true in Hh. split; [by apply elem_of_dom|].
  intros (key & h & Hk & Hlis). apply elem_of_map_to_list in Hk. apply Hno in Hk as [Hp Hm]%andb_true_iff. simpl in *.
  apply negb_true_iff, bool_decide_eq_false in Hp. by destruct Hlis as [?|(n & a & i & g & -> & _)].
Qed.

Lemma no_port_leaks_witness :
  let T := after overlap in
  loose [12001; 12002] T = true ∧ (2 ≤ size (filter (fun kv => under_way kv.2 = true) (tk_runs T)))%nat.
Proof.
  intros T. assert (loose [12001; 12002] T = true) as Hl by (vm_compute; reflexivity). split; [exact Hl|].
  refine (no_port_leaks "0.0.0.0" "" 0 0 config overlap T [12001; 12002] (run_of overlap _) _ (loose_unlistened _ T Hl)).
  - vm_compute. reflexivity.
  - apply (bool_decide_unpack _). vm_compute. exact I.
Defined.

(** What the machine does not guarantee.  Two registrations of one port: both find
    it free, and the one that cannot bind it gives it back, so that the other's
    proxy listens on a port that is not held. *)
Definition race : list event :=
  [ELogin "r1"; ELogin "r2"; reg "r1" "ssh" "tcp" 12000;
   EBegin "r2" (ORegister refuse (msg "web" "tcp" 12000) 1)] ++
  go 2 "r1" ++ go 2 "r2" ++ go 4 "r1" ++ go 3 "r2".
Example race_frees_port :
  run_events race start = Some (after race) ∧ registered "r1:ssh" (after race) = true ∧ holds 12000 (after race) = false.
Proof. split; [apply run_of; vm_compute; reflexivity|]. split; vm_compute; reflexivity. Qed.

(** A proxy is taken over between [proxies.insert] and [records.insert]: the
    record comes after and stays when everybody is gone. *)
Definition late_record : list event :=
  [ELogin "r1"; ELogin "r2"; reg "r1" "ssh" "tcp" 12000] ++ go 4 "r1" ++
  [EBegin "r2" (OTakeOver "ssh")] ++ go 6 "r2" ++ go 2 "r1" ++
  [ELeave "r1"; ELeave "r2"] ++ go 2 "r1" ++ go 2 "r2".
Example late_record_stays :
  run_events late_record start = Some (after late_record) ∧ tk_runs (after late_record) = ∅ ∧
  registered "r1:ssh" (after late_record) = false ∧ recorded "r1:ssh" (after late_record) = true.
Proof. split; [apply run_of; vm_compute; reflexivity|]. split_and!; vm_compute; reflexivity. Qed.
End ToyTasks.

(** The same with members of one load-balancing group. *)
Module ToyGroupTasks.
#[local] Instance json : Json := {|
  Value := bool;
  as_object := fun v : bool => if v then Some {[ "group"%string := false ]} else None;
  as_str := fun v : bool => if v then None else Some "g"%string |}.
#[local] Existing Instances ToyProxyManager.lower ToyProxyManager.iter.

Definition start : Tasks :=
  tasks_new "0.0.0.0" "" 0 0
    (mkServerConfig _ "0.0.0.0" 7000 0 0 0 0 "" 0 "" "" "" "" 1 AuthConfig_default TransportConfig_default [] 0 0 "" false ∅).
Definition go (n : nat) (run_id : string) : list event := replicate n (EAccess run_id).
Definition reg (run_id : string) : event :=
  EBegin run_id (ORegister ToyProxyManager.binds
    (mkNewProxyMsg "web" "tcp" false false "127.0.0.1" 80 12000 [] "" [] "" "" "" false true) 1).

(** [r2] finds the group of [r1]; before it is a member of it, [r1] closes its
    proxy.  The group is empty then: its listener stops, its port is given back
    and it is forgotten.  [r2] joins it all the same, and is told it is
    registered. *)
Definition late_member : list event :=
  [ELogin "r1"; ELogin "r2"; reg "r1"] ++ go 11 "r1" ++ [reg "r2"] ++ go 2 "r2" ++
  [EBegin "r1" (OClose "web")] ++ go 6 "r1" ++ go 6 "r2".
Example late_member_unheard :
  match run_events late_member start with
  | Some T =>
      (if pm_proxies (tk_state T).1 !! "r2:web"%string is Some (PGroupMember _ 0 _) then True else False) ∧
      bool_decide (is_Some (tcp_ports (tk_state T).2 !! 12000)) = false ∧
      bool_decide (pm_tcp_groups (tk_state T).1 = ∅) = true
  | None => False
  end.
Proof. vm_compute. split; [exact I|]. split; reflexivity. Qed.
End ToyGroupTasks.
