(* ===== verification/Dashboard.v ===== *)
(** * The server's dashboard (crates/arp-server/src/web/mod.rs)

    The handlers of the admin server over the state of the server, the page and
    the text of the metrics.  A response is its status and its body before it
    is printed as JSON; the routes and the event stream are in WebStream. *)
From stdpp Require Import sorting.
From S2P Require Import Prelude RustString Errors Protocol Config Auth Resource Vhost ProxyManager Hub NatHole Control Server TcpConn.
Local Open Scope Z_scope.

(** What [AdminState] has besides the managers. *)
Record AdminInfo := mkAdminInfo {
  ai_started_at_unix : Z; ai_transport_protocol : string; ai_bind_addr : string; ai_bind_port : Z;
  ai_dashboard_enabled : bool; ai_vhost_http_port : Z; ai_vhost_https_port : Z;
}.

Record StatusResp := mkStatusResp {
  st_status : string; st_info : AdminInfo; st_active_controls : Z; st_active_proxies : Z;
  st_pending_work_connections : Z; st_idle_work_connections : Z; st_proxy_type_counts : list (string * Z);
}.

Inductive WebBody :=
| WText (s : string)
| WReady (ready : bool) (active_controls active_proxies : Z)
| WStatus (s : StatusResp)
| WProxies (total : Z) (items : list ProxyRecord)
| WProxy (r : ProxyRecord)
| WClients (total : Z) (items : list ControlRecord)
| WClient (client : ControlRecord) (pending idle : Z)
| WEvents (total : Z) (items : list XtcpEvent)
| WAction (ok : bool) (message : string).
Record WebResp := mkWebResp { wr_status : Z; wr_body : WebBody }.

(** Text with the quotation marks of the source written as apostrophes. *)
Definition quoted (s : string) : string :=
  of_bytes ((fun b => if bool_decide (b = x27) then x22 else b) <$> to_bytes s).
Definition nl : string := of_bytes [x0a].
Definition join (l : list string) : string := foldr String.append ""%string l.

Section Dashboard.
Context `{Json} `{UnicodeLower} `{DashIter} {R : Type} `{PortAllocator R}.
Variable info : AdminInfo.
Abbreviation HM A := (st (Hub R) Error.t A).

Definition status_snapshot (h : Hub R) : StatusResp :=
  let '(pending, idle) := get_queue_stats_snapshot h in
  mkStatusResp "ok" info (Z.of_nat (cm_count h)) (Z.of_nat (pm_count (hub_pm h)))
    (Z.of_nat pending) (Z.of_nat idle) (count_by_type (hub_pm h)).

Definition active_ready (h : Hub R) : bool :=
  let status := status_snapshot h in
  (0 <? st_active_controls status) || (st_active_proxies status =? 0).

Definition healthz : WebResp := mkWebResp 200 (WText "ok").
Definition readyz (h : Hub R) : WebResp :=
  mkWebResp 200 (WReady (active_ready h) (Z.of_nat (cm_count h)) (Z.of_nat (pm_count (hub_pm h)))).
Definition web_status (h : Hub R) : WebResp := mkWebResp 200 (WStatus (status_snapshot h)).
Definition web_proxies (h : Hub R) : WebResp :=
  let items := list_records (hub_pm h) in mkWebResp 200 (WProxies (Z.of_nat (length items)) items).
Definition web_proxy_detail (name : string) (h : Hub R) : WebResp :=
  match get_record (hub_pm h) name with
  | Some record => mkWebResp 200 (WProxy record)
  | None => mkWebResp 404 (WAction false ("proxy " +:+ name +:+ " not found"))
  end.
Definition web_clients (h : Hub R) : WebResp :=
  let items := list_controls h in mkWebResp 200 (WClients (Z.of_nat (length items)) items).
Definition web_client_detail (run_id : string) (h : Hub R) : WebResp :=
  match get_control_record h run_id with
  | None => mkWebResp 404 (WAction false ("client " +:+ run_id +:+ " not found"))
  | Some client =>
      let '(pending, idle) := default (0%nat, 0%nat) (get_control_queue_stats h run_id) in
      mkWebResp 200 (WClient client (Z.of_nat pending) (Z.of_nat idle))
  end.
Definition web_xtcp_events (h : Hub R) : WebResp :=
  let items := recent_events h in mkWebResp 200 (WEvents (Z.of_nat (length items)) items).

Definition web_client_shutdown (run_id : string) : HM WebResp :=
  control ← hub_gets (cm_get run_id);
  match control with
  | None => mret (mkWebResp 404 (WAction false ("client " +:+ run_id +:+ " not found")))
  | Some _ =>
      _ ← shutdown_run run_id;
      mret (mkWebResp 200 (WAction true ("shutdown requested for " +:+ run_id)))
  end.

(** ** The page *)

Definition render_type_counts (items : list (string * Z)) : string :=
  match items with
  | [] => "<li>none</li>"
  | _ => join ((fun item => "<li><code>" +:+ item.1 +:+ "</code>: " +:+ pretty item.2 +:+ "</li>") <$> items)
  end.

Definition render_event (e : XtcpEvent) : string :=
  "<li><code>" +:+ xe_stage e +:+ "</code> proxy=<code>" +:+ xe_proxy_name e +:+ "</code> visitor=<code>"
  +:+ xe_visitor_addr e +:+ "</code> relay=<code>" +:+ xe_relay_addr e +:+ "</code> err=<code>" +:+ xe_error e
  +:+ "</code></li>".
Definition render_xtcp_events (items : list XtcpEvent) : string :=
  match items with
  | [] => "<li>none</li>"
  | _ => join (render_event <$> take 8 (reverse items))
  end.

(** The lines of the template, with its holes. *)
Definition page (protocol bind_addr bind_port controls proxies pending idle types events : string) : string :=
  join (List.map (fun line => quoted line +:+ nl)
    ["<!doctype html>"; "<html>"; "<head>"; "  <meta charset='utf-8'>"; "  <title>ARP Dashboard</title>"; "  <style>";
     "    body { font-family: Menlo, monospace; margin: 32px; background: #f6f7fb; color: #222; }";
     "    .grid { display: grid; gap: 16px; max-width: 1100px; }";
     "    .card { background: #fff; border: 1px solid #d9dce5; border-radius: 10px; padding: 16px; }";
     "    h1, h2 { margin-top: 0; }"; "    .num { font-size: 28px; font-weight: 700; }";
     "    code { background: #f3f4f8; padding: 1px 4px; border-radius: 4px; }"; "    ul { padding-left: 18px; }";
     "  </style>"; "</head>"; "<body>"; "  <div class='grid'>"; "    <div class='card'>";
     "      <h1>ARP Dashboard</h1>"]%string)
  +:+ "      <p>Protocol: <code>" +:+ protocol +:+ "</code></p>" +:+ nl
  +:+ "      <p>Server Bind: <code>" +:+ bind_addr +:+ ":" +:+ bind_port +:+ "</code></p>" +:+ nl
  +:+ quoted "      <p>Active Controls: <span class='num'>" +:+ controls +:+ "</span></p>" +:+ nl
  +:+ quoted "      <p>Active Proxies: <span class='num'>" +:+ proxies +:+ "</span></p>" +:+ nl
  +:+ quoted "      <p>Pending Work Connections: <span class='num'>" +:+ pending +:+ "</span></p>" +:+ nl
  +:+ quoted "      <p>Idle Work Connections: <span class='num'>" +:+ idle +:+ "</span></p>" +:+ nl
  +:+ join (List.map (fun line => quoted line +:+ nl)
    ["      <p>Admin API: <a href='/api/v1/status'>/api/v1/status</a>, <a href='/api/v1/proxies'>/api/v1/proxies</a>, <a href='/api/v1/clients'>/api/v1/clients</a></p>";
     "    </div>"; "    <div class='card'>"; "      <h2>Proxy Types</h2>"]%string)
  +:+ "      <ul>" +:+ types +:+ "</ul>" +:+ nl
  +:+ join (List.map (fun line => quoted line +:+ nl)
    ["    </div>"; "    <div class='card'>"; "      <h2>Recent XTCP Events</h2>"]%string)
  +:+ "      <ul>" +:+ events +:+ "</ul>" +:+ nl
  +:+ join (List.map (fun line => line +:+ nl) ["    </div>"; "  </div>"; "</body>"]%string) +:+ "</html>".

Definition dashboard (h : Hub R) : WebResp :=
  let s := status_snapshot h in
  mkWebResp 200 (WText (page (ai_transport_protocol info) (ai_bind_addr info) (pretty (ai_bind_port info))
    (pretty (st_active_controls s)) (pretty (st_active_proxies s)) (pretty (st_pending_work_connections s))
    (pretty (st_idle_work_connections s)) (render_type_counts (st_proxy_type_counts s))
    (render_xtcp_events (recent_events h)))).

(** ** The metrics *)

Definition metric_line (name : string) (v : Z) : string := name +:+ " " +:+ pretty v +:+ nl.

Definition global_metrics (h : Hub R) : list (string * Z) :=
  let s := status_snapshot h in
  [("arp_active_controls", st_active_controls s); ("arp_active_proxies", st_active_proxies s);
   ("arp_pending_work_connections", st_pending_work_connections s);
   ("arp_idle_work_connections", st_idle_work_connections s);
   ("arp_incoming_connections_total", hub_metrics h incoming_connections_total);
   ("arp_work_connections_total", hub_metrics h work_connections_total);
   ("arp_tcp_proxy_connections_total", hub_metrics h tcp_proxy_connections_total);
   ("arp_tcp_proxy_errors_total", hub_metrics h tcp_proxy_errors_total);
   ("arp_tcp_mux_streams_opened_total", hub_metrics h tcp_mux_streams_opened_total);
   ("arp_tcp_bytes_in_total", hub_metrics h tcp_bytes_in_total);
   ("arp_tcp_bytes_out_total", hub_metrics h tcp_bytes_out_total);
   ("arp_auth_failures_total", hub_metrics h auth_failures_total);
   ("arp_proxy_registrations_total", hub_metrics h proxy_registrations_total);
   ("arp_proxy_registration_failures_total", hub_metrics h proxy_registration_failures_total);
   ("arp_req_work_conn_total", hub_metrics h req_work_conn_total);
   ("arp_idle_work_conn_hits_total", hub_metrics h idle_work_conn_hits_total);
   ("arp_xtcp_visitor_requests_total", hub_metrics h xtcp_visitor_requests_total);
   ("arp_xtcp_sk_mismatch_total", hub_metrics h xtcp_sk_mismatch_total);
   ("arp_xtcp_owner_not_found_total", hub_metrics h xtcp_owner_not_found_total);
   ("arp_xtcp_owner_offline_total", hub_metrics h xtcp_owner_offline_total);
   ("arp_xtcp_owner_requests_forwarded_total", hub_metrics h xtcp_owner_requests_forwarded_total);
   ("arp_xtcp_responses_forwarded_total", hub_metrics h xtcp_responses_forwarded_total)]%string.

(** [list_proxy_metrics]. *)
Definition list_proxy_metrics (m : MetricsTable) : list (string * ProxyMetrics) :=
  omap (fun e => (fun p => (e.1, p)) <$> mx_heap m !! e.2) (dash_iter (mx_map m)).

Definition proxy_metric_lines (name : string) (p : ProxyMetrics) : string :=
  let line what v := metric_line (quoted ("arp_proxy_" +:+ what +:+ "{proxy='") +:+ name +:+ quoted "'}") v in
  line "bytes_in"%string (px_bytes_in p) +:+ line "bytes_out"%string (px_bytes_out p)
  +:+ line "connections_total"%string (px_connections_total p)
  +:+ line "connections_active"%string (px_connections_active p) +:+ line "errors"%string (px_errors p).

Definition metrics_text (h : Hub R) (m : MetricsTable) : WebResp :=
  mkWebResp 200 (WText (join ((fun kv => metric_line kv.1 kv.2) <$> global_metrics h)
    +:+ join ((fun kv => proxy_metric_lines kv.1 kv.2) <$> list_proxy_metrics m))).

(** ** The counts add up *)

Definition tally (rs : list ProxyRecord) (c : gmap string Z) : gmap string Z :=
  foldl (fun (c : gmap string Z) r =>
    <[prc_proxy_type r := default 0 (c !! prc_proxy_type r) + 1]> c) c rs.

(** How many records have a type. *)
Definition of_type (ty : string) (rs : list ProxyRecord) : Z :=
  Z.of_nat (length (List.filter (fun r => bool_decide (prc_proxy_type r = ty)) rs)).

Lemma tally_lookup rs c ty :
  default 0 (tally rs c !! ty) = default 0 (c !! ty) + of_type ty rs ∧
  (is_Some (tally rs c !! ty) ↔ is_Some (c !! ty) ∨ 0 < of_type ty rs).
Proof.
  revert c. induction rs as [|r rs IH]; intros c; unfold of_type; simpl.
  { rewrite Z.add_0_r. split; [done|]. split; [by left|]. intros [?|?]; [done|lia]. }
  destruct (IH (<[prc_proxy_type r := default 0 (c !! prc_proxy_type r) + 1]> c)) as [I1 I2].
  fold (tally rs (<[prc_proxy_type r := default 0 (c !! prc_proxy_type r) + 1]> c)). rewrite I1, I2.
  unfold of_type. case_bool_decide as E; simpl.
  - rewrite E, lookup_insert_eq. simpl. split; [lia|]. split; [intros _; right; lia|intros _; left; eauto].
  - rewrite lookup_insert_ne by done. done.
Qed.

Definition total (l : list (string * Z)) : Z := foldr (fun kv n => kv.2 + n) 0 l.

Lemma total_perm l l' : l ≡ₚ l' → total l = total l'.
Proof. unfold total. induction 1; simpl; lia. Qed.

Lemma total_insert c ty v :
  total (map_to_list (<[ty := v]> c)) = total (map_to_list c) - default 0 (c !! ty) + v.
Proof.
  destruct (c !! ty) as [w|] eqn:E; simpl.
  - rewrite <- (insert_delete_eq c ty v), (total_perm _ _ (map_to_list_insert (delete ty c) ty v (lookup_delete_eq c ty))).
    rewrite <- (insert_delete_id c ty w E) at 2.
    rewrite (total_perm _ _ (map_to_list_insert (delete ty c) ty w (lookup_delete_eq c ty))). simpl. lia.
  - rewrite (total_perm _ _ (map_to_list_insert c ty v E)). simpl. lia.
Qed.

Lemma total_tally rs c : total (map_to_list (tally rs c)) = total (map_to_list c) + Z.of_nat (length rs).
Proof.
  revert c. induction rs as [|r rs IH]; intros c; [simpl; lia|].
  change (tally (r :: rs) c) with (tally rs (<[prc_proxy_type r := default 0 (c !! prc_proxy_type r) + 1]> c)).
  rewrite IH, total_insert. cbn [length]. lia.
Qed.

(** The numbers of the status page add up.  In every state the proxy manager
    can be in, the counts by type are those of the records, every type that
    occurs is listed once and no other, and their sum is the number of active
    proxies. *)
Theorem status_adds_up `{!PortAllocatorSpec R} (h : Hub R) :
  pm_reachable (pm_of h) →
  let s := status_snapshot h in
  let records := (dash_iter (pm_records (hub_pm h))).*2 in
  NoDup (st_proxy_type_counts s).*1 ∧
  (∀ ty n, (ty, n) ∈ st_proxy_type_counts s ↔ n = of_type ty records ∧ 0 < n) ∧
  total (st_proxy_type_counts s) = st_active_proxies s.
Proof.
  intros Hr%pm_reachable_inv s records.
  assert (st_proxy_type_counts s ≡ₚ map_to_list (tally records ∅)) as Hp.
  { subst s. unfold status_snapshot. destruct (get_queue_stats_snapshot h). simpl. apply merge_sort_Permutation. }
  split_and!.
  - rewrite Hp. apply NoDup_fst_map_to_list.
  - intros ty n. rewrite Hp, elem_of_map_to_list. destruct (tally_lookup records ∅ ty) as [L1 L2].
    rewrite lookup_empty in L1, L2. simpl in L1. rewrite Z.add_0_l in L1. split.
    + intros E. rewrite E in L1, L2. simpl in L1. split; [done|]. subst n.
      destruct (proj1 L2) as [[? ?]|?]; [by eexists|done|done].
    + intros [-> Hn]. destruct (proj2 L2) as [m Hm]; [by right|]. rewrite Hm in L1. simpl in L1. by rewrite Hm, L1.
  - rewrite (total_perm _ _ Hp), total_tally, map_to_list_empty. simpl. subst records s.
    unfold status_snapshot. destruct (get_queue_stats_snapshot h). cbn [st_active_proxies].
    rewrite length_fmap, dash_iter_perm, length_map_to_list. unfold pm_count.
    rewrite <- !size_dom. pose proof (pi_records _ _ Hr) as Hd. unfold pm_of in Hd. simpl in Hd. by rewrite Hd.
Qed.

(** ** What a visitor can put on the page *)

Lemma render_newest events e : ∃ rest, render_xtcp_events (events ++ [e]) = render_event e +:+ rest.
Proof.
  exists (join (render_event <$> take 7 (reverse events))). unfold render_xtcp_events.
  destruct (events ++ [e]) eqn:E; [by destruct events|]. rewrite <- E, reverse_app. done.
Qed.

(** Whatever a logged-in client asks for goes onto the dashboard as it is.
    A request for an XTCP peer under a name nobody registered is the first of
    the events on the page, and the name, which the client chooses freely, is
    in it without any escaping. *)
Theorem dashboard_shows_name_verbatim visitor msg (h : Hub R) sk addr :
  parse_signed_msg (nv_signed_msg msg) = Ok (sk, addr) →
  get_xtcp_owner (hub_pm h) (nv_proxy_name msg) = None →
  let h' := (handle_visitor visitor msg h).1 in
  ∃ rest, render_xtcp_events (recent_events h') =
    "<li><code>owner_not_found</code> proxy=<code>" +:+ nv_proxy_name msg +:+ rest.
Proof.
  intros Hp Ho. unfold handle_visitor. cbv [mbind st_bind inc st_modify st_lift hub_gets]. rewrite Hp.
  change (get_xtcp_owner (hub_pm (set_metrics _ h)) (nv_proxy_name msg)) with (get_xtcp_owner (hub_pm h) (nv_proxy_name msg)).
  rewrite Ho. unfold push_event. cbv [st_modify mret st_ret fst]. unfold recent_events. cbn [hub_nat set_nat nh_recent_events].
  match goal with |- context [render_xtcp_events (?evs ++ [?e])] => destruct (render_newest evs e) as [rest E] end.
  rewrite E. unfold render_event. cbn [xe_stage xe_proxy_name]. rewrite !string_app_assoc.
  eexists. reflexivity.
Qed.
End Dashboard.

(** ** Witnesses *)

Module ToyDashboard.
#[local] Existing Instances ToyProxyManager.json ToyProxyManager.lower ToyProxyManager.iter.
Definition info : AdminInfo := mkAdminInfo 0 "tcp" "0.0.0.0" 7000 true 0 0.

Lemma status_adds_up_witness :
  st_active_proxies (status_snapshot info ToyControl.h1) = 1 ∧
  total (st_proxy_type_counts (status_snapshot info ToyControl.h1)) = 1.
Proof.
  assert (st_active_proxies (status_snapshot info ToyControl.h1) = 1) as E by (vm_compute; reflexivity).
  split; [exact E|].
  destruct (status_adds_up info ToyControl.h1 ToyControl.h1_reachable) as (_ & _ & Ht). etransitivity; [exact Ht|exact E].
Defined.

Definition script : NatHoleVisitorMsg := mkNatHoleVisitorMsg "<script>alert(1)</script>" "s|1.2.3.4:5".
Lemma dashboard_shows_name_verbatim_witness :
  ∃ rest, render_xtcp_events (recent_events (handle_visitor "r1" script ToyControl.h0).1) =
    "<li><code>owner_not_found</code> proxy=<code><script>alert(1)</script>" +:+ rest.
Proof. apply (dashboard_shows_name_verbatim "r1" script ToyControl.h0 "s" "1.2.3.4:5"); reflexivity. Defined.
End ToyDashboard.
