(* ===== verification/WebStream.v ===== *)
(** * The dashboard's routes and its event stream
    (crates/arp-server/src/web/mod.rs and the bus of audit.rs)

    The router of [start_admin_server] over the handlers of Dashboard, and
    [GET /api/v1/events/stream], which forwards the audit events.  The bus is a
    broadcast channel of tokio: its documented behaviour is the class
    [BroadcastSpec], over the list of all events that were emitted. *)
From S2P Require Import Prelude RustString Errors Protocol Config Auth Resource Vhost ProxyManager Hub NatHole Control Server TcpConn Dashboard Http.
Local Open Scope Z_scope.

(** ** The broadcast channel *)

(** What a poll of [recv] gives. *)
Inductive Recv (A : Type) := RPending | ROk (a : A) | RLagged (n : Z) | RClosed.
Arguments RPending {A}. Arguments ROk {A} a. Arguments RLagged {A} n. Arguments RClosed {A}.

Class Broadcast (A : Type) := {
  Receiver : Type;
  bus_subscribe : list A → Receiver;
  poll_recv : list A → Receiver → Receiver * Recv A;
}.

(** [broadcast::channel(256)] with a sender that is never dropped: a receiver
    gets what is sent after it was made, in order; when more than [capacity]
    values wait for it, it is told how many it missed and goes on with the
    oldest that is kept. *)
Definition capacity : nat := 256.
Class BroadcastSpec {A} `{Broadcast A} := {
  next_of : Receiver → nat;
  subscribe_next sent : next_of (bus_subscribe sent) = length sent;
  poll_pending sent rx : next_of rx = length sent → poll_recv sent rx = (rx, RPending);
  poll_ok sent rx e :
    sent !! next_of rx = Some e → (length sent - next_of rx ≤ capacity)%nat →
    ∃ rx', poll_recv sent rx = (rx', ROk e) ∧ next_of rx' = S (next_of rx);
  poll_lagged sent rx :
    (capacity < length sent - next_of rx)%nat →
    ∃ rx', poll_recv sent rx = (rx', RLagged (Z.of_nat (length sent - capacity - next_of rx))) ∧
           next_of rx' = (length sent - capacity)%nat;
}.

(** ** The routes *)

Inductive WebRoute :=
| WrDashboard | WrHealthz | WrReadyz | WrMetrics | WrStatus | WrProxies | WrProxyDetail (name : string)
| WrClients | WrClientDetail (run_id : string) | WrClientShutdown (run_id : string) | WrXtcpEvents | WrEventsStream.

(** The routes of [start_admin_server]; a status is a request that no handler takes. *)
Definition on_get (r : list string → Z + WebRoute) : Method → list string → Z + WebRoute :=
  fun method params => match method with GET | HEAD => r params | _ => inl 405 end.
Definition on_post (r : list string → Z + WebRoute) : Method → list string → Z + WebRoute :=
  fun method params => match method with POST => r params | _ => inl 405 end.
Definition with_param (f : string → WebRoute) (params : list string) : Z + WebRoute :=
  match params with [x] => inr (f x) | _ => inl 500 end.

Definition web_routes : list (list Seg * (Method → list string → Z + WebRoute)) :=
  let static r := fun _ : list string => inr r in
  let v1 l := Lit "api" :: Lit "v1" :: l in
  [([Lit ""], on_get (static WrDashboard));
   ([Lit "healthz"], on_get (static WrHealthz));
   ([Lit "readyz"], on_get (static WrReadyz));
   ([Lit "metrics"], on_get (static WrMetrics));
   (v1 [Lit "status"], on_get (static WrStatus));
   (v1 [Lit "proxies"], on_get (static WrProxies));
   (v1 [Lit "proxies"; Param], on_get (with_param WrProxyDetail));
   (v1 [Lit "clients"], on_get (static WrClients));
   (v1 [Lit "clients"; Param], on_get (with_param WrClientDetail));
   (v1 [Lit "clients"; Param; Lit "shutdown"], on_post (with_param WrClientShutdown));
   (v1 [Lit "xtcp"; Lit "events"], on_get (static WrXtcpEvents));
   (v1 [Lit "events"; Lit "stream"], on_get (static WrEventsStream))]%string.

Definition web_route (percent_decode : string → option string) : Method → string → Z + WebRoute :=
  router percent_decode 404 400 web_routes.

Section Web.
Context `{Json} `{UnicodeLower} `{DashIter} {R : Type} `{PortAllocator R} `{Broadcast AuditEvent}.
Variable info : AdminInfo.

(** An answer at once, or a stream that reads from the bus. *)
Inductive WebAnswer := Answer (r : WebResp) | EventStream (rx : Receiver (A := AuditEvent)).

Definition serve_web (percent_decode : string → option string) (table : MetricsTable) (method : Method)
    (path : string) : st (Hub R) Error.t WebAnswer := fun h =>
  let pure r := (h, Ok (Answer r)) in
  match web_route percent_decode method path with
  | inl status => pure (mkWebResp status (WText ""))
  | inr WrDashboard => pure (dashboard info h)
  | inr WrHealthz => pure healthz
  | inr WrReadyz => pure (readyz info h)
  | inr WrMetrics => pure (metrics_text info h table)
  | inr WrStatus => pure (web_status info h)
  | inr WrProxies => pure (web_proxies h)
  | inr (WrProxyDetail name) => pure (web_proxy_detail name h)
  | inr WrClients => pure (web_clients h)
  | inr (WrClientDetail run_id) => pure (web_client_detail run_id h)
  | inr (WrClientShutdown run_id) => (r ← web_client_shutdown run_id; mret (Answer r)) h
  | inr WrXtcpEvents => pure (web_xtcp_events h)
  | inr WrEventsStream => (h, Ok (EventStream (bus_subscribe (hub_audit h))))
  end.
End Web.

(** ** The stream *)

Section Stream.
Context `{Broadcast AuditEvent}.
(** [serde_json::to_string]. *)
Variable to_json : AuditEvent → option string.

(** The data of an event, and the notice that events were missed. *)
Definition event_text (event : AuditEvent) : string := default ""%string (to_json event).
Definition lagged_text (n : Z) : string := quoted "{'event':'lagged','missed':" +:+ pretty n +:+ "}".

(** The [match] of the loop: what is yielded; [None] is the [break]. *)
Definition sse_data (r : Recv AuditEvent) : option (list string) :=
  match r with
  | RPending => Some []
  | ROk event => Some [event_text event]
  | RLagged n => Some [lagged_text n]
  | RClosed => None
  end.

(** The stream is polled: one turn of the loop, while it runs. *)
Definition stream_poll (log : list AuditEvent) (stream : option Receiver) : option Receiver * list string :=
  match stream with
  | None => (None, [])
  | Some rx =>
      let '(rx', r) := poll_recv log rx in
      match sse_data r with Some items => (Some rx', items) | None => (None, []) end
  end.

(** Events are emitted and the stream is polled, in any order. *)
Inductive StreamStep := SEmit (e : AuditEvent) | SPoll.

(** The events so far, the stream, and the data of all items it gave. *)
Fixpoint stream_run (steps : list StreamStep) (log : list AuditEvent) (stream : option Receiver) {struct steps}
  : list AuditEvent * option Receiver * list string :=
  match steps with
  | [] => (log, stream, [])
  | SEmit e :: steps' => stream_run steps' (log ++ [e]) stream
  | SPoll :: steps' =>
      let '(stream', items) := stream_poll log stream in
      let '(log', stream'', items') := stream_run steps' log stream' in
      (log', stream'', items ++ items')
  end.

(** ** Every event is delivered or counted *)

(** The items account for the events of [log] from [p] to [q]: an item is the
    text of the event at its place, or the notice that says how many it stands
    for. *)
Fixpoint accounts (log : list AuditEvent) (p : nat) (items : list string) (q : nat) : Prop :=
  match items with
  | [] => p = q
  | item :: rest =>
      (∃ e, log !! p = Some e ∧ item = event_text e ∧ accounts log (S p) rest q) ∨
      (∃ k, (0 < k)%nat ∧ item = lagged_text (Z.of_nat k) ∧ accounts log (p + k) rest q)
  end.

Definition emitted (steps : list StreamStep) : list AuditEvent :=
  omap (fun s => match s with SEmit e => Some e | SPoll => None end) steps.

Context `{!BroadcastSpec}.

(** One poll: nothing exactly when all is read, else an event or a notice. *)
Lemma poll_cases log rx :
  (next_of rx ≤ length log)%nat →
  ∃ rx' items, stream_poll log (Some rx) = (Some rx', items) ∧ (next_of rx' ≤ length log)%nat ∧
  (items = [] ∧ rx' = rx ∧ next_of rx = length log ∨
   (∃ e, items = [event_text e] ∧ log !! next_of rx = Some e ∧ (length log - next_of rx ≤ capacity)%nat ∧
      next_of rx' = S (next_of rx)) ∨
   ∃ k, items = [lagged_text (Z.of_nat k)] ∧ (0 < k)%nat ∧ (capacity < length log - next_of rx)%nat ∧
     next_of rx' = (next_of rx + k)%nat ∧ (next_of rx' + capacity = length log)%nat).
Proof.
  intros Hle. unfold stream_poll. destruct (decide (next_of rx = length log)) as [Heq|Hne].
  { rewrite poll_pending by done. exists rx, []. split; [done|]. split; [done|]. by left. }
  destruct (decide (length log - next_of rx ≤ capacity)%nat) as [Hc|Hc].
  - destruct (lookup_lt_is_Some_2 log (next_of rx)) as [e He]; [lia|].
    destruct (poll_ok log rx e He Hc) as (rx1 & -> & Hn). exists rx1, [event_text e].
    split; [done|]. split; [lia|]. right. left. by exists e.
  - destruct (poll_lagged log rx) as (rx1 & -> & Hn); [lia|].
    eexists rx1, _. split; [done|]. split; [lia|]. do 2 right. exists (length log - capacity - next_of rx)%nat. split; [done|]. lia.
Qed.

Lemma stream_log steps log stream : (stream_run steps log stream).1.1 = log ++ emitted steps.
Proof.
  revert log stream. induction steps as [|[e|] steps IH]; intros log stream; cbn [stream_run emitted omap list_omap].
  - by rewrite app_nil_r.
  - rewrite IH. by rewrite <- app_assoc.
  - destruct (stream_poll log stream) as [stream' items]. specialize (IH log stream').
    destruct (stream_run steps log stream') as [[log' stream''] items']. done.
Qed.

(** The whole run: the stream goes on, what it gave accounts for the events
    between the two places of its receiver, and without more than [capacity] of
    them it is these events. *)
Lemma stream_accounts steps log rx log' stream' items :
  (next_of rx ≤ length log)%nat → stream_run steps log (Some rx) = (log', stream', items) →
  ∃ rx', stream' = Some rx' ∧ (next_of rx ≤ next_of rx' ≤ length log')%nat ∧
  accounts log' (next_of rx) items (next_of rx') ∧
  ((length log' - next_of rx ≤ capacity)%nat →
     items = event_text <$> take (next_of rx' - next_of rx) (drop (next_of rx) log')).
Proof.
  revert log rx items. induction steps as [|[e|] steps IH]; intros log rx items Hle E; cbn [stream_run] in E.
  - injection E as <- <- <-. exists rx. split; [done|]. split; [lia|]. split; [done|]. by rewrite Nat.sub_diag.
  - apply IH in E; [done|]. rewrite length_app. lia.
  - destruct (poll_cases log rx Hle) as (rx1 & its & Ep & Hle1 & Hr). rewrite Ep in E.
    pose proof (stream_log steps log (Some rx1)) as Hlog.
    destruct (stream_run steps log (Some rx1)) as [[log1 stream2] items1] eqn:E1. cbn [fst] in Hlog.
    injection E as -> -> <-. destruct (IH log rx1 items1 Hle1 E1) as (rx' & -> & Hn & Ha & Hall).
    exists rx'. split; [done|]. subst log'. rewrite length_app in *.
    destruct Hr as [(-> & -> & Hr)|[(e & -> & He & _ & Hr)|(k & -> & Hk & Hc & Hr & _)]]; cbn [accounts app].
    + done.
    + apply (lookup_app_l_Some _ (emitted steps)) in He. rewrite Hr in *. split; [lia|]. split; [left; by exists e|].
      intros Hcap. rewrite (drop_S _ _ _ He), Hall by lia.
      by replace (next_of rx' - next_of rx)%nat with (S (next_of rx' - S (next_of rx))) by lia.
    + rewrite Hr in *. split; [lia|]. split; [right; by exists k|]. lia.
Qed.

(** Enough polls catch up: each takes a step, and a lag leaves [capacity]. *)
Lemma polls_catch_up n log rx log' rx' items :
  (next_of rx ≤ length log)%nat →
  (length log - next_of rx ≤ n)%nat ∨ (capacity < n)%nat →
  stream_run (replicate n SPoll) log (Some rx) = (log', Some rx', items) → next_of rx' = length log.
Proof.
  revert rx items. induction n as [|n IH]; intros rx items Hle Hn E; cbn [replicate stream_run] in E.
  { injection E as <- <- <-. lia. }
  destruct (poll_cases log rx Hle) as (rx1 & its & Ep & Hle1 & Hr). rewrite Ep in E.
  destruct (stream_run _ log (Some rx1)) as [[log1 stream2] items1] eqn:E1.
  injection E as -> -> _. apply (IH rx1 items1 Hle1); [|done]. unfold capacity in *.
  destruct Hr as [(-> & -> & Hr)|[(e & -> & He & Hb & Hr)|(k & -> & Hk & Hc & Hr & Hr')]]; lia.
Qed.

Lemma stream_run_app s1 s2 log stream :
  stream_run (s1 ++ s2) log stream =
  let '(log1, stream1, items1) := stream_run s1 log stream in
  let '(log2, stream2, items2) := stream_run s2 log1 stream1 in (log2, stream2, items1 ++ items2).
Proof.
  revert log stream. induction s1 as [|[e|] s1 IH]; intros log stream; cbn [app stream_run].
  - by destruct (stream_run s2 log stream) as [[??]?].
  - apply IH.
  - destruct (stream_poll log stream) as [stream' items]. rewrite IH.
    destruct (stream_run s1 log stream') as [[log1 stream1] items1]. destruct (stream_run s2 log1 stream1) as [[??]?].
    by rewrite app_assoc.
Qed.

Lemma emitted_polls n : emitted (replicate n SPoll) = [].
Proof. by induction n. Qed.

(** C37: The event stream loses no event without saying so.  However emitting and
    polling interleave after a subscription, the stream does not end, and once
    it was polled 257 times more its items account for exactly the events since
    the subscription, in order: each is sent as its JSON text at its place or
    counted in a notice.  When no more than 256 were emitted, the items are the
    texts of these events. *)
Theorem audit_stream_complete steps log log' stream items :
  stream_run (steps ++ replicate (S capacity) SPoll) log (Some (bus_subscribe log)) = (log', stream, items) →
  is_Some stream ∧ log' = log ++ emitted steps ∧ accounts log' (length log) items (length log') ∧
  ((length (emitted steps) ≤ capacity)%nat → items = event_text <$> emitted steps).
Proof.
  intros E. pose proof E as E'. rewrite stream_run_app in E'.
  pose proof (stream_log steps log (Some (bus_subscribe log))) as Hlog.
  destruct (stream_run steps log _) as [[log1 stream1] items1] eqn:E1. cbn [fst] in Hlog.
  assert (Hle : (next_of (bus_subscribe log) ≤ length log)%nat) by (by rewrite subscribe_next).
  destruct (stream_accounts _ _ _ _ _ _ Hle E1) as (rx1 & -> & Hle1 & _ & _).
  destruct (stream_accounts _ _ _ _ _ _ Hle E) as (rx' & -> & _ & Ha & Hall). rewrite subscribe_next in Ha, Hall.
  destruct (stream_run (replicate _ _) log1 (Some rx1)) as [[log2 stream2] items2] eqn:E2. injection E' as -> -> _.
  assert (Hlog2 : log' = log1).
  { pose proof (stream_log (replicate (S capacity) SPoll) log1 (Some rx1)) as Hx. rewrite E2 in Hx. cbn [fst] in Hx.
    by rewrite Hx, emitted_polls, app_nil_r. }
  pose proof (polls_catch_up (S capacity) _ _ _ _ _ (proj2 Hle1) (or_intror (Nat.lt_succ_diag_r _)) E2) as Hend.
  rewrite <- Hlog2 in Hend. rewrite Hend in *. split; [by eexists|]. subst log'. split; [done|]. split; [done|].
  intros Hc. rewrite Hlog, length_app in Hall. rewrite Hall by lia.
  rewrite drop_app_exact by done. by rewrite take_ge by lia.
Qed.
End Stream.

(** ** Who can change what *)

Section WebSafety.
Context `{Json} `{UnicodeLower} `{DashIter} {R : Type} `{PortAllocator R} `{Broadcast AuditEvent}.

(** The one route that reaches the handler of a shutdown. *)
Lemma shutdown_route percent_decode method path run_id :
  web_route percent_decode method path = inr (WrClientShutdown run_id) →
  method = POST ∧ ∃ piece,
    path_pieces path = Some ["api"; "v1"; "clients"; piece; "shutdown"]%string ∧ percent_decode piece = Some run_id.
Proof.
  intros (pattern & f & pieces & params & decoded & Hin & Hp & Hm & Hd & Hf)%router_inr.
  apply match_route_fill in Hm. rewrite Hp. unfold web_routes in Hin. rewrite !elem_of_cons in Hin.
  repeat destruct Hin as [[= -> ->]|Hin]; [..|by apply not_elem_of_nil in Hin].
  all: destruct method, decoded as [|? []]; simplify_eq/=. split; [done|].
  destruct params as [|x [|]]; [done| |apply mapM_Some, Forall2_length in Hd; simpl in Hd; lia].
  exists x. split; [done|]. by apply mapM_Some, Forall2_cons in Hd as [? _].
Qed.

(** The dashboard only reads.  A request changes the state of the server only
    if it is a [POST] to the shutdown of a client, by its run id, that the
    server has; every other request, whatever its method and path, leaves the
    state as it is, and none ends in an error. *)
Theorem web_reads_only info percent_decode table method path (h : Hub R) :
  is_ok (serve_web info percent_decode table method path h).2 = true ∧
  ((serve_web info percent_decode table method path h).1 ≠ h →
   method = POST ∧ ∃ piece run_id,
     path_pieces path = Some ["api"; "v1"; "clients"; piece; "shutdown"]%string ∧
     percent_decode piece = Some run_id ∧ is_Some (cm_get run_id h)).
Proof.
  unfold serve_web. destruct (web_route percent_decode method path) as [|r] eqn:Er; [done|].
  destruct r; try (by split); try done. apply shutdown_route in Er as (-> & piece & Hp & Hd).
  cbv [mbind st_bind mret st_ret web_client_shutdown hub_gets]. unfold shutdown_run.
  destruct (cm_get run_id h) as [self|] eqn:Ec; [|done]. unfold cm_get in Ec. rewrite Ec. split; [done|].
  intros _. split; [done|]. exists piece, run_id. unfold cm_get. rewrite Ec. eauto.
Qed.
End WebSafety.

(** ** Witnesses *)

Module ToyStream.
(** A receiver is the number of the next event. *)
#[export] Instance bus : Broadcast AuditEvent := {|
  Receiver := nat;
  bus_subscribe := @length AuditEvent;
  poll_recv := fun sent next =>
    if decide (capacity < length sent - next)%nat
    then ((length sent - capacity)%nat, RLagged (Z.of_nat (length sent - capacity - next)))
    else match sent !! next with Some e => (S next, ROk e) | None => (next, RPending) end |}.
#[export] Instance bus_spec : BroadcastSpec.
Proof.
  refine {| next_of := fun rx : Receiver => rx |}; cbn [poll_recv bus_subscribe bus Receiver].
  - done.
  - intros sent rx ->. rewrite decide_False by lia. by rewrite lookup_ge_None_2.
  - intros sent rx e He Hc. rewrite decide_False by lia. rewrite He. eauto.
  - intros sent rx Hc. rewrite decide_True by done. eauto.
Defined.

Definition ev (n : Z) : AuditEvent := ClientDisconnect (pretty n) "r".
(** Five events, then 300 more before the next poll. *)
Definition steps : list StreamStep :=
  [SEmit (ev 1); SEmit (ev 2); SPoll] ++ ((fun n => SEmit (ev (Z.of_nat n))) <$> seq 3 300).

Definition to_json (e : AuditEvent) : option string :=
  match e with ClientDisconnect n _ => Some ("event " +:+ n) | _ => None end.
Definition items : list string :=
  (stream_run to_json (steps ++ replicate (S capacity) SPoll) [ev 0] (Some (bus_subscribe [ev 0]))).2.

Lemma audit_stream_complete_witness :
  accounts to_json ([ev 0] ++ emitted steps) 1 items 303 ∧
  take 3 items = ["event 1"%string; lagged_text 45; "event 47"%string].
Proof.
  split; [|vm_compute; reflexivity]. unfold items.
  destruct (stream_run to_json (steps ++ replicate (S capacity) SPoll) [ev 0] (Some (bus_subscribe [ev 0])))
    as [[log' stream] its] eqn:E.
  destruct (audit_stream_complete to_json steps [ev 0] log' stream its E) as (_ & -> & Ha & _). exact Ha.
Defined.
End ToyStream.
