(* ===== verification/Listener.v ===== *)
(** * Listening (crates/arp-server/src/service.rs, the other half)

    [Service::run] with its dashboard and its three accept loops, the layers a
    TCP connection goes through before its first message, the TLS set-up and
    the graceful shutdown.  What the listeners and the TLS and WebSocket
    handshakes give is an argument; the connections themselves are served by
    [handle_transport] of Server. *)
From S2P Require Import Prelude RustString NetAddr Errors Protocol Config Resource Vhost ProxyManager Hub Dashboard.
Local Open Scope Z_scope.

Section Listener.
Context `{Json}.

(** ** TLS set-up *)

(** [load cert key] is what reading and parsing the two files gives. *)
Definition build_tls_acceptor (load : string → string → Result unit) (config : ServerConfig) : Result unit :=
  let tls := tc_tls (sc_transport config) in
  if is_empty (tls_cert_file tls) || is_empty (tls_key_file tls)
  then Err (Error.Config "tls.enable is true but cert_file/key_file is empty")
  else load (tls_cert_file tls) (tls_key_file tls).

Definition build_quic_server_config (load : string → string → Result unit) (config : ServerConfig) : Result unit :=
  let tls := tc_tls (sc_transport config) in
  if is_empty (tls_cert_file tls) || is_empty (tls_key_file tls)
  then Err (Error.Config "quic transport requires tls.cert_file and tls.key_file")
  else load (tls_cert_file tls) (tls_key_file tls).

(** ** Where the server listens *)

Inductive ListenOn := OnTcp (addr : string) | OnKcp (addr : string) | OnQuic (host : string) (p : Z).

Definition listen_on (config : ServerConfig) : ListenOn :=
  let at_port p := sc_bind_addr config +:+ ":" +:+ pretty p in
  match tc_protocol (sc_transport config) with
  | TpKcp => OnKcp (at_port (if 0 <? sc_kcp_bind_port config then sc_kcp_bind_port config else sc_bind_port config))
  | TpQuic => OnQuic (sc_bind_addr config)
                (if 0 <? sc_quic_bind_port config then sc_quic_bind_port config else sc_bind_port config)
  | _ => OnTcp (at_port (sc_bind_port config))
  end.

(** The dashboard [run] starts first, with the address it binds. *)
Definition dashboard_of (now : Z) (config : ServerConfig) : option (string * AdminInfo) :=
  if 0 <? sc_dashboard_port config then
    let addr := if is_empty (sc_dashboard_addr config) then sc_bind_addr config else sc_dashboard_addr config in
    Some (addr +:+ ":" +:+ pretty (sc_dashboard_port config),
          mkAdminInfo now (transport_protocol_to_string (tc_protocol (sc_transport config))) (sc_bind_addr config)
            (sc_bind_port config) true (sc_vhost_http_port config) (sc_vhost_https_port config))
  else None.

(** ** The layers of a connection *)

Inductive Layer := LTls | LWs | LKcp | LQuic.

#[global] Instance Layer_eq_dec : EqDecision Layer.
Proof. solve_decision. Defined.

(** What the handshakes of a TCP connection give. *)
Record Handshakes := mkHandshakes {
  hs_peer_addr : result IoError string; hs_tls : result string unit; hs_ws : result string unit;
}.

(** [handle_connection] up to [handle_transport]: the layers and the peer's
    address, or [None] for a connection that is dropped with a warning.
    [acceptor] is whether the service has a TLS acceptor. *)
Definition handle_connection (config : ServerConfig) (acceptor : bool) (hs : Handshakes)
  : Result (option (list Layer * string)) :=
  match hs_peer_addr hs with
  | Err e => Err (Error.Io e)
  | Ok peer_addr =>
      if bool_decide (tc_protocol (sc_transport config) = TpWebsocket) then
        if acceptor then
          match hs_tls hs with
          | Err _ => Ok None
          | Ok _ => match hs_ws hs with Err _ => Ok None | Ok _ => Ok (Some ([LTls; LWs], peer_addr)) end
          end
        else match hs_ws hs with Err _ => Ok None | Ok _ => Ok (Some ([LWs], peer_addr)) end
      else if acceptor then
        match hs_tls hs with Err _ => Ok None | Ok _ => Ok (Some ([LTls], peer_addr)) end
      else Ok (Some ([], peer_addr))
  end.

(** ** The accept loops *)

(** What a loop sees; only the TCP loop looks at the shutdown. *)
Inductive ListenEvent := LAccepted (conn : Z) | LFailed | LCancelled | LClosed.

(** The connections for which a task is spawned, and the result if the loop
    ends.  (Each of them also moves the counter of incoming connections, which
    is not kept here.) *)
Fixpoint run_tcp_like (evs : list ListenEvent) : list Z * option (Result unit) :=
  match evs with
  | [] => ([], None)
  | LCancelled :: _ => ([], Some (Ok tt))
  | LAccepted conn :: evs' => let '(cs, r) := run_tcp_like evs' in (conn :: cs, r)
  | _ :: evs' => run_tcp_like evs'
  end.

Fixpoint run_kcp (evs : list ListenEvent) : list Z * option (Result unit) :=
  match evs with
  | [] => ([], None)
  | LAccepted conn :: evs' => let '(cs, r) := run_kcp evs' in (conn :: cs, r)
  | _ :: evs' => run_kcp evs'
  end.

Fixpoint run_quic (evs : list ListenEvent) : list Z * option (Result unit) :=
  match evs with
  | [] => ([], None)
  | LAccepted conn :: evs' => let '(cs, r) := run_quic evs' in (conn :: cs, r)
  | LClosed :: _ => ([], Some (Err (Error.Transport "QUIC endpoint closed")))
  | _ :: evs' => run_quic evs'
  end.

Definition service_listen (config : ServerConfig) (bound : Result unit) (evs : list ListenEvent)
  : list Z * option (Result unit) :=
  match bound with
  | Err e => ([], Some (Err e))
  | Ok _ => match tc_protocol (sc_transport config) with
            | TpKcp => run_kcp evs
            | TpQuic => run_quic evs
            | _ => run_tcp_like evs
            end
  end.

(** ** Graceful shutdown *)

(** The poll of a drain: how many controls are left, and whether the deadline of
    30 seconds comes before the next poll, 500 ms later. *)
Inductive Drained := AllDrained | DrainTimeout (left : Z).
Fixpoint graceful_shutdown (polls : list (Z * bool)) : option Drained :=
  match polls with
  | [] => None
  | (count, deadline) :: polls' =>
      if count =? 0 then Some AllDrained
      else if deadline : bool then Some (DrainTimeout count) else graceful_shutdown polls'
  end.

(** ** Properties *)

(** The drain ends: at the latest with the deadline, and with success exactly
    when a poll before it finds no control. *)
Lemma drain_ends before count after :
  Forall (fun p => p.2 = false) before →
  ∃ d, graceful_shutdown (before ++ (count, true) :: after) = Some d ∧
    (d = AllDrained ↔ ∃ p, p ∈ before ++ [(count, true)] ∧ p.1 = 0).
Proof.
  induction before as [|[n dl] before IH]; simpl; intros Hf.
  - destruct (Z.eqb_spec count 0) as [->|Hn]; eexists; (split; [done|]); split; try done.
    + intros _. exists (0, true). split; [by left|done].
    + intros (p & Hp%list_elem_of_singleton & E). by subst.
  - apply Forall_cons in Hf as [Hd Hf]. simpl in Hd. subst dl. destruct (Z.eqb_spec n 0) as [->|Hn].
    + eexists. split; [done|]. split; [|done]. intros _. exists (0, false). split; [by left|done].
    + destruct (IH Hf) as (d & E & Hd). exists d. split; [done|]. rewrite Hd. split.
      * intros (p & Hp & E0). exists p. split; [by right|done].
      * intros (p & Hp & E0). exists p. split; [|done]. apply elem_of_cons in Hp as [->|Hp]; [done|done].
Qed.

(** The loops on a sequence of connections. *)
Lemma run_tcp_accepts cs evs :
  run_tcp_like ((LAccepted <$> cs) ++ evs) = (cs ++ (run_tcp_like evs).1, (run_tcp_like evs).2).
Proof. induction cs as [|c cs IH]; [simpl; by destruct (run_tcp_like evs)|].
  rewrite fmap_cons. cbn [app run_tcp_like]. by rewrite IH. Qed.
Lemma run_kcp_accepts cs evs :
  run_kcp ((LAccepted <$> cs) ++ evs) = (cs ++ (run_kcp evs).1, (run_kcp evs).2).
Proof. induction cs as [|c cs IH]; [simpl; by destruct (run_kcp evs)|].
  rewrite fmap_cons. cbn [app run_kcp]. by rewrite IH. Qed.
Lemma run_quic_accepts cs evs :
  run_quic ((LAccepted <$> cs) ++ evs) = (cs ++ (run_quic evs).1, (run_quic evs).2).
Proof. induction cs as [|c cs IH]; [simpl; by destruct (run_quic evs)|].
  rewrite fmap_cons. cbn [app run_quic]. by rewrite IH. Qed.

(** The cancellation token stops the accept loop of TCP and WebSocket, and no
    other.  After the cancellation the TCP loop spawns nothing and returns; the
    loops of KCP and QUIC, as long as they are polled, go on and spawn a task for
    every connection that comes.  ([main] drops the loop before it cancels the
    token, see [server_select] of Main.) *)
Theorem shutdown_stops_tcp_only config before after :
  service_listen config (Ok tt) ((LAccepted <$> before) ++ LCancelled :: (LAccepted <$> after)) =
  match tc_protocol (sc_transport config) with
  | TpTcp | TpWebsocket => (before, Some (Ok tt))
  | TpKcp | TpQuic => (before ++ after, None)
  end.
Proof.
  unfold service_listen. rewrite <- (app_nil_r (LAccepted <$> after)).
  destruct (tc_protocol _); rewrite ?run_tcp_accepts, ?run_kcp_accepts, ?run_quic_accepts; simpl;
    rewrite ?run_kcp_accepts, ?run_quic_accepts; simpl; by rewrite ?app_nil_r.
Qed.

(** The layers the server speaks: those of a connection whose handshakes all
    succeed. *)
Definition all_succeed : Handshakes := mkHandshakes (Ok ""%string) (Ok tt) (Ok tt).
Definition server_layers (config : ServerConfig) : list Layer :=
  match listen_on config with
  | OnKcp _ => [LKcp]
  | OnQuic _ _ => [LQuic]
  | OnTcp _ =>
      match handle_connection config (tls_enable (tc_tls (sc_transport config))) all_succeed with
      | Ok (Some (layers, _)) => layers
      | _ => []
      end
  end.

Lemma server_layers_eq config :
  server_layers config =
  match tc_protocol (sc_transport config), tls_enable (tc_tls (sc_transport config)) with
  | TpKcp, _ => [LKcp] | TpQuic, _ => [LQuic]
  | TpWebsocket, true => [LTls; LWs] | TpWebsocket, false => [LWs]
  | TpTcp, true => [LTls] | TpTcp, false => []
  end.
Proof.
  unfold server_layers, listen_on, handle_connection.
  destruct (tc_protocol _); simpl; try done; by destruct (tls_enable _).
Qed.

(** A TCP connection that gets through has exactly these layers. *)
Lemma handle_connection_layers config hs layers peer :
  (tc_protocol (sc_transport config) = TpTcp ∨ tc_protocol (sc_transport config) = TpWebsocket) →
  handle_connection config (tls_enable (tc_tls (sc_transport config))) hs = Ok (Some (layers, peer)) →
  layers = server_layers config.
Proof.
  rewrite server_layers_eq. unfold handle_connection.
  intros [-> | ->]; destruct (tls_enable _); simpl; repeat case_match; by intros [= <- <-].
Qed.
End Listener.
