(* ===== verification/ClientProxies.v ===== *)
(** * The client's proxies (crates/arp-client/src/proxy/{mod,tcp,xtcp}.rs)

    The trait [ClientProxy] with its three implementations, the client's proxy
    manager, the health check of a TCP proxy and the race of the two ways to
    reach an XTCP peer.  A proxy has state of its own (the health check) and is
    shared between the manager and the tasks that serve its work connections,
    so proxies live in a heap and the manager maps names to addresses.  An
    [Instant] and a [Duration] are numbers of nanoseconds; the loop over the
    frames of a multiplexed work connection is in MuxTunnel, that of a UDP work
    connection in UdpTunnel. *)
From S2P Require Import Prelude RustString Errors Protocol Config Crypto Framing UdpTunnel TcpGroup Vhost ProxyManager.
Local Open Scope Z_scope.

(** ** TCP proxies *)

Record ClientTcpProxy := mkClientTcpProxy {
  ct_name : string; ct_local_ip : string; ct_local_port : Z;
  ct_tcp_mux : bool; ct_stcp : bool; ct_secret : string;
  ct_health_check_enable : bool; ct_health_check_timeout : Z; ct_health_check_interval : Z;
  ct_health_check_max_failed : Z;
  ct_health_last_check : Z; ct_health_failed : Z; ct_healthy : bool;
}.

Definition from_secs (s : Z) : Z := s * nanos_per_sec.

(** [TcpProxy::new] at time [now]. *)
Definition client_tcp_new (now : Z) (config : ProxyConfig) : ClientTcpProxy :=
  let stcp := false in
  let tcp_mux := is_mux_name (pc_multiplexer config) && negb stcp in
  let hc := pc_health_check config in
  mkClientTcpProxy (pc_name config) (pc_local_ip config) (pc_local_port config) tcp_mux stcp (pc_sk config)
    (hc_enable hc) (from_secs (Z.max (hc_timeout_seconds hc) 2)) (from_secs (Z.max (hc_interval_seconds hc) 5))
    (Z.max (hc_max_failed hc) 1) (now - from_secs 3600) 0 true.

Definition set_health (last failed : Z) (healthy : bool) (p : ClientTcpProxy) : ClientTcpProxy :=
  mkClientTcpProxy (ct_name p) (ct_local_ip p) (ct_local_port p) (ct_tcp_mux p) (ct_stcp p) (ct_secret p)
    (ct_health_check_enable p) (ct_health_check_timeout p) (ct_health_check_interval p)
    (ct_health_check_max_failed p) last failed healthy.

Definition tcp_is_available (p : ClientTcpProxy) : bool :=
  if negb (ct_health_check_enable p) then true else ct_healthy p.

Definition endpoint_of (p : ClientTcpProxy) : string :=
  ct_local_ip p +:+ ":" +:+ pretty (ct_local_port p).

Definition unhealthy_err (p : ClientTcpProxy) (suffix : string) : Error.t :=
  Error.Proxy ("proxy " +:+ ct_name p +:+ " local endpoint " +:+ endpoint_of p +:+ " is unhealthy" +:+ suffix).

(** [check_health] at time [now]; [probe] is whether the connect to the local
    service succeeds within the timeout.  The probe and what follows it are one
    step: a check that comes meanwhile sees the time of the last check already
    set and only reads the flag. *)
Definition check_health (now : Z) (probe : bool) : st ClientTcpProxy Error.t unit := fun p =>
  if negb (ct_health_check_enable p) then (p, Ok tt)
  else if now - ct_health_last_check p <? ct_health_check_interval p then
    if ct_healthy p then (p, Ok tt) else (p, Err (unhealthy_err p ""))
  else if probe then (set_health now 0 true p, Ok tt)
  else
    let failed := wrap 32 (ct_health_failed p + 1) in
    let healthy := if ct_health_check_max_failed p <=? failed then false else ct_healthy p in
    (set_health now failed healthy p,
     if healthy then Ok tt else Err (unhealthy_err p (" (failed=" +:+ pretty failed +:+ ")"))).

(** What the parts of [handle_work_conn] that do I/O give: the connect to the
    local service (the text of its error), writing the bytes that were read
    with the messages, the copy, and the loops of the two other modes. *)
Record WorkIo := mkWorkIo {
  io_connect : result string unit;
  io_flush : result IoError unit;
  io_copy : Result (Z * Z);
  io_mux : Result unit;
  io_stcp : Result (Z * Z);
}.

(** [pre_read] are the bytes that came after [StartWorkConn]; the bytes the
    local service gets first are returned. *)
Definition tcp_plain_work_conn (p : ClientTcpProxy) (io : WorkIo) (pre_read : bytes) : bytes * Result unit :=
  match io_connect io with
  | Err e => ([], Err (Error.Proxy ("TCP proxy " +:+ ct_name p +:+ " failed to connect local service "
                                    +:+ endpoint_of p +:+ ": " +:+ e)))
  | Ok _ =>
      if is_nil pre_read then ([], match io_copy io with Ok _ => Ok tt | Err e => Err e end)
      else match io_flush io with
           | Err e => ([], Err (Error.Io e))
           | Ok _ => (pre_read, match io_copy io with Ok _ => Ok tt | Err e => Err e end)
           end
  end.

Definition handle_stcp_work_conn (p : ClientTcpProxy) (io : WorkIo) : Result unit :=
  match io_connect io with
  | Err e => Err (Error.Proxy ("STCP proxy " +:+ ct_name p +:+ " failed to connect local service "
                               +:+ endpoint_of p +:+ ": " +:+ e))
  | Ok _ => match io_stcp io with Ok _ => Ok tt | Err e => Err e end
  end.

Definition tcp_handle_work_conn (now : Z) (probe : bool) (io : WorkIo) (pre_read : bytes)
  : st ClientTcpProxy Error.t bytes := fun p =>
  match check_health now probe p with
  | (p, Err e) => (p, Err e)
  | (p, Ok _) =>
      if ct_tcp_mux p then (p, match io_mux io with Ok _ => Ok [] | Err e => Err e end)
      else if ct_stcp p then (p, match handle_stcp_work_conn p io with Ok _ => Ok [] | Err e => Err e end)
      else (p, match tcp_plain_work_conn p io pre_read with
               | (first, Ok _) => Ok first
               | (_, Err e) => Err e
               end)
  end.

(** ** XTCP proxies *)

Record ClientXtcpProxy := mkClientXtcpProxy { cx_name : string; cx_local_ip : string; cx_local_port : Z }.

Definition client_xtcp_new (config : ProxyConfig) : ClientXtcpProxy :=
  mkClientXtcpProxy (pc_name config) (pc_local_ip config) (pc_local_port config).

Definition xtcp_handle_work_conn : Result unit :=
  Err (Error.Proxy "xtcp does not handle server work connection directly").

(** A task with a timeout that was spawned and awaited: a [JoinError], the
    timeout, an I/O error or a stream. *)
Inductive Raced (A : Type) := RJoin (e : string) | RTimeout | RIo (e : IoError) | RStream (a : A).
Arguments RJoin {A} e.
Arguments RTimeout {A}.
Arguments RIo {A} e.
Arguments RStream {A} a.

Definition raced_result {A} (what : string) (r : Raced A) : Result A :=
  match r with
  | RStream a => Ok a
  | RIo e => Err (Error.Io e)
  | RTimeout => Err (Error.Timeout ("xtcp provider " +:+ what +:+ " timeout"))
  | RJoin e => Err (Error.Transport ("xtcp provider " +:+ what +:+ " task failed: " +:+ e))
  end.

(** [race_peer_stream]: the [select!] takes the task that finishes first, and
    aborts the other, whatever the first gives. *)
Definition race_peer_stream {A} (connect_first : bool) (connect accept : Raced A) : Result A :=
  if connect_first then raced_result "connect" connect else raced_result "accept" accept.

(** [handle_nat_hole_client]: the address of the listener, or the error of
    binding it. *)
Definition xtcp_handle_nat_hole_client (bound : result IoError string) : Result string :=
  match bound with Ok addr => Ok addr | Err e => Err (Error.Io e) end.

(** The task it spawns: whether the peer is joined with the local service. *)
Definition xtcp_serve {A} (connect_first : bool) (connect accept : Raced A) (local : bool) : option A :=
  match race_peer_stream connect_first connect accept with
  | Err _ => None
  | Ok peer => if local then Some peer else None
  end.

(** ** The manager *)

Inductive ClientProxy := CTcp (p : ClientTcpProxy) | CUdp (p : ClientUdpProxy) | CXtcp (p : ClientXtcpProxy).

(** The methods of the trait. *)
Definition cp_name (p : ClientProxy) : string :=
  match p with CTcp p => ct_name p | CUdp p => cu_name p | CXtcp p => cx_name p end.
Definition is_available (p : ClientProxy) : bool :=
  match p with CTcp p => tcp_is_available p | _ => true end.
Definition cp_nat_hole_client (bound : result IoError string) (p : ClientProxy) : Result string :=
  match p with
  | CXtcp _ => xtcp_handle_nat_hole_client bound
  | _ => Err (Error.Proxy "nat hole not supported for this proxy")
  end.

Record ClientProxyManager := mkClientProxyManager {
  cpm_proxies : gmap string Z; cpm_heap : gmap Z ClientProxy; cpm_next : Z;
}.

Definition cpm_new : ClientProxyManager := mkClientProxyManager ∅ ∅ 0.

Definition client_proxy_of (now : Z) (config : ProxyConfig) : ClientProxy :=
  match pc_proxy_type config with
  | Tcp | Stcp | Http | Https => CTcp (client_tcp_new now config)
  | Udp | Sudp => CUdp (client_udp_new config)
  | Xtcp => CXtcp (client_xtcp_new config)
  end.

Definition cpm_register_proxy (now : Z) (config : ProxyConfig) (m : ClientProxyManager) : ClientProxyManager :=
  let proxy := client_proxy_of now config in
  mkClientProxyManager (<[cp_name proxy := cpm_next m]> (cpm_proxies m))
    (<[cpm_next m := proxy]> (cpm_heap m)) (cpm_next m + 1).

Definition get_proxy (name : string) (m : ClientProxyManager) : option Z := cpm_proxies m !! name.

Definition is_proxy_available (name : string) (m : ClientProxyManager) : bool :=
  match cpm_proxies m !! name ≫= fun a => cpm_heap m !! a with
  | Some p => is_available p
  | None => false
  end.

Definition cpm_unregister_proxy (name : string) (m : ClientProxyManager) : ClientProxyManager :=
  mkClientProxyManager (delete name (cpm_proxies m)) (cpm_heap m) (cpm_next m).

Definition list_proxy_names `{DashIter} (m : ClientProxyManager) : list string := (dash_iter (cpm_proxies m)).*1.

Definition cpm_nat_hole_client (bound : result IoError string) (name : string) (m : ClientProxyManager)
  : Result string :=
  match get_proxy name m ≫= fun a => cpm_heap m !! a with
  | None => Err (Error.Proxy ("Unknown proxy: " +:+ name))
  | Some p => cp_nat_hole_client bound p
  end.

(** ** The manager's invariant *)

Lemma cp_name_of now config : cp_name (client_proxy_of now config) = pc_name config.
Proof. unfold client_proxy_of. by destruct (pc_proxy_type config). Qed.

(** What the client does with its manager: registrations, removals, and steps
    of the proxies themselves, which keep their names. *)
Inductive cpm_step (m : ClientProxyManager) : ClientProxyManager → Prop :=
| step_register now config : cpm_step m (cpm_register_proxy now config m)
| step_unregister name : cpm_step m (cpm_unregister_proxy name m)
| step_check a p now probe :
    cpm_heap m !! a = Some (CTcp p) →
    cpm_step m (mkClientProxyManager (cpm_proxies m)
                  (<[a := CTcp (check_health now probe p).1]> (cpm_heap m)) (cpm_next m)).

Inductive cpm_reachable : ClientProxyManager → Prop :=
| reach_new : cpm_reachable cpm_new
| reach_step m m' : cpm_reachable m → cpm_step m m' → cpm_reachable m'.

(** A name refers to a proxy of that name, and addresses are never reused. *)
Record cpm_ok (m : ClientProxyManager) : Prop := {
  cpm_named : ∀ name a, cpm_proxies m !! name = Some a →
    ∃ p, cpm_heap m !! a = Some p ∧ cp_name p = name;
  cpm_fresh : ∀ a, is_Some (cpm_heap m !! a) → a < cpm_next m;
}.

Lemma check_health_name now probe p : ct_name (check_health now probe p).1 = ct_name p.
Proof. unfold check_health. repeat case_match; done. Qed.

Lemma cpm_ok_register now config m : cpm_ok m → cpm_ok (cpm_register_proxy now config m).
Proof.
  intros [Hn Hf]. split; simpl.
  - intros name a [[<- <-]|[Hne Ha]]%lookup_insert_Some; [rewrite lookup_insert_eq; eauto|].
    destruct (Hn name a Ha) as (p & Hp & E). exists p. split; [|done].
    rewrite lookup_insert_ne; [done|]. specialize (Hf a (mk_is_Some _ _ Hp)). lia.
  - intros a. destruct (decide (cpm_next m = a)) as [<-|]; [lia|].
    rewrite lookup_insert_ne by done. intros Ha%Hf. lia.
Qed.

Lemma cpm_reachable_ok m : cpm_reachable m → cpm_ok m.
Proof.
  induction 1 as [|m m' _ IH [now config|name|a p now probe Hp]].
  - split; simpl; intros *; rewrite lookup_empty; [done|by intros [? ?]].
  - by apply cpm_ok_register.
  - destruct IH as [Hn Hf]. split; [|done]. simpl. intros n a [_ Ha]%lookup_delete_Some. by apply Hn.
  - destruct IH as [Hn Hf]. split; simpl.
    + intros name b Hb. destruct (Hn name b Hb) as (q & Hq & E). destruct (decide (a = b)) as [<-|].
      * rewrite lookup_insert_eq. eexists. split; [done|]. simpl. rewrite check_health_name. by simplify_eq.
      * rewrite lookup_insert_ne by done. eauto.
    + intros b. destruct (decide (a = b)) as [<-|]; [intros _; eauto|].
      rewrite lookup_insert_ne by done. apply Hf.
Qed.

Lemma fresh_available now config : is_available (client_proxy_of now config) = true.
Proof.
  unfold client_proxy_of. destruct (pc_proxy_type config); try done; simpl; unfold tcp_is_available; by destruct (negb _).
Qed.

Lemma available_register now config m :
  is_proxy_available (pc_name config) (cpm_register_proxy now config m) = true.
Proof.
  unfold is_proxy_available, cpm_register_proxy. simpl. rewrite cp_name_of, lookup_insert_eq. simpl.
  rewrite lookup_insert_eq. apply fresh_available.
Qed.
Lemma available_register_ne now config m name :
  cpm_ok m → name ≠ pc_name config →
  is_proxy_available name (cpm_register_proxy now config m) = is_proxy_available name m.
Proof.
  intros [Hn Hf] Hne. unfold is_proxy_available, cpm_register_proxy. simpl. rewrite cp_name_of.
  rewrite lookup_insert_ne by done. destruct (cpm_proxies m !! name) as [a|] eqn:Ea; [|done]. simpl.
  destruct (Hn name a Ea) as (p & Hp & _).
  rewrite lookup_insert_ne; [done|]. specialize (Hf a (mk_is_Some _ _ Hp)). lia.
Qed.

(** In every state the client's manager can be in, a name it lists leads to
    a proxy of exactly that name; a registration makes its proxy available
    under the configured name with a clean health record and leaves the other
    names alone, and a removal takes exactly that name away. *)
Theorem client_manager_names m now config name :
  cpm_reachable m →
  (∀ a, get_proxy name m = Some a → ∃ p, cpm_heap m !! a = Some p ∧ cp_name p = name) ∧
  (is_proxy_available (pc_name config) (cpm_register_proxy now config m) = true) ∧
  (name ≠ pc_name config →
    is_proxy_available name (cpm_register_proxy now config m) = is_proxy_available name m) ∧
  get_proxy (pc_name config) (cpm_unregister_proxy (pc_name config) m) = None ∧
  (name ≠ pc_name config → get_proxy name (cpm_unregister_proxy (pc_name config) m) = get_proxy name m).
Proof.
  intros Hm%cpm_reachable_ok. split_and!.
  - intros a Ha. by apply (cpm_named m Hm).
  - apply available_register.
  - intros Hne. by apply available_register_ne.
  - apply lookup_delete_eq.
  - intros Hne. by apply lookup_delete_ne.
Qed.

(** ** The health check *)

(** A sequence of checks, with the probes that were made. *)
Fixpoint run_checks (cs : list (Z * bool)) (p : ClientTcpProxy) : ClientTcpProxy * list bool :=
  match cs with
  | [] => (p, [])
  | (now, probe) :: cs' =>
      let made := negb (now - ct_health_last_check p <? ct_health_check_interval p) in
      let '(p', probes) := run_checks cs' (check_health now probe p).1 in
      (p', if made then probe :: probes else probes)
  end.

(** The failed probes since the last successful one. *)
Definition failed_since (n : Z) (probes : list bool) : Z :=
  foldl (fun n ok => if (ok : bool) then 0 else n + 1) n probes.

(** The flag says whether the failures are below the limit. *)
Definition health_ok (p : ClientTcpProxy) : Prop :=
  ct_healthy p = (ct_health_failed p <? ct_health_check_max_failed p) ∧ 1 ≤ ct_health_check_max_failed p ∧
  0 ≤ ct_health_failed p ∧ ct_health_check_enable p = true.

(** One check: no probe within the interval, and otherwise the new count. *)
Lemma check_health_step now probe p :
  health_ok p → ct_health_failed p + 1 < 2 ^ 32 →
  let made := negb (now - ct_health_last_check p <? ct_health_check_interval p) in
  let p' := (check_health now probe p).1 in
  health_ok p' ∧ ct_health_check_max_failed p' = ct_health_check_max_failed p ∧
  ct_health_failed p' = if made then (if probe then 0 else ct_health_failed p + 1) else ct_health_failed p.
Proof.
  intros (Hh & Hm & H0 & He) Hlen. unfold check_health, health_ok. rewrite He. simpl.
  destruct (now - ct_health_last_check p <? ct_health_check_interval p); simpl.
  { destruct (ct_healthy p) eqn:E; simpl; rewrite ?E; by split_and!. }
  destruct probe; simpl.
  { split_and!; try done. by rewrite (proj2 (Z.ltb_lt _ _)) by lia. }
  rewrite wrap_small by (unfold in_u; lia). split_and!; try done; try lia. rewrite Hh.
  destruct (Z.leb_spec (ct_health_check_max_failed p) (ct_health_failed p + 1)),
    (Z.ltb_spec (ct_health_failed p) (ct_health_check_max_failed p)),
    (Z.ltb_spec (ct_health_failed p + 1) (ct_health_check_max_failed p)); done || lia.
Qed.

Lemma run_checks_spec cs p :
  health_ok p → ct_health_failed p + Z.of_nat (length cs) < 2 ^ 32 →
  let '(p', probes) := run_checks cs p in
  health_ok p' ∧ ct_health_check_max_failed p' = ct_health_check_max_failed p ∧
  ct_health_failed p' = failed_since (ct_health_failed p) probes.
Proof.
  revert p. induction cs as [|[now probe] cs IH]; intros p Hok Hlen; [done|]. cbn [run_checks length] in *.
  destruct (check_health_step now probe p Hok) as (Hok' & Hm & Hf); [lia|]. cbv zeta in Hf.
  pose proof (IH (check_health now probe p).1 Hok') as IH'.
  assert (ct_health_failed (check_health now probe p).1 ≤ ct_health_failed p + 1) as Hle.
  { destruct Hok as (_ & _ & ? & _). rewrite Hf. repeat case_match; lia. }
  destruct (run_checks cs _) as [p' probes]. destruct IH' as (H1 & H2 & H3); [lia|].
  split_and!; [done|congruence|]. rewrite H3, Hf. by destruct (negb _).
Qed.

(** The health check of a TCP proxy.  However the checks are spaced, the
    proxy is available exactly while fewer than [max_failed] (at least one)
    probes in a row have failed, and its counter is the number of failed
    probes since the last successful one. *)
Theorem health_counts now config cs :
  hc_enable (pc_health_check config) = true → Z.of_nat (length cs) < 2 ^ 32 →
  let '(p, probes) := run_checks cs (client_tcp_new now config) in
  ct_health_failed p = failed_since 0 probes ∧
  tcp_is_available p = (failed_since 0 probes <? Z.max (hc_max_failed (pc_health_check config)) 1).
Proof.
  intros He Hlen. pose proof (run_checks_spec cs (client_tcp_new now config)) as H.
  destruct (run_checks cs _) as [p probes]. destruct H as ((Hh & _ & _ & Hen) & Hm & Hf); simpl in *.
  - split_and!; try done; simpl; [|lia]. symmetry. apply Z.ltb_lt. lia.
  - lia.
  - split; [done|]. unfold tcp_is_available. rewrite Hen. simpl. by rewrite Hh, Hf, Hm.
Qed.

(** An unhealthy proxy probes again only when a work connection is handed to
    it. *)
Lemma unhealthy_check now probe p :
  ct_health_check_enable p = true → ct_healthy p = false →
  now - ct_health_last_check p < ct_health_check_interval p →
  check_health now probe p = (p, Err (unhealthy_err p "")).
Proof. intros He Hh Hi. unfold check_health. rewrite He, Hh. by rewrite (proj2 (Z.ltb_lt _ _)). Qed.

(** The race for an XTCP peer is over with the first task that ends, even with
    an error: a connection that the listener would have accepted is not used. *)
Lemma race_lost_to_error {A} (e : IoError) (peer : A) :
  race_peer_stream true (RIo e) (RStream peer) = Err (Error.Io e).
Proof. done. Qed.

(** ** Witnesses *)

Module ToyClient.
Definition hc : HealthCheckConfig := mkHealthCheckConfig true "tcp" 0 2 0 "".
Definition proxy (name : string) (t : ProxyType) : ProxyConfig :=
  mkProxyConfig name t "127.0.0.1" 22 6000 false false [] "" [] "" "" "" "sk" false "" "" "" hc
    LoadBalancerConfig_default PluginConfig_default.
Definition m1 : ClientProxyManager := cpm_register_proxy 0 (proxy "ssh" Tcp) cpm_new.

Lemma m1_reachable : cpm_reachable m1.
Proof. eapply reach_step; [apply reach_new|apply step_register]. Defined.

Lemma client_manager_names_witness :
  is_proxy_available "dns" (cpm_register_proxy 0 (proxy "dns" Udp) m1) = true ∧
  is_proxy_available "ssh" (cpm_register_proxy 0 (proxy "dns" Udp) m1) = is_proxy_available "ssh" m1.
Proof.
  destruct (client_manager_names m1 0 (proxy "dns" Udp) "ssh" m1_reachable) as (_ & H1 & H2 & _).
  split; [exact H1|]. apply H2. discriminate.
Defined.

(** Two failed probes in a row with a check in between that is too early. *)
Lemma health_counts_witness :
  let '(p, probes) := run_checks [(0, false); (from_secs 1, false); (from_secs 6, false)]
                        (client_tcp_new 0 (proxy "ssh" Tcp)) in
  probes = [false; false] ∧ tcp_is_available p = false.
Proof.
  pose proof (health_counts 0 (proxy "ssh" Tcp) [(0, false); (from_secs 1, false); (from_secs 6, false)]
    eq_refl ltac:(vm_compute; reflexivity)) as H.
  vm_compute in H |- *. split; [reflexivity|]. apply H.
Defined.
End ToyClient.
