(* ===== verification/ClientTransport.v ===== *)
(** * How the client reaches the server (crates/arp-client/src/control/mod.rs)

    The transport that is chosen once from the configuration
    ([CachedTransportConfig::build]) and the connections made with it, for the
    control connection, the work connections and the visitors.  What the network
    and the TLS, KCP, QUIC and WebSocket libraries answer is a [Dialer], an
    argument; a connection is the stack of layers it was made of. *)
From S2P Require Import Prelude RustString NetAddr Errors Config.
Local Open Scope Z_scope.

(** ** The TLS libraries *)

(** A certificate, in DER. *)
Abbreviation Cert := bytes.

(** Opening the CA file, with the items its certificates are read as; the root
    store; what is built from it for TLS ([ClientConfig::builder()] with these
    roots and no client certificate) and for QUIC; and parsing a server name.
    Errors are the texts of the libraries. *)
Class TlsLib := {
  RootCertStore : Type;
  TlsConnector : Type;
  QuicClientConfig : Type;
  open_certs : string → result string (list (result string Cert));
  roots_empty : RootCertStore;
  roots_add : RootCertStore → Cert → result string RootCertStore;
  connector_from : RootCertStore → TlsConnector;
  with_root_certificates : RootCertStore → result string QuicClientConfig;
  try_server_name : string → result string unit;
}.

(** Their documented behaviour: a store has the certificates that were added, and
    a connector trusts its store.  [verifies cas name chain] is what the
    verifier of the library accepts: the certificates [chain] of a server, for
    [name], with the roots [cas]. *)
Class TlsLibSpec `{TlsLib} := {
  trusts : RootCertStore → list Cert;
  trusts_empty : trusts roots_empty = [];
  trusts_add roots cert roots' : roots_add roots cert = Ok roots' → trusts roots' = trusts roots ++ [cert];
  connector_trusts : TlsConnector → list Cert;
  connector_from_trusts roots : connector_trusts (connector_from roots) = trusts roots;
  quic_trusts : QuicClientConfig → list Cert;
  with_roots_trusts roots c : with_root_certificates roots = Ok c → quic_trusts c = trusts roots;
  verifies : list Cert → string → list Cert → Prop;
}.

(** ** Choosing the transport *)

Section Transport.
Context `{TlsLib}.

Inductive CachedTransportConfig :=
| PlainTcp
| CTls (connector : TlsConnector) (server_name : string)
| Ws
| Wss (connector : TlsConnector) (server_name : string)
| CKcp
| CQuic (quic_config : QuicClientConfig).

(** The name the server's certificate is checked against. *)
Definition tls_name (config : ClientConfig) : string :=
  let name := tls_server_name (tc_tls (cc_transport config)) in
  if is_empty name then cc_server_addr config else name.

(** [map_err] to a [Config] error. *)
Definition config_text {A} (what : string) (r : result string A) : Result A :=
  match r with Ok a => Ok a | Err e => Err (Error.Config (what +:+ ": " +:+ e)) end.

(** The loop over the certificates of the file. *)
Fixpoint load_roots (certs : list (result string Cert)) (roots : RootCertStore) : Result RootCertStore :=
  match certs with
  | [] => Ok roots
  | cert :: rest =>
      cert ← config_text "Failed to parse CA cert" cert;
      roots ← config_text "Failed to add CA cert" (roots_add roots cert);
      load_roots rest roots
  end.

Definition build_tls_connector (config : ClientConfig) : Result TlsConnector :=
  let file := tls_trusted_ca_file (tc_tls (cc_transport config)) in
  if is_empty file then Err (Error.Config "tls.enable is true but trusted_ca_file is empty")
  else
    certs ← config_text "Failed to open trusted CA file" (open_certs file);
    roots ← load_roots certs roots_empty;
    Ok (connector_from roots).

(** The idle timeout of 60 seconds always fits. *)
Definition build_quic_client_config (config : ClientConfig) : Result QuicClientConfig :=
  let file := tls_trusted_ca_file (tc_tls (cc_transport config)) in
  if is_empty file then Err (Error.Config "quic transport requires transport.tls.trusted_ca_file")
  else
    certs ← config_text "Failed to open trusted CA file" (open_certs file);
    roots ← load_roots certs roots_empty;
    config_text "Failed to build QUIC client config" (with_root_certificates roots).

Definition tls_server_name_of (config : ClientConfig) : Result string :=
  match try_server_name (tls_name config) with
  | Ok _ => Ok (tls_name config)
  | Err e => Err (Error.Config ("Invalid TLS server_name " +:+ tls_name config +:+ ": " +:+ e))
  end.

Definition build_transport (config : ClientConfig) : Result CachedTransportConfig :=
  match tc_protocol (cc_transport config) with
  | TpKcp => Ok CKcp
  | TpQuic => quic_config ← build_quic_client_config config; Ok (CQuic quic_config)
  | TpWebsocket =>
      if tls_enable (tc_tls (cc_transport config)) then
        connector ← build_tls_connector config; name ← tls_server_name_of config; Ok (Wss connector name)
      else Ok Ws
  | TpTcp =>
      if tls_enable (tc_tls (cc_transport config)) then
        connector ← build_tls_connector config; name ← tls_server_name_of config; Ok (CTls connector name)
      else Ok PlainTcp
  end.

(** ** Connecting *)

(** A connection, layer by layer; a TLS or QUIC layer has the name it was made
    for and the certificates the server showed. *)
Inductive Wire :=
| WTcp (addr : string)
| WTls (server_name : string) (chain : list Cert) (inner : Wire)
| WWs (url : string) (inner : Wire)
| WKcp (addr : SocketAddr)
| WQuic (bind : string) (addr : SocketAddr) (server_name : string) (chain : list Cert).

(** The outcome of each step: resolving a name (the addresses, or the text of
    the error), a TCP connect, the TLS handshake of a connector for a name, the
    WebSocket handshake, KCP, and the steps of QUIC.  A handshake gives the
    certificates of the server. *)
Record Dialer := mkDialer {
  dl_resolve : string → Z → result string (list SocketAddr);
  dl_tcp : string → result IoError unit;
  dl_tls : TlsConnector → string → result string (list Cert);
  dl_ws : string → result string unit;
  dl_kcp : SocketAddr → result string unit;
  dl_endpoint : string → result IoError unit;
  dl_quic_init : QuicClientConfig → SocketAddr → string → result string unit;
  dl_quic_connect : QuicClientConfig → SocketAddr → string → result string (list Cert);
  dl_quic_open : result string unit;
}.

(** [map_err] with a text in front of the library's. *)
Definition transport_err {A} (what : string) (r : result string A) : Result A :=
  match r with Ok a => Ok a | Err e => Err (Error.Transport (what +:+ ": " +:+ e)) end.
Definition io_err {A} (r : result IoError A) : Result A :=
  match r with Ok a => Ok a | Err e => Err (Error.Io e) end.

Definition resolve_socket_addr (d : Dialer) (host : string) (p : Z) : Result SocketAddr :=
  match dl_resolve d host p with
  | Err e => Err (Error.Config ("Failed to resolve " +:+ host +:+ ":" +:+ pretty p +:+ ": " +:+ e))
  | Ok addrs =>
      ok_or (Error.Config ("No socket address resolved for " +:+ host +:+ ":" +:+ pretty p)) (head addrs)
  end.

Definition host_port (config : ClientConfig) : string :=
  cc_server_addr config +:+ ":" +:+ pretty (cc_server_port config).

Definition connect_server_transport_cached (d : Dialer) (config : ClientConfig)
    (cached : CachedTransportConfig) : Result Wire :=
  let tcp := _ ← io_err (dl_tcp d (host_port config)); Ok (WTcp (host_port config)) in
  match cached with
  | CKcp =>
      addr ← resolve_socket_addr d (cc_server_addr config) (cc_server_port config);
      _ ← transport_err "KCP connect failed" (dl_kcp d addr);
      Ok (WKcp addr)
  | CQuic quic_config =>
      addr ← resolve_socket_addr d (cc_server_addr config) (cc_server_port config);
      let bind := match addr with SAV4 _ _ _ _ _ => "0.0.0.0:0"%string | SAV6 _ _ _ => "[::]:0"%string end in
      _ ← io_err (dl_endpoint d bind);
      _ ← transport_err "QUIC connect init failed" (dl_quic_init d quic_config addr (tls_name config));
      chain ← transport_err "QUIC connect failed" (dl_quic_connect d quic_config addr (tls_name config));
      _ ← transport_err "QUIC stream open failed" (dl_quic_open d);
      Ok (WQuic bind addr (tls_name config) chain)
  | Ws =>
      let url := "ws://" +:+ host_port config +:+ "/ws" in
      stream ← tcp;
      _ ← transport_err "WS handshake failed" (dl_ws d url);
      Ok (WWs url stream)
  | Wss connector server_name =>
      let url := "wss://" +:+ host_port config +:+ "/ws" in
      stream ← tcp;
      chain ← transport_err "WSS TLS connect failed" (dl_tls d connector server_name);
      _ ← transport_err "WSS handshake failed" (dl_ws d url);
      Ok (WWs url (WTls server_name chain stream))
  | CTls connector server_name =>
      stream ← tcp;
      chain ← transport_err "TLS connect failed" (dl_tls d connector server_name);
      Ok (WTls server_name chain stream)
  | PlainTcp => tcp
  end.

(** ** TLS is used where it is asked for *)

(** The certificates the server showed, if any layer asked for them. *)
Fixpoint peer_chain (w : Wire) : option (list Cert) :=
  match w with
  | WTcp _ | WKcp _ => None
  | WTls _ chain _ => Some chain
  | WWs _ inner => peer_chain inner
  | WQuic _ _ _ chain => Some chain
  end.

(** Whether a configuration asks for an authenticated server. *)
Definition wants_tls (config : ClientConfig) : bool :=
  tls_enable (tc_tls (cc_transport config)) || bool_decide (tc_protocol (cc_transport config) = TpQuic).

Context `{!TlsLibSpec}.

(** A handshake that succeeds has checked the server with the roots of its
    connector. *)
Class DialerSpec (d : Dialer) := {
  tls_checks connector name chain :
    dl_tls d connector name = Ok chain → verifies (connector_trusts connector) name chain;
  quic_checks quic_config addr name chain :
    dl_quic_connect d quic_config addr name = Ok chain → verifies (quic_trusts quic_config) name chain;
}.

Lemma config_text_Ok {A} what (r : result string A) a : config_text what r = Ok a → r = Ok a.
Proof. destruct r; simpl; congruence. Qed.
Lemma transport_err_Ok {A} what (r : result string A) a : transport_err what r = Ok a → r = Ok a.
Proof. destruct r; simpl; congruence. Qed.

Lemma load_roots_Ok certs roots roots' :
  load_roots certs roots = Ok roots' → ∃ cas, certs = Ok <$> cas ∧ trusts roots' = trusts roots ++ cas.
Proof.
  revert roots. induction certs as [|c certs IH]; intros roots; cbn [load_roots].
  - intros [= <-]. exists []. by rewrite app_nil_r.
  - intros (cert & ->%config_text_Ok & (r1 & Hadd%config_text_Ok%trusts_add & (cas & -> & Ht)%IH)%bind_Ok)%bind_Ok.
    exists (cert :: cas). split; [done|]. by rewrite Ht, Hadd, <- app_assoc.
Qed.

(** A CA file is configured, and these are its certificates. *)
Definition ca_file_has (config : ClientConfig) (cas : list Cert) : Prop :=
  let file := tls_trusted_ca_file (tc_tls (cc_transport config)) in
  file ≠ ""%string ∧ open_certs file = Ok (Ok <$> cas).

Lemma build_tls_connector_Ok config c :
  build_tls_connector config = Ok c → ca_file_has config (connector_trusts c).
Proof.
  unfold build_tls_connector, ca_file_has. destruct (is_empty _) eqn:Ef; [done|]. apply is_empty_false in Ef.
  intros (certs & Ho%config_text_Ok & (roots & (cas & -> & Ht)%load_roots_Ok & [= <-])%bind_Ok)%bind_Ok.
  rewrite trusts_empty in Ht. by rewrite connector_from_trusts, Ht.
Qed.

Lemma build_quic_client_config_Ok config c :
  build_quic_client_config config = Ok c → ca_file_has config (quic_trusts c).
Proof.
  unfold build_quic_client_config, ca_file_has. destruct (is_empty _) eqn:Ef; [done|]. apply is_empty_false in Ef.
  intros (certs & Ho%config_text_Ok & (roots & (cas & -> & Ht)%load_roots_Ok & Hq%config_text_Ok)%bind_Ok)%bind_Ok.
  rewrite trusts_empty in Ht. by rewrite (with_roots_trusts _ _ Hq), Ht.
Qed.

Lemma tls_server_name_of_Ok config name : tls_server_name_of config = Ok name → name = tls_name config.
Proof. unfold tls_server_name_of. destruct (try_server_name _); congruence. Qed.

(** The chosen transport trusts the CA file and has the configured name. *)
Lemma build_transport_Ok config t :
  build_transport config = Ok t →
  match t with
  | PlainTcp | Ws => wants_tls config = false
  | CTls connector name | Wss connector name =>
      wants_tls config = true ∧ ca_file_has config (connector_trusts connector) ∧ name = tls_name config
  | CQuic quic_config => wants_tls config = true ∧ ca_file_has config (quic_trusts quic_config)
  | CKcp => tc_protocol (cc_transport config) = TpKcp
  end ∧ (t ≠ CKcp → tc_protocol (cc_transport config) ≠ TpKcp).
Proof.
  unfold build_transport, wants_tls. destruct (tc_protocol _) eqn:Ep; rewrite ?orb_false_r, ?orb_true_r; cbn [bool_decide].
  2: by intros [= <-].
  2: by intros (c & Hc%build_quic_client_config_Ok & [= <-])%bind_Ok.
  all: destruct (tls_enable _); [|by intros [= <-]].
  all: by intros (c & Hc%build_tls_connector_Ok & (name & ->%tls_server_name_of_Ok & [= <-])%bind_Ok)%bind_Ok.
Qed.

(** What a connection is made of, per transport. *)
Lemma connect_wire d `{!DialerSpec d} config t w :
  connect_server_transport_cached d config t = Ok w →
  match t with
  | CTls connector name | Wss connector name =>
      ∃ chain, peer_chain w = Some chain ∧ verifies (connector_trusts connector) name chain
  | CQuic quic_config =>
      ∃ chain, peer_chain w = Some chain ∧ verifies (quic_trusts quic_config) (tls_name config) chain
  | PlainTcp | Ws | CKcp => peer_chain w = None
  end.
Proof.
  destruct t; simpl; intros Hw;
    repeat match goal with
           | H : (_ ≫= _) = Ok _ |- _ => apply bind_Ok in H as (? & ? & H)
           end; simplify_eq; try done.
  all: eexists; (split; [done|]); by first [eapply tls_checks, transport_err_Ok|eapply quic_checks, transport_err_Ok].
Qed.

(** C31: the client's connections are authenticated where the configuration asks
    for it.  With a transport built from the configuration, every connection to
    the server (control, work, visitor) of a client whose configuration enables
    TLS or uses QUIC is one where the server showed certificates that verify
    for the configured server name (the server's address when there is none)
    with exactly the certificates of the configured CA file as roots; without
    either no connection asks for certificates.  KCP is the exception: its
    connections never do, whatever [tls.enable] says. *)
Theorem client_connection_authenticated d `{!DialerSpec d} config t w :
  build_transport config = Ok t → connect_server_transport_cached d config t = Ok w →
  (tc_protocol (cc_transport config) = TpKcp → peer_chain w = None) ∧
  (tc_protocol (cc_transport config) ≠ TpKcp → wants_tls config = true →
    ∃ cas chain, ca_file_has config cas ∧ peer_chain w = Some chain ∧ verifies cas (tls_name config) chain) ∧
  (wants_tls config = false → peer_chain w = None).
Proof.
  intros Hb Hw%connect_wire; [|done]. destruct (build_transport_Ok _ _ Hb) as [Ht Hk].
  destruct t; split_and!; intros; simplify_eq; try congruence.
  all: try (exfalso; by apply Hk).
  all: try (destruct Ht as (Hw1 & Hca & ->) || destruct Ht as (Hw1 & Hca)); try congruence.
  all: destruct Hw as (chain & Hc & Hv); eexists _, chain; by split_and!.
Qed.
End Transport.

Module ToyDial.
(** A certificate is its subject.  A server shows its own and that of its CA; the
    file [ca.pem] has one CA. *)
#[export] Instance lib : TlsLib := {|
  RootCertStore := list Cert; TlsConnector := list Cert; QuicClientConfig := list Cert;
  open_certs := fun file => if bool_decide (file = "ca.pem"%string) then Ok [Ok (to_bytes "ca")] else Err "not found"%string;
  roots_empty := [];
  roots_add := fun roots cert => Ok (roots ++ [cert]);
  connector_from := fun roots => roots;
  with_root_certificates := fun roots => Ok roots;
  try_server_name := fun _ => Ok tt |}.
#[export] Instance lib_spec : TlsLibSpec.
Proof.
  refine {| trusts := fun roots => roots; connector_trusts := fun c : TlsConnector => c; quic_trusts := fun c : QuicClientConfig => c;
            verifies := fun cas name chain => ∃ ca, chain = [to_bytes name; ca] ∧ ca ∈ cas |}.
  - reflexivity.
  - intros roots cert roots' E. injection E as <-. reflexivity.
  - reflexivity.
  - intros roots c E. injection E as <-. reflexivity.
Defined.

(** The server's certificate, by [issuer] for [name]. *)
Definition handshake (issuer subject : string) (roots : list Cert) (name : string) : result string (list Cert) :=
  if bool_decide (subject = name ∧ to_bytes issuer ∈ roots) then Ok [to_bytes subject; to_bytes issuer]
  else Err "invalid peer certificate"%string.
Definition dial (issuer : string) : Dialer :=
  mkDialer (fun _ p => Ok [SAV4 10 0 0 1 p]) (fun _ => Ok tt) (handshake issuer "example.org") (fun _ => Ok tt)
    (fun _ => Ok tt) (fun _ => Ok tt) (fun _ _ _ => Ok tt) (fun c _ => handshake issuer "example.org" c) (Ok tt).
Definition d : Dialer := dial "ca".
#[export] Instance dial_spec issuer : DialerSpec (dial issuer).
Proof.
  split; [intros c name chain|intros c addr name chain]; cbn; unfold handshake; case_bool_decide as Hc; try done;
    intros [= <-]; destruct Hc as [<- Hi]; by eexists.
Defined.
Definition config (protocol : TransportProtocol) : ClientConfig :=
  mkClientConfig "example.org" 7000 "" "" "" 0 AuthConfig_default
    (mkTransportConfig protocol true 30 1 30 90 (mkTlsConfig true "" "" "ca.pem" "")) "" 0 "" "" [] [].
Definition wss : CachedTransportConfig := Wss ([to_bytes "ca"] : TlsConnector) "example.org".
Definition chain : list Cert := [to_bytes "example.org"; to_bytes "ca"].

Lemma client_connection_authenticated_witness :
  (∃ cas, ca_file_has (config TpWebsocket) cas ∧ verifies cas "example.org" chain) ∧
  connect_server_transport_cached (dial "someone else") (config TpWebsocket) wss =
    Err (Error.Transport "WSS TLS connect failed: invalid peer certificate").
Proof.
  split; [|reflexivity].
  destruct (client_connection_authenticated d (config TpWebsocket) wss
    (WWs "wss://example.org:7000/ws" (WTls "example.org" chain (WTcp "example.org:7000"))) eq_refl eq_refl)
    as (_ & Htls & _).
  destruct (Htls ltac:(discriminate) eq_refl) as (cas & c & Hca & Hc & Hv). injection Hc as <-. by exists cas.
Defined.
End ToyDial.
