(* ===== verification/ClientControl.v ===== *)
(** * The client's control connection (crates/arp-client/src/control/mod.rs)

    Login, registration of the proxies, the message loop with its commands
    (from the admin API and the XTCP visitors), work connections and reload.
    The state of a [Control] is a record; a oneshot channel is an entry of
    [k_replies]; what a task sends on the control connection is appended to
    [k_sent]; spawned work connections are listed in [k_spawned].  What the
    network gives (the results of sends and receives, connects) and the clock
    are arguments.  Connecting to the server is in ClientTransport; its result
    is an argument too. *)
From S2P Require Import Prelude RustString NetAddr Errors Protocol Config Crypto Vhost ProxyManager UdpTunnel ClientProxies ClientTransport.
Local Open Scope Z_scope.

(** [serde_json::json!] for strings and objects. *)
Class JsonMake `{Json} := {
  json_str : string → Value;
  json_obj : list (string * Value) → Value;
}.
Class JsonMakeSpec `{JsonMake} : Prop := {
  as_str_json_str s : as_str (json_str s) = Some s;
  as_object_json_obj l : NoDup l.*1 → as_object (json_obj l) = Some (list_to_map l);
}.

(** ** The state *)

Section Client.
Context `{JsonMake} `{Primitives} `{DashIter}.

Inductive ControlCommand :=
| OpenXtcp (server_name sk visitor_addr : string) (reply_tx : Z)
| RegisterProxy (proxy_config : ProxyConfig) (multiplexer : string) (reply_tx : Z)
| CloseProxyCmd (proxy_name : string) (reply_tx : Z).

Record PendingProxyResp := mkPendingProxyResp {
  pp_reply_tx : Z; pp_proxy_config : ProxyConfig; pp_multiplexer : string;
}.

(** What the oneshot channels of the commands carry. *)
Inductive Answer :=
| AXtcp (r : Result NatHoleRespMsg) | ARegister (r : Result string) | AClose (r : Result unit).

(** A channel whose receiver waits, that has been answered, or whose sender was
    dropped; a receiver that is gone has no entry. *)
Inductive OneShot := Awaited | Answered (a : Answer) | Dropped.

Record CControl := mkCControl {
  k_config : ClientConfig;
  k_run_id : string;
  k_pm : ClientProxyManager;
  k_cmds : list ControlCommand;
  k_pending_xtcp : option Z;
  k_pending_proxy : option PendingProxyResp;
  k_last_pong : Z;
  k_cancel : bool;
  k_replies : gmap Z OneShot;
  k_sent : list Message;
  k_spawned : list string;                        (* the run ids of the work connection tasks *)
}.

Abbreviation CM A := (st CControl Error.t A).

Definition k_set_run_id r (k : CControl) : CControl :=
  mkCControl (k_config k) r (k_pm k) (k_cmds k) (k_pending_xtcp k) (k_pending_proxy k) (k_last_pong k)
    (k_cancel k) (k_replies k) (k_sent k) (k_spawned k).
Definition k_set_pm m (k : CControl) : CControl :=
  mkCControl (k_config k) (k_run_id k) m (k_cmds k) (k_pending_xtcp k) (k_pending_proxy k) (k_last_pong k)
    (k_cancel k) (k_replies k) (k_sent k) (k_spawned k).
Definition k_set_cmds c (k : CControl) : CControl :=
  mkCControl (k_config k) (k_run_id k) (k_pm k) c (k_pending_xtcp k) (k_pending_proxy k) (k_last_pong k)
    (k_cancel k) (k_replies k) (k_sent k) (k_spawned k).
Definition k_set_xtcp x (k : CControl) : CControl :=
  mkCControl (k_config k) (k_run_id k) (k_pm k) (k_cmds k) x (k_pending_proxy k) (k_last_pong k)
    (k_cancel k) (k_replies k) (k_sent k) (k_spawned k).
Definition k_set_proxy p (k : CControl) : CControl :=
  mkCControl (k_config k) (k_run_id k) (k_pm k) (k_cmds k) (k_pending_xtcp k) p (k_last_pong k)
    (k_cancel k) (k_replies k) (k_sent k) (k_spawned k).
Definition k_set_last_pong t (k : CControl) : CControl :=
  mkCControl (k_config k) (k_run_id k) (k_pm k) (k_cmds k) (k_pending_xtcp k) (k_pending_proxy k) t
    (k_cancel k) (k_replies k) (k_sent k) (k_spawned k).
Definition k_shutdown (k : CControl) : CControl :=
  mkCControl (k_config k) (k_run_id k) (k_pm k) (k_cmds k) (k_pending_xtcp k) (k_pending_proxy k) (k_last_pong k)
    true (k_replies k) (k_sent k) (k_spawned k).
Definition k_set_replies r (k : CControl) : CControl :=
  mkCControl (k_config k) (k_run_id k) (k_pm k) (k_cmds k) (k_pending_xtcp k) (k_pending_proxy k) (k_last_pong k)
    (k_cancel k) r (k_sent k) (k_spawned k).
Definition k_set_out sent spawned (k : CControl) : CControl :=
  mkCControl (k_config k) (k_run_id k) (k_pm k) (k_cmds k) (k_pending_xtcp k) (k_pending_proxy k) (k_last_pong k)
    (k_cancel k) (k_replies k) sent spawned.

Definition k_gets {A} (f : CControl → A) : CM A := fun k => (k, Ok (f k)).

(** [Control::new], once connected. *)
Definition client_control_new (now : Z) (config : ClientConfig) (pm : ClientProxyManager) : CControl :=
  mkCControl config "" pm [] None None now false ∅ [] [].

(** What a send on the control connection gives, and the clock. *)
Record CEnv := mkCEnv { ce_send : Message → Result unit; ce_now : Z }.

(** [send_control_message] and [transport.send]; the 10 second timeout is one
    of the errors. *)
Definition send_message (env : CEnv) (m : Message) : CM unit :=
  _ ← st_lift (ce_send env m);
  st_modify (fun k => k_set_out (k_sent k ++ [m]) (k_spawned k) k).

(** [oneshot::Sender::send], whose result is ignored. *)
Definition answer (tx : Z) (a : Answer) : CM unit :=
  st_modify (fun k => match k_replies k !! tx with
                      | Some Awaited => k_set_replies (<[tx := Answered a]> (k_replies k)) k
                      | _ => k
                      end).

(** A sender goes out of scope unused. *)
Definition drop_sender (tx : Z) : CM unit :=
  st_modify (fun k => match k_replies k !! tx with
                      | Some Awaited => k_set_replies (<[tx := Dropped]> (k_replies k)) k
                      | _ => k
                      end).

(** [pending_xtcp.take()] and [pending_proxy_resp.take()]. *)
Definition take_xtcp : CM (option Z) :=
  x ← k_gets k_pending_xtcp; _ ← st_modify (k_set_xtcp None); mret x.
Definition take_proxy : CM (option PendingProxyResp) :=
  p ← k_gets k_pending_proxy; _ ← st_modify (k_set_proxy None); mret p.
(** The same, with what was taken dropped. *)
Definition clear_xtcp : CM unit :=
  x ← take_xtcp; match x with Some tx => drop_sender tx | None => mret tt end.
Definition clear_proxy : CM unit :=
  p ← take_proxy; match p with Some p => drop_sender (pp_reply_tx p) | None => mret tt end.

(** ** Login *)

(** [username], [hostname], [os] and [arch] are what the system says. *)
Record System := mkSystem { sys_username : string; sys_hostname : string; sys_os : string; sys_arch : string }.
Definition CARGO_PKG_VERSION : string := "0.5.4".

Definition effective_client_id (sys : System) (config : ClientConfig) : string :=
  if negb (is_empty (trim (cc_client_id config))) then trim (cc_client_id config)
  else sys_username sys +:+ "@" +:+ sys_hostname sys +:+ ":" +:+ cc_server_addr config.

Definition login_msg (sys : System) (now : Z) (config : ClientConfig) : LoginMsg :=
  mkLoginMsg CARGO_PKG_VERSION (sys_hostname sys) (sys_os sys) (sys_arch sys) (sys_username sys)
    (effective_client_id sys config) now (sign (ac_token (cc_auth config)) (pretty now)) ""
    (tc_pool_count (cc_transport config)).

(** [format!("Expected .., got {:?}", msg.type_byte() as char)]. *)
Definition unexpected (expected : string) (msg : Message) : Error.t :=
  Error.Protocol ("Expected " +:+ expected +:+ ", got '" +:+ of_bytes [type_byte msg] +:+ "'").

(** [received] is what the receive after the login gives. *)
Definition login (env : CEnv) (sys : System) (received : Result (option Message)) : CM unit :=
  config ← k_gets k_config;
  _ ← send_message env (Login (login_msg sys (ce_now env) config));
  msg ← st_lift received;
  match msg with
  | Some (LoginResp r) =>
      _ ← st_guard (negb (is_empty (lr_error r))) (Error.Auth (lr_error r));
      st_modify (k_set_run_id (lr_run_id r))
  | Some m => st_fail (unexpected "LoginResp" m)
  | None => st_fail Error.ConnectionClosed
  end.

(** ** Registration *)

Definition effective_multiplexer (config : ClientConfig) (p : ProxyConfig) : string :=
  let has_lb_group := negb (is_empty (trim (lb_group (pc_load_balancer p)))) in
  if is_empty (pc_multiplexer p) && tc_tcp_mux (cc_transport config)
     && bool_decide (pc_proxy_type p = Tcp) && negb has_lb_group
  then "tcp_mux"%string else pc_multiplexer p.

Definition new_proxy_msg (p : ProxyConfig) (multiplexer : string) : NewProxyMsg :=
  let extra := json_obj [("load_balancer"%string,
    json_obj [("group"%string, json_str (lb_group (pc_load_balancer p)));
              ("group_key"%string, json_str (lb_group_key (pc_load_balancer p)))])] in
  mkNewProxyMsg (pc_name p) (proxy_type_to_string (pc_proxy_type p)) (pc_use_encryption p)
    (pc_use_compression p) (pc_local_ip p) (pc_local_port p) (pc_remote_port p) (pc_custom_domains p)
    (pc_subdomain p) (pc_locations p) (pc_host_header_rewrite p) (pc_sk p) multiplexer
    (pc_fallback_to_relay p) extra.

Definition with_multiplexer (multiplexer : string) (p : ProxyConfig) : ProxyConfig :=
  mkProxyConfig (pc_name p) (pc_proxy_type p) (pc_local_ip p) (pc_local_port p) (pc_remote_port p)
    (pc_use_encryption p) (pc_use_compression p) (pc_custom_domains p) (pc_subdomain p) (pc_locations p)
    (pc_host_header_rewrite p) (pc_http_user p) (pc_http_pwd p) (pc_sk p) (pc_fallback_to_relay p)
    multiplexer (pc_bandwidth_limit p) (pc_bandwidth_limit_mode p) (pc_health_check p)
    (pc_load_balancer p) (pc_plugin p).

(** One proxy of [register_proxies]. *)
Definition register_one (env : CEnv) (now : Z) (p : ProxyConfig) (received : Result (option Message)) : CM unit :=
  config ← k_gets k_config;
  let multiplexer := effective_multiplexer config p in
  _ ← send_message env (NewProxy (new_proxy_msg p multiplexer));
  msg ← st_lift received;
  match msg with
  | Some (NewProxyResp r) =>
      _ ← st_guard (negb (is_empty (npr_error r))) (Error.Proxy (npr_error r));
      st_modify (fun k => k_set_pm (cpm_register_proxy now (with_multiplexer multiplexer p) (k_pm k)) k)
  | Some m => st_fail (unexpected "NewProxyResp" m)
  | None => st_fail Error.ConnectionClosed
  end.

(** [register_proxies]; [received i] is the result of the receive for the [i]th
    proxy. *)
Fixpoint register_all (env : CEnv) (now : Z) (ps : list ProxyConfig) (received : nat → Result (option Message))
  : CM unit :=
  match ps with
  | [] => mret tt
  | p :: ps' => _ ← register_one env now p (received O); register_all env now ps' (fun i => received (S i))
  end.

Definition register_proxies (env : CEnv) (now : Z) (received : nat → Result (option Message)) : CM unit :=
  config ← k_gets k_config; register_all env now (cc_proxies config) received.

(** ** Commands *)

(** The first half of [register_proxy_dynamic], [close_proxy_dynamic] and
    [request_xtcp_peer]: a new channel [tx] and the command in the queue. *)
Definition submit (tx : Z) (cmd : ControlCommand) : CM unit :=
  st_modify (fun k => k_set_cmds (k_cmds k ++ [cmd]) (k_set_replies (<[tx := Awaited]> (k_replies k)) k)).

Definition register_proxy_dynamic (tx : Z) (p : ProxyConfig) : CM unit :=
  config ← k_gets k_config; submit tx (RegisterProxy p (effective_multiplexer config p) tx).
Definition close_proxy_dynamic (tx : Z) (name : string) : CM unit := submit tx (CloseProxyCmd name tx).
Definition request_xtcp_peer (tx : Z) (server_name sk visitor_addr : string) : CM unit :=
  submit tx (OpenXtcp server_name sk visitor_addr tx).

(** Their second half: the answer, or after 10 seconds the timeout, which drops
    the receiver and empties the slot of its kind. *)
Definition forget (tx : Z) : CM unit := st_modify (fun k => k_set_replies (delete tx (k_replies k)) k).

Definition await_register (tx : Z) : CM string := fun k =>
  match k_replies k !! tx with
  | Some (Answered (ARegister r)) => st_lift r k
  | Some Awaited =>
      (_ ← forget tx; _ ← clear_proxy; st_fail (Error.Timeout "register proxy timeout")) k
  | _ => (k, Err (Error.Transport "register proxy channel closed"))
  end.

Definition await_close (tx : Z) : CM unit := fun k =>
  match k_replies k !! tx with
  | Some (Answered (AClose r)) => st_lift r k
  | Some Awaited => (_ ← forget tx; st_fail (Error.Timeout "close proxy timeout")) k
  | _ => (k, Err (Error.Transport "close proxy channel closed"))
  end.

Definition await_xtcp (tx : Z) : CM NatHoleRespMsg := fun k =>
  match k_replies k !! tx with
  | Some (Answered (AXtcp r)) => st_lift r k
  | Some Awaited =>
      (_ ← forget tx; _ ← clear_xtcp; st_fail (Error.Timeout "xtcp nat hole response timeout")) k
  | _ => (_ ← clear_xtcp; st_fail (Error.Transport "xtcp response channel closed")) k
  end.

Definition handle_close_proxy_cmd (env : CEnv) (name : string) : CM unit :=
  _ ← send_message env (CloseProxy (mkCloseProxyMsg name));
  st_modify (fun k => k_set_pm (cpm_unregister_proxy name (k_pm k)) k).

(** [m], whose result is kept as a value. *)
Definition attempt {A} (m : CM A) : CM (Result A) := fun k => let '(k', r) := m k in (k', Ok r).

(** The text a visitor's client sends for a secret and its own address. *)
Definition visitor_text (sk visitor_addr : string) : string := sk +:+ "|" +:+ visitor_addr.

Definition handle_control_command (env : CEnv) (cmd : ControlCommand) : CM unit :=
  match cmd with
  | OpenXtcp server_name sk visitor_addr reply_tx =>
      pending ← k_gets k_pending_xtcp;
      match pending with
      | Some _ => answer reply_tx (AXtcp (Err (Error.Proxy "xtcp visitor request already in progress")))
      | None =>
          _ ← st_modify (k_set_xtcp (Some reply_tx));
          sent ← attempt (send_message env (NatHoleVisitor (mkNatHoleVisitorMsg server_name
                                              (visitor_text sk visitor_addr))));
          match sent with
          | Ok _ => mret tt
          | Err e => _ ← clear_xtcp; st_fail e
          end
      end
  | RegisterProxy proxy_config multiplexer reply_tx =>
      pending ← k_gets k_pending_proxy;
      match pending with
      | Some _ => answer reply_tx (ARegister (Err (Error.Proxy "another proxy registration is in progress")))
      | None =>
          _ ← st_modify (k_set_proxy (Some (mkPendingProxyResp reply_tx proxy_config multiplexer)));
          sent ← attempt (send_message env (NewProxy (new_proxy_msg proxy_config multiplexer)));
          match sent with
          | Ok _ => mret tt
          | Err e =>
              taken ← take_proxy;
              match taken with
              | Some p => answer (pp_reply_tx p) (ARegister (Err e))
              | None => mret tt
              end
          end
      end
  | CloseProxyCmd proxy_name reply_tx =>
      result ← attempt (handle_close_proxy_cmd env proxy_name);
      answer reply_tx (AClose result)
  end.

(** ** Messages of the server *)

Definition handle_nathole_response (resp : NatHoleRespMsg) : CM unit :=
  pending ← take_xtcp;
  match pending with
  | Some tx =>
      answer tx (AXtcp (if is_empty (nr_error resp) then Ok resp else Err (Error.Proxy (nr_error resp))))
  | None => mret tt
  end.

Definition handle_new_proxy_resp (now : Z) (resp : NewProxyRespMsg) : CM unit :=
  pending ← take_proxy;
  match pending with
  | Some p =>
      if negb (is_empty (npr_error resp)) then
        answer (pp_reply_tx p) (ARegister (Err (Error.Proxy ("proxy " +:+ npr_proxy_name resp
                 +:+ " registration failed: " +:+ npr_error resp))))
      else
        _ ← st_modify (fun k => k_set_pm (cpm_register_proxy now
               (with_multiplexer (pp_multiplexer p) (pp_proxy_config p)) (k_pm k)) k);
        answer (pp_reply_tx p) (ARegister (Ok (npr_remote_addr resp)))
  | None => mret tt
  end.

(** A request for a work connection spawns a task, unless the proxy is unknown
    or unhealthy. *)
Definition handle_req_work_conn (req : ReqWorkConnMsg) : CM unit :=
  k ← st_get;
  if negb (is_empty (rw_proxy_name req)) && negb (is_proxy_available (rw_proxy_name req) (k_pm k)) then mret tt
  else if is_empty (trim (k_run_id k)) then mret tt
  else st_modify (fun k => k_set_out (k_sent k) (k_spawned k ++ [k_run_id k]) k).

(** [bound] is what binding the punch listener gives. *)
Definition handle_nat_hole_client_msg (env : CEnv) (bound : result IoError string) (req : NatHoleClientMsg)
  : CM unit :=
  pm ← k_gets k_pm;
  let resp := match cpm_nat_hole_client bound (nc_proxy_name req) pm with
              | Ok client_addr => mkNatHoleRespMsg (nc_visitor_addr req) client_addr "" ""
              | Err e => mkNatHoleRespMsg (nc_visitor_addr req) "" "" (error_to_string e)
              end in
  send_message env (NatHoleResp resp).

Definition client_handle_message (env : CEnv) (now : Z) (bound : result IoError string) (msg : Message)
  : CM unit :=
  match msg with
  | ReqWorkConn req => handle_req_work_conn req
  | Ping _ => send_message env (Pong (mkPongMsg (ce_now env)))
  | NewProxyResp resp => handle_new_proxy_resp now resp
  | Pong _ => st_modify (k_set_last_pong (ce_now env))
  | NatHoleClient req => handle_nat_hole_client_msg env bound req
  | NatHoleResp resp => handle_nathole_response resp
  | _ => mret tt
  end.

(** ** The message loop *)

(** [recv_control_message]: [None] is the read timeout of 60 seconds, otherwise
    what the transport gives. *)
Definition recv_control_message (received : option (Result (option Message))) : Result (option Message) :=
  match received with
  | Some (Ok (Some msg)) => Ok (Some msg)
  | Some (Ok None) => Err Error.ConnectionClosed
  | Some (Err e) => Err e
  | None => Ok None
  end.

(** What the [select!] of a turn takes: the timeout checker, the heartbeat (and
    whether sending its [Ping] took more than 10 seconds), a command, or a
    message. *)
Inductive CTurn :=
| TimeoutCheck
| Heartbeat (stuck : bool)
| Command
| Received (bound : result IoError string) (received : option (Result (option Message))).

Definition heartbeat_timeout (config : ClientConfig) : Z :=
  let t := tc_heartbeat_timeout (cc_transport config) in if 0 <? t then t else 90.

(** One turn; an error ends the loop.  [now] is the clock of [Instant]. *)
Definition loop_turn (env : CEnv) (now : Z) (turn : CTurn) : CM unit :=
  match turn with
  | TimeoutCheck =>
      k ← st_get;
      st_guard (swrap 64 (heartbeat_timeout (k_config k)) <? i64_sub (ce_now env) (k_last_pong k))
        (Error.Timeout "heartbeat timeout")
  | Heartbeat stuck =>
      if stuck : bool then st_fail (Error.Timeout "ping send timeout")
      else send_message env (Ping (mkPingMsg (ce_now env)))
  | Command =>
      k ← st_get;
      match k_cmds k with
      | [] => mret tt
      | cmd :: rest => _ ← st_modify (k_set_cmds rest); handle_control_command env cmd
      end
  | Received bound received =>
      msg ← st_lift (recv_control_message received);
      match msg with
      | None => mret tt
      | Some msg => client_handle_message env now bound msg
      end
  end.

(** [run_message_loop]: the loop never returns [Ok]; [None] when the turns run
    out.  Other tasks ([others]) may act before each turn. *)
Fixpoint message_loop (turns : list ((CControl → CControl) * CEnv * Z * CTurn)) : CM (option Error.t) :=
  match turns with
  | [] => mret None
  | (others, env, now, turn) :: turns' =>
      _ ← st_modify others;
      r ← attempt (loop_turn env now turn);
      match r with
      | Ok _ => message_loop turns'
      | Err e => mret (Some e)
      end
  end.

(** The end of [run]. *)
Definition shutting_down : Error.t := Error.Transport "control shutting down".
Definition run_cleanup : CM unit :=
  _ ← st_modify k_shutdown;
  _ ← st_modify (k_set_run_id "");
  xtcp ← take_xtcp;
  _ ← (match xtcp with Some tx => answer tx (AXtcp (Err shutting_down)) | None => mret tt end);
  proxy ← take_proxy;
  match proxy with Some p => answer (pp_reply_tx p) (ARegister (Err shutting_down)) | None => mret tt end.

(** [Control::run]: an error of the login or of a registration is returned at
    once, the error of the loop after the clean-up. *)
Definition client_run (env : CEnv) (sys : System) (now : Z) (login_received : Result (option Message))
    (received : nat → Result (option Message))
    (turns : list ((CControl → CControl) * CEnv * Z * CTurn)) : CM (option Error.t) :=
  _ ← login env sys login_received;
  _ ← register_proxies env now received;
  r ← message_loop turns;
  match r with
  | None => mret None
  | Some e => _ ← run_cleanup; mret (Some e)
  end.

(** ** Work connections *)

Definition new_work_conn_msg (config : ClientConfig) (run_id : string) : NewWorkConnMsg :=
  mkNewWorkConnMsg run_id (sign (ac_token (cc_auth config)) run_id).

(** [create_work_conn_static] up to the proxy that serves the connection;
    [connected] is what connecting gives, [send] what sending on the new
    connection gives, [received] what comes back. *)
Definition create_work_conn (config : ClientConfig) (run_id : string) (pm : ClientProxyManager)
    (connected : Result unit) (send : Message → Result unit) (received : Result (option Message))
  : Result Z :=
  _ ← guard_err (is_empty (trim run_id)) (Error.Protocol "refuse to create work connection with empty run_id");
  _ ← connected;
  _ ← send (NewWorkConn (new_work_conn_msg config run_id));
  msg ← received;
  match msg with
  | Some (StartWorkConn start) =>
      _ ← guard_err (negb (is_empty (sw_error start))) (Error.Proxy (sw_error start));
      ok_or (Error.Proxy ("Unknown proxy: " +:+ sw_proxy_name start)) (get_proxy (sw_proxy_name start) pm)
  | Some m => Err (unexpected "StartWorkConn" m)
  | None => Err Error.ConnectionClosed
  end.

(** A task of the pool of pre-warmed work connections, one turn: it stops,
    waits 200 ms for a run id, or makes a connection with the current run id
    and waits a second after an error other than the end of the connection. *)
Inductive PoolAction := PoolStop | PoolWait (ms : Z) | PoolConnect (run_id : string).

Definition pool_turn (k : CControl) : PoolAction :=
  if k_cancel k then PoolStop
  else if is_empty (trim (k_run_id k)) then PoolWait 200
  else PoolConnect (k_run_id k).

Definition pool_after (k : CControl) (r : Result unit) : PoolAction :=
  if k_cancel k then PoolStop
  else match r with
       | Ok _ | Err Error.ConnectionClosed => PoolWait 0
       | Err _ => PoolWait 1000
       end.

(** [prewarm_work_conn_pool]: the number of tasks. *)
Definition pool_tasks (config : ClientConfig) : Z := tc_pool_count (cc_transport config).

(** ** Visitors *)

Inductive VisitorTask := StcpVisitor (v : VisitorConfig) | XtcpVisitor (v : VisitorConfig).

Definition start_visitors (config : ClientConfig) : list VisitorTask :=
  omap (fun v => if bool_decide (vc_visitor_type v = "stcp"%string) then Some (StcpVisitor v)
                 else if bool_decide (vc_visitor_type v = "xtcp"%string) then Some (XtcpVisitor v)
                 else None) (cc_visitors config).

(** The address a visitor listens on. *)
Definition visitor_bind (kind : string) (v : VisitorConfig) : Result string :=
  let bind_addr := if is_empty (trim (vc_bind_addr v)) then "127.0.0.1"%string else vc_bind_addr v in
  _ ← guard_err (vc_bind_port v =? 0)
        (Error.Config (kind +:+ " visitor " +:+ vc_name v +:+ " bind_port cannot be 0"));
  Ok (bind_addr +:+ ":" +:+ pretty (vc_bind_port v)).

(** The hello of an STCP visitor's connection at time [ts]. *)
Definition stcp_visitor_msg (v : VisitorConfig) (ts : Z) : StcpVisitorConnMsg :=
  mkStcpVisitorConnMsg (vc_server_name v) (sign (vc_sk v) (pretty ts)) ts.

(** [handle_stcp_visitor_conn]: what the visitor sends before it copies. *)
Definition stcp_visitor_conn (v : VisitorConfig) (ts : Z) (connected : Result unit)
    (send : Message → Result unit) : Result StcpVisitorConnMsg :=
  _ ← connected;
  _ ← send (StcpVisitorConn (stcp_visitor_msg v ts));
  Ok (stcp_visitor_msg v ts).

Definition normalize_relay_addr (relay_addr server_addr : string) : string :=
  match parse_socket_addr relay_addr with
  | None => relay_addr
  | Some sa =>
      if negb (is_unspecified (ip sa)) && negb (is_loopback (ip sa)) then relay_addr
      else server_addr +:+ ":" +:+ pretty (port sa)
  end.

(** The stream an XTCP visitor relays over, once it has the peer's answer:
    [direct] is the outcome of the race, [relay] what connecting to a relay
    address gives (the text of its error). *)
Definition xtcp_peer_stream {A} (config : ClientConfig) (v : VisitorConfig) (peer : NatHoleRespMsg)
    (direct : Result A) (relay : string → result string A) : Result A :=
  let relay_addr := normalize_relay_addr (nr_relay_addr peer) (cc_server_addr config) in
  match direct with
  | Ok stream => Ok stream
  | Err e =>
      if vc_fallback_to_relay v && negb (is_empty relay_addr) then
        match relay relay_addr with
        | Ok stream => Ok stream
        | Err ioe => Err (Error.Proxy ("xtcp direct failed (" +:+ error_to_string e +:+ "), relay connect "
                                       +:+ relay_addr +:+ " failed: " +:+ ioe))
        end
      else if vc_fallback_to_relay v then
        Err (Error.Proxy ("xtcp direct failed: " +:+ error_to_string e +:+ ", relay unavailable"))
      else Err (Error.Proxy ("xtcp direct failed: " +:+ error_to_string e +:+ " (fallback disabled)"))
  end.

(** The visitor's race; unlike the provider's texts these say [xtcp peer]. *)
Definition visitor_race {A} (connect_first : bool) (connect accept : Raced A) : Result A :=
  let result what r :=
    match r with
    | RStream a => Ok a
    | RIo e => Err (Error.Io e)
    | RTimeout => Err (Error.Timeout ("xtcp peer " +:+ what +:+ " timeout"))
    | RJoin e => Err (Error.Transport ("xtcp " +:+ what +:+ " task failed: " +:+ e))
    end in
  if connect_first then result "connect" connect else result "accept" accept.

(** ** Reload *)

(** [reload_proxies] submits, for each name that went and then for each name
    that came, a command and waits for its answer; [close] and [register] are
    these exchanges. *)
Section Reload.
Context (close : string → CM unit) (register : ProxyConfig → CM string).

Fixpoint reload_close (current new_names : list string) (removed : Z) : CM Z :=
  match current with
  | [] => mret removed
  | name :: rest =>
      if existsb (fun n => bool_decide (n = name)) new_names then reload_close rest new_names removed
      else r ← attempt (close name);
           reload_close rest new_names (if is_ok r then removed + 1 else removed)
  end.

Fixpoint reload_register (ps : list ProxyConfig) (current : list string) (added : Z) : CM Z :=
  match ps with
  | [] => mret added
  | p :: rest =>
      if existsb (fun n => bool_decide (n = pc_name p)) current then reload_register rest current added
      else r ← attempt (register p);
           reload_register rest current (if is_ok r then added + 1 else added)
  end.

(** [loaded] is what [ClientConfig::from_file] gives. *)
Definition reload_proxies (loaded : Result ClientConfig) : CM (Z * Z) :=
  new_config ← st_lift loaded;
  k ← st_get;
  let current_names := list_proxy_names (k_pm k) in
  let new_names := pc_name <$> cc_proxies new_config in
  removed ← reload_close current_names new_names 0;
  added ← reload_register (cc_proxies new_config) current_names 0;
  mret (added, removed).
End Reload.
End Client.

(** ** A concrete instance for the witnesses *)

Module ToyClientControl.
Inductive jv := JStr (s : string) | JNil | JCons (k : string) (v rest : jv).
Fixpoint jv_object (v : jv) : option (gmap string jv) :=
  match v with
  | JStr _ => None
  | JNil => Some ∅
  | JCons k v rest => insert k v <$> jv_object rest
  end.
#[export] Instance json : Json := {|
  Value := jv; as_object := jv_object; as_str := fun v => match v with JStr s => Some s | _ => None end |}.
#[export] Instance make : JsonMake := {|
  json_str := JStr; json_obj := foldr (fun kv rest => JCons kv.1 kv.2 rest) JNil |}.
#[export] Instance make_spec : JsonMakeSpec.
Proof. split; [done|]. intros l _. simpl. induction l as [|[k v] l IH]; [done|]. simpl. by rewrite IH. Qed.
#[export] Existing Instances ToyCrypto.prims ToyProxyManager.iter.

Definition env : CEnv := mkCEnv (fun _ => Ok tt) 1000.
Definition transport : TransportConfig := mkTransportConfig TpTcp true 30 1 30 90 TlsConfig_default.
Definition config (ps : list ProxyConfig) : ClientConfig :=
  mkClientConfig "example.org" 7000 "me" "" "" 0 (mkAuthConfig "token" "secret" [] [] OidcConfig_default)
    transport "" 0 "" "" ps [].
Definition ssh : ProxyConfig := ToyClient.proxy "ssh" Tcp.
Definition dns : ProxyConfig := ToyClient.proxy "dns" Udp.
Definition k0 : CControl := client_control_new 1000 (config [ssh]) cpm_new.
Definition accept (name : string) : Message := NewProxyResp (mkNewProxyRespMsg name ":6000" "").
End ToyClientControl.
