(* ===== verification/ClientVisitors.v ===== *)
(** * The client's visitors (crates/arp-client/src/control/mod.rs)

    The accept loops of STCP and XTCP visitors, and what an XTCP visitor does
    for a connection: it asks the server for the peer through the command queue
    of the control, races a connection in both directions and falls back to a
    relay.  [others] is what the message loop and the other tasks do while the
    visitor waits for the answer. *)
From S2P Require Import Prelude RustString NetAddr Errors Protocol Config Crypto Vhost ProxyManager ClientProxies ClientControl.
Local Open Scope Z_scope.

(** ** The accept loops *)

Inductive VisitorEvent := VisitorAccept (addr : string) | VisitorAcceptFailed (e : IoError) | VisitorCancel.

(** The connections that were handed to a task, and the result once the loop
    has ended. *)
Fixpoint visitor_loop (evs : list VisitorEvent) : list string * option (Result unit) :=
  match evs with
  | [] => ([], None)
  | VisitorCancel :: _ => ([], Some (Ok tt))
  | VisitorAccept addr :: rest => let '(spawned, r) := visitor_loop rest in (addr :: spawned, r)
  | VisitorAcceptFailed e :: _ => ([], Some (Err (Error.Io e)))
  end.

Definition run_visitor (kind : string) (v : VisitorConfig) (bind : string → result IoError unit)
    (evs : list VisitorEvent) : list string * option (Result unit) :=
  match visitor_bind kind v with
  | Err e => ([], Some (Err e))
  | Ok addr => match bind addr with
               | Err e => ([], Some (Err (Error.Io e)))
               | Ok _ => visitor_loop evs
               end
  end.
Definition run_stcp_visitor := run_visitor "stcp".
Definition run_xtcp_visitor := run_visitor "xtcp".

(** ** A connection of an XTCP visitor *)

Section Visitors.
Context `{JsonMake} `{Primitives} `{DashIter}.
Abbreviation CM A := (st CControl Error.t A).

Definition io {A} (r : result IoError A) : Result A :=
  match r with Ok a => Ok a | Err e => Err (Error.Io e) end.

Definition punch_timeout_secs (v : VisitorConfig) : Z := Z.max (vc_xtcp_punch_timeout_secs v) 3.

(** [udp] and [punch] are the results of binding the two sockets, the second
    with its address; [tx] is the new channel; [race timeout addr] the outcome
    of connecting to [addr] and accepting, whichever comes first; [relay] what
    connecting to a relay gives.  The result is the stream that is copied from
    and to.  (The datagrams that open the NAT are sent with their results
    ignored.) *)
Definition xtcp_visitor_conn {A} (v : VisitorConfig) (udp : result IoError unit) (punch : result IoError string)
    (tx : Z) (others : CControl → CControl) (race : Z → string → bool * Raced A * Raced A)
    (relay : string → result string A) : CM A :=
  _ ← st_lift (io udp);
  visitor_addr ← st_lift (io punch);
  _ ← request_xtcp_peer tx (vc_server_name v) (vc_sk v) visitor_addr;
  _ ← st_modify others;
  peer ← await_xtcp tx;
  config ← k_gets k_config;
  let '(connect_first, connect, accept) := race (punch_timeout_secs v) (nr_client_addr peer) in
  st_lift (xtcp_peer_stream config v peer (visitor_race connect_first connect accept) relay).

(** What the user of the visitor is sent when there is no stream. *)
Definition visitor_error_text {A} (r : Result A) : option string :=
  match r with
  | Ok _ => None
  | Err e => Some ("xtcp error: " +:+ error_to_string e +:+ String (Ascii.ascii_of_nat 10) "")
  end.

(** The message loop while the visitor waits: it takes the command and later
    receives the server's answer. *)
Definition serves_visitor (env : CEnv) (now : Z) (bound : result IoError string) (resp : NatHoleRespMsg)
    (k : CControl) : CControl :=
  ((_ ← loop_turn env now Command;
    loop_turn env now (Received bound (Some (Ok (Some (NatHoleResp resp)))))) k).1.

(** The state after that, when nothing else was queued or pending. *)
Lemma serves_visitor_state env now bound v punch_addr tx resp k :
  (∀ m, ce_send env m = Ok tt) → k_cmds k = [] → k_pending_xtcp k = None →
  let k1 := (request_xtcp_peer tx (vc_server_name v) (vc_sk v) punch_addr k).1 in
  let k2 := serves_visitor env now bound resp k1 in
  k_replies k2 !! tx =
    Some (Answered (AXtcp (if is_empty (nr_error resp) then Ok resp else Err (Error.Proxy (nr_error resp))))) ∧
  k_sent k2 = k_sent k ++ [NatHoleVisitor (mkNatHoleVisitorMsg (vc_server_name v) (visitor_text (vc_sk v) punch_addr))] ∧
  k_cmds k2 = [] ∧ k_pending_xtcp k2 = None ∧ k_pm k2 = k_pm k ∧ k_config k2 = k_config k.
Proof.
  intros Hsend Hc Hx. destruct k. simpl in *. subst.
  unfold serves_visitor, request_xtcp_peer, submit, loop_turn, handle_control_command, attempt, send_message.
  cbv [mbind st_bind st_modify st_get st_lift k_gets mret st_ret]. simpl. rewrite Hsend. simpl.
  unfold handle_nathole_response, take_xtcp, answer. cbv [mbind st_bind st_modify k_gets mret st_ret]. simpl.
  rewrite lookup_insert_eq. simpl. by rewrite lookup_insert_eq.
Qed.

Lemma xtcp_peer_stream_ok {A} config v peer (direct : Result A) relay stream :
  xtcp_peer_stream config v peer direct relay = Ok stream ↔
  direct = Ok stream ∨
  (∃ e, direct = Err e) ∧ vc_fallback_to_relay v = true ∧
  let relay_addr := normalize_relay_addr (nr_relay_addr peer) (cc_server_addr config) in
  is_empty relay_addr = false ∧ relay relay_addr = Ok stream.
Proof.
  unfold xtcp_peer_stream. cbv zeta. set (a := normalize_relay_addr _ _). destruct direct as [s|e].
  - split; [by left|]. intros [?|[[e ?] _]]; done.
  - destruct (vc_fallback_to_relay v), (is_empty a), (relay a); simpl; naive_solver.
Qed.

(** C35: an XTCP visitor and the message loop.  When nothing else is queued or
    pending, the visitor's request goes to the server with the secret and the
    address of the visitor's listener, and the server's answer comes back to
    the visitor that asked and leaves nothing pending: an error of the server
    is the result (and what the user is sent); otherwise the visitor uses the
    direct connection to the address in the answer or, if that fails and the
    configuration allows it, the relay. *)
Theorem xtcp_visitor_exchange {A} env now bound v punch_addr tx resp
    (race : Z → string → bool * Raced A * Raced A) relay (k k' : CControl) r :
  (∀ m, ce_send env m = Ok tt) → k_cmds k = [] → k_pending_xtcp k = None →
  xtcp_visitor_conn v (Ok tt) (Ok punch_addr) tx (serves_visitor env now bound resp) race relay k = (k', r) →
  let '(connect_first, connect, accept) := race (punch_timeout_secs v) (nr_client_addr resp) in
  let direct := visitor_race connect_first connect accept in
  k_sent k' = k_sent k ++ [NatHoleVisitor (mkNatHoleVisitorMsg (vc_server_name v) (visitor_text (vc_sk v) punch_addr))] ∧
  k_cmds k' = [] ∧ k_pending_xtcp k' = None ∧ k_pm k' = k_pm k ∧
  if is_empty (nr_error resp) then
    r = xtcp_peer_stream (k_config k) v resp direct relay ∧
    (∀ stream, r = Ok stream ↔
       direct = Ok stream ∨
       (∃ e, direct = Err e) ∧ vc_fallback_to_relay v = true ∧
       let relay_addr := normalize_relay_addr (nr_relay_addr resp) (cc_server_addr (k_config k)) in
       is_empty relay_addr = false ∧ relay relay_addr = Ok stream)
  else r = Err (Error.Proxy (nr_error resp)).
Proof.
  intros Hsend Hc Hx.
  destruct (serves_visitor_state env now bound v punch_addr tx resp k Hsend Hc Hx)
    as (Hreply & Hsent & Hcmds & Hpend & Hpm & Hconf).
  unfold xtcp_visitor_conn. cbv [mbind st_bind st_modify st_lift k_gets io].
  destruct (request_xtcp_peer _ _ _ _ k) as [k1 r1] eqn:E1. simpl in *.
  assert (r1 = Ok tt) as -> by (unfold request_xtcp_peer, submit, st_modify in E1; congruence).
  set (k2 := serves_visitor _ _ _ _ k1) in *. clearbody k2. unfold await_xtcp. rewrite Hreply. cbv [st_lift].
  destruct (race (punch_timeout_secs v) (nr_client_addr resp)) as [[cf c] a] eqn:Er.
  destruct (is_empty (nr_error resp)).
  - rewrite Er. intros [= <- <-]. rewrite Hconf. repeat split; try done; apply xtcp_peer_stream_ok.
  - by intros [= <- <-].
Qed.
End Visitors.

(** Any accept error, also one that the server's TCP proxies wait out, ends a
    visitor: nothing is accepted on its port until the client connects anew. *)
Lemma visitor_accept_error_stops kind v addr addrs e later :
  visitor_bind kind v = Ok addr →
  run_visitor kind v (fun _ => Ok tt) ((VisitorAccept <$> addrs) ++ VisitorAcceptFailed e :: later)
  = (addrs, Some (Err (Error.Io e))).
Proof.
  intros Hb. unfold run_visitor. rewrite Hb. induction addrs as [|a addrs IH]; csimpl; [done|]. by rewrite IH.
Qed.

(** ** Witnesses *)

(** The peer refuses the direct connection; the server's relay address is the
    unspecified one, for which the client puts the server's name. *)
Module ToyClientVisitors.
Import ToyClientControl.
Definition v : VisitorConfig := mkVisitorConfig "db" "xtcp" "db" "sk" "" 9000 true 5.
Definition resp : NatHoleRespMsg := mkNatHoleRespMsg "0.0.0.0:9" "5.6.7.8:1234" "0.0.0.0:7000" "".
Definition race (secs : Z) (addr : string) : bool * Raced string * Raced string :=
  (true, RIo (mkIoError WouldBlock None "refused"), RTimeout).
Definition run : CControl * Result string :=
  xtcp_visitor_conn v (Ok tt) (Ok "0.0.0.0:9"%string) 7 (serves_visitor env 0 (Ok ""%string) resp) race Ok k0.

Lemma xtcp_visitor_exchange_witness :
  run.2 = Ok "example.org:7000"%string ∧ k_pending_xtcp run.1 = None.
Proof.
  destruct (xtcp_visitor_exchange env 0 (Ok ""%string) v "0.0.0.0:9" 7 resp race Ok k0 run.1 run.2
    (fun _ => eq_refl) eq_refl eq_refl (surjective_pairing run)) as (_ & _ & Hp & _ & Hr & _).
  split; [|exact Hp]. vm_compute in Hr. vm_compute. reflexivity.
Defined.
End ToyClientVisitors.
