(* ===== verification/ClientChannels.v ===== *)
(** * The channels of the client's commands

    The dynamic operations of the client (registering and closing a proxy,
    asking for an XTCP peer) wait on a oneshot channel for the answer of the
    message loop.  Here: the states a control can be in, and the invariant of
    their channels that the sessions and the admin interface rest on, that the
    sender of a channel that is waited for is in one place and an answer is
    final. *)
From S2P Require Import Prelude RustString NetAddr Errors Protocol Config Crypto Vhost ProxyManager UdpTunnel ClientProxies ClientTransport ClientControl.
Local Open Scope Z_scope.

Section Channels.
Context `{JsonMake} `{Primitives} `{DashIter}.

Abbreviation CM A := (st CControl Error.t A).

Definition cmd_tx (c : ControlCommand) : Z :=
  match c with OpenXtcp _ _ _ tx | RegisterProxy _ _ tx | CloseProxyCmd _ tx => tx end.

(** Where the senders of the channels are. *)
Definition senders (k : CControl) : list Z :=
  (cmd_tx <$> k_cmds k) ++ option_list (k_pending_xtcp k) ++ option_list (pp_reply_tx <$> k_pending_proxy k).

(** With the senders [hand] in the hands of the running code: no sender is in
    two places, and whoever waits has one. *)
Record chan_inv (hand : list Z) (k : CControl) : Prop := {
  ci_nodup : NoDup (hand ++ senders k);
  ci_awaited : ∀ tx, k_replies k !! tx = Some Awaited → tx ∈ hand ++ senders k;
}.

(** Answers are final. *)
Definition stable (k k' : CControl) : Prop :=
  ∀ tx a, k_replies k !! tx = Some (Answered a) → k_replies k' !! tx = Some (Answered a).

(** [m] takes the senders [h] and gives back [h' a] with its result [a], or
    [he] with an error. *)
Definition acct {A} (h : list Z) (m : CM A) (h' : A → list Z) (he : list Z) : Prop :=
  ∀ k, chan_inv h k →
    stable k (m k).1 ∧ chan_inv (match (m k).2 with Ok a => h' a | Err _ => he end) (m k).1.

Lemma acct_ret {A} h (a : A) he : acct h (mret a) (fun _ => h) he.
Proof. intros k Hk. by split; [intros ? ?|]. Qed.
Lemma acct_fail {A} h e (h' : A → list Z) : acct h (st_fail e) h' h.
Proof. intros k Hk. by split; [intros ? ?|]. Qed.
Lemma acct_bind {A B} h (m : CM A) (f : A → CM B) h1 h2 he :
  acct h m h1 he → (∀ a, acct (h1 a) (f a) h2 he) → acct h (m ≫= f) h2 he.
Proof.
  intros Hm Hf k Hk. destruct (Hm k Hk) as [Hs Hi]. cbv [mbind st_bind].
  destruct (m k) as [k1 [a|e]]; simpl in *; [|done].
  destruct (Hf a k1 Hi) as [Hs' Hi']. split; [|done]. intros tx x Hx. by apply Hs', Hs.
Qed.
Lemma acct_attempt {A} h (m : CM A) he : acct h m (fun _ => h) h → acct h (attempt m) (fun _ => h) he.
Proof.
  intros Hm k Hk. destruct (Hm k Hk) as [Hs Hi]. unfold attempt.
  destruct (m k) as [k1 [a|e]]; simpl in *; done.
Qed.
Lemma acct_gets {A} h (f : CControl → A) he : acct h (k_gets f) (fun _ => h) he.
Proof. intros k Hk. by split; [intros ? ?|]. Qed.
Lemma acct_get h he : acct h st_get (fun _ => h) he.
Proof. intros k Hk. by split; [intros ? ?|]. Qed.
Lemma acct_lift {A} h (r : Result A) : acct h (st_lift r) (fun _ => h) h.
Proof. intros k Hk. unfold st_lift. simpl. split; [by intros ? ?|by destruct r]. Qed.
Lemma acct_guard h b e : acct h (st_guard b e) (fun _ => h) h.
Proof. destruct b; [apply acct_fail|apply acct_ret]. Qed.

(** Code that touches neither the queue nor the slots nor the channels. *)
Lemma acct_modify h f he :
  (∀ k, k_cmds (f k) = k_cmds k ∧ k_pending_xtcp (f k) = k_pending_xtcp k ∧
        k_pending_proxy (f k) = k_pending_proxy k ∧ k_replies (f k) = k_replies k) →
  acct h (st_modify f) (fun _ => h) he.
Proof.
  intros Hf k [Hn Ha]. destruct (Hf k) as (E1 & E2 & E3 & E4). simpl.
  split; [intros tx a; by rewrite E4|].
  split; unfold senders in *; rewrite ?E1, ?E2, ?E3, ?E4 in *; done.
Qed.

Lemma acct_send h env m : acct h (send_message env m) (fun _ => h) h.
Proof. eapply acct_bind; [apply acct_lift|]. intros a. apply acct_modify. auto. Qed.

(** A channel stops waiting. *)
Lemma acct_settle h tx o he :
  o ≠ Awaited →
  acct (tx :: h) (st_modify (fun k => match k_replies k !! tx with
                                      | Some Awaited => k_set_replies (<[tx := o]> (k_replies k)) k
                                      | _ => k
                                      end)) (fun _ => h) he.
Proof.
  intros Ho k [Hn Ha]. simpl in *. apply NoDup_cons in Hn as [Hx Hn].
  destruct (k_replies k !! tx) as [[| |]|] eqn:E; (split; [try by intros ? ?|split; [done|]]).
  - intros y a Hy. destruct (decide (y = tx)) as [->|]; [congruence|]. simpl. by rewrite lookup_insert_ne.
  - simpl. intros y Hy. destruct (decide (y = tx)) as [->|].
    + rewrite lookup_insert_eq in Hy. by simplify_eq.
    + rewrite lookup_insert_ne in Hy by done. by pose proof (Ha y Hy) as [?|?]%elem_of_cons.
  - intros y Hy. pose proof (Ha y Hy) as [Ey|?]%elem_of_cons; [congruence|done].
  - intros y Hy. pose proof (Ha y Hy) as [Ey|?]%elem_of_cons; [congruence|done].
  - intros y Hy. pose proof (Ha y Hy) as [Ey|?]%elem_of_cons; [congruence|done].
Qed.
Lemma acct_answer h tx a he : acct (tx :: h) (answer tx a) (fun _ => h) he.
Proof. by apply acct_settle. Qed.
Lemma acct_drop h tx he : acct (tx :: h) (drop_sender tx) (fun _ => h) he.
Proof. by apply acct_settle. Qed.

Lemma chan_inv_perm h h' k k' :
  k_replies k' = k_replies k → h' ++ senders k' ≡ₚ h ++ senders k → chan_inv h k → chan_inv h' k'.
Proof. intros E Hp [Hn Ha]. split; [by rewrite Hp|]. intros tx. rewrite E, Hp. apply Ha. Qed.

Lemma acct_take_xtcp he : acct [] take_xtcp option_list he.
Proof.
  intros k Hk. simpl. split; [by intros ? ?|]. apply (chan_inv_perm [] _ k); [done| |exact Hk].
  unfold senders. simpl. destruct (k_pending_xtcp k); simpl; [|done]. by rewrite <- Permutation_middle.
Qed.
Lemma acct_take_proxy he : acct [] take_proxy (fun p => option_list (pp_reply_tx <$> p)) he.
Proof.
  intros k Hk. simpl. split; [by intros ? ?|]. apply (chan_inv_perm [] _ k); [done| |exact Hk].
  unfold senders. simpl. destruct (k_pending_proxy k); simpl; [|done].
  rewrite app_nil_r. rewrite (app_assoc _ _ [_]). by rewrite <- Permutation_cons_append.
Qed.

(** Taking and dropping, or answering. *)
Lemma acct_clear_xtcp he : acct [] clear_xtcp (fun _ => []) he.
Proof.
  eapply acct_bind; [apply acct_take_xtcp|]. intros [tx|]; [apply acct_drop|apply acct_ret].
Qed.
Lemma acct_clear_proxy he : acct [] clear_proxy (fun _ => []) he.
Proof.
  eapply acct_bind; [apply acct_take_proxy|]. intros [p|]; [apply acct_drop|apply acct_ret].
Qed.

(** Filling an empty slot, and taking a command off the queue. *)
Lemma acct_slot_xtcp {A} tx (m1 m2 : CM A) h' he :
  acct [tx] m1 h' he → acct [] m2 h' he →
  acct [tx] (pending ← k_gets k_pending_xtcp;
             match pending with Some _ => m1 | None => _ ← st_modify (k_set_xtcp (Some tx)); m2 end) h' he.
Proof.
  intros H1' H2' k Hk. cbv [mbind st_bind k_gets st_modify]. destruct (k_pending_xtcp k) eqn:E; [by apply H1'|].
  assert (chan_inv [] (k_set_xtcp (Some tx) k)) as Hi.
  { apply (chan_inv_perm [tx] _ k); [done| |done]. unfold senders. simpl. rewrite E. simpl.
    by rewrite <- Permutation_middle. }
  destruct (H2' _ Hi) as [Hs Hi']. by split.
Qed.

Lemma acct_slot_proxy {A} p (m1 m2 : CM A) h' he :
  acct [pp_reply_tx p] m1 h' he → acct [] m2 h' he →
  acct [pp_reply_tx p] (pending ← k_gets k_pending_proxy;
             match pending with Some _ => m1 | None => _ ← st_modify (k_set_proxy (Some p)); m2 end) h' he.
Proof.
  intros H1' H2' k Hk. cbv [mbind st_bind k_gets st_modify]. destruct (k_pending_proxy k) eqn:E; [by apply H1'|].
  assert (chan_inv [] (k_set_proxy (Some p) k)) as Hi.
  { apply (chan_inv_perm [pp_reply_tx p] _ k); [done| |done]. unfold senders. simpl. rewrite E. simpl.
    rewrite !(app_assoc _ _ [_]), app_nil_r. by rewrite <- Permutation_cons_append. }
  destruct (H2' _ Hi) as [Hs Hi']. by split.
Qed.

Lemma acct_pop_cmd (f : ControlCommand → CM unit) :
  (∀ cmd, acct [cmd_tx cmd] (f cmd) (fun _ => []) []) →
  acct [] (k ← st_get; match k_cmds k with
                       | [] => mret tt
                       | cmd :: rest => _ ← st_modify (k_set_cmds rest); f cmd
                       end) (fun _ => []) [].
Proof.
  intros Hf k Hk. cbv [mbind st_bind st_get]. destruct (k_cmds k) as [|cmd rest] eqn:E; [by apply acct_ret|].
  assert (chan_inv [cmd_tx cmd] (k_set_cmds rest k)) as Hi.
  { apply (chan_inv_perm [] _ k); [done| |done]. unfold senders. simpl. by rewrite E. }
  destruct (Hf cmd _ Hi) as [Hs Hi']. by split.
Qed.

(** Giving up on a channel that is still waited for. *)
Lemma acct_timeout {A} tx (m : CM A) h' he k :
  acct [] m h' he → chan_inv [] k → k_replies k !! tx = Some Awaited →
  let r := (_ ← forget tx; m) k in
  stable k r.1 ∧ chan_inv (match r.2 with Ok a => h' a | Err _ => he end) r.1.
Proof.
  intros Hm [Hn Ha] Htx. cbv [mbind st_bind forget st_modify]. set (k1 := k_set_replies _ k).
  assert (chan_inv [] k1) as Hi.
  { split; [done|]. simpl. intros y [_ Hy]%lookup_delete_Some. by apply Ha. }
  destruct (Hm k1 Hi) as [Hs Hi']. split; [|done]. intros y a Hy. apply Hs. simpl.
  rewrite lookup_delete_ne; [done|]. congruence.
Qed.

Lemma acct_await_register tx : acct [] (await_register tx) (fun _ => []) [].
Proof.
  intros k Hk. unfold await_register. destruct (k_replies k !! tx) as [[|[]|]|] eqn:E;
    try (by apply (acct_fail [] _ (fun _ : string => []))); [|by apply acct_lift].
  eapply (acct_timeout tx _ (fun _ => [])); [|done|done].
  eapply acct_bind; [apply acct_clear_proxy|]. intros ?. apply acct_fail.
Qed.

Lemma acct_await_close tx : acct [] (await_close tx) (fun _ => []) [].
Proof.
  intros k Hk. unfold await_close. destruct (k_replies k !! tx) as [[|[]|]|] eqn:E;
    try (by apply (acct_fail [] _ (fun _ : unit => []))); [|by apply acct_lift].
  eapply (acct_timeout tx _ (fun _ => [])); [|done|done]. apply acct_fail.
Qed.

Lemma acct_await_xtcp tx : acct [] (await_xtcp tx) (fun _ => []) [].
Proof.
  assert (∀ e, acct [] (_ ← clear_xtcp; st_fail (A := NatHoleRespMsg) e) (fun _ => []) []) as Hc.
  { intros e. eapply acct_bind; [apply acct_clear_xtcp|]. intros ?. apply acct_fail. }
  intros k Hk. unfold await_xtcp. destruct (k_replies k !! tx) as [[|[]|]|] eqn:E;
    try (by apply Hc); [|by apply acct_lift].
  by eapply (acct_timeout tx _ (fun _ => [])).
Qed.

Lemma acct_command env cmd : acct [cmd_tx cmd] (handle_control_command env cmd) (fun _ => []) [].
Proof.
  destruct cmd as [server_name sk addr tx|p mux tx|name tx]; simpl.
  - apply acct_slot_xtcp; [apply acct_answer|].
    eapply acct_bind; [apply acct_attempt, acct_send|]. intros [?|e]; [apply acct_ret|].
    eapply acct_bind; [apply acct_clear_xtcp|]. intros ?. apply acct_fail.
  - apply (acct_slot_proxy (mkPendingProxyResp tx p mux)); [apply acct_answer|].
    eapply acct_bind; [apply acct_attempt, acct_send|]. intros [?|e]; [apply acct_ret|].
    eapply acct_bind; [apply acct_take_proxy|]. intros [q|]; [apply acct_answer|apply acct_ret].
  - eapply acct_bind; [|intros r; apply acct_answer]. apply acct_attempt.
    eapply acct_bind; [apply acct_send|]. intros ?. apply acct_modify. auto.
Qed.

Lemma acct_message env now bound msg : acct [] (client_handle_message env now bound msg) (fun _ => []) [].
Proof.
  destruct msg; simpl; try apply acct_ret; try apply acct_send; try (apply acct_modify; auto).
  - eapply acct_bind; [apply acct_take_proxy|]. intros [p|]; [|apply acct_ret].
    destruct (negb _); [apply acct_answer|].
    eapply acct_bind; [apply (acct_modify [pp_reply_tx p]); auto|]. intros ?. apply acct_answer.
  - eapply acct_bind; [apply acct_get|]. intros k. destruct (_ && _); [apply acct_ret|].
    destruct (is_empty _); [apply acct_ret|]. apply acct_modify. auto.
  - eapply acct_bind; [apply acct_gets|]. intros pm. apply acct_send.
  - eapply acct_bind; [apply acct_take_xtcp|]. intros [tx|]; [apply acct_answer|apply acct_ret].
Qed.

Lemma acct_turn env now turn : acct [] (loop_turn env now turn) (fun _ => []) [].
Proof.
  destruct turn as [|stuck| |bound received]; simpl.
  - eapply acct_bind; [apply acct_get|]. intros k. apply acct_guard.
  - destruct stuck; [apply acct_fail|apply acct_send].
  - apply acct_pop_cmd. intros cmd. apply acct_command.
  - eapply acct_bind; [apply acct_lift|]. intros [msg|]; [apply acct_message|apply acct_ret].
Qed.

Lemma acct_cleanup : acct [] run_cleanup (fun _ => []) [].
Proof.
  do 2 (eapply acct_bind; [by apply (acct_modify []); auto|intros ?]).
  eapply acct_bind; [apply acct_take_xtcp|]. intros x.
  eapply (acct_bind _ _ _ (fun _ => [])); [destruct x; [apply acct_answer|apply acct_ret]|]. intros ?.
  eapply acct_bind; [apply acct_take_proxy|]. intros [p|]; [apply acct_answer|apply acct_ret].
Qed.

(** What happens to a control from its creation on: callers submit commands
    with new channels and wait for their answers, the loop takes its turns, and
    [run] cleans up. *)
Inductive k_step (k : CControl) : CControl → Prop :=
| ks_submit tx cmd : cmd_tx cmd = tx → k_replies k !! tx = None → tx ∉ senders k →
    k_step k (submit tx cmd k).1
| ks_await_register tx : k_step k (await_register tx k).1
| ks_await_close tx : k_step k (await_close tx k).1
| ks_await_xtcp tx : k_step k (await_xtcp tx k).1
| ks_turn env now turn : k_step k (loop_turn env now turn k).1
| ks_cleanup : k_step k (run_cleanup k).1.

Inductive k_reachable : CControl → Prop :=
| kr_new now config pm : k_reachable (client_control_new now config pm)
| kr_step k k' : k_reachable k → k_step k k' → k_reachable k'.

Lemma k_step_inv k k' : chan_inv [] k → k_step k k' → stable k k' ∧ chan_inv [] k'.
Proof.
  intros Hi Hs. destruct Hs as [tx cmd Hc Hr Hn|tx|tx|tx|env now turn|].
  - destruct Hi as [Hnd Ha]. simpl. split.
    + intros y a Hy. simpl. rewrite lookup_insert_ne; [done|]. congruence.
    + assert (senders (k_set_cmds (k_cmds k ++ [cmd]) (k_set_replies (<[tx:=Awaited]> (k_replies k)) k))
              ≡ₚ tx :: senders k) as Hp.
      { unfold senders. simpl. rewrite fmap_app. simpl. rewrite Hc, <- app_assoc. simpl.
        by rewrite <- Permutation_middle. }
      split; [by rewrite app_nil_l, Hp; constructor|]. simpl. intros y Hy. rewrite Hp. apply elem_of_cons.
      destruct (decide (y = tx)) as [->|]; [by left|right]. rewrite lookup_insert_ne in Hy by done. by apply Ha.
  - pose proof (acct_await_register tx k Hi) as [? Hi']. split; [done|]. by case_match.
  - pose proof (acct_await_close tx k Hi) as [? Hi']. split; [done|]. by case_match.
  - pose proof (acct_await_xtcp tx k Hi) as [? Hi']. split; [done|]. by case_match.
  - pose proof (acct_turn env now turn k Hi) as [? Hi']. split; [done|]. by case_match.
  - pose proof (acct_cleanup k Hi) as [? Hi']. split; [done|]. by case_match.
Qed.

Lemma k_reachable_inv k : k_reachable k → chan_inv [] k.
Proof.
  induction 1 as [now config pm|k k' _ IH Hs]; [|by eapply k_step_inv].
  split; simpl; [constructor|]. intros tx. by rewrite lookup_empty.
Qed.
End Channels.
