(* ===== verification/ClientSession.v ===== *)
(** * A session of the client: registration, reload, the end of a run

    What [register_proxies], [reload_proxies] and the clean-up of [run] do to
    the client's proxies and to those who wait for answers. *)
From S2P Require Import Prelude RustString NetAddr Errors Protocol Config Crypto Vhost ProxyManager UdpTunnel ClientProxies ClientTransport ClientControl ClientChannels.
Local Open Scope Z_scope.

Section Session.
Context `{JsonMake} `{Primitives} `{DashIter}.

Abbreviation CM A := (st CControl Error.t A).

(** ** Registration at the start *)

(** The server's answer that takes a proxy. *)
Definition accepted (r : Result (option Message)) : bool :=
  match r with Ok (Some (NewProxyResp resp)) => is_empty (npr_error resp) | _ => false end.

(** The message sent for a proxy, and the proxy as it is kept. *)
Definition announce (config : ClientConfig) (p : ProxyConfig) : Message :=
  NewProxy (new_proxy_msg p (effective_multiplexer config p)).
Definition effective (config : ClientConfig) (p : ProxyConfig) : ProxyConfig :=
  with_multiplexer (effective_multiplexer config p) p.

(** How many proxies are announced and taken before the first that is not. *)
Fixpoint taken (env : CEnv) (config : ClientConfig) (ps : list ProxyConfig)
    (received : nat → Result (option Message)) : nat :=
  match ps with
  | [] => O
  | p :: ps' =>
      if is_ok (ce_send env (announce config p)) && accepted (received O)
      then S (taken env config ps' (fun i => received (S i))) else O
  end.

Definition register_locally (now : Z) (config : ClientConfig) (ps : list ProxyConfig)
    (pm : ClientProxyManager) : ClientProxyManager :=
  foldl (fun pm p => cpm_register_proxy now (effective config p) pm) pm ps.

(** One proxy: announced when the send works, kept when it is also taken. *)
Lemma register_one_spec env now p r k :
  let config := k_config k in
  let sent := is_ok (ce_send env (announce config p)) in
  let '(k', res) := register_one env now p r k in
  k_config k' = config ∧
  k_sent k' = k_sent k ++ (if sent then [announce config p] else []) ∧
  k_pm k' = (if sent && accepted r then cpm_register_proxy now (effective config p) (k_pm k) else k_pm k) ∧
  (is_ok res = sent && accepted r).
Proof.
  cbv [register_one mbind st_bind k_gets send_message st_lift st_modify]. fold (announce (k_config k) p).
  destruct (ce_send env (announce (k_config k) p)) as [[]|e]; simpl; [|by rewrite app_nil_r].
  destruct r as [[[]|]|e]; try done; simpl. unfold st_guard. by destruct (is_empty _).
Qed.

Lemma register_all_spec env now ps received k :
  let config := k_config k in
  let n := taken env config ps received in
  let '(k', res) := register_all env now ps received k in
  k_pm k' = register_locally now config (take n ps) (k_pm k) ∧
  k_sent k' = k_sent k ++ (announce config <$> take n ps) ++
    match ps !! n with
    | Some p => if is_ok (ce_send env (announce config p)) then [announce config p] else []
    | None => []
    end ∧
  is_ok res = (n =? length ps)%nat.
Proof.
  revert received k. induction ps as [|p ps IH]; intros received k; cbv zeta.
  { simpl. by rewrite app_nil_r. }
  pose proof (register_one_spec env now p (received O) k) as Hone. cbv zeta in Hone.
  cbn [register_all taken]. cbv [mbind st_bind].
  destruct (register_one env now p (received O) k) as [k1 [[]|e]]; destruct Hone as (Hc & Hs & Hp & Hr); simpl in Hr.
  - rewrite <- Hr in *. cbn [andb] in *. symmetry in Hr. apply andb_true_iff in Hr as [Hsent _].
    rewrite Hsent in Hs. specialize (IH (fun i => received (S i)) k1). cbv zeta in IH. rewrite Hc in IH.
    destruct (register_all env now ps _ k1) as [k' res]. destruct IH as (I1 & I2 & I3).
    rewrite I1, I2, I3, Hs, Hp. simpl. by rewrite <- app_assoc.
  - rewrite <- Hr in *. simpl. rewrite Hp, Hs. simpl. by destruct (is_ok _).
Qed.

Lemma register_locally_available now config ps pm p :
  cpm_ok pm → p ∈ ps →
  is_proxy_available (pc_name p) (register_locally now config ps pm) = true.
Proof.
  unfold register_locally. revert pm p. induction ps as [|q ps IH] using rev_ind; intros pm p Hok Hp.
  { by apply elem_of_nil in Hp. }
  rewrite foldl_app. simpl. change (pc_name p) with (pc_name (effective config p)).
  destruct (decide (pc_name (effective config p) = pc_name (effective config q))) as [->|Hne];
    [apply available_register|].
  rewrite available_register_ne; [|clear -Hok; induction ps using rev_ind;
    [done|rewrite foldl_app; by apply cpm_ok_register]|done].
  apply elem_of_app in Hp as [Hp|Hp%list_elem_of_singleton]; [exact (IH pm p Hok Hp)|]. by destruct Hne; subst.
Qed.

(** C22: what registering the configured proxies does, on every branch.  The
    proxies are announced in order; those before the first whose message
    cannot be sent or whose answer is not an acceptance are kept, with their
    effective multiplexer, and no other is; the one that stopped the loop was
    announced only if its message could be sent, and nothing after it.  The
    registration succeeds exactly when all were taken, and then every
    configured proxy is available. *)
Theorem registration_is_a_prefix env now received k :
  cpm_ok (k_pm k) →
  let config := k_config k in
  let ps := cc_proxies config in
  let n := taken env config ps received in
  let '(k', res) := register_proxies env now received k in
  k_pm k' = register_locally now config (take n ps) (k_pm k) ∧
  k_sent k' = k_sent k ++ (announce config <$> take n ps) ++
    match ps !! n with
    | Some p => if is_ok (ce_send env (announce config p)) then [announce config p] else []
    | None => []
    end ∧
  is_ok res = (n =? length ps)%nat ∧
  (is_ok res = true → ∀ p, p ∈ ps → is_proxy_available (pc_name p) (k_pm k') = true).
Proof.
  intros Hok config ps n. pose proof (register_all_spec env now ps received k) as Ha. cbv zeta in Ha.
  unfold register_proxies. cbv [mbind st_bind k_gets]. fold config ps n. fold config n in Ha.
  destruct (register_all env now ps received k) as [k' res]. destruct Ha as (Hp & Hs & Hr).
  split_and!; [done|done|done|]. rewrite Hr. intros Hn%Nat.eqb_eq p Hin. rewrite Hp, Hn, take_ge by done.
  by apply register_locally_available.
Qed.

(** While the proxies are registered the loop does not run: any other message
    of the server in place of the answer, such as the request for a work
    connection of a proxy that was just taken, ends the session with an error
    that is not retried. *)
Lemma registration_interrupted env now p req k :
  is_ok (ce_send env (announce (k_config k) p)) = true →
  ∃ e, (register_one env now p (Ok (Some (ReqWorkConn req))) k).2 = Err e ∧ is_retriable e = false.
Proof.
  intros Hs. cbv [register_one mbind st_bind k_gets send_message st_lift st_modify]. fold (announce (k_config k) p).
  destruct (ce_send env (announce (k_config k) p)); [|done]. by eexists.
Qed.

(** ** The end of a run *)

(** The channels after an answer. *)
Definition settle (tx : Z) (a : Answer) (r : gmap Z OneShot) : gmap Z OneShot :=
  match r !! tx with Some Awaited => <[tx := Answered a]> r | _ => r end.
Definition settle_opt (o : option Z) (a : Answer) (r : gmap Z OneShot) : gmap Z OneShot :=
  match o with Some tx => settle tx a r | None => r end.

Lemma settle_eq tx a r : r !! tx = Some Awaited → settle tx a r !! tx = Some (Answered a).
Proof. intros E. unfold settle. rewrite E. apply lookup_insert_eq. Qed.
Lemma settle_opt_ne o a r tx : o ≠ Some tx → settle_opt o a r !! tx = r !! tx.
Proof.
  intros Hne. destruct o as [ty|]; [|done]. simpl. unfold settle. destruct (r !! ty) as [[]|]; try done.
  apply lookup_insert_ne. congruence.
Qed.
Lemma answer_settle tx a k : answer tx a k = (k_set_replies (settle tx a (k_replies k)) k, Ok tt).
Proof. unfold answer, st_modify, settle. destruct k; simpl. by destruct (_ !! tx) as [[]|]. Qed.

Lemma run_cleanup_eq k :
  run_cleanup k =
  (mkCControl (k_config k) "" (k_pm k) (k_cmds k) None None (k_last_pong k) true
     (settle_opt (pp_reply_tx <$> k_pending_proxy k) (ARegister (Err shutting_down))
        (settle_opt (k_pending_xtcp k) (AXtcp (Err shutting_down)) (k_replies k))) (k_sent k) (k_spawned k), Ok tt).
Proof.
  destruct k as [c r pm cmds [tx|] [p|] lp cn reps se sp];
    cbv [run_cleanup mbind st_bind st_modify take_xtcp take_proxy k_gets mret st_ret
         k_pending_xtcp k_pending_proxy k_set_xtcp k_set_proxy k_set_run_id k_shutdown];
    rewrite ?answer_settle;
    cbv beta iota delta [k_pending_proxy k_set_replies]; rewrite ?answer_settle; done.
Qed.

(** C32: the end of a run leaves nothing running and nobody waiting on it.  In
    any state a control can be in, the clean-up empties the two slots, answers
    whoever waited there with an error, cancels the tasks of the pool and
    clears the run id; whoever still waits has its command in the queue, which
    the control no longer serves. *)
Theorem run_cleanup_spec k :
  k_reachable k →
  let k' := (run_cleanup k).1 in
  (run_cleanup k).2 = Ok tt ∧ pool_turn k' = PoolStop ∧ k_run_id k' = "" ∧
  k_pending_xtcp k' = None ∧ k_pending_proxy k' = None ∧ k_cmds k' = k_cmds k ∧
  (∀ tx, k_pending_xtcp k = Some tx → k_replies k !! tx = Some Awaited →
     k_replies k' !! tx = Some (Answered (AXtcp (Err shutting_down)))) ∧
  (∀ p, k_pending_proxy k = Some p → k_replies k !! pp_reply_tx p = Some Awaited →
     k_replies k' !! pp_reply_tx p = Some (Answered (ARegister (Err shutting_down)))) ∧
  (∀ tx, k_replies k' !! tx = Some Awaited → tx ∈ cmd_tx <$> k_cmds k').
Proof.
  intros Hk%k_reachable_inv. pose proof (acct_cleanup k Hk) as [_ Hi].
  assert (NoDup (senders k)) as Hnd by apply Hk. unfold senders in Hnd.
  apply NoDup_app in Hnd as (_ & _ & (_ & Hd & _)%NoDup_app).
  rewrite run_cleanup_eq in *. simpl in *. split_and!; try done.
  - intros tx Ex Hw. rewrite Ex in *. rewrite settle_opt_ne; [by apply settle_eq|].
    intros E. rewrite E in Hd. apply (Hd tx); simpl; by apply list_elem_of_singleton.
  - intros p Ep Hw. rewrite Ep in *. simpl. apply settle_eq. rewrite settle_opt_ne; [done|].
    intros E. rewrite E in Hd. apply (Hd (pp_reply_tx p)); simpl; by apply list_elem_of_singleton.
  - intros tx Hw. pose proof (ci_awaited _ _ Hi tx Hw) as Hin. unfold senders in Hin. simpl in Hin.
    by rewrite app_nil_r in Hin.
Qed.
(** ** One exchange at a time *)

Lemma run_bind {A B} (m : CM A) (f : A → CM B) k k1 a : m k = (k1, Ok a) → (m ≫= f) k = f a k1.
Proof. intros E. cbv [mbind st_bind]. by rewrite E. Qed.
Lemma run_attempt {A} (m : CM A) k k1 r : m k = (k1, r) → attempt m k = (k1, Ok r).
Proof. intros E. unfold attempt. by rewrite E. Qed.

(** No command waits and no registration is under way. *)
Definition quiet (k : CControl) : Prop := k_cmds k = [] ∧ k_pending_proxy k = None.

(** The loop sends the announcement of a registration. *)
Definition k_requested (tx : Z) (p : ProxyConfig) (k : CControl) : CControl :=
  mkCControl (k_config k) (k_run_id k) (k_pm k) [] (k_pending_xtcp k)
    (Some (mkPendingProxyResp tx p (effective_multiplexer (k_config k) p))) (k_last_pong k) (k_cancel k)
    (<[tx := Awaited]> (k_replies k)) (k_sent k ++ [announce (k_config k) p]) (k_spawned k).

Lemma request_step env now tx p k :
  (∀ m, ce_send env m = Ok tt) → quiet k →
  loop_turn env now Command (register_proxy_dynamic tx p k).1 = (k_requested tx p k, Ok tt).
Proof.
  intros Hs [Hc Hp]. destruct k as [c r pm cmds x q lp cn reps se sp]. simpl in Hc, Hp. subst. simpl.
  cbv [mbind st_bind st_get st_modify]. simpl. cbv [mbind st_bind k_gets st_modify attempt send_message st_lift]. simpl.
  by rewrite Hs.
Qed.

(** The answer to the registration under way. *)
Definition k_responded (now : Z) (p : PendingProxyResp) (resp : NewProxyRespMsg) (k : CControl) : CControl :=
  let ok := is_empty (npr_error resp) in
  mkCControl (k_config k) (k_run_id k)
    (if ok then cpm_register_proxy now (with_multiplexer (pp_multiplexer p) (pp_proxy_config p)) (k_pm k) else k_pm k)
    (k_cmds k) (k_pending_xtcp k) None (k_last_pong k) (k_cancel k)
    (settle (pp_reply_tx p) (ARegister (if ok then Ok (npr_remote_addr resp)
       else Err (Error.Proxy ("proxy " +:+ npr_proxy_name resp +:+ " registration failed: " +:+ npr_error resp))))
       (k_replies k)) (k_sent k) (k_spawned k).

Definition response (bound : result IoError string) (resp : NewProxyRespMsg) : CTurn :=
  Received bound (Some (Ok (Some (NewProxyResp resp)))).

Lemma response_step env now bound resp p k :
  k_pending_proxy k = Some p →
  loop_turn env now (response bound resp) k = (k_responded now p resp k, Ok tt).
Proof.
  intros Hp. destruct k as [c r pm cmds x q lp cn reps se sp]. simpl in Hp. subst.
  cbv [loop_turn response recv_control_message st_lift mbind st_bind client_handle_message handle_new_proxy_resp
       take_proxy k_gets st_modify mret st_ret k_pending_proxy k_set_proxy].
  unfold k_responded. destruct (is_empty _); cbn [negb]; cbv beta iota; by rewrite answer_settle.
Qed.

Lemma unexpected_response_step env now bound resp k :
  k_pending_proxy k = None → loop_turn env now (response bound resp) k = (k, Ok tt).
Proof. intros Hp. destruct k. simpl in Hp. by subst. Qed.

Lemma await_answered tx r k :
  k_replies k !! tx = Some (Answered (ARegister r)) → await_register tx k = (k, r).
Proof. intros E. unfold await_register. by rewrite E. Qed.

(** The caller gives up on the registration that is under way. *)
Lemma await_timeout p k :
  k_pending_proxy k = Some p → k_replies k !! pp_reply_tx p = Some Awaited →
  await_register (pp_reply_tx p) k =
  (k_set_proxy None (k_set_replies (delete (pp_reply_tx p) (k_replies k)) k),
   Err (Error.Timeout "register proxy timeout")).
Proof.
  intros Hp Hw. unfold await_register. rewrite Hw.
  cbv [mbind st_bind forget st_modify clear_proxy take_proxy k_gets mret st_ret st_fail]. simpl. rewrite Hp. simpl.
  by rewrite lookup_delete_eq.
Qed.

(** ** A late answer *)

(** [a] is registered, its caller gives up, [b] is registered, and the answers
    to both come: [a] was taken, [b] was not. *)
Definition late_answer (env : CEnv) (now : Z) (bound : result IoError string) (tx_a tx_b : Z) (a b : ProxyConfig)
    (remote_a err : string) : CM (Result string * Result string) :=
  _ ← register_proxy_dynamic tx_a a; _ ← loop_turn env now Command;
  first ← attempt (await_register tx_a);
  _ ← register_proxy_dynamic tx_b b; _ ← loop_turn env now Command;
  _ ← loop_turn env now (response bound (mkNewProxyRespMsg (pc_name a) remote_a ""));
  _ ← loop_turn env now (response bound (mkNewProxyRespMsg (pc_name b) "" err));
  second ← attempt (await_register tx_b);
  mret (first, second).

(** A registration is credited with the answer to another.  When the answer
    to the registration of [a] comes after its caller has given up (10 seconds)
    and another registration, of [b], is under way, the caller for [b] is told
    that it succeeded, with the address of [a], and the client keeps [b] as
    registered, although the server refuses it: the refusal is dropped, and
    [a], which the server accepted, is not known to the client. *)
Theorem late_response_credits_next env now bound tx_a tx_b a b remote_a err k :
  (∀ m, ce_send env m = Ok tt) → k_cmds k = [] → k_pending_proxy k = None →
  pc_name a ≠ pc_name b →
  let '(k', r) := late_answer env now bound tx_a tx_b a b remote_a err k in
  r = Ok (Err (Error.Timeout "register proxy timeout"), Ok remote_a) ∧
  is_proxy_available (pc_name b) (k_pm k') = true ∧
  get_proxy (pc_name a) (k_pm k') = get_proxy (pc_name a) (k_pm k).
Proof.
  intros Hs Hc Hp Hab. unfold late_answer.
  rewrite (run_bind _ _ k (register_proxy_dynamic tx_a a k).1 tt) by done.
  rewrite (run_bind _ _ _ _ tt (request_step env now tx_a a k Hs (conj Hc Hp))).
  set (k1 := k_requested tx_a a k). set (pa := mkPendingProxyResp tx_a a (effective_multiplexer (k_config k) a)).
  rewrite (run_bind _ _ k1 _ _ (run_attempt _ k1 _ _ (await_timeout pa k1 eq_refl (lookup_insert_eq _ _ _)))).
  set (k2 := k_set_proxy None _).
  rewrite (run_bind _ _ k2 (register_proxy_dynamic tx_b b k2).1 tt) by done.
  rewrite (run_bind _ _ _ _ tt (request_step env now tx_b b k2 Hs (conj eq_refl eq_refl))).
  set (k3 := k_requested tx_b b k2). set (pb := mkPendingProxyResp tx_b b (effective_multiplexer (k_config k2) b)).
  rewrite (run_bind _ _ k3 _ tt (response_step env now bound _ pb k3 eq_refl)). set (k4 := k_responded _ _ _ k3).
  rewrite (run_bind _ _ k4 k4 tt (unexpected_response_step env now bound _ k4 eq_refl)).
  rewrite (run_bind _ _ k4 k4 (Ok remote_a)).
  - split_and!; [done|apply (available_register now (with_multiplexer _ b))|].
    unfold get_proxy. simpl. rewrite cp_name_of. by apply lookup_insert_ne.
  - apply run_attempt, await_answered. by apply settle_eq, lookup_insert_eq.
Qed.
(** ** Reload *)

Definition mem (name : string) (names : list string) : bool := existsb (fun n => bool_decide (n = name)) names.
Lemma mem_true name names : mem name names = true ↔ name ∈ names.
Proof.
  unfold mem. rewrite existsb_True. split.
  - intros (n & Hn & ->%bool_decide_eq_true). done.
  - intros Hn. exists name. split; [done|]. by apply bool_decide_eq_true.
Qed.

Lemma get_unregistered names pm name :
  get_proxy name (foldl (fun pm n => cpm_unregister_proxy n pm) pm names) =
  if mem name names then None else get_proxy name pm.
Proof.
  revert pm. induction names as [|n names IH]; intros pm; [done|]. simpl. rewrite IH.
  destruct (mem name names); [by rewrite orb_true_r|]. rewrite orb_false_r. unfold get_proxy. simpl.
  case_bool_decide as Hn; [subst; apply lookup_delete_eq|by apply lookup_delete_ne].
Qed.

Lemma get_registered now config ps pm name :
  (name ∈ pc_name <$> ps → is_Some (get_proxy name (register_locally now config ps pm))) ∧
  (name ∉ pc_name <$> ps → get_proxy name (register_locally now config ps pm) = get_proxy name pm).
Proof.
  unfold register_locally, get_proxy. induction ps as [|p ps IH] using rev_ind; [split; [by intros ?%elem_of_nil|done]|].
  rewrite foldl_app, fmap_app. simpl. rewrite cp_name_of. simpl. split.
  - intros [Hin| ->%list_elem_of_singleton]%elem_of_app; [|rewrite lookup_insert_eq; eauto].
    destruct (decide (pc_name p = name)) as [->|]; [rewrite lookup_insert_eq; eauto|].
    rewrite lookup_insert_ne by done. by apply IH.
  - intros [Hn Hp%not_elem_of_cons]%not_elem_of_app. rewrite lookup_insert_ne by naive_solver. by apply IH.
Qed.
(** The exchanges of a reload when nothing else happens on the control: the
    command is submitted on a new channel, the loop handles it and the server's
    answer ([server p], for a registration), and the caller has the answer. *)
Section Exchanges.
Context (env : CEnv) (now : Z) (bound : result IoError string) (server : ProxyConfig → NewProxyRespMsg).
Hypothesis sends : ∀ m, ce_send env m = Ok tt.

Definition new_channel (k : CControl) : Z := fresh (dom (k_replies k)).

Definition close_exchange (name : string) : CM unit :=
  k ← st_get;
  _ ← close_proxy_dynamic (new_channel k) name;
  _ ← loop_turn env now Command;
  await_close (new_channel k).

Definition register_exchange (p : ProxyConfig) : CM string :=
  k ← st_get;
  _ ← register_proxy_dynamic (new_channel k) p;
  _ ← loop_turn env now Command;
  _ ← loop_turn env now (response bound (server p));
  await_register (new_channel k).

(** What both leave alone, what they do to the proxies, and what they send. *)
Definition exchanged (k k' : CControl) (pm : ClientProxyManager) (sent : list Message) : Prop :=
  quiet k' ∧ k_config k' = k_config k ∧ k_pm k' = pm ∧ k_sent k' = k_sent k ++ sent.
Definition farewell (name : string) : Message := CloseProxy (mkCloseProxyMsg name).

Lemma close_exchange_spec name k :
  quiet k → ∃ k', close_exchange name k = (k', Ok tt) ∧
    exchanged k k' (cpm_unregister_proxy name (k_pm k)) [farewell name].
Proof.
  intros [Hc Hp]. unfold close_exchange. rewrite (run_bind _ _ k k k) by done. set (tx := new_channel k).
  destruct k as [c r pm cmds x q lp cn reps se sp]. simpl in Hc, Hp. subst.
  cbv [mbind st_bind close_proxy_dynamic submit st_modify loop_turn st_get k_cmds k_set_cmds k_set_replies k_replies
       app k_config k_run_id k_pm k_pending_xtcp k_pending_proxy k_last_pong k_cancel k_sent k_spawned
       handle_control_command attempt handle_close_proxy_cmd send_message st_lift].
  rewrite sends. cbv [k_set_out k_set_pm k_cmds k_replies
       k_config k_run_id k_pm k_pending_xtcp k_pending_proxy k_last_pong k_cancel k_sent k_spawned].
  rewrite answer_settle. unfold await_close. cbn [k_replies k_set_replies].
  rewrite settle_eq by apply lookup_insert_eq. by eexists.
Qed.

Lemma register_exchange_spec p k :
  quiet k →
  ∃ k' r, register_exchange p k = (k', r) ∧
    (if is_empty (npr_error (server p)) then r = Ok (npr_remote_addr (server p)) else is_ok r = false) ∧
    exchanged k k' (if is_empty (npr_error (server p))
                    then cpm_register_proxy now (effective (k_config k) p) (k_pm k) else k_pm k)
      [announce (k_config k) p].
Proof.
  intros Hq. unfold register_exchange. rewrite (run_bind _ _ k k k) by done. set (tx := new_channel k).
  rewrite (run_bind _ _ k (register_proxy_dynamic tx p k).1 tt) by done.
  rewrite (run_bind _ _ _ _ tt (request_step env now tx p k sends Hq)). set (k1 := k_requested tx p k).
  set (pp := mkPendingProxyResp tx p (effective_multiplexer (k_config k) p)).
  rewrite (run_bind _ _ k1 _ tt (response_step env now bound _ pp k1 eq_refl)).
  eexists _, _. split; [apply await_answered; by apply settle_eq, lookup_insert_eq|].
  unfold exchanged, k_responded. by destruct (is_empty (npr_error (server p))).
Qed.

(** In the good case the caller has the remote address. *)
Lemma register_exchange_ok p k :
  quiet k → npr_error (server p) = ""%string →
  ∃ k', register_exchange p k = (k', Ok (npr_remote_addr (server p))) ∧
    exchanged k k' (cpm_register_proxy now (effective (k_config k) p) (k_pm k)) [announce (k_config k) p].
Proof.
  intros Hq He. destruct (register_exchange_spec p k Hq) as (k' & r & E & Hr & Hx). rewrite He in *.
  exists k'. split; [|exact Hx]. by rewrite E, Hr.
Qed.

Definition gone (new_names current : list string) : list string :=
  List.filter (fun n => negb (mem n new_names)) current.
Definition fresh_ones (current : list string) (ps : list ProxyConfig) : list ProxyConfig :=
  List.filter (fun p => negb (mem (pc_name p) current)) ps.
Definition welcome (p : ProxyConfig) : bool := is_empty (npr_error (server p)).

Lemma reload_close_spec new_names current n k :
  quiet k → ∃ k', reload_close close_exchange current new_names n k =
                    (k', Ok (n + Z.of_nat (length (gone new_names current)))) ∧
    exchanged k k' (foldl (fun pm name => cpm_unregister_proxy name pm) (k_pm k) (gone new_names current))
      (farewell <$> gone new_names current).
Proof.
  revert n k. induction current as [|name rest IH]; intros n k Hq.
  { exists k. simpl. rewrite Z.add_0_r. unfold exchanged. by rewrite app_nil_r. }
  cbn [reload_close]. fold (mem name new_names). unfold gone. cbn [List.filter].
  destruct (mem name new_names); cbn [negb]; [by apply IH|].
  destruct (close_exchange_spec name k Hq) as (k1 & E & Hq1 & Hc1 & Hp1 & Hs1).
  rewrite (run_bind _ _ _ _ _ (run_attempt _ _ _ _ E)). cbn [is_ok].
  destruct (IH (n + 1) k1 Hq1) as (k' & E' & Hq' & Hc' & Hp' & Hs'). exists k'. rewrite E'. split.
  - do 2 f_equal. cbn [length]. fold (gone new_names rest). lia.
  - split_and!; [done|congruence|by rewrite Hp', Hp1|]. csimpl. by rewrite Hs', Hs1, <- app_assoc.
Qed.

Lemma reload_register_spec current ps n k :
  quiet k →
  let took := List.filter welcome (fresh_ones current ps) in
  ∃ k', reload_register register_exchange ps current n k = (k', Ok (n + Z.of_nat (length took))) ∧
    exchanged k k' (register_locally now (k_config k) took (k_pm k)) (announce (k_config k) <$> fresh_ones current ps).
Proof.
  cbv zeta. revert n k. induction ps as [|p rest IH]; intros n k Hq.
  { exists k. simpl. rewrite Z.add_0_r. unfold exchanged. by rewrite app_nil_r. }
  cbn [reload_register]. fold (mem (pc_name p) current). unfold fresh_ones. cbn [List.filter].
  destruct (mem (pc_name p) current); cbn [negb]; [by apply IH|].
  destruct (register_exchange_spec p k Hq) as (k1 & r & E & Hr & Hq1 & Hc1 & Hp1 & Hs1).
  assert (is_ok r = welcome p) as Hok by (unfold welcome; destruct (is_empty _); [by subst|done]).
  rewrite (run_bind _ _ _ _ _ (run_attempt _ _ _ _ E)), Hok. fold (welcome p) in *.
  destruct (IH (if welcome p then n + 1 else n) k1 Hq1) as (k' & E' & Hq' & Hc' & Hp' & Hs').
  exists k'. rewrite E'. cbn [List.filter]. fold (fresh_ones current rest).
  destruct (welcome p).
  - split; [do 2 f_equal; cbn [length]; lia|]. split_and!; [done|congruence|by rewrite Hp', Hp1, Hc1|].
    csimpl. by rewrite Hs', Hs1, Hc1, <- app_assoc.
  - split; [done|]. split_and!; [done|congruence|by rewrite Hp', Hp1, Hc1|]. csimpl. by rewrite Hs', Hs1, Hc1, <- app_assoc.
Qed.

End Exchanges.

(** The names listed are those with a proxy. *)
Lemma names_listed pm name : is_Some (get_proxy name pm) ↔ name ∈ list_proxy_names pm.
Proof.
  unfold list_proxy_names, get_proxy. rewrite list_elem_of_fmap. split.
  - intros [a Ha]. exists (name, a). split; [done|]. rewrite dash_iter_perm. by apply elem_of_map_to_list.
  - intros ([n a] & -> & Ha). rewrite dash_iter_perm in Ha. apply elem_of_map_to_list in Ha. by exists a.
Qed.

Lemma mem_gone name new_names current :
  mem name (gone new_names current) = true ↔ name ∈ current ∧ name ∉ new_names.
Proof.
  rewrite mem_true. unfold gone. rewrite elem_of_filter_b, negb_true_iff, <- (mem_true name new_names).
  destruct (mem name new_names); naive_solver.
Qed.

(** C14: what a reload does.  On a control where nothing else is going on, with a
    working connection, it sends a [CloseProxy] for exactly the proxies whose
    names are not in the new configuration, and then a [NewProxy] for exactly
    those of the new configuration whose names the client does not have, and
    nothing else; it counts the closed ones and the
    ones the server takes.  Afterwards the client has the names it had and that
    are still configured, and the new ones that the server took.  A proxy whose
    name is in both is untouched, whatever else of its configuration changed. *)
Theorem reload_spec env now bound server new_config k :
  (∀ m, ce_send env m = Ok tt) → quiet k →
  let current := list_proxy_names (k_pm k) in
  let new_names := pc_name <$> cc_proxies new_config in
  let took := List.filter (welcome server) (fresh_ones current (cc_proxies new_config)) in
  ∃ k', reload_proxies (close_exchange env now) (register_exchange env now bound server) (Ok new_config) k =
          (k', Ok (Z.of_nat (length took), Z.of_nat (length (gone new_names current)))) ∧
    k_sent k' = k_sent k ++ (farewell <$> gone new_names current)
                         ++ (announce (k_config k) <$> fresh_ones current (cc_proxies new_config)) ∧
    (∀ name, is_Some (get_proxy name (k_pm k')) ↔
       (name ∈ current ∧ name ∈ new_names) ∨ name ∈ pc_name <$> took) ∧
    (∀ name, name ∈ current → name ∈ new_names → get_proxy name (k_pm k') = get_proxy name (k_pm k)).
Proof.
  intros Hs Hq current new_names took. unfold reload_proxies.
  rewrite (run_bind _ _ k k new_config), (run_bind _ _ k k k) by done. fold current new_names.
  destruct (reload_close_spec env now Hs new_names current 0 k Hq) as (k1 & E1 & Hq1 & Hc1 & Hp1 & Hs1).
  rewrite (run_bind _ _ _ _ _ E1).
  destruct (reload_register_spec env now bound server Hs current (cc_proxies new_config) 0 k1 Hq1)
    as (k2 & E2 & Hq2 & Hc2 & Hp2 & Hs2).
  rewrite (run_bind _ _ _ _ _ E2). exists k2. split; [done|].
  split; [by rewrite Hs2, Hs1, Hc1, <- app_assoc|].
  assert (∀ name, get_proxy name (k_pm k1) = if mem name (gone new_names current) then None else get_proxy name (k_pm k))
    as Hg1 by (intros name; rewrite Hp1; apply get_unregistered).
  assert (∀ name, name ∈ pc_name <$> took → name ∉ current) as Htook.
  { intros name (p & -> & [_ [Hm%negb_true_iff _]%elem_of_filter_b]%elem_of_filter_b)%list_elem_of_fmap.
    rewrite <- mem_true, Hm. done. }
  assert (∀ name, is_Some (get_proxy name (k_pm k)) ↔ name ∈ current) as Hcur by apply names_listed.
  assert (∀ name, name ∈ current → name ∈ new_names → get_proxy name (k_pm k2) = get_proxy name (k_pm k)) as Hkeep.
  { intros name Hc Hn. rewrite Hp2. rewrite (proj2 (get_registered now _ took _ name)) by (intros ?%Htook; done).
    rewrite Hg1. destruct (mem name _) eqn:E; [|done]. apply mem_gone in E. naive_solver. }
  split; [|exact Hkeep]. intros name. destruct (decide (name ∈ pc_name <$> took)) as [Ht|Ht].
  { split; [by right|]. intros _. rewrite Hp2. by apply get_registered. }
  rewrite Hp2, (proj2 (get_registered now _ took _ name) Ht), Hg1.
  destruct (mem name (gone new_names current)) eqn:E.
  - apply mem_gone in E. split; [by intros [? ?]|]. naive_solver.
  - rewrite Hcur. split; [|naive_solver]. intros Hc. left. split; [done|].
    destruct (decide (name ∈ new_names)) as [|Hn]; [done|]. by rewrite (proj2 (mem_gone _ _ _) (conj Hc Hn)) in E.
Qed.
End Session.

(** ** Witnesses *)

Module ToySession.
Import ToyClientControl.

(** Two proxies are configured, the server refuses the second. *)
Definition two : CControl := client_control_new 1000 (config [ssh; dns]) cpm_new.
Definition received (i : nat) : Result (option Message) :=
  match i with
  | O => Ok (Some (accept "ssh"))
  | _ => Ok (Some (NewProxyResp (mkNewProxyRespMsg "dns" "" "port taken")))
  end.

Lemma registration_is_a_prefix_witness :
  let '(k', res) := register_proxies env 0 received two in
  k_pm k' = register_locally 0 (config [ssh; dns]) [ssh] cpm_new ∧
  k_sent k' = [announce (config [ssh; dns]) ssh; announce (config [ssh; dns]) dns] ∧ is_ok res = false.
Proof.
  pose proof (registration_is_a_prefix env 0 received two (cpm_reachable_ok _ reach_new)) as Hr.
  destruct (register_proxies env 0 received two) as [k' res]. destruct Hr as (H1 & H2 & H3 & _).
  exact (conj H1 (conj H2 H3)).
Defined.

(** A registration is under way when the run ends. *)
Definition k2 : CControl := (loop_turn env 0 Command (register_proxy_dynamic 7 dns k0).1).1.
Lemma k2_reachable : k_reachable k2.
Proof.
  eapply kr_step; [|apply ks_turn]. eapply kr_step; [apply kr_new|].
  apply (ks_submit k0 7 (RegisterProxy dns "" 7)); [done|done|]. vm_compute. by intros ?%elem_of_nil.
Defined.

Lemma run_cleanup_spec_witness :
  k_replies (run_cleanup k2).1 !! 7 = Some (Answered (ARegister (Err shutting_down))).
Proof.
  destruct (run_cleanup_spec k2 k2_reachable) as (_ & _ & _ & _ & _ & _ & _ & Hp & _).
  apply (Hp (mkPendingProxyResp 7 dns "")); vm_compute; reflexivity.
Defined.

Lemma late_response_credits_next_witness :
  let k' := (late_answer env 0 (Ok ""%string) 1 2 ssh dns ":6000" "port taken" k0).1 in
  is_proxy_available "dns" (k_pm k') = true ∧ get_proxy "ssh" (k_pm k') = None.
Proof.
  pose proof (late_response_credits_next env 0 (Ok ""%string) 1 2 ssh dns ":6000" "port taken" k0
    (fun _ => eq_refl) eq_refl eq_refl ltac:(discriminate)) as Hl.
  destruct (late_answer _ _ _ _ _ _ _ _ _ k0) as [k' r]. destruct Hl as (_ & H1 & H2). exact (conj H1 H2).
Defined.

(** The client has ssh; the new configuration has dns instead. *)
Definition k_ssh : CControl := k_set_pm ToyClient.m1 k0.
Lemma reload_spec_witness :
  ∃ k', reload_proxies (close_exchange env 0)
          (register_exchange env 0 (Ok ""%string) (fun p => mkNewProxyRespMsg (pc_name p) ":53" ""))
          (Ok (config [dns])) k_ssh = (k', Ok (1, 1)) ∧
    k_sent k' = k_sent k_ssh ++ [farewell "ssh"; announce (k_config k_ssh) dns] ∧
    is_Some (get_proxy "dns" (k_pm k')).
Proof.
  destruct (reload_spec env 0 (Ok ""%string) (fun p => mkNewProxyRespMsg (pc_name p) ":53" "") (config [dns]) k_ssh
    (fun _ => eq_refl) (conj eq_refl eq_refl)) as (k' & E & Hs & Hn & _).
  exists k'. split; [exact E|]. split; [exact Hs|]. apply Hn. right. vm_compute. by left.
Defined.
End ToySession.
