(* ===== verification/ClientServer.v ===== *)
(** * The client against the server

    The two programs together: what the client sends (ClientControl) is what
    the server takes (Auth, ProxyManager, Server, NatHole), and what the server
    answers is what the client expects.  Login and work connections, the mode of
    a work connection, STCP visitors, XTCP secrets and relays. *)
From S2P Require Import Prelude RustString NetAddr Errors Protocol Config Crypto Auth Resource Vhost ProxyManager Hub NatHole Control Server Routing Dashboard Listener ClientProxies ClientTransport ClientControl ClientSession.
Local Open Scope Z_scope.

Section ClientServer.
Context `{JsonMake} `{Primitives} `{UnicodeLower} `{DashIter} {R : Type} `{PortAllocator R} `{TlsLib}.

(** ** The transport *)

(** The layers of a client's connection, in the order of their handshakes. *)
Fixpoint wire_layers (w : Wire) : list Layer :=
  match w with
  | WTcp _ => []
  | WTls _ _ inner => wire_layers inner ++ [LTls]
  | WWs _ inner => wire_layers inner ++ [LWs]
  | WKcp _ => [LKcp]
  | WQuic _ _ _ _ => [LQuic]
  end.

Definition layers_of_transport (t : CachedTransportConfig) : list Layer :=
  match t with
  | PlainTcp => [] | CTls _ _ => [LTls] | Ws => [LWs] | Wss _ _ => [LTls; LWs] | CKcp => [LKcp] | CQuic _ => [LQuic]
  end.

Lemma connect_layers d config t w :
  connect_server_transport_cached d config t = Ok w → wire_layers w = layers_of_transport t.
Proof.
  destruct t; simpl; intros Hw;
    repeat match goal with
           | H : (_ ≫= _) = Ok _ |- _ => apply bind_Ok in H as (? & ? & H)
           end; simplify_eq; done.
Qed.

Lemma build_layers config t :
  build_transport config = Ok t →
  layers_of_transport t =
  match tc_protocol (cc_transport config), tls_enable (tc_tls (cc_transport config)) with
  | TpKcp, _ => [LKcp] | TpQuic, _ => [LQuic]
  | TpWebsocket, true => [LTls; LWs] | TpWebsocket, false => [LWs]
  | TpTcp, true => [LTls] | TpTcp, false => []
  end.
Proof.
  unfold build_transport. intros Hb.
  destruct (tc_protocol _), (tls_enable (tc_tls (cc_transport config)));
    repeat match goal with
           | H : (_ ≫= _) = Ok _ |- _ => apply bind_Ok in H as (? & ? & H)
           end; by simplify_eq.
Qed.

(** When the two ends speak the same layers.  A connection of a client goes
    through exactly the handshakes the server expects if and only if both are
    configured for the same transport and, for TCP and WebSocket, both or
    neither with TLS; for KCP and QUIC the TLS switch does not matter. *)
Theorem transports_agree d config t w (server : ServerConfig) :
  build_transport config = Ok t → connect_server_transport_cached d config t = Ok w →
  wire_layers w = server_layers server ↔
  tc_protocol (cc_transport config) = tc_protocol (sc_transport server) ∧
  (tc_protocol (cc_transport config) = TpTcp ∨ tc_protocol (cc_transport config) = TpWebsocket →
   tls_enable (tc_tls (cc_transport config)) = tls_enable (tc_tls (sc_transport server))).
Proof.
  intros Hb%build_layers Hw%connect_layers. rewrite Hw, Hb, server_layers_eq.
  destruct (tc_protocol (cc_transport config)), (tls_enable (tc_tls (cc_transport config))),
    (tc_protocol (sc_transport server)), (tls_enable (tc_tls (sc_transport server))); naive_solver.
Qed.

(** ** Login *)

(** The server's side of a login with the client's message, and the client's
    with the server's answer. *)
Definition server_login (a : TokenAuth) (env : Env) (run_id : string) (conn : Conn) (peer : string)
    (msg : LoginMsg) (h : Hub R) : Hub R * Result Z :=
  login_accept (token_authenticator a) env 90 run_id conn msg peer h.

(** The last message on a connection. *)
Definition last_on (conn : Conn) (h : Hub R) : option Message :=
  snd <$> last (filter (fun cm => cm.1 = conn) (hub_wire h)).

Lemma verify_login_client a now sys ts config :
  0 ≤ now < 2 ^ 62 → in_i 64 ts → Z.abs (now - ts) ≤ 300 →
  ac_token (cc_auth config) ∈ known_tokens a →
  (∀ r, r ∈ ta_rules a → within_limit (ar_max_pool_count r) (tc_pool_count (cc_transport config))) →
  ∃ t, verify_login a now (login_msg sys ts config) = Ok t.
Proof.
  intros Hn Ht Hskew Hk Hpool. unfold verify_login. simpl.
  assert (check_timestamp now ts = Ok tt) as -> by (apply check_timestamp_Ok; auto). simpl.
  destruct (find_matching_token a _ _) as [t|] eqn:Ef.
  - simpl. destruct (matching_rule a t) as [r|] eqn:Er; [|eauto]. apply matching_rule_Some in Er as [Hr _].
    assert (validate_rule_login r (login_msg sys ts config) = Ok tt) as ->; [|eauto].
    apply validate_rule_login_Ok. by apply Hpool.
  - by destruct (proj1 (find_matching_token_None _ _ _) Ef _ Hk).
Qed.

Lemma last_on_sent conn m w (h : Hub R) : hub_wire h = w ++ [(conn, m)] → last_on conn h = Some m.
Proof.
  intros E. unfold last_on. rewrite E, filter_app, filter_cons_True, filter_nil by done. by rewrite last_snoc.
Qed.

(** A login the server refuses ends the client: the error comes back as one the
    client does not retry, and the server keeps nothing of it. *)
Lemma login_refused a env cenv sys conn peer run_id (h : Hub R) k e :
  let config := k_config k in
  verify_login a (env_now env) (login_msg sys (ce_now cenv) config) = Err e →
  (∀ m, ce_send cenv m = Ok tt) → (∀ m, env_send env conn m = Ok tt) →
  ∃ h1 m k1 e',
    server_login a env run_id conn peer (login_msg sys (ce_now cenv) config) h = (h1, Err e) ∧
    last_on conn h1 = Some m ∧ login cenv sys (Ok (Some m)) k = (k1, Err e') ∧
    is_retriable e' = false ∧ hub_controls h1 = hub_controls h ∧ hub_heap h1 = hub_heap h.
Proof.
  intros config Hv Hs Hsend.
  unfold server_login, login_accept. unfold token_authenticator at 1. cbn [auth_verify_login]. rewrite Hv.
  cbv [transport_send mbind st_bind st_lift st_modify mret st_ret inc emit st_fail]. rewrite Hsend.
  eexists _, (login_resp "" (error_to_string e)), _, (Error.Auth (error_to_string e)). split_and!; try done.
  - by eapply last_on_sent.
  - unfold login. cbv [mbind st_bind k_gets send_message st_lift st_modify]. rewrite Hs. simpl.
    unfold st_guard. by rewrite (proj2 (is_empty_false _) (error_to_string_nonempty e)).
Qed.

(** ** The mode of a work connection *)

(** The server finds the group the client put into the message. *)
Lemma client_lb_group `{!JsonMakeSpec} p mux :
  parse_lb_group (new_proxy_msg p mux) =
  (trim (lb_group (pc_load_balancer p)), trim (lb_group_key (pc_load_balancer p))).
Proof.
  unfold parse_lb_group, new_proxy_msg. cbn [np_extra].
  rewrite as_object_json_obj by (simpl; repeat constructor; set_solver). cbv zeta. unfold get_str.
  cbn [list_to_map foldr fst snd]. rewrite (lookup_insert_ne _ "load_balancer" "group"), (lookup_insert_ne _ "load_balancer" "group_key") by done.
  rewrite lookup_insert_eq, !lookup_empty. cbn [mbind option_bind is_empty].
  rewrite as_object_json_obj by (simpl; repeat constructor; set_solver).
  cbn [list_to_map foldr fst snd]. rewrite (lookup_insert_ne _ "group" "group_key"), !lookup_insert_eq by done.
  cbn [mbind option_bind]. by rewrite !as_str_json_str.
Qed.

(** Whether each end multiplexes the work connections of a proxy. *)
Definition client_mux (p : ClientProxy) : bool :=
  match p with CTcp q => ct_tcp_mux q | CUdp _ | CXtcp _ => false end.
Definition server_mux (p : Proxy) : bool :=
  match p with PTcp q => tp_tcp_mux q | _ => false end.

(** A configuration whose multiplexer only the client would honour. *)
Definition one_sided_mux (p : ProxyConfig) : bool :=
  is_mux_name (pc_multiplexer p) &&
  match pc_proxy_type p with
  | Tcp => negb (is_empty (trim (lb_group (pc_load_balancer p))))
  | Stcp | Http | Https => true
  | Udp | Sudp | Xtcp => false
  end.

(** The type of a proxy decides the branch of [create_proxy]. *)
Lemma create_proxy_of `{!JsonMakeSpec} binds run_id p mux tx :
  create_proxy (R := R) binds run_id (new_proxy_msg p mux) tx =
  let msg := new_proxy_msg p mux in
  match pc_proxy_type p with
  | Tcp =>
      let group := trim (lb_group (pc_load_balancer p)) in
      if is_empty group then q ← on_rc (tcp_proxy_new binds msg tx); mret (PTcp q, port_addr (tp_remote_port q))
      else register_group_member binds (proxy_key_of run_id (pc_name p)) msg tx group
             (trim (lb_group_key (pc_load_balancer p)))
  | Stcp => register_stcp run_id msg tx
  | Http => a ← on_vhost (register_http run_id msg tx); mret (PHttp (route_key_of run_id (pc_name p)), a)
  | Https => a ← on_vhost (register_https run_id msg tx); mret (PHttps (route_key_of run_id (pc_name p)), a)
  | Udp | Sudp => q ← on_rc (udp_proxy_new binds msg tx); mret (PUdp q, port_addr (ud_remote_port q))
  | Xtcp => register_xtcp binds run_id msg tx
  end.
Proof.
  unfold create_proxy. pose proof (client_lb_group p mux) as Hg. cbv zeta. rewrite Hg.
  by destruct p as [? []].
Qed.

Lemma tcp_proxy_new_fields binds msg tx r r' q :
  tcp_proxy_new (R := R) binds msg tx r = (r', Ok q) →
  tp_name q = np_proxy_name msg ∧
  tp_tcp_mux q = is_mux_name (np_multiplexer msg) && negb (bool_decide (np_proxy_type msg = "stcp"%string)).
Proof.
  unfold tcp_proxy_new. intros (? & ? & _ & (? & ? & _ & [= _ <-])%st_bind_Ok)%st_bind_Ok. done.
Qed.

(** Only a TCP proxy of its own port is multiplexed by the server. *)
Lemma create_server_mux `{!JsonMakeSpec} binds run_id p mux tx s s' proxy addr :
  create_proxy (R := R) binds run_id (new_proxy_msg p mux) tx s = (s', Ok (proxy, addr)) →
  server_mux proxy = is_mux_name mux && bool_decide (pc_proxy_type p = Tcp)
                     && is_empty (trim (lb_group (pc_load_balancer p))).
Proof.
  rewrite create_proxy_of. cbv zeta. destruct (pc_proxy_type p) eqn:Et; cbn [bool_decide decide_rel].
  1: destruct (is_empty _).
  1: { intros (s1 & q & (r' & [_ Hm]%tcp_proxy_new_fields)%on_rc_Ok & [= _ <- _])%st_bind_Ok. simpl. rewrite Hm.
       simpl. rewrite Et, bool_decide_false by done. by rewrite !andb_true_r. }
  all: rewrite ?andb_false_r; intros Hc;
    repeat match goal with
           | H : (_ ≫= _) _ = (_, Ok _) |- _ => apply st_bind_Ok in H as (? & ? & ? & H)
           | H : register_group_member _ _ _ _ _ _ _ = _ |- _ => unfold register_group_member in H
           | H : register_stcp _ _ _ _ = _ |- _ => unfold register_stcp in H
           | H : register_xtcp _ _ _ _ _ = _ |- _ => unfold register_xtcp in H
           end; cbv [mret st_ret] in Hc; simplify_eq/=; try done.
Qed.

(** C15: the two ends agree on how a work connection is used, except in one case.
    For every proxy the server registers from the client's message, the client
    multiplexes its work connections exactly when the server does, unless a
    multiplexer is configured for a load-balanced TCP proxy or for an STCP, HTTP
    or HTTPS proxy: then the client expects frames where the server sends the
    bare bytes of the connection. *)
Theorem work_conn_mode_agrees `{!JsonMakeSpec} binds run_id config p tx now s s' proxy addr :
  create_proxy (R := R) binds run_id (new_proxy_msg p (effective_multiplexer config p)) tx s = (s', Ok (proxy, addr)) →
  client_mux (client_proxy_of now (effective config p)) = server_mux proxy ↔ one_sided_mux p = false.
Proof.
  intros ->%create_server_mux. unfold one_sided_mux, client_proxy_of, effective, effective_multiplexer. simpl.
  destruct (pc_proxy_type p); cbn [client_mux ct_tcp_mux client_tcp_new pc_multiplexer with_multiplexer negb];
    rewrite ?(bool_decide_true (Tcp = Tcp)), ?bool_decide_false by done; rewrite ?andb_true_r, ?andb_false_r; try done.
  destruct (is_empty (trim _)); cbn [negb]; rewrite ?andb_true_r, ?andb_false_r; done.
Qed.

(** ** STCP visitors *)

(** What a registered STCP proxy of the client leaves in the server. *)
Lemma register_stcp_info run_id p mux tx (s s' : ProxyManager * R) r :
  register_stcp run_id (new_proxy_msg p mux) tx s = (s', Ok r) →
  get_stcp_info s'.1 (pc_name p) = Some (mkStcpProxyInfo run_id (pc_sk p) tx).
Proof.
  unfold register_stcp. intros (? & ? & _ & (? & ? & _ & (? & ? & _ & (? & ? & [= <- _] & [= <- _])%st_bind_Ok)
    %st_bind_Ok)%st_bind_Ok)%st_bind_Ok. simpl. apply lookup_insert_eq.
Qed.

(** The server's answer to a visitor's hello, in terms of the registration. *)
Lemma stcp_request_eq env tx msg (h : Hub R) info :
  get_stcp_info (hub_pm h) (sv_proxy_name msg) = Some info → is_Some (hub_heap h !! si_work_conn_req_tx info) →
  stcp_request env tx msg h =
    if verify (si_sk info) (pretty (sv_timestamp msg)) (sv_sk_signature msg)
    then if 300 <? i64_abs (i64_sub (env_now env) (sv_timestamp msg))
         then (h, Err (Error.Auth "stcp visitor timestamp expired"))
         else (set_heap (alter (fun c => c_set_reqs (c_work_conn_reqs c ++ [mkWorkConnRequest (sv_proxy_name msg) tx]) c)
                           (si_work_conn_req_tx info) (hub_heap h))
                 (set_replies (<[tx := Waiting]> (hub_replies h)) h), Ok tt)
    else (h, Err (Error.Auth ("stcp visitor sk mismatch for proxy " +:+ sv_proxy_name msg))).
Proof.
  intros Hi [c Hc]. unfold stcp_request. cbv [mbind st_bind hub_gets st_lift]. rewrite Hi. cbn [ok_or].
  cbv [st_guard st_fail]. destruct (verify _ _ _); cbn [negb]; [|done].
  cbv [mret st_ret]. destruct (300 <? _); [done|]. cbv [st_modify request_send upd_control].
  cbn [hub_heap set_replies]. by rewrite Hc.
Qed.

(** C21: an STCP visitor reaches the provider it is configured for, and nobody
    without its secret does.  Once the server has registered a client's STCP
    proxy, a visitor client configured with its name and secret, with clocks
    within 300 seconds, is accepted and its request is queued for the provider
    under the proxy's name; a visitor whose secret signs the same time
    differently is refused. *)
Theorem stcp_visitor_end_to_end env tx v ts run_id p mux req_tx (s s' : ProxyManager * R) a (h : Hub R) :
  register_stcp run_id (new_proxy_msg p mux) req_tx s = (s', Ok a) →
  hub_pm h = s'.1 → is_Some (hub_heap h !! req_tx) →
  vc_server_name v = pc_name p → 0 ≤ env_now env < 2 ^ 62 → in_i 64 ts → Z.abs (env_now env - ts) ≤ 300 →
  (vc_sk v = pc_sk p →
    ∃ h', stcp_request env tx (stcp_visitor_msg v ts) h = (h', Ok tt) ∧
      hub_replies h' !! tx = Some Waiting ∧
      hub_heap h' = alter (fun c => c_set_reqs (c_work_conn_reqs c ++ [mkWorkConnRequest (pc_name p) tx]) c)
                      req_tx (hub_heap h)) ∧
  (sign (vc_sk v) (pretty ts) ≠ sign (pc_sk p) (pretty ts) →
    ∃ e, stcp_request env tx (stcp_visitor_msg v ts) h = (h, Err (Error.Auth e))).
Proof.
  intros Hreg%register_stcp_info Hpm Hheap Hname Hn Ht Hskew. rewrite <- Hpm in Hreg.
  assert (get_stcp_info (hub_pm h) (sv_proxy_name (stcp_visitor_msg v ts)) =
            Some (mkStcpProxyInfo run_id (pc_sk p) req_tx)) as Hi by (simpl; by rewrite Hname).
  rewrite (stcp_request_eq env tx _ h _ Hi Hheap). cbn [si_sk sv_timestamp sv_sk_signature stcp_visitor_msg].
  assert ((300 <? i64_abs (i64_sub (env_now env) ts)) = false) as ->.
  { pose proof (proj2 (check_timestamp_Ok (env_now env) ts tt Hn Ht) (or_introl Hskew)) as Hc.
    by apply guard_err_Ok in Hc. }
  split.
  - intros ->. rewrite (proj2 (verify_iff _ _ _) eq_refl). eexists. split_and!; [done|apply lookup_insert_eq|].
    simpl. by rewrite Hname.
  - intros Hne. destruct (verify _ _ _) eqn:Hv; [|by eexists]. by apply verify_iff in Hv.
Qed.
(** ** XTCP *)

Lemma split_once_bar sk addr :
  split_once "|"%byte (visitor_text sk addr) =
  match bytes_split_once "|"%byte (to_bytes sk) with
  | None => Some (sk, addr)
  | Some (x, y) => Some (of_bytes x, of_bytes (y ++ "|"%byte :: to_bytes addr))
  end.
Proof.
  unfold split_once, visitor_text. rewrite !to_bytes_app. change (to_bytes "|") with ["|"%byte]. simpl.
  destruct (bytes_split_once _ (to_bytes sk)) as [[x y]|] eqn:E.
  - apply bytes_split_once_Some in E as [-> Hx]. rewrite <- app_assoc. simpl. by rewrite bytes_split_once_app.
  - apply bytes_split_once_None in E. rewrite bytes_split_once_app by done. by rewrite !of_to_bytes.
Qed.

(** When a visitor with the right secret is let through.  A visitor that is
    configured with exactly the secret of an XTCP proxy is recognised by the
    server exactly when the secret is not empty, has no white space around it
    and contains no bar: otherwise the server compares another text with the
    secret it registered. *)
Theorem xtcp_secret_recognised sk addr :
  trim addr = addr → addr ≠ "" →
  (∃ a, parse_signed_msg (visitor_text sk addr) = Ok (sk, a)) ↔
  sk ≠ "" ∧ trim sk = sk ∧ contains "|"%byte sk = false.
Proof.
  intros Ha Hne. unfold parse_signed_msg, contains. rewrite split_once_bar, bytes_contains_false.
  destruct (bytes_split_once _ (to_bytes sk)) as [[x y]|] eqn:E.
  - apply bytes_split_once_Some in E as [E Hx]. split; [|intros (_ & _ & Hn); destruct Hn; rewrite E; set_solver].
    intros [a Hp]. exfalso. cbn [ok_or] in Hp. apply bind_Ok in Hp as ([? ?] & [= <- <-] & Hp).
    apply bind_Ok in Hp as (? & _ & (? & _ & [= Hsk _])%bind_Ok).
    assert (length (to_bytes sk) ≤ length x)%nat as Hl.
    { rewrite <- Hsk. unfold trim. rewrite !to_of_bytes. apply length_bytes_trim. }
    rewrite E, length_app in Hl. simpl in Hl. lia.
  - apply bytes_split_once_None in E. simpl. rewrite Ha. split.
    + intros [a Hp]. apply bind_Ok in Hp as (? & He%guard_err_Ok & (? & _ & [= Hsk _])%bind_Ok).
      rewrite Hsk in He. apply is_empty_false in He. done.
    + intros (Hs & Ht & _). rewrite Ht. exists addr. apply is_empty_false in Hs, Hne.
      unfold guard_err. by rewrite Hs, Hne.
Qed.

(** The relay of an XTCP proxy asks for work connections under a name of its
    own. *)
Lemma register_xtcp_relay binds run_id p mux tx (s s' : ProxyManager * R) name relay addr :
  register_xtcp binds run_id (new_proxy_msg p mux) tx s = (s', Ok (PXtcp name (Some relay), addr)) →
  tp_name relay = pc_name p +:+ "__relay".
Proof.
  unfold register_xtcp. intros (? & ? & _ & Hc)%st_bind_Ok. apply st_bind_Ok in Hc as (? & ? & _ & Hc).
  apply st_bind_Ok in Hc as (? & ? & _ & Hc). apply st_bind_Ok in Hc as (? & r & Hr & Hc).
  apply st_bind_Ok in Hc as (? & ? & _ & [= _ _ -> _]). cbn [np_fallback_to_relay new_proxy_msg] in Hr.
  destruct (pc_fallback_to_relay p); [|done].
  apply st_bind_Ok in Hr as (? & q & (r' & [Hq _]%tcp_proxy_new_fields)%on_rc_Ok & [= _ <-]). done.
Qed.

(** The relay of an XTCP proxy is never served.  The relay the server opens
    for a client's XTCP proxy asks for work connections under the proxy's name
    with [__relay] appended; a client that has no proxy of that name of its own
    ignores the request, and a work connection from its pool that is started
    for the relay ends with an error. *)
Theorem xtcp_relay_unserved binds run_id p mux tx (s s' : ProxyManager * R) name relay addr
    config run k connected send :
  register_xtcp binds run_id (new_proxy_msg p mux) tx s = (s', Ok (PXtcp name (Some relay), addr)) →
  get_proxy (pc_name p +:+ "__relay") (k_pm k) = None →
  handle_req_work_conn (mkReqWorkConnMsg (tp_name relay)) k = (k, Ok tt) ∧
  ∀ remote dst, ∃ e, create_work_conn config run (k_pm k) connected send
    (Ok (Some (StartWorkConn (mkStartWorkConnMsg (tp_name relay) remote dst "")))) = Err e.
Proof.
  intros ->%register_xtcp_relay Hn. split.
  - unfold handle_req_work_conn. cbv [mbind st_bind st_get]. cbn [rw_proxy_name]. unfold is_proxy_available.
    fold (get_proxy (pc_name p +:+ "__relay") (k_pm k)). rewrite Hn.
    destruct (is_empty (pc_name p +:+ "__relay")) eqn:E; [|done]. apply is_empty_true in E. by destruct (pc_name p).
  - intros remote dst. unfold create_work_conn. destruct (guard_err _ _); [|by eexists]. simpl.
    destruct connected; [|by eexists]. simpl. destruct (send _); [|by eexists]. simpl. rewrite Hn. by eexists.
Qed.
End ClientServer.

(** ** Witnesses *)

Module ToyClientServer.
Import ToyClientControl.
#[local] Existing Instances ToyProxyManager.lower ToyDial.lib.

Definition a : TokenAuth := mkTokenAuth "root" ["secret"%string] [].
Definition senv : Env := mkEnv ToyProxyManager.binds (fun _ _ => Ok tt) 1100.
Definition sys : System := mkSystem "u" "host" "linux" "x86_64".
Definition sc (protocol : TransportProtocol) : ServerConfig :=
  mkServerConfig json "0.0.0.0" 7000 0 0 0 0 "" 0 "" "" "" "" 0 AuthConfig_default
    (mkTransportConfig protocol true 30 1 30 90 (mkTlsConfig true "cert.pem" "key.pem" "" "")) [] 0 0 "" true ∅.

Lemma transports_agree_witness :
  wire_layers (WWs "wss://example.org:7000/ws" (WTls "example.org" ToyDial.chain (WTcp "example.org:7000")))
  = server_layers (sc TpWebsocket).
Proof.
  apply (transports_agree ToyDial.d (ToyDial.config TpWebsocket) ToyDial.wss _ (sc TpWebsocket)
           eq_refl eq_refl). by split.
Defined.

Definition s0 : ProxyManager * ResourceController := (pm_new "0.0.0.0" "" 0 0, ToyProxyManager.rc0).
Definition h0 : Hub ResourceController := hub_new s0.1 s0.2.


(** A TCP proxy that is multiplexed on both ends, and a load-balanced one with a
    multiplexer. *)
Definition balanced : ProxyConfig :=
  mkProxyConfig "lb" Tcp "127.0.0.1" 22 6001 false false [] "" [] "" "" "" "" false "smux" "" ""
    HealthCheckConfig_default (mkLoadBalancerConfig "g" "") PluginConfig_default.
Definition created (p : ProxyConfig) :=
  create_proxy ToyProxyManager.binds "run-1" (new_proxy_msg p (effective_multiplexer (config []) p)) 1 s0.

Lemma work_conn_mode_agrees_witness :
  client_mux (client_proxy_of 0 (effective (config []) ssh)) = true ∧
  client_mux (client_proxy_of 0 (effective (config []) balanced)) = true ∧
  ∃ s1 s2 p1 p2 a1 a2, created ssh = (s1, Ok (p1, a1)) ∧ server_mux p1 = true ∧
    created balanced = (s2, Ok (p2, a2)) ∧ server_mux p2 = false.
Proof.
  assert (∃ s1 p1 a1, created ssh = (s1, Ok (p1, a1))) as (s1 & p1 & a1 & E1) by (vm_compute; eauto).
  assert (∃ s2 p2 a2, created balanced = (s2, Ok (p2, a2))) as (s2 & p2 & a2 & E2) by (vm_compute; eauto).
  pose proof (work_conn_mode_agrees _ _ _ _ _ 0 _ _ _ _ E1) as M1.
  pose proof (work_conn_mode_agrees _ _ _ _ _ 0 _ _ _ _ E2) as M2.
  split; [vm_compute; reflexivity|]. split; [vm_compute; reflexivity|].
  exists s1, s2, p1, p2, a1, a2. split; [exact E1|]. split; [symmetry; apply M1; vm_compute; reflexivity|].
  split; [exact E2|]. destruct (server_mux p2); [|reflexivity].
  discriminate (proj1 M2 ltac:(vm_compute; reflexivity)).
Defined.

Definition db : ProxyConfig := ToyClient.proxy "db" Stcp.
Definition visitor (sk : string) : VisitorConfig := mkVisitorConfig "v" "stcp" "db" sk "" 9000 false 0.
Definition s_db : ProxyManager * ResourceController := (register_stcp "run-1" (new_proxy_msg db "") 0 s0).1.
Definition h_db : Hub ResourceController :=
  let h := (server_login a senv "run-1" 5 "1.2.3.4:1" (login_msg sys 1000 (k_config k0)) h0).1 in
  set_pm s_db h.

Lemma stcp_visitor_end_to_end_witness :
  (∃ h', stcp_request senv 9 (stcp_visitor_msg (visitor "sk") 1000) h_db = (h', Ok tt)) ∧
  ∃ e, stcp_request senv 9 (stcp_visitor_msg (visitor "ks") 1000) h_db = (h_db, Err (Error.Auth e)).
Proof.
  assert (∃ r, register_stcp "run-1" (new_proxy_msg db "") 0 s0 = (s_db, Ok r)) as [r Hr] by (vm_compute; eauto).
  assert (is_Some (hub_heap h_db !! 0)) as Hh by (vm_compute; eauto).
  assert (0 ≤ env_now senv < 2 ^ 62 ∧ in_i 64 1000) as [Hn Ht] by (vm_compute; repeat split; discriminate || done).
  split.
  - destruct (stcp_visitor_end_to_end senv 9 (visitor "sk") 1000 "run-1" db "" 0 s0 s_db r h_db Hr eq_refl Hh eq_refl
      Hn Ht ltac:(vm_compute; discriminate)) as [Hok _].
    destruct (Hok eq_refl) as (h' & E & _). exists h'. exact E.
  - apply (stcp_visitor_end_to_end senv 9 (visitor "ks") 1000 "run-1" db "" 0 s0 s_db r h_db Hr eq_refl Hh eq_refl
      Hn Ht ltac:(vm_compute; discriminate)). vm_compute. discriminate.
Defined.

Lemma xtcp_secret_recognised_witness :
  (∃ a, parse_signed_msg (visitor_text "s3" "1.2.3.4:5") = Ok ("s3"%string, a)) ∧
  ¬ (∃ a, parse_signed_msg (visitor_text "s|3" "1.2.3.4:5") = Ok ("s|3"%string, a)).
Proof.
  split.
  - apply (xtcp_secret_recognised "s3" "1.2.3.4:5"); [reflexivity|discriminate|]. by split_and!.
  - intros Hs. apply (xtcp_secret_recognised "s|3" "1.2.3.4:5") in Hs; [|reflexivity|discriminate].
    destruct Hs as (_ & _ & Hs). discriminate Hs.
Defined.

Definition cam : ProxyConfig :=
  mkProxyConfig "cam" Xtcp "127.0.0.1" 22 6002 false false [] "" [] "" "" "" "s3" true "" "" ""
    HealthCheckConfig_default LoadBalancerConfig_default PluginConfig_default.
Lemma xtcp_relay_unserved_witness :
  handle_req_work_conn (mkReqWorkConnMsg "cam__relay") k0 = (k0, Ok tt).
Proof.
  assert (∃ s' name relay addr, register_xtcp ToyProxyManager.binds "run-1" (new_proxy_msg cam "") 0 s0
            = (s', Ok (PXtcp name (Some relay), addr)) ∧ tp_name relay = "cam__relay"%string)
    as (s' & name & relay & addr & E & <-) by (vm_compute; eauto 10).
  apply (xtcp_relay_unserved _ _ _ _ _ _ _ _ _ _ (config []) "r" k0 (Ok tt) (fun _ => Ok tt) E). reflexivity.
Defined.
End ToyClientServer.
