(* ===== verification/EndToEnd.v ===== *)
(** * From a user's connection to the client's local service

    The two programs serving users together.  The requests for work connections
    that the user connections of all kinds leave in the channel of a control
    (TcpConn, UserConn, Server) go through the control loop to the client,
    whose message loop opens work connections, which the server hands to the
    waiting users and tells what proxy they are for, and which the client then
    hands to that proxy. *)
From S2P Require Import Prelude RustString Errors Protocol Config Crypto Auth Resource Vhost ProxyManager Hub NatHole Control Server ClientProxies ClientControl ClientServer.
Local Open Scope Z_scope.

Section EndToEnd.
Context `{JsonMake} `{Primitives} `{UnicodeLower} `{DashIter} {R : Type} `{PortAllocator R}.
Abbreviation HM A := (st (Hub R) Error.t A).

(** ** The parts of a run *)

(** The control loop serves [n] requests from its channel. *)
Fixpoint serve_requests (auth : Authenticator) (env : Env) (self : Z) (transport : Conn) (n : nat) : HM unit :=
  match n with
  | O => mret tt
  | S n' => _ ← run_select auth env self transport WorkConnReq; serve_requests auth env self transport n'
  end.

(** The client's message loop receives the messages. *)
Fixpoint client_receives (cenv : CEnv) (now : Z) (bound : result IoError string) (msgs : list Message)
  : st CControl Error.t unit :=
  match msgs with
  | [] => mret tt
  | m :: rest => _ ← loop_turn cenv now (ClientControl.Received bound (Some (Ok (Some m)))); client_receives cenv now bound rest
  end.

(** The work connections of the client arrive at the server. *)
Fixpoint work_conns_arrive (auth : Authenticator) (msg : NewWorkConnMsg) (conns : list Conn) : HM unit :=
  match conns with
  | [] => mret tt
  | conn :: rest => _ ← handle_new_work_conn auth conn msg; work_conns_arrive auth msg rest
  end.

(** ** The server's control loop *)

(** What the control at [self] owes: the requests it has announced, and those in
    its channel; nobody is idle. *)
Definition owes (self : Z) (pending reqs : list WorkConnRequest) (h : Hub R) : Prop :=
  ∃ c, hub_heap h !! self = Some c ∧ c_pending_work_conns c = pending ∧ c_work_conn_reqs c = reqs ∧
       c_idle_work_conns c = [].

(** Nothing else of the server that matters here changes. *)
Definition same_rest (h h' : Hub R) : Prop :=
  hub_controls h' = hub_controls h ∧ hub_pm h' = hub_pm h ∧ dom (hub_heap h') = dom (hub_heap h).

Definition req_msg (transport : Conn) (req : WorkConnRequest) : Conn * Message :=
  (transport, ReqWorkConn (mkReqWorkConnMsg (wr_proxy_name req))).

Lemma serve_one auth env self transport pending req rest h :
  (∀ m, env_send env transport m = Ok tt) → owes self pending (req :: rest) h →
  ∃ h', run_select auth env self transport WorkConnReq h = (h', Ok None) ∧
    owes self (pending ++ [req]) rest h' ∧ hub_replies h' = hub_replies h ∧
    hub_wire h' = hub_wire h ++ [req_msg transport req] ∧ same_rest h h'.
Proof.
  intros Hsend (c & Hc & Hp & Hr & Hi).
  unfold run_select, handle_work_conn_request, pop_idle, push_pending, announce, on_err, transport_send, deref, upd_control, inc, log_err.
  cbv [mbind st_bind st_modify st_lift mret st_ret ok_or]. simpl. rewrite Hc. simpl. rewrite Hr. simpl.
  rewrite lookup_alter_eq, Hc. simpl. rewrite Hi. simpl. rewrite Hsend. simpl.
  eexists. split; [done|]. split; [|split; [done|split; [done|]]].
  - eexists. simpl. rewrite !lookup_alter_eq, Hc. split; [done|]. simpl. by rewrite Hp, Hi.
  - unfold same_rest. simpl. by rewrite !dom_alter_L.
Qed.

Lemma serve_all auth env self transport pending reqs h :
  (∀ m, env_send env transport m = Ok tt) → owes self pending reqs h →
  ∃ h', serve_requests auth env self transport (length reqs) h = (h', Ok tt) ∧
    owes self (pending ++ reqs) [] h' ∧ hub_replies h' = hub_replies h ∧
    hub_wire h' = hub_wire h ++ (req_msg transport <$> reqs) ∧ same_rest h h'.
Proof.
  intros Hsend. revert pending h. induction reqs as [|req reqs IH]; intros pending h Ho.
  - exists h. simpl. by rewrite !app_nil_r.
  - destruct (serve_one auth env self transport pending req reqs h Hsend Ho) as (h1 & E1 & O1 & R1 & W1 & S1).
    destruct (IH _ _ O1) as (h2 & E2 & O2 & R2 & W2 & S2). exists h2. cbn [serve_requests length]. cbv [mbind st_bind].
    rewrite E1, E2. split_and!; [done| | | |].
    + by rewrite <- app_assoc in O2.
    + by rewrite R2.
    + by rewrite W2, W1, <- app_assoc.
    + destruct S1 as (?&?&?), S2 as (?&?&?). unfold same_rest. split_and!; congruence.
Qed.

(** ** Work connections arrive *)

Definition waiting (reqs : list WorkConnRequest) (h : Hub R) : Prop :=
  NoDup (wr_reply_tx <$> reqs) ∧ Forall (fun r => hub_replies h !! wr_reply_tx r = Some Waiting) reqs.

Lemma arrive_one a msg conn self req rest h :
  verify_new_work_conn a msg = Ok tt → trim (nw_run_id msg) ≠ "" →
  hub_controls h !! nw_run_id msg = Some self → owes self (req :: rest) [] h →
  hub_replies h !! wr_reply_tx req = Some Waiting →
  ∃ h', handle_new_work_conn (token_authenticator a) conn msg h = (h', Ok tt) ∧
    owes self rest [] h' ∧ hub_replies h' = <[wr_reply_tx req := Delivered conn]> (hub_replies h) ∧
    hub_wire h' = hub_wire h ∧ same_rest h h'.
Proof.
  intros Hv Hrun Hself (c & Hc & Hp & Hr & Hi) Hw.
  unfold handle_new_work_conn, token_authenticator. cbn [auth_verify_new_work_conn].
  rewrite (proj2 (is_empty_false _) Hrun), Hv.
  unfold handle_work_conn, deref, upd_control, reply_send, inc.
  cbv [mbind st_bind st_guard st_modify st_lift mret st_ret hub_gets cm_get ok_or]. simpl.
  rewrite Hself. simpl. rewrite Hc. simpl. rewrite Hp. simpl. rewrite Hw.
  eexists. split; [done|]. split; [|split; [done|split; [done|]]].
  - eexists. simpl. rewrite lookup_alter_eq, Hc. split; [done|]. simpl. by rewrite Hr, Hi.
  - unfold same_rest. simpl. by rewrite dom_alter_L.
Qed.

Lemma arrive_all a msg conns self reqs h :
  verify_new_work_conn a msg = Ok tt → trim (nw_run_id msg) ≠ "" →
  hub_controls h !! nw_run_id msg = Some self → owes self reqs [] h → waiting reqs h →
  length conns = length reqs →
  ∃ h', work_conns_arrive (token_authenticator a) msg conns h = (h', Ok tt) ∧
    owes self [] [] h' ∧ hub_wire h' = hub_wire h ∧ same_rest h h' ∧
    (∀ tx, tx ∉ wr_reply_tx <$> reqs → hub_replies h' !! tx = hub_replies h !! tx) ∧
    Forall2 (fun req conn => hub_replies h' !! wr_reply_tx req = Some (Delivered conn)) reqs conns.
Proof.
  intros Hv Hrun. revert reqs h. induction conns as [|conn conns IH]; intros [|req reqs] h Hself Ho [Hn Hw] Hl; try done.
  { exists h. split_and!; try done. }
  cbn [fmap list_fmap] in Hn. apply NoDup_cons in Hn as [Hreq Hn]. apply Forall_cons in Hw as [Hw1 Hw].
  destruct (arrive_one a msg conn self req reqs h Hv Hrun Hself Ho Hw1) as (h1 & E1 & O1 & R1 & W1 & S1 & S1' & S1'').
  destruct (IH reqs h1) as (h2 & E2 & O2 & W2 & (S2 & S2' & S2'') & K2 & F2); [by rewrite S1|done| |by injection Hl|].
  { split; [done|]. rewrite R1. apply Forall_forall. intros r Hr.
    rewrite lookup_insert_ne by (intros E; apply Hreq; rewrite E; by apply list_elem_of_fmap_2).
    by apply (proj1 (Forall_forall _ _) Hw). }
  exists h2. cbn [work_conns_arrive]. cbv [mbind st_bind]. rewrite E1, E2. split; [done|]. split; [done|]. split; [congruence|].
  split; [unfold same_rest; split_and!; congruence|]. split.
  - intros tx Htx. apply not_elem_of_cons in Htx as [Hne Htx]. rewrite K2, R1 by done. by apply lookup_insert_ne.
  - constructor; [|done]. rewrite K2, R1 by done. apply lookup_insert_eq.
Qed.

(** ** The client's message loop *)

Lemma req_turn cenv now bound n k :
  trim (k_run_id k) ≠ "" → is_proxy_available n (k_pm k) = true →
  loop_turn cenv now (ClientControl.Received bound (Some (Ok (Some (ReqWorkConn (mkReqWorkConnMsg n)))))) k
  = (k_set_out (k_sent k) (k_spawned k ++ [k_run_id k]) k, Ok tt).
Proof.
  intros Hrun Hn. unfold loop_turn. cbn [recv_control_message]. cbv [mbind st_bind st_lift].
  cbn [client_handle_message]. unfold handle_req_work_conn. cbv [mbind st_bind st_get]. cbn [rw_proxy_name].
  by rewrite Hn, andb_false_r, (proj2 (is_empty_false _) Hrun).
Qed.

Lemma client_receives_reqs cenv now bound names k :
  trim (k_run_id k) ≠ "" →
  Forall (fun n => is_proxy_available n (k_pm k) = true) names →
  ∃ k', client_receives cenv now bound ((fun n => ReqWorkConn (mkReqWorkConnMsg n)) <$> names) k = (k', Ok tt) ∧
    k_spawned k' = k_spawned k ++ replicate (length names) (k_run_id k) ∧ k_pm k' = k_pm k ∧
    k_run_id k' = k_run_id k.
Proof.
  revert k. induction names as [|n names IH]; intros k Hrun Hav.
  { exists k. simpl. by rewrite app_nil_r. }
  apply Forall_cons in Hav as [Hn Hav]. cbn [fmap list_fmap client_receives length replicate].
  cbv [mbind st_bind]. rewrite req_turn by done.
  destruct (IH (k_set_out (k_sent k) (k_spawned k ++ [k_run_id k]) k)) as (k' & E & Hs & Hp & Hr); [done|done|].
  exists k'. rewrite E. split; [done|]. split; [|done]. rewrite Hs. simpl. by rewrite <- app_assoc.
Qed.

(** What a work connection that is told to start is handed to. *)
Lemma work_conn_served config run_id pm name src dst addr :
  trim run_id ≠ "" → get_proxy name pm = Some addr →
  create_work_conn config run_id pm (Ok tt) (fun _ => Ok tt)
    (Ok (Some (StartWorkConn (mkStartWorkConnMsg name src dst "")))) = Ok addr.
Proof.
  intros Hrun Hp. unfold create_work_conn, guard_err. rewrite (proj2 (is_empty_false _) Hrun). simpl. by rewrite Hp.
Qed.

Lemma available_get name pm : is_proxy_available name pm = true → is_Some (get_proxy name pm).
Proof. unfold is_proxy_available, get_proxy. by destruct (cpm_proxies pm !! name). Qed.

(** ** Properties *)

(** C3: every waiting user reaches the local service.  A client that is logged in
    and whose token the server knows has its proxies available; any number of
    users wait for work connections, some of them announced already.  Then the
    control loop announces the rest to the client in order, the client's message
    loop opens one work connection for each announcement, and as the work
    connections arrive (with the client's signature of its run id) every user
    gets one of its own, in the order of the requests; told to start for the
    user's proxy, the client hands it to the proxy of exactly that name.  The
    server owes nothing any more. *)
Theorem users_reach_local_services a env cenv now bound self transport k pending reqs conns (h : Hub R) :
  (∀ m, env_send env transport m = Ok tt) →
  owes self pending reqs h → waiting (pending ++ reqs) h →
  hub_controls h !! k_run_id k = Some self → trim (k_run_id k) ≠ "" →
  ac_token (cc_auth (k_config k)) ∈ known_tokens a → cpm_reachable (k_pm k) →
  Forall (fun r => is_proxy_available (wr_proxy_name r) (k_pm k) = true) (pending ++ reqs) →
  length conns = length (pending ++ reqs) →
  let auth := token_authenticator a in
  ∃ h1 h2 k1,
    serve_requests auth env self transport (length reqs) h = (h1, Ok tt) ∧
    hub_wire h1 = hub_wire h ++ (req_msg transport <$> reqs) ∧
    client_receives cenv now bound ((req_msg transport <$> reqs).*2) k = (k1, Ok tt) ∧
    k_spawned k1 = k_spawned k ++ replicate (length reqs) (k_run_id k) ∧
    work_conns_arrive auth (new_work_conn_msg (k_config k) (k_run_id k)) conns h1 = (h2, Ok tt) ∧
    owes self [] [] h2 ∧
    ∀ i req conn, (pending ++ reqs) !! i = Some req → conns !! i = Some conn →
      (∀ timeout closed, await_reply (wr_reply_tx req) timeout closed h2 = (h2, Ok conn)) ∧
      ∃ addr p, cpm_heap (k_pm k1) !! addr = Some p ∧ cp_name p = wr_proxy_name req ∧
        ∀ src dst, create_work_conn (k_config k) (k_run_id k) (k_pm k1) (Ok tt) (fun _ => Ok tt)
          (Ok (Some (StartWorkConn (mkStartWorkConnMsg (wr_proxy_name req) src dst "")))) = Ok addr.
Proof.
  intros Hsend Ho Hw Hself Hrun Htok Hpm Hav Hlen auth.
  destruct (serve_all auth env self transport pending reqs h Hsend Ho) as (h1 & E1 & O1 & R1 & W1 & S1 & _).
  apply Forall_app in Hav as Hav'. destruct Hav' as [_ Hav'].
  destruct (client_receives_reqs cenv now bound (wr_proxy_name <$> reqs) k Hrun) as (k1 & Ek & Sk & Pk & _).
  { by apply Forall_fmap. }
  destruct (arrive_all a (new_work_conn_msg (k_config k) (k_run_id k)) conns self (pending ++ reqs) h1)
    as (h2 & E2 & O2 & _ & _ & _ & F2); try done.
  { apply verify_new_work_conn_Ok. eauto. }
  { by rewrite S1. }
  { destruct Hw as [Hn Hw]. split; [done|]. by rewrite R1. }
  exists h1, h2, k1. split_and!; try done.
  - rewrite <- Ek. f_equal. by rewrite <- !list_fmap_compose.
  - by rewrite Sk, length_fmap.
  - intros i req conn Hreq Hconn. split.
    + intros timeout closed. unfold await_reply. by rewrite (Forall2_lookup_lr _ _ _ _ _ _ F2 Hreq Hconn).
    + pose proof (Forall_lookup_1 _ _ _ _ Hav Hreq) as Hreq'. apply available_get in Hreq' as [addr Haddr].
      destruct (cpm_named _ (cpm_reachable_ok _ Hpm) _ _ Haddr) as (p & Hp & Hname).
      exists addr, p. rewrite Pk. split_and!; [done..|]. intros src dst. by apply work_conn_served.
Qed.
End EndToEnd.

(** ** Witnesses *)

(** A client with the proxy [ssh] has just logged in; two users come. *)
Module ToyEndToEnd.
Import ToyClientControl.
#[local] Existing Instance ToyProxyManager.lower.

Definition logged_in : Hub ResourceController :=
  (server_login ToyClientServer.a ToyClientServer.senv "run-1" 5 "1.2.3.4:1"
     (login_msg ToyClientServer.sys 1000 (k_config k0)) ToyClientServer.h0).1.
Definition ask (tx : Z) : st (Hub ResourceController) Error.t unit :=
  _ ← st_modify (fun h => set_replies (<[tx := Waiting]> (hub_replies h)) h);
  request_send 0 (mkWorkConnRequest "ssh" tx) Error.ConnectionClosed.
Definition h : Hub ResourceController := ((_ ← ask 1; ask 2) logged_in).1.
Definition k : CControl := k_set_run_id "run-1" (k_set_pm ToyClient.m1 k0).
Definition reqs : list WorkConnRequest := [mkWorkConnRequest "ssh" 1; mkWorkConnRequest "ssh" 2].

Lemma users_reach_local_services_witness :
  ∃ h1 h2,
    serve_requests (token_authenticator ToyClientServer.a) ToyClientServer.senv 0 5 2 h = (h1, Ok tt) ∧
    work_conns_arrive (token_authenticator ToyClientServer.a) (new_work_conn_msg (k_config k) "run-1") [70; 71] h1
      = (h2, Ok tt) ∧
    hub_replies h2 !! 2 = Some (Delivered 71).
Proof.
  destruct (users_reach_local_services ToyClientServer.a ToyClientServer.senv env 0 (Ok ""%string) 0 5 k [] reqs
    [70; 71] h) as (h1 & h2 & k1 & E1 & _ & _ & _ & E2 & _ & Hi).
  - reflexivity.
  - eexists. split; [vm_compute; reflexivity|]. split_and!; reflexivity.
  - split; [|repeat constructor; vm_compute; reflexivity].
    apply (bool_decide_unpack (NoDup (wr_reply_tx <$> [] ++ reqs))). vm_compute. exact I.
  - vm_compute. reflexivity.
  - discriminate.
  - right. left.
  - exact ToyClient.m1_reachable.
  - repeat constructor; vm_compute; reflexivity.
  - reflexivity.
  - exists h1, h2. split; [exact E1|]. split; [exact E2|].
    destruct (Hi 1%nat (mkWorkConnRequest "ssh" 2) 71 eq_refl eq_refl) as [Hr _].
    specialize (Hr Error.ConnectionClosed Error.ConnectionClosed). unfold await_reply in Hr. simpl in Hr.
    destruct (hub_replies h2 !! 2) as [[]|]; congruence.
Defined.
End ToyEndToEnd.
