(* ===== verification/ClientService.v ===== *)
(** * The client's service (crates/arp-client/src/service.rs)

    The loop that connects, runs a control and reconnects.  What an attempt
    gives is an argument: connecting, and the result of [Control::run] (which
    ClientControl models).  The tasks the loop leaves behind, an admin server
    and a SIGHUP listener per control, are kept in the state. *)
From S2P Require Import Prelude RustString Errors Config.
Local Open Scope Z_scope.

(** Controls are numbered in the order of their creation. *)
Record ServiceState := mkServiceState {
  ss_retry_count : Z;
  ss_next : Z;
  ss_admin : option Z;                       (* the control the admin API acts on *)
  ss_sighup : list Z;                        (* the controls a SIGHUP reloads *)
  ss_slept : list Z;                         (* the pauses, in seconds *)
}.

Definition service_start : ServiceState := mkServiceState 0 0 None [] [].

Definition max_backoff_secs : Z := 30.
Definition backoff (retry_count : Z) : Z :=
  Z.min max_backoff_secs (Z.shiftl 1 (Z.min retry_count 5)).

(** The pause before the next attempt; [retry_count] is a [u32]. *)
Definition pause (s : ServiceState) : ServiceState :=
  let retry_count := wrap 32 (ss_retry_count s + 1) in
  mkServiceState retry_count (ss_next s) (ss_admin s) (ss_sighup s) (ss_slept s ++ [backoff retry_count]).

Definition reset_retries (s : ServiceState) : ServiceState :=
  mkServiceState 0 (ss_next s) (ss_admin s) (ss_sighup s) (ss_slept s).

(** [start_admin_server] for the control [c]: its task binds the port and serves
    it for ever; while an earlier server has the port, binding fails and the
    task ends. *)
Definition start_admin (config : ClientConfig) (c : Z) (s : ServiceState) : ServiceState :=
  if 0 <? cc_admin_port config then
    mkServiceState (ss_retry_count s) (ss_next s)
      (match ss_admin s with Some c0 => Some c0 | None => Some c end) (ss_sighup s) (ss_slept s)
  else s.

Definition start_sighup (c : Z) (s : ServiceState) : ServiceState :=
  mkServiceState (ss_retry_count s) (ss_next s) (ss_admin s) (ss_sighup s ++ [c]) (ss_slept s).

Definition next_control (s : ServiceState) : ServiceState :=
  mkServiceState (ss_retry_count s) (ss_next s + 1) (ss_admin s) (ss_sighup s) (ss_slept s).

(** An attempt: what [Control::new] gives and, if it connects, what [run]
    gives. *)
Record Attempt := mkAttempt { at_connect : Result unit; at_run : Result unit }.

(** One round of the loop: the new state, and the result if [run] returns. *)
Definition service_round (config : ClientConfig) (a : Attempt) (s : ServiceState)
  : ServiceState * option (Result unit) :=
  match at_connect a with
  | Err e => if is_retriable e then (pause s, None) else (s, Some (Err e))
  | Ok _ =>
      let control := ss_next s in
      let s := start_sighup control (start_admin config control (reset_retries (next_control s))) in
      match at_run a with
      | Ok _ => (s, Some (Ok tt))
      | Err e => if is_retriable e then (pause s, None) else (s, Some (Err e))
      end
  end.

(** [Service::run] over a sequence of attempts; [None] when it goes on. *)
Fixpoint service_run (config : ClientConfig) (attempts : list Attempt) (s : ServiceState)
  : ServiceState * option (Result unit) :=
  match attempts with
  | [] => (s, None)
  | a :: attempts' =>
      match service_round config a s with
      | (s', None) => service_run config attempts' s'
      | (s', Some r) => (s', Some r)
      end
  end.

(** ** Reconnecting *)

(** What an attempt comes to: the error that ended it, if one did. *)
Definition outcome (a : Attempt) : Result unit :=
  match at_connect a with Err e => Err e | Ok _ => at_run a end.
Definition retried (a : Attempt) : bool :=
  match outcome a with Err e => is_retriable e | Ok _ => false end.

(** The number of attempts in a row, up to this one, without a connection; an
    attempt that connected and was lost counts as the first. *)
Definition in_a_row (n : Z) (a : Attempt) : Z :=
  match at_connect a with Err _ => n + 1 | Ok _ => 1 end.
Fixpoint rows (n : Z) (attempts : list Attempt) : list Z :=
  match attempts with
  | [] => []
  | a :: attempts' => in_a_row n a :: rows (in_a_row n a) attempts'
  end.

Lemma backoff_closed n : 1 ≤ n → backoff n = Z.min 30 (2 ^ n).
Proof.
  intros Hn. unfold backoff, max_backoff_secs. rewrite Z.shiftl_mul_pow2, Z.mul_1_l by lia.
  destruct (Z.le_gt_cases n 5) as [H5|H5]; [by rewrite (Z.min_l n 5) by lia|].
  rewrite (Z.min_r n 5) by lia. assert (2 ^ 5 ≤ 2 ^ n) by (apply Z.pow_le_mono_r; lia). lia.
Qed.

Lemma rows_pos n attempts : 0 ≤ n → Forall (fun m => 1 ≤ m) (rows n attempts).
Proof.
  revert n. induction attempts as [|a attempts IH]; intros n Hn; [constructor|]. simpl.
  assert (1 ≤ in_a_row n a) by (unfold in_a_row; destruct (at_connect a); lia).
  constructor; [done|]. apply IH. lia.
Qed.

(** One round that is retried. *)
Lemma service_round_retried config a s :
  retried a = true → 0 ≤ ss_retry_count s < 2 ^ 32 - 1 →
  ∃ s', service_round config a s = (s', None) ∧
    ss_retry_count s' = in_a_row (ss_retry_count s) a ∧
    ss_slept s' = ss_slept s ++ [backoff (in_a_row (ss_retry_count s) a)].
Proof.
  unfold retried, outcome, service_round, in_a_row, pause. intros Hr Hs.
  destruct (at_connect a) as [[]|e]; [destruct (at_run a) as [|e]; [done|]|]; rewrite Hr.
  - eexists. split; [done|]. unfold start_admin. by destruct (0 <? cc_admin_port config).
  - eexists. split; [done|]. simpl. by rewrite wrap_small by (unfold in_u; lia).
Qed.

Lemma service_run_retried config attempts s :
  forallb retried attempts = true → 0 ≤ ss_retry_count s → ss_retry_count s + Z.of_nat (length attempts) < 2 ^ 32 →
  ∃ s', service_run config attempts s = (s', None) ∧
    ss_slept s' = ss_slept s ++ (backoff <$> rows (ss_retry_count s) attempts).
Proof.
  revert s. induction attempts as [|a attempts IH]; intros s Hr H0 Hlen; simpl in *.
  { exists s. by rewrite app_nil_r. }
  apply andb_true_iff in Hr as [Ha Hr].
  destruct (service_round_retried config a s Ha) as (s1 & E1 & Hc1 & Hs1); [lia|]. rewrite E1.
  assert (0 ≤ in_a_row (ss_retry_count s) a ≤ ss_retry_count s + 1) as Hb
    by (unfold in_a_row; destruct (at_connect a); lia).
  destruct (IH s1 Hr) as (s' & E & Hs); [lia..|]. exists s'. split; [done|]. by rewrite Hs, Hs1, Hc1, <- app_assoc.
Qed.

(** C27: the client keeps reconnecting.  As long as every attempt ends with an
    error of the connection (not of the configuration, the credentials or the
    protocol), the service goes on, for fewer than 2^32 attempts; before the
    next attempt it pauses min(30, 2^n) seconds, where [n] counts the attempts
    since the last one that connected, itself counting as the first.  So every
    pause is between 2 and 30 seconds. *)
Theorem reconnects_with_backoff config attempts :
  forallb retried attempts = true → Z.of_nat (length attempts) < 2 ^ 32 →
  let '(s, r) := service_run config attempts service_start in
  r = None ∧ ss_slept s = (fun n => Z.min 30 (2 ^ n)) <$> rows 0 attempts ∧
  Forall (fun secs => 2 ≤ secs ≤ 30) (ss_slept s).
Proof.
  intros Hr Hlen. destruct (service_run_retried config attempts service_start Hr) as (s & E & Hs); [done..|].
  rewrite E. simpl in Hs. assert (ss_slept s = (fun n => Z.min 30 (2 ^ n)) <$> rows 0 attempts) as Hc.
  { rewrite Hs. apply list_fmap_ext. intros i n Hn. apply backoff_closed.
    pose proof (rows_pos 0 attempts ltac:(lia)) as Hp. rewrite Forall_lookup in Hp. by eapply Hp. }
  split_and!; [done|done|]. rewrite Hc. apply Forall_fmap. eapply Forall_impl; [by apply rows_pos|].
  intros n Hn. cbv beta delta [compose]. pose proof (Z.pow_le_mono_r 2 1 n ltac:(lia) Hn) as Hpow. change (2 ^ 1) with 2 in Hpow. lia.
Qed.

(** ** What is left behind *)

Lemma service_round_admin config a s s' r :
  service_round config a s = (s', r) →
  (∀ c, ss_admin s = Some c → ss_admin s' = Some c) ∧ ss_next s ≤ ss_next s'.
Proof.
  unfold service_round, start_admin, pause. intros E. repeat case_match; simplify_eq/=; split; intros; simpl in *; try done; try lia;
    simplify_eq/=; try congruence.
Qed.

Lemma service_run_admin config attempts s c :
  ss_admin s = Some c → ss_admin (service_run config attempts s).1 = Some c.
Proof.
  revert s. induction attempts as [|a attempts IH]; intros s Hc; [done|]. simpl.
  destruct (service_round config a s) as [s1 [r|]] eqn:E; apply service_round_admin in E as [Hadm _]; simpl; eauto.
Qed.

(** There is a SIGHUP listener for every control that was ever made. *)
Lemma service_run_sighup config attempts s :
  0 ≤ ss_next s → ss_sighup s = seqZ 0 (ss_next s) →
  let s' := (service_run config attempts s).1 in ss_sighup s' = seqZ 0 (ss_next s').
Proof.
  revert s. induction attempts as [|a attempts IH]; intros s Hn Hs; [done|]. simpl.
  destruct (service_round config a s) as [s1 r] eqn:E.
  assert (ss_sighup s1 = seqZ 0 (ss_next s1) ∧ 0 ≤ ss_next s1) as [Hq1 Hq2].
  { revert E. unfold service_round, start_admin, pause.
    repeat case_match; intros [= <- <-]; simpl; try done; rewrite Hs, seqZ_app, ?Z.add_0_l by lia; (split; [done|lia]). }
  destruct r; [done|]. by apply IH.
Qed.

(** After a reconnect the admin API acts on a control that is gone.  With an
    admin port configured, the API acts on the first control that connected for
    as long as the client runs, and a SIGHUP reloads every control there ever
    was, whatever reconnects follow. *)
Theorem admin_keeps_first_control config attempts rest a :
  0 < cc_admin_port config → Forall (fun a => is_ok (at_connect a) = false) attempts →
  forallb retried attempts = true → Z.of_nat (length attempts) < 2 ^ 32 → at_connect a = Ok tt →
  let s := (service_run config (attempts ++ a :: rest) service_start).1 in
  ss_admin s = Some 0 ∧ ss_sighup s = seqZ 0 (ss_next s).
Proof.
  intros Hport Hf Hr Hlen Ha. split; [|by apply service_run_sighup].
  assert (∀ s, 0 ≤ ss_retry_count s → ss_retry_count s + Z.of_nat (length attempts) < 2 ^ 32 →
    ss_next s = 0 → ss_admin s = None →
    ss_admin (service_run config (attempts ++ a :: rest) s).1 = Some 0) as Hgen; [|by apply Hgen].
  clear Hlen. induction attempts as [|b attempts IH]; intros s H0 Hlen Hn Hadm.
  - simpl. destruct (service_round config a s) as [s1 r] eqn:E.
    assert (ss_admin s1 = Some 0) as H1.
    { revert E. unfold service_round, start_admin. rewrite Ha, (proj2 (Z.ltb_lt _ _) Hport).
      simpl. rewrite Hadm, Hn. repeat case_match; by intros [= <- <-]. }
    destruct r; [done|]. by apply service_run_admin.
  - apply Forall_cons in Hf as [Hb Hf]. simpl in Hr, Hlen. apply andb_true_iff in Hr as [Hrb Hr].
    destruct (service_round_retried config b s Hrb) as (s1 & E1 & Hc1 & _); [lia|]. simpl. rewrite E1.
    unfold in_a_row in Hc1. unfold service_round in E1. destruct (at_connect b) as [|e]; [done|].
    destruct (is_retriable e); [|done]. injection E1 as <-. simpl in Hlen, Hc1. apply IH; simpl; try done; lia.
Qed.

(** ** Witnesses *)

Module ToyService.
Definition config : ClientConfig :=
  mkClientConfig "example.org" 7000 "" "" "" 0 AuthConfig_default TransportConfig_default "" 7400 "" "" [] [].
Definition refused : Attempt := mkAttempt (Err (Error.Transport "refused")) (Ok tt).
Definition lost : Attempt := mkAttempt (Ok tt) (Err Error.ConnectionClosed).

(** Two refused connects, a session that is lost, a refused connect. *)
Lemma reconnects_with_backoff_witness :
  ss_slept (service_run config [refused; refused; lost; refused] service_start).1 = [2; 4; 2; 4].
Proof.
  pose proof (reconnects_with_backoff config [refused; refused; lost; refused] eq_refl ltac:(vm_compute; reflexivity)) as H.
  destruct (service_run config _ _) as [s r]. destruct H as (_ & H & _). exact H.
Defined.

(** The second control is the one that is up, the API has the first. *)
Lemma admin_keeps_first_control_witness :
  ss_admin (service_run config ([refused] ++ lost :: [lost]) service_start).1 = Some 0 ∧
  ss_next (service_run config ([refused] ++ lost :: [lost]) service_start).1 = 2.
Proof.
  split; [|reflexivity].
  apply (admin_keeps_first_control config [refused] [lost] lost); try reflexivity. constructor; [done|constructor].
Defined.
End ToyService.
