(* ===== verification/Base64.v ===== *)
(** * Base64 (crates/arp-client/src/{cli,admin}/mod.rs)

    The encoder of the command line client and the decoder of the admin API,
    both written by hand, with the shifts and masks of the source, and that
    they fit together. *)
From S2P Require Import Prelude RustString.
Local Open Scope Z_scope.

Definition TABLE : bytes := to_bytes "ABCDEFGHIJKLMNOPQRSTUVWXYZabcdefghijklmnopqrstuvwxyz0123456789+/".

(** [TABLE[(x & 0x3F) as usize]]. *)
Definition table_at (x : Z) : byte := nth (Z.to_nat (Z.land x 63)) TABLE x00.

(** One turn of the encoder's loop; a missing byte counts as 0. *)
Definition triple (b0 b1 b2 : Z) : Z := Z.lor (Z.lor (Z.shiftl b0 16) (Z.shiftl b1 8)) b2.
Definition encode_group (b0 : byte) (b1 b2 : option byte) : bytes :=
  let val o := match o with Some b => bval b | None => 0 end in
  let t := triple (bval b0) (val b1) (val b2) in
  [table_at (Z.shiftr t 18); table_at (Z.shiftr t 12);
   match b1 with Some _ => table_at (Z.shiftr t 6) | None => "="%byte end;
   match b2 with Some _ => table_at t | None => "="%byte end].

Fixpoint base64_encode (input : bytes) : bytes :=
  match input with
  | [] => []
  | [b0] => encode_group b0 None None
  | [b0; b1] => encode_group b0 (Some b1) None
  | b0 :: b1 :: b2 :: rest => encode_group b0 (Some b1) (Some b2) ++ base64_encode rest
  end.

(** [TABLE.iter().position(|&c| c == b)]. *)
Fixpoint position_from (i : Z) (l : bytes) (b : byte) : option Z :=
  match l with
  | [] => None
  | c :: l' => if bool_decide (c = b) then Some i else position_from (i + 1) l' b
  end.
Definition position (b : byte) : option Z := position_from 0 TABLE b.

(** The decoder's state: [buf] and [bits] are [u32]s. *)
Record Decoder := mkDecoder { d_output : bytes; d_buf : Z; d_bits : Z }.

Definition decode_val (val : Z) (d : Decoder) : Decoder :=
  let buf := Z.lor (wrap 32 (Z.shiftl (d_buf d) 6)) val in
  let bits := d_bits d + 6 in
  if 8 <=? bits then
    let bits := bits - 8 in
    mkDecoder (d_output d ++ [byte_of (Z.shiftr buf bits)]) (Z.land buf (Z.shiftl 1 bits - 1)) bits
  else mkDecoder (d_output d) buf bits.

Fixpoint decode_loop (input : bytes) (d : Decoder) : bytes :=
  match input with
  | [] => d_output d
  | b :: rest =>
      if bool_decide (b = "="%byte) then d_output d
      else match position b with
           | Some val => decode_loop rest (decode_val val d)
           | None => decode_loop rest d
           end
  end.

Definition base64_decode (input : bytes) : bytes := decode_loop input (mkDecoder [] 0 0).

(** ** The table *)

Lemma table_position v : 0 ≤ v < 64 → position (nth (Z.to_nat v) TABLE x00) = Some v ∧ nth (Z.to_nat v) TABLE x00 ≠ "="%byte.
Proof.
  intros Hv. assert (forallb (fun n => bool_decide (position (nth n TABLE x00) = Some (Z.of_nat n) ∧ nth n TABLE x00 ≠ "="%byte))
    (seq 0 64) = true) as Hall by (vm_compute; reflexivity).
  rewrite forallb_True in Hall. specialize (Hall (Z.to_nat v)).
  rewrite elem_of_seq, bool_decide_eq_true, Z2Nat.id in Hall by lia. apply Hall. lia.
Qed.

Lemma land_63 x : Z.land x 63 = x mod 64.
Proof. change 63 with (Z.ones 6). by rewrite Z.land_ones. Qed.

(** The decoder sees the six bits the encoder took. *)
Lemma decode_table x rest d :
  decode_loop (table_at x :: rest) d = decode_loop rest (decode_val (x mod 64) d).
Proof.
  unfold table_at. rewrite land_63. pose proof (Z.mod_pos_bound x 64 ltac:(lia)) as Hx.
  destruct (table_position (x mod 64) Hx) as [Hp He]. cbn [decode_loop].
  by rewrite bool_decide_false, Hp.
Qed.

(** ** A group *)

Lemma triple_sum b0 b1 b2 :
  0 ≤ b0 < 256 → 0 ≤ b1 < 256 → 0 ≤ b2 < 256 → triple b0 b1 b2 = b0 * 65536 + b1 * 256 + b2.
Proof.
  intros H0 H1 H2. unfold triple.
  assert (Z.lor (Z.shiftl b0 16) (Z.shiftl b1 8) = Z.shiftl (b0 * 256 + b1) 8) as ->.
  { rewrite lor_shiftl; rewrite ?Z.shiftl_mul_pow2 by lia; lia. }
  rewrite lor_shiftl; lia.
Qed.

(** One value, by division. *)
Lemma decode_val_arith out buf bits val :
  0 ≤ bits < 8 → 0 ≤ buf < 2 ^ bits → 0 ≤ val < 64 →
  decode_val val (mkDecoder out buf bits) =
  let b := buf * 64 + val in
  if 8 <=? bits + 6 then
    mkDecoder (out ++ [byte_of (b / 2 ^ (bits - 2))]) (b mod 2 ^ (bits - 2)) (bits - 2)
  else mkDecoder out b (bits + 6).
Proof.
  intros Hb Hbuf Hv. unfold decode_val. cbn [d_output d_buf d_bits]. cbv zeta.
  assert (2 ^ bits ≤ 2 ^ 7) as Hp by (apply Z.pow_le_mono_r; lia). change (2 ^ 7) with 128 in Hp.
  rewrite wrap_small by (unfold in_u; rewrite Z.shiftl_mul_pow2 by lia; lia).
  rewrite lor_shiftl by lia. change (2 ^ 6) with 64.
  destruct (Z.leb_spec 8 (bits + 6)) as [H8|H8]; [|done].
  replace (bits + 6 - 8) with (bits - 2) by lia.
  rewrite Z.shiftr_div_pow2, Z.shiftl_mul_pow2, Z.mul_1_l by lia.
  replace (2 ^ (bits - 2) - 1) with (Z.ones (bits - 2)) by (rewrite Z.ones_equiv; lia).
  by rewrite Z.land_ones by lia.
Qed.

(** From an empty buffer: the buffer after one to four values. *)
Lemma decode_1 out v0 : 0 ≤ v0 < 64 → decode_val v0 (mkDecoder out 0 0) = mkDecoder out v0 6.
Proof. intros. by rewrite decode_val_arith. Qed.
Lemma decode_2 out v0 v1 :
  0 ≤ v0 < 64 → 0 ≤ v1 < 64 →
  decode_val v1 (mkDecoder out v0 6) = mkDecoder (out ++ [byte_of ((v0 * 64 + v1) / 16)]) ((v0 * 64 + v1) mod 16) 4.
Proof. intros. by rewrite decode_val_arith. Qed.
Lemma decode_3 out r v2 :
  0 ≤ r < 16 → 0 ≤ v2 < 64 →
  decode_val v2 (mkDecoder out r 4) = mkDecoder (out ++ [byte_of ((r * 64 + v2) / 4)]) ((r * 64 + v2) mod 4) 2.
Proof. intros. by rewrite decode_val_arith. Qed.
Lemma decode_4 out r v3 :
  0 ≤ r < 4 → 0 ≤ v3 < 64 →
  decode_val v3 (mkDecoder out r 2) = mkDecoder (out ++ [byte_of (r * 64 + v3)]) 0 0.
Proof. intros. rewrite decode_val_arith by (done || lia). simpl. by rewrite Z.div_1_r, Z.mod_1_r. Qed.

Ltac bytes_lia := Z.to_euclidean_division_equations; lia.

(** The values of a group give its bytes back. *)
Lemma decode_group b0 b1 b2 rest out :
  decode_loop (encode_group b0 (Some b1) (Some b2) ++ rest) (mkDecoder out 0 0) =
  decode_loop rest (mkDecoder (out ++ [b0; b1; b2]) 0 0).
Proof.
  pose proof (bval_range b0) as R0. pose proof (bval_range b1) as R1. pose proof (bval_range b2) as R2.
  unfold encode_group. cbn [app]. rewrite triple_sum by done. set (t := _ + _ + _).
  rewrite !decode_table, !Z.shiftr_div_pow2 by lia.
  change (2 ^ 18) with 262144. change (2 ^ 12) with 4096. change (2 ^ 6) with 64.
  assert (∀ x, 0 ≤ x mod 64 < 64) as Hm by (intros; apply Z.mod_pos_bound; lia).
  rewrite decode_1, decode_2, decode_3, decode_4 by (done || (apply Z.mod_pos_bound; lia)). f_equal.
  rewrite <- !app_assoc. cbn [app].
  rewrite <- (byte_of_bval b0), <- (byte_of_bval b1), <- (byte_of_bval b2) at 1. clear Hm.
  subst t. f_equal. apply (f_equal (app out)).
  apply (f_equal2 cons); [|apply (f_equal2 cons); [|apply (f_equal2 cons); [|done]]]; apply (f_equal byte_of); bytes_lia.
Qed.

(** A last group that is not full: the padding ends the loop. *)
Lemma decode_last_1 b0 out :
  decode_loop (encode_group b0 None None) (mkDecoder out 0 0) = out ++ [b0].
Proof.
  pose proof (bval_range b0) as R0. unfold encode_group. rewrite triple_sum by lia. set (t := _ + _ + _).
  rewrite !decode_table, !Z.shiftr_div_pow2 by lia. change (2 ^ 18) with 262144. change (2 ^ 12) with 4096.
  rewrite decode_1, decode_2 by (apply Z.mod_pos_bound; lia). simpl. rewrite <- (byte_of_bval b0) at 1. subst t.
  apply (f_equal (app out)), (f_equal (fun b => [b])), (f_equal byte_of). bytes_lia.
Qed.
Lemma decode_last_2 b0 b1 out :
  decode_loop (encode_group b0 (Some b1) None) (mkDecoder out 0 0) = out ++ [b0; b1].
Proof.
  pose proof (bval_range b0) as R0. pose proof (bval_range b1) as R1.
  unfold encode_group. rewrite triple_sum by lia. set (t := _ + _ + _).
  rewrite !decode_table, !Z.shiftr_div_pow2 by lia.
  change (2 ^ 18) with 262144. change (2 ^ 12) with 4096. change (2 ^ 6) with 64.
  rewrite decode_1, decode_2, decode_3 by (apply Z.mod_pos_bound; lia). simpl. rewrite <- app_assoc. cbn [app].
  rewrite <- (byte_of_bval b0), <- (byte_of_bval b1) at 1. subst t. apply (f_equal (app out)).
  apply (f_equal2 cons); [|apply (f_equal2 cons); [|done]]; apply (f_equal byte_of); bytes_lia.
Qed.

(** Induction by groups of three. *)
Lemma group_ind (P : bytes → Prop) :
  P [] → (∀ b0, P [b0]) → (∀ b0 b1, P [b0; b1]) → (∀ b0 b1 b2 l, P l → P (b0 :: b1 :: b2 :: l)) → ∀ l, P l.
Proof.
  intros H0 H1 H2 H3. fix IH 1. intros [|b0 [|b1 [|b2 l]]]; [done|apply H1|apply H2|]. apply H3, IH.
Qed.

Lemma decode_encode input out : decode_loop (base64_encode input) (mkDecoder out 0 0) = out ++ input.
Proof.
  revert out. induction input as [|b0|b0 b1|b0 b1 b2 l IH] using group_ind; intros out.
  - by rewrite app_nil_r.
  - apply decode_last_1.
  - apply decode_last_2.
  - cbn [base64_encode]. by rewrite decode_group, IH, <- app_assoc.
Qed.

(** The encoding is in the table's alphabet and the padding, four bytes for
    every three. *)
Definition b64_char (b : byte) : Prop := b ∈ TABLE ∨ b = "="%byte.

Lemma table_at_char x : b64_char (table_at x).
Proof.
  left. unfold table_at. rewrite land_63. pose proof (Z.mod_pos_bound x 64 ltac:(lia)).
  apply list_elem_of_In, nth_In. change (length TABLE) with 64%nat. lia.
Qed.

Lemma encode_chars input : Forall b64_char (base64_encode input).
Proof.
  assert (b64_char "="%byte) as Heq by by right.
  induction input as [|b0|b0 b1|b0 b1 b2 l IH] using group_ind; [constructor|..];
    cbn [base64_encode encode_group]; repeat (constructor; [done || apply table_at_char|]); done.
Qed.

Lemma length_encode input : Z.of_nat (length (base64_encode input)) = 4 * ((Z.of_nat (length input) + 2) / 3).
Proof.
  induction input as [|b0|b0 b1|b0 b1 b2 l IH] using group_ind; [done..|].
  cbn [base64_encode]. rewrite length_app. cbn [length encode_group].
  replace (Z.of_nat (S (S (S (length l)))) + 2) with (Z.of_nat (length l) + 2 + 1 * 3) by lia.
  rewrite Z.div_add by lia. lia.
Qed.

(** C39: the decoder of the admin API inverts the encoder of the command line
    client on every input; the encoding has four characters for every three
    bytes, the last group padded, all of the standard alphabet or the padding. *)
Theorem base64_roundtrip input :
  base64_decode (base64_encode input) = input ∧
  Forall b64_char (base64_encode input) ∧
  Z.of_nat (length (base64_encode input)) = 4 * ((Z.of_nat (length input) + 2) / 3).
Proof. split_and!; [apply (decode_encode input [])|apply encode_chars|apply length_encode]. Qed.

Example base64_ex : of_bytes (base64_encode (to_bytes "user:pw")) = "dXNlcjpwdw=="%string.
Proof. reflexivity. Qed.
