(* ===== verification/ClientAdmin.v ===== *)
(** * The client's admin API and the command line client for it
    (crates/arp-client/src/{admin,cli}/mod.rs)

    Basic authentication, the handlers over the client's control, the path of a
    reload, and the HTTP request of the command line client.  A request comes as
    the [Route] that the router of ClientCli gives; the exchanges with the control
    loop are arguments, as in ClientControl. *)
From S2P Require Import Prelude RustString NetAddr Errors Protocol Config Crypto ProxyManager UdpTunnel ClientProxies ClientTransport ClientControl ClientChannels ClientSession Base64.
Local Open Scope Z_scope.

(** ** Authentication *)

(** [HeaderValue::to_str]: visible ASCII only. *)
Definition visible_ascii (b : byte) : bool := (32 <=? bval b) && (bval b <? 127) || (bval b =? 9).
Definition to_str (value : bytes) : option string :=
  if forallb visible_ascii value then Some (of_bytes value) else None.

(** [auth] is the value of the header [Authorization]. *)
Definition check_basic_auth (auth : option bytes) (expected_user expected_pwd : string) : bool :=
  match auth with
  | None => false
  | Some auth =>
      match to_str auth with
      | None => false
      | Some auth_str =>
          match strip_prefix auth_str "Basic " with
          | None => false
          | Some encoded =>
              match from_utf8 (base64_decode (to_bytes encoded)) with
              | None => false
              | Some credentials =>
                  match split_once ":"%byte credentials with
                  | None => false
                  | Some (user, pwd) => bool_decide (user = expected_user) && bool_decide (pwd = expected_pwd)
                  end
              end
          end
      end
  end.

Definition need_auth (config : ClientConfig) : bool :=
  negb (is_empty (cc_admin_user config)) && negb (is_empty (cc_admin_pwd config)).

(** ** The handlers *)

Inductive Body :=
| StatusResp (status server_addr : string) (server_port : Z) (run_id : string) (proxies : list string)
| ProxiesResp (total : Z) (items : list string)
| ProxyDetailResp (name : string) (available : bool)
| ActionResp (ok : bool) (message : string) (remote_addr : option string)
| Text (s : string).
Record Response := mkResponse { rs_status : Z; rs_body : Body }.

Inductive Route :=
| GetStatus | GetProxies | PostProxy (p : ProxyConfig) | GetProxy (name : string) | DeleteProxy (name : string)
| PostReload.

Section Admin.
Context `{JsonMake} `{Primitives} `{DashIter}.
Abbreviation CM A := (st CControl Error.t A).

Definition api_status (config : ClientConfig) : CM Response := fun k =>
  let run_id := k_run_id k in
  (k, Ok (mkResponse 200 (StatusResp (if is_empty run_id then "connecting"%string else "connected"%string)
            (cc_server_addr config) (cc_server_port config) run_id (list_proxy_names (k_pm k))))).

Definition api_proxies : CM Response := fun k =>
  let items := list_proxy_names (k_pm k) in
  (k, Ok (mkResponse 200 (ProxiesResp (Z.of_nat (length items)) items))).

Definition api_proxy_detail (name : string) : CM Response := fun k =>
  (k, Ok (match get_proxy name (k_pm k) ≫= fun a => cpm_heap (k_pm k) !! a with
          | Some proxy => mkResponse 200 (ProxyDetailResp (cp_name proxy) (is_available proxy))
          | None => mkResponse 404 (ActionResp false ("proxy " +:+ name +:+ " not found") None)
          end)).

(** The exchanges of the control, and the arguments of the process. *)
Context (register : ProxyConfig → CM string) (close : string → CM unit)
        (reload : string → CM (Z * Z)) (args : list string).

Definition api_add_proxy (p : ProxyConfig) : CM Response :=
  match proxy_validate p with
  | Err e => mret (mkResponse 400 (ActionResp false ("invalid proxy config: " +:+ error_to_string e) None))
  | Ok _ =>
      r ← attempt (register p);
      mret (match r with
            | Ok remote_addr => mkResponse 200 (ActionResp true "proxy registered" (Some remote_addr))
            | Err e => mkResponse 500 (ActionResp false (error_to_string e) None)
            end)
  end.

Definition api_delete_proxy (name : string) : CM Response :=
  r ← attempt (close name);
  mret (mkResponse 200 (match r with
                        | Ok _ => ActionResp true ("proxy " +:+ name +:+ " closed") None
                        | Err e => ActionResp false (error_to_string e) None
                        end)).

(** The file a reload reads: the second argument, whatever it is; else what
    follows the first [-c] or [--config]; else [client.toml]. *)
Fixpoint flag_value (args : list string) : option string :=
  match args with
  | [] => None
  | a :: rest =>
      if bool_decide (a = "-c"%string) || bool_decide (a = "--config"%string) then head rest
      else flag_value rest
  end.
Definition reload_path : string :=
  match args !! 2%nat with
  | Some path => path
  | None => match flag_value args with Some path => path | None => "client.toml"%string end
  end.

Definition api_reload : CM Response :=
  r ← attempt (reload reload_path);
  mret (mkResponse 200 (match r with
    | Ok (added, removed) => ActionResp true
        ("reload complete: " +:+ pretty added +:+ " added, " +:+ pretty removed +:+ " removed") None
    | Err e => ActionResp false ("reload failed: " +:+ error_to_string e) None
    end)).

(** A request to the server of [start_admin_server]. *)
Definition serve_admin (config : ClientConfig) (auth : option bytes) (route : Route) : CM Response :=
  if need_auth config && negb (check_basic_auth auth (cc_admin_user config) (cc_admin_pwd config))
  then mret (mkResponse 401 (Text "Unauthorized"))
  else match route with
       | GetStatus => api_status config
       | GetProxies => api_proxies
       | PostProxy p => api_add_proxy p
       | GetProxy name => api_proxy_detail name
       | DeleteProxy name => api_delete_proxy name
       | PostReload => api_reload
       end.

(** ** The command line client *)

Definition effective_admin_addr (config : ClientConfig) : string :=
  (if is_empty (cc_admin_addr config) then "127.0.0.1"%string else cc_admin_addr config)
  +:+ ":" +:+ pretty (cc_admin_port config).

Definition crlf : string := of_bytes [x0d; x0a].

(** The credentials a configuration gives, as the value of the header. *)
Definition authorization (config : ClientConfig) : option bytes :=
  if negb (is_empty (cc_admin_user config)) && negb (is_empty (cc_admin_pwd config)) then
    Some (to_bytes "Basic " ++ base64_encode (to_bytes (cc_admin_user config +:+ ":" +:+ cc_admin_pwd config)))
  else None.

Definition request_text (config : ClientConfig) (host_port path : string) : string :=
  "GET " +:+ path +:+ " HTTP/1.1" +:+ crlf +:+ "Host: " +:+ host_port +:+ crlf +:+ "Connection: close" +:+ crlf
  +:+ (match authorization config with
       | Some value => "Authorization: " +:+ of_bytes value +:+ crlf
       | None => ""%string
       end) +:+ crlf.

(** [str::find] and [str::contains] for a text. *)
Fixpoint find_bytes (pat l : bytes) : option nat :=
  if bytes_starts_with pat l then Some O
  else match l with [] => None | _ :: l' => S <$> find_bytes pat l' end.

(** The body of a response, or the text of the error. *)
Definition response_body (response : string) : result string string :=
  match find_bytes [x0d; x0a; x0d; x0a] (to_bytes response) with
  | None => Err "invalid HTTP response"%string
  | Some pos =>
      let status_line := default [] (head (bytes_lines [] (to_bytes response))) in
      if bool_decide (is_Some (find_bytes (to_bytes "401") status_line))
      then Err "unauthorized (check admin_user/admin_pwd)"%string
      else Ok (of_bytes (drop (pos + 4) (to_bytes response)))
  end.

(** [connected] and [written] are what connecting to the host and writing the
    request to it give; [read] is what comes back after the request. *)
Definition hyper_util_get (url : string) (config : ClientConfig) (connected : string → result string unit)
    (written : string → string → result string unit) (read : string → string → result string bytes)
  : result string string :=
  url ← ok_or "invalid URL"%string (strip_prefix url "http://");
  let '(host_port, path) := match split_once "/"%byte url with Some x => x | None => (url, ""%string) end in
  match connected host_port with
  | Err e => Err ("connect failed: " +:+ e)
  | Ok _ =>
      let request := request_text config host_port ("/" +:+ path) in
      match written host_port request with
      | Err e => Err ("write failed: " +:+ e)
      | Ok _ => match read host_port request with
                | Err e => Err ("read failed: " +:+ e)
                | Ok response => response_body (from_utf8_lossy response)
                end
      end
  end.

(** The address [arpc check] tries for a proxy of the configuration. *)
Definition local_service_addr (config : ClientConfig) (proxy_name : string) : option (string * SocketAddr) :=
  match List.find (fun p => bool_decide (pc_name p = proxy_name)) (cc_proxies config) with
  | None => None
  | Some proxy =>
      let addr := pc_local_ip proxy +:+ ":" +:+ pretty (pc_local_port proxy) in
      Some (addr, match parse_socket_addr addr with
                  | Some sa => sa
                  | None => SAV4 127 0 0 1 (pc_local_port proxy)
                  end)
  end.

(** ** Properties *)

Lemma strip_prefix_app p s : strip_prefix (p +:+ s) p = Some s.
Proof.
  unfold strip_prefix. rewrite (proj2 (starts_with_iff _ _)) by eauto. rewrite to_bytes_app.
  by rewrite drop_app_exact, of_to_bytes.
Qed.

Lemma strip_prefix_Some s p k : strip_prefix s p = Some k → s = p +:+ k.
Proof.
  unfold strip_prefix. destruct (starts_with s p) eqn:E; [|done]. apply starts_with_iff in E as [k' ->].
  rewrite to_bytes_app, drop_app_exact, of_to_bytes by done. by intros [= ->].
Qed.

(** The credentials as one text. *)
Definition credentials (user pwd : string) : string := user +:+ ":" +:+ pwd.

Lemma split_credentials s user pwd :
  split_once ":"%byte s = Some (user, pwd) ↔ s = credentials user pwd ∧ ":"%byte ∉ to_bytes user.
Proof.
  unfold split_once, credentials. split.
  - destruct (bytes_split_once _ _) as [[x y]|] eqn:E; [|done]. intros [= <- <-].
    apply bytes_split_once_Some in E as [E Hx]. rewrite to_of_bytes. split; [|done].
    rewrite <- (of_to_bytes s), E. rewrite <- (of_to_bytes (_ +:+ _)), !to_bytes_app, !to_of_bytes. done.
  - intros [-> Hx]. rewrite !to_bytes_app. change (to_bytes ":") with [":"%byte]. cbn [app].
    rewrite bytes_split_once_app by done. by rewrite !of_to_bytes.
Qed.

Lemma basic_is_visible : forallb visible_ascii (to_bytes "Basic ") = true.
Proof. reflexivity. Qed.

(** The check, in terms of what the header must be. *)
Lemma check_basic_auth_true auth user pwd :
  utf8_valid (to_bytes (credentials user pwd)) = true →
  check_basic_auth auth user pwd = true ↔
  ∃ encoded, auth = Some (to_bytes "Basic " ++ encoded) ∧ forallb visible_ascii encoded = true ∧
    base64_decode encoded = to_bytes (credentials user pwd) ∧ ":"%byte ∉ to_bytes user.
Proof.
  intros Hu. unfold check_basic_auth, to_str. split.
  - destruct auth as [auth|]; [|done]. destruct (forallb visible_ascii auth) eqn:Hv; [|done].
    destruct (strip_prefix _ _) as [enc|] eqn:Hp; [|done]. apply strip_prefix_Some in Hp.
    assert (auth = to_bytes "Basic " ++ to_bytes enc) as ->.
    { by rewrite <- to_bytes_app, <- Hp, to_of_bytes. }
    destruct (from_utf8 _) as [cred|] eqn:Hf; [|done].
    destruct (split_once _ cred) as [[u p]|] eqn:Hs; [|done].
    intros [->%bool_decide_eq_true ->%bool_decide_eq_true]%andb_true_iff.
    apply split_credentials in Hs as [-> Hx]. exists (to_bytes enc).
    rewrite forallb_app, basic_is_visible in Hv. split_and!; try done.
    unfold from_utf8 in Hf. destruct (utf8_valid (base64_decode _)); [|done].
    injection Hf as Hf. by rewrite <- Hf, to_of_bytes.
  - intros (enc & -> & Hv & Hd & Hx). rewrite forallb_app, basic_is_visible, Hv. cbn [andb].
    assert (of_bytes (to_bytes "Basic " ++ enc) = "Basic " +:+ of_bytes enc) as ->.
    { rewrite <- (of_to_bytes ("Basic " +:+ _)), to_bytes_app. by rewrite to_of_bytes. }
    rewrite strip_prefix_app, to_of_bytes, Hd, from_utf8_to_bytes by done.
    rewrite (proj2 (split_credentials _ user pwd) (conj eq_refl Hx)). by rewrite !bool_decide_true.
Qed.

(** C33: no request without the credentials gets through.  With a user and a
    password configured, a request whose header does not decode to exactly that
    user, a colon and that password is answered 401 and changes nothing; and
    with a colon in the configured user every request is. *)
Theorem admin_requires_credentials config auth route k :
  utf8_valid (to_bytes (credentials (cc_admin_user config) (cc_admin_pwd config))) = true →
  need_auth config = true →
  (∀ encoded, auth = Some (to_bytes "Basic " ++ encoded) →
     base64_decode encoded ≠ to_bytes (credentials (cc_admin_user config) (cc_admin_pwd config))) ∨
  contains ":"%byte (cc_admin_user config) = true →
  serve_admin config auth route k = (k, Ok (mkResponse 401 (Text "Unauthorized"))).
Proof.
  intros Hu Hn Hc. unfold serve_admin. rewrite Hn.
  destruct (check_basic_auth auth _ _) eqn:E; [|done]. exfalso.
  apply check_basic_auth_true in E as (enc & Ha & _ & Hd & Hx); [|done].
  destruct Hc as [Hc|Hc]; [by apply (Hc enc)|]. by apply bytes_contains_iff in Hc.
Qed.

Lemma encode_visible l : forallb visible_ascii (base64_encode l) = true.
Proof.
  apply forallb_True. intros b Hb. pose proof (encode_chars l) as Hc. rewrite Forall_forall in Hc.
  destruct (Hc b Hb) as [Ht| ->]; [|done].
  assert (forallb visible_ascii TABLE = true) as Hall by (vm_compute; reflexivity).
  rewrite forallb_True in Hall. by apply Hall.
Qed.

(** The command line client is let in.  The header it makes from a
    configuration is accepted by an admin API with the same configuration,
    exactly when the configured user has no colon. *)
Theorem cli_authorized config :
  utf8_valid (to_bytes (credentials (cc_admin_user config) (cc_admin_pwd config))) = true →
  need_auth config = true →
  check_basic_auth (authorization config) (cc_admin_user config) (cc_admin_pwd config)
  = negb (contains ":"%byte (cc_admin_user config)).
Proof.
  intros Hu Hn. apply eq_true_iff_eq. rewrite check_basic_auth_true, negb_true_iff by done.
  unfold contains. rewrite bytes_contains_false. unfold authorization. unfold need_auth in Hn. rewrite Hn.
  split; [by intros (? & _ & _ & _ & ?)|]. intros Hx. eexists. split_and!; [done|apply encode_visible| |done].
  apply (decode_encode _ []).
Qed.
(** An invalid proxy never reaches the control. *)
Lemma add_invalid_proxy config auth p e k :
  need_auth config && negb (check_basic_auth auth (cc_admin_user config) (cc_admin_pwd config)) = false →
  proxy_validate p = Err e →
  serve_admin config auth (PostProxy p) k =
  (k, Ok (mkResponse 400 (ActionResp false ("invalid proxy config: " +:+ error_to_string e) None))).
Proof. intros Ha Hv. unfold serve_admin, api_add_proxy. by rewrite Ha, Hv. Qed.

(** The API of a control whose run has ended says that it is connecting. *)
Lemma ended_control_connecting config k :
  ∃ names, (api_status config (run_cleanup k).1).2 =
    Ok (mkResponse 200 (StatusResp "connecting" (cc_server_addr config) (cc_server_port config) "" names)).
Proof. rewrite run_cleanup_eq. by eexists. Qed.

(** Without a password there is no authentication, whatever the user is. *)
Lemma no_password_no_auth config : cc_admin_pwd config = "" → need_auth config = false.
Proof. intros E. unfold need_auth. rewrite E. apply andb_false_r. Qed.
End Admin.

(** The reload of [arpc run -c my.toml], or of [arpc -v -c my.toml], reads a
    file called [-c]. *)
Lemma reload_reads_flag sub path rest :
  reload_path (["arpc"; sub; "-c"; path]%string ++ rest) = "-c"%string.
Proof. done. Qed.

(** ** The API over the control *)

Section Exchange.
Context `{JsonMake} `{Primitives} `{DashIter}.
Context (env : CEnv) (now : Z) (bound : result IoError string) (server : ProxyConfig → NewProxyRespMsg).
Context (reload : string → st CControl Error.t (Z * Z)) (args : list string).

(** The API with the exchanges of ClientSession. *)
Definition serve : ClientConfig → option bytes → Route → st CControl Error.t Response :=
  serve_admin (register_exchange env now bound server) (close_exchange env now) reload args.

(** What the API says of a proxy it was given.  On a control where nothing
    else is going on, with a working connection, an authorised request that adds
    a valid proxy the server takes is answered with its remote address; a query
    for its name then says it is available; a request to delete it succeeds, and
    a query after that says there is no such proxy. *)
Theorem admin_add_get_delete config auth p k :
  need_auth config && negb (check_basic_auth auth (cc_admin_user config) (cc_admin_pwd config)) = false →
  (∀ m, ce_send env m = Ok tt) → quiet k → proxy_validate p = Ok tt → npr_error (server p) = ""%string →
  ∃ k1 k2,
    serve config auth (PostProxy p) k =
      (k1, Ok (mkResponse 200 (ActionResp true "proxy registered" (Some (npr_remote_addr (server p)))))) ∧
    serve config auth (GetProxy (pc_name p)) k1 = (k1, Ok (mkResponse 200 (ProxyDetailResp (pc_name p) true))) ∧
    serve config auth (DeleteProxy (pc_name p)) k1 =
      (k2, Ok (mkResponse 200 (ActionResp true ("proxy " +:+ pc_name p +:+ " closed") None))) ∧
    serve config auth (GetProxy (pc_name p)) k2 =
      (k2, Ok (mkResponse 404 (ActionResp false ("proxy " +:+ pc_name p +:+ " not found") None))).
Proof.
  intros Ha Hs Hq Hv Herr. unfold serve, serve_admin. rewrite Ha. unfold api_add_proxy. rewrite Hv.
  destruct (register_exchange_ok env now bound server Hs p k Hq Herr) as (k1 & E1 & Hq1 & Hc1 & Hp1 & _).
  destruct (close_exchange_spec env now Hs (pc_name p) k1 Hq1) as (k2 & E2 & Hq2 & Hc2 & Hp2 & _).
  exists k1, k2. split_and!.
  - by rewrite (run_bind _ _ _ _ _ (run_attempt _ _ _ _ E1)).
  - unfold api_proxy_detail, get_proxy. rewrite Hp1. unfold cpm_register_proxy. cbn [cpm_proxies cpm_heap].
    change (pc_name p) with (pc_name (effective (k_config k) p)).
    rewrite cp_name_of, lookup_insert_eq. cbn [mbind option_bind]. rewrite lookup_insert_eq, cp_name_of.
    do 4 f_equal. apply (fresh_available now).
  - unfold api_delete_proxy. by rewrite (run_bind _ _ _ _ _ (run_attempt _ _ _ _ E2)).
  - unfold api_proxy_detail, get_proxy. rewrite Hp2. simpl. by rewrite lookup_delete_eq.
Qed.

(** Deleting a name the client does not have is reported as a success. *)
Lemma delete_unknown_ok config auth name k :
  need_auth config && negb (check_basic_auth auth (cc_admin_user config) (cc_admin_pwd config)) = false →
  (∀ m, ce_send env m = Ok tt) → quiet k → get_proxy name (k_pm k) = None →
  ∃ k', serve config auth (DeleteProxy name) k =
    (k', Ok (mkResponse 200 (ActionResp true ("proxy " +:+ name +:+ " closed") None))).
Proof.
  intros Ha Hs Hq _. unfold serve, serve_admin. rewrite Ha. unfold api_delete_proxy.
  destruct (close_exchange_spec env now Hs name k Hq) as (k2 & E2 & _). exists k2.
  by rewrite (run_bind _ _ _ _ _ (run_attempt _ _ _ _ E2)).
Qed.
End Exchange.

(** ** Witnesses *)

Module ToyAdmin.
Import ToyClientControl.
Definition cfg (user : string) : ClientConfig :=
  mkClientConfig "example.org" 7000 "me" "" "" 0 AuthConfig_default transport "" 7400 user "pw" [] [].
Definition reload : string → st CControl Error.t (Z * Z) := fun _ => mret (0, 0).
Definition server (p : ProxyConfig) : NewProxyRespMsg := mkNewProxyRespMsg (pc_name p) ":53" "".

Lemma admin_requires_credentials_witness :
  serve env 0 (Ok ""%string) server reload [] (cfg "root") (Some (to_bytes "Basic cm9vdDpwdwx")) (DeleteProxy "ssh") k0
  = (k0, Ok (mkResponse 401 (Text "Unauthorized"))).
Proof.
  apply (admin_requires_credentials _ _ _ _ (cfg "root")); [reflexivity|reflexivity|].
  left. intros encoded He. injection He as <-. vm_compute. discriminate.
Defined.

Lemma cli_authorized_witness :
  check_basic_auth (authorization (cfg "root")) "root" "pw" = true ∧
  check_basic_auth (authorization (cfg "ro:ot")) "ro:ot" "pw" = false.
Proof.
  split.
  - exact (cli_authorized (cfg "root") eq_refl eq_refl).
  - exact (cli_authorized (cfg "ro:ot") eq_refl eq_refl).
Defined.

Lemma admin_add_get_delete_witness :
  ∃ k1, serve env 0 (Ok ""%string) server reload [] (cfg "root") (authorization (cfg "root")) (PostProxy dns) k0 =
    (k1, Ok (mkResponse 200 (ActionResp true "proxy registered" (Some ":53"%string)))) ∧
    serve env 0 (Ok ""%string) server reload [] (cfg "root") (authorization (cfg "root")) (GetProxy "dns") k1 =
    (k1, Ok (mkResponse 200 (ProxyDetailResp "dns" true))).
Proof.
  destruct (admin_add_get_delete env 0 (Ok ""%string) server reload [] (cfg "root") (authorization (cfg "root")) dns k0)
    as (k1 & k2 & E1 & E2 & _); try reflexivity; [split; reflexivity|].
  exists k1. exact (conj E1 E2).
Defined.
End ToyAdmin.
