(* ===== verification/ClientCli.v ===== *)
(** * The command line of the client (crates/arp-client/src/cli/mod.rs) and the
    routes of the admin API it asks (crates/arp-client/src/admin/mod.rs)

    [arpc status] and [arpc check] as what they print.  The network is a record
    of functions, JSON is read through the class [JsonRead]; the end shows what
    a check prints when an admin API of ClientAdmin answers it. *)
From S2P Require Import Prelude RustString NetAddr Errors Protocol Config Crypto ProxyManager UdpTunnel ClientProxies ClientTransport ClientControl ClientChannels ClientSession Base64 VhostParse Http ClientAdmin.
Local Open Scope Z_scope.

(** ** Reading JSON *)

Class JsonRead `{Json} := {
  from_str : string → option Value;
  as_u64 : Value → option Z;
  as_array : Value → option (list Value);
  as_bool : Value → option bool;
}.

(** ** Output *)

Inductive Output := Stdout (text : string) | Stderr (text : string).
Definition nl : string := of_bytes [x0a].
Definition cr : string := of_bytes [x0d].
Definition print (text : string) : Output := Stdout text.
Definition println (text : string) : Output := Stdout (text +:+ nl).
Definition eprintln (text : string) : Output := Stderr (text +:+ nl).

(** ** The network *)

Record Net := mkNet {
  net_connected : string → result string unit;
  net_written : string → string → result string unit;
  net_read : string → string → result string bytes;
  net_connect_timeout : SocketAddr → result string Z;      (* the milliseconds it took *)
}.

Definition http_get (net : Net) (url : string) (config : ClientConfig) : result string string :=
  hyper_util_get url config (net_connected net) (net_written net) (net_read net).

Definition status_url (config : ClientConfig) : string :=
  "http://" +:+ effective_admin_addr config +:+ "/api/v1/status".
Definition proxy_url (config : ClientConfig) (proxy_name : string) : string :=
  "http://" +:+ effective_admin_addr config +:+ "/api/v1/proxies/" +:+ proxy_name.

Section Cli.
Context `{JsonRead}.

(** [v[key]]: a missing key reads like a null, of which every [as_] is [None]. *)
Definition index (v : Value) (key : string) : option Value := as_object v ≫= fun m => m !! key.
Definition str_or (v : Value) (key dflt : string) : string := default dflt (index v key ≫= as_str).

(** ** [arpc status] *)

Definition status_lines (status : Value) : list Output :=
  [println "ARP Client Status";
   println "─────────────────────────────────────────";
   println ("  Status:      " +:+ str_or status "status" "unknown");
   println ("  Server:      " +:+ str_or status "server_addr" "?" +:+ ":"
            +:+ pretty (default 0 (index status "server_port" ≫= as_u64)));
   println ("  Run ID:      " +:+ str_or status "run_id" "-")]
  ++ match index status "proxies" ≫= as_array with
     | Some proxies =>
         println ("  Proxies:     " +:+ pretty (Z.of_nat (length proxies)))
         :: ((fun p => println ("    - " +:+ default "?"%string (as_str p))) <$> proxies)
     | None => []
     end.

Definition run_status (net : Net) (config : ClientConfig) : list Output :=
  match http_get net (status_url config) config with
  | Ok body => match from_str body with
               | Some status => status_lines status
               | None => [println body]
               end
  | Err e =>
      [eprintln ("Failed to connect to admin API at " +:+ effective_admin_addr config +:+ ": " +:+ e);
       eprintln "Make sure arpc is running with admin_port configured."]
  end.

(** ** [arpc check] *)

Definition check_local_service (net : Net) (config : ClientConfig) (proxy_name : string) : list Output :=
  match local_service_addr config proxy_name with
  | None => []
  | Some (addr, sa) =>
      match net_connect_timeout net sa with
      | Ok ms => [println ("[✓] Local service '" +:+ proxy_name +:+ "' (" +:+ addr +:+ "): reachable ("
                           +:+ pretty ms +:+ "ms)")]
      | Err e => [println ("[✗] Local service '" +:+ proxy_name +:+ "' (" +:+ addr +:+ "): " +:+ e +:+ " ")]
      end
  end.

Definition proxy_line (net : Net) (config : ClientConfig) (proxy_name : string) : list Output :=
  match http_get net (proxy_url config proxy_name) config with
  | Ok body =>
      match from_str body with
      | Some detail =>
          match index detail "available" with
          | Some v => if default false (as_bool v)
                      then [println ("[✓] Proxy '" +:+ proxy_name +:+ "': registered and available")]
                      else [println ("[✗] Proxy '" +:+ proxy_name +:+ "': registered but NOT available")]
          | None => [println ("[✗] Proxy '" +:+ proxy_name +:+ "': not found")]
          end
      | None => []
      end
  | Err e => [println ("[✗] Proxy '" +:+ proxy_name +:+ "': " +:+ e)]
  end.

Definition control_line (status : Value) : Output :=
  let conn_status := str_or status "status" "unknown" in
  if bool_decide (conn_status = "connected"%string)
  then println ("[✓] Control connection: " +:+ conn_status +:+ " (run_id=" +:+ str_or status "run_id" "-" +:+ ")")
  else println ("[✗] Control connection: " +:+ conn_status).

Definition run_check (net : Net) (config : ClientConfig) (name : option string) : list Output :=
  let admin_addr := effective_admin_addr config in
  print ("[.] Admin API (" +:+ admin_addr +:+ ")...") ::
  match http_get net (status_url config) config with
  | Err e =>
      [println (cr +:+ "[✗] Admin API (" +:+ admin_addr +:+ ") — " +:+ e);
       eprintln "    arpc may not be running or admin_port is not configured."]
  | Ok status_body =>
      println (cr +:+ "[✓] Admin API (" +:+ admin_addr +:+ ")") ::
      match from_str status_body with
      | None => []
      | Some status =>
          control_line status ::
          match name with
          | Some proxy_name => proxy_line net config proxy_name ++ check_local_service net config proxy_name
          | None =>
              match index status "proxies" ≫= as_array with
              | Some proxies =>
                  flat_map (fun p => match as_str p with
                                     | Some pname => check_local_service net config pname
                                     | None => []
                                     end) proxies
              | None => []
              end
          end
      end
  end.
End Cli.

(** ** The routes of the admin API *)

Section Routes.
(** How axum reads the body of [POST /api/v1/proxies]; what it answers instead is
    a status with a text. *)
Variable body : Z * string + ProxyConfig.

Definition method_not_allowed : Response := mkResponse 405 (Text "").

(** The routes of [start_admin_server]; the two of a path are one entry here. *)
Definition admin_routes : list (list Seg * (Method → list string → Response + Route)) :=
  [([Lit "api"; Lit "v1"; Lit "status"]%string,
    fun method _ => match method with GET | HEAD => inr GetStatus | _ => inl method_not_allowed end);
   ([Lit "api"; Lit "v1"; Lit "proxies"]%string,
    fun method _ => match method with
                    | GET | HEAD => inr GetProxies
                    | POST => match body with
                              | inr p => inr (PostProxy p)
                              | inl (status, text) => inl (mkResponse status (Text text))
                              end
                    | _ => inl method_not_allowed
                    end);
   ([Lit "api"; Lit "v1"; Lit "proxies"; Param]%string,
    fun method params => match method, params with
                         | GET, [name] | HEAD, [name] => inr (GetProxy name)
                         | DELETE, [name] => inr (DeleteProxy name)
                         | _, _ => inl method_not_allowed
                         end);
   ([Lit "api"; Lit "v1"; Lit "reload"]%string,
    fun method _ => match method with POST => inr PostReload | _ => inl method_not_allowed end)].

Definition admin_route (percent_decode : string → option string) : Method → string → Response + Route :=
  router percent_decode (mkResponse 404 (Text "")) (mkResponse 400 (Text "")) admin_routes.
End Routes.

(** ** A check against the admin API *)

Lemma bytes_starts_with_app p l k : (length p ≤ length l)%nat → bytes_starts_with p (l ++ k) = bytes_starts_with p l.
Proof.
  revert l. induction p as [|a p IH]; intros [|b l] Hl; simpl in *; try done; try lia.
  rewrite IH by lia. done.
Qed.

(** The place of a text is its first one. *)
Lemma find_bytes_first pat p a b :
  find_bytes (pat ++ [p]) (a ++ pat) = None →
  find_bytes (pat ++ [p]) (a ++ (pat ++ [p]) ++ b) = Some (length a).
Proof.
  induction a as [|x a IH].
  - intros _. rewrite app_nil_l.
    assert (bytes_starts_with (pat ++ [p]) ((pat ++ [p]) ++ b) = true) as E
      by (apply bytes_starts_with_iff; eauto).
    destruct ((pat ++ [p]) ++ b) eqn:El; cbn [find_bytes]; by rewrite E.
  - cbn [app find_bytes]. destruct (bytes_starts_with _ (x :: a ++ pat)) eqn:E; [done|].
    destruct (find_bytes _ (a ++ pat)) eqn:Ef; [done|]. intros _.
    assert (bytes_starts_with (pat ++ [p]) (x :: a ++ (pat ++ [p]) ++ b) = false) as ->.
    { change (x :: a ++ (pat ++ [p]) ++ b) with ((x :: a) ++ (pat ++ [p]) ++ b).
      rewrite <- (app_assoc pat), app_assoc, bytes_starts_with_app; [done|].
      rewrite !length_app. simpl. lia. }
    by rewrite IH.
Qed.

(** What an HTTP response with a body is on the wire: the status line, which
    has 401 in it only for that status, the headers, of which none is empty, an
    empty line, and the body. *)
Record rendered (r : Response) (body : string) (text : bytes) : Prop := {
  rendered_as : ∃ status_line headers,
    text = status_line ++ CRLF ++ headers ++ CRLF ++ CRLF ++ to_bytes body ∧ (x0a ∉ status_line) ∧
    find_bytes (CRLF ++ CRLF) (status_line ++ CRLF ++ headers ++ CRLF ++ [x0d]) = None ∧
    (is_Some (find_bytes (to_bytes "401") status_line) ↔ rs_status r = 401);
  rendered_utf8 : utf8_valid text = true;
}.

Lemma response_body_rendered r body text :
  rendered r body text →
  response_body (from_utf8_lossy text) =
  if bool_decide (rs_status r = 401) then Err "unauthorized (check admin_user/admin_pwd)"%string else Ok body.
Proof.
  intros [(sl & hs & -> & Hn & Hf & H401) Hu]. set (text := sl ++ CRLF ++ hs ++ CRLF ++ CRLF ++ to_bytes body) in *.
  assert (from_utf8_lossy text = of_bytes text) as ->.
  { rewrite <- (to_of_bytes text). rewrite from_utf8_lossy_valid by (by rewrite to_of_bytes). by rewrite to_of_bytes. }
  unfold response_body. rewrite to_of_bytes.
  assert (find_bytes [x0d; x0a; x0d; x0a] text = Some (length (sl ++ CRLF ++ hs))) as ->.
  { unfold text. replace (sl ++ CRLF ++ hs ++ CRLF ++ CRLF ++ to_bytes body)
      with ((sl ++ CRLF ++ hs) ++ ([x0d; x0a; x0d] ++ [x0a]) ++ to_bytes body) by (by rewrite <- !app_assoc).
    apply (find_bytes_first [x0d; x0a; x0d] x0a). by rewrite <- !app_assoc. }
  rewrite (bytes_lines_crlf sl _ Hn : bytes_lines [] text = _). cbn [head default from_option id].
  rewrite (bool_decide_ext _ _ H401).
  case_bool_decide; [done|]. f_equal. transitivity (of_bytes (to_bytes body)); [|apply of_to_bytes]. f_equal. unfold text.
  replace (sl ++ CRLF ++ hs ++ CRLF ++ CRLF ++ to_bytes body)
    with ((sl ++ CRLF ++ hs ++ CRLF ++ CRLF) ++ to_bytes body) by (by rewrite <- !app_assoc).
  apply drop_app_exact. rewrite !length_app. simpl. lia.
Qed.

Section CheckTruth.
Context `{JsonMake} `{!JsonRead} `{Primitives} `{DashIter}.

(** How the answers read as JSON. *)
Class BodyJson := {
  body_json : Body → string;
  json_status status server_addr server_port run_id proxies :
    ∃ v vs, from_str (body_json (ClientAdmin.StatusResp status server_addr server_port run_id proxies)) = Some v ∧
      index v "status" ≫= as_str = Some status ∧ index v "server_addr" ≫= as_str = Some server_addr ∧
      index v "server_port" ≫= as_u64 = Some server_port ∧ index v "run_id" ≫= as_str = Some run_id ∧
      index v "proxies" ≫= as_array = Some vs ∧ as_str <$> vs = Some <$> proxies;
  json_detail name available :
    ∃ v b, from_str (body_json (ProxyDetailResp name available)) = Some v ∧
      index v "available" = Some b ∧ as_bool b = Some available;
  json_action ok message remote_addr :
    ∃ v, from_str (body_json (ActionResp ok message remote_addr)) = Some v ∧ index v "available" = None;
}.
Context `{!BodyJson}.

(** The routes behind the authentication, which also covers what no route takes. *)
Variable register : ProxyConfig → st CControl Error.t string.
Variable close : string → st CControl Error.t unit.
Variable reload : string → st CControl Error.t (Z * Z).
Variable args : list string.
Variable body : Z * string + ProxyConfig.
Variable percent_decode : string → option string.

Definition admin_answer (config : ClientConfig) (auth : option bytes) (method : Method) (path : string)
  : st CControl Error.t Response :=
  match admin_route body percent_decode method path with
  | inr route => serve_admin register close reload args config auth route
  | inl response =>
      if need_auth config && negb (check_basic_auth auth (cc_admin_user config) (cc_admin_pwd config))
      then mret (mkResponse 401 (Text "Unauthorized")) else mret response
  end.

(** An admin API of the control [k] answers a [GET] of the command line. *)
Definition answers (net : Net) (config : ClientConfig) (k : CControl) (path : string) : Prop :=
  let host := effective_admin_addr config in let request := request_text config host path in
  net_connected net host = Ok tt ∧ net_written net host request = Ok tt ∧
  ∃ r text, (admin_answer config (authorization config) GET path k).2 = Ok r ∧
    net_read net host request = Ok text ∧ rendered r (body_json (rs_body r)) text.

(** The credentials of a configuration let its own command line in. *)
Definition lets_in (config : ClientConfig) : Prop :=
  need_auth config && negb (check_basic_auth (authorization config) (cc_admin_user config) (cc_admin_pwd config)) = false.

Lemma get_answered net config k path r :
  answers net config k ("/" +:+ path) → ("/"%byte ∉ to_bytes (effective_admin_addr config)) →
  (admin_answer config (authorization config) GET ("/" +:+ path) k).2 = Ok r → rs_status r ≠ 401 →
  http_get net ("http://" +:+ effective_admin_addr config +:+ "/" +:+ path) config = Ok (body_json (rs_body r)).
Proof.
  intros (Hc & Hw & r' & text & Er' & Hr & Ht) Hs Er H401. rewrite Er in Er'. injection Er' as <-.
  unfold http_get, hyper_util_get. rewrite strip_prefix_app. cbn [ok_or mbind result_bind].
  assert (split_once "/"%byte (effective_admin_addr config +:+ "/" +:+ path)
          = Some (effective_admin_addr config, path)) as ->.
  { unfold split_once. rewrite !to_bytes_app. change (to_bytes "/") with ["/"%byte]. cbn [app].
    rewrite bytes_split_once_app by done. by rewrite !of_to_bytes. }
  rewrite Hc, Hw, Hr, (response_body_rendered _ _ _ Ht). by rewrite bool_decide_eq_false_2.
Qed.

(** The proxy a name stands for on the client. *)
Definition proxy_at (k : CControl) (name : string) : option ClientProxy :=
  get_proxy name (k_pm k) ≫= fun a => cpm_heap (k_pm k) !! a.

Lemma answer_status config k :
  lets_in config →
  (admin_answer config (authorization config) GET "/api/v1/status" k).2 =
  Ok (mkResponse 200 (ClientAdmin.StatusResp (if is_empty (k_run_id k) then "connecting"%string else "connected"%string)
        (cc_server_addr config) (cc_server_port config) (k_run_id k) (list_proxy_names (k_pm k)))).
Proof.
  intros Hl. unfold admin_answer.
  change (admin_route body percent_decode GET "/api/v1/status") with (inr GetStatus : Response + Route).
  unfold serve_admin. by rewrite Hl.
Qed.

Lemma answer_proxy config k name :
  lets_in config → plain_name percent_decode name →
  (admin_answer config (authorization config) GET ("/api/v1/proxies/" +:+ name) k).2 =
  Ok (match proxy_at k name with
      | Some proxy => mkResponse 200 (ProxyDetailResp (cp_name proxy) (is_available proxy))
      | None => mkResponse 404 (ActionResp false ("proxy " +:+ name +:+ " not found") None)
      end).
Proof.
  intros Hl (Hne & Hs & Hd). unfold admin_answer, admin_route, router.
  assert (path_pieces ("/api/v1/proxies/" +:+ name) = Some ["api"; "v1"; "proxies"; name]%string) as ->.
  { rewrite <- (path_pieces_of ["api"; "v1"; "proxies"; name]%string); [|done|].
    - f_equal. cbn [foldr]. rewrite <- (of_to_bytes (name +:+ "")), to_bytes_app, app_nil_r, of_to_bytes. done.
    - apply Forall_cons. split; [by apply (bool_decide_unpack _)|]. apply Forall_cons.
      split; [by apply (bool_decide_unpack _)|]. apply Forall_cons. split; [by apply (bool_decide_unpack _)|].
      by apply Forall_singleton. }
  cbn -[is_empty serve_admin proxy_at]. rewrite (proj2 (is_empty_false _) Hne). cbn -[serve_admin proxy_at].
  rewrite Hd. cbn -[serve_admin proxy_at]. unfold serve_admin. by rewrite Hl.
Qed.

Lemma check_start net config k name :
  ("/"%byte ∉ to_bytes (effective_admin_addr config)) → lets_in config → answers net config k "/api/v1/status" →
  ∃ status vs,
    index status "proxies" ≫= as_array = Some vs ∧ as_str <$> vs = Some <$> list_proxy_names (k_pm k) ∧
    control_line status = println (if is_empty (k_run_id k) then "[✗] Control connection: connecting"
      else "[✓] Control connection: connected (run_id=" +:+ k_run_id k +:+ ")") ∧
    run_check net config name =
      [print ("[.] Admin API (" +:+ effective_admin_addr config +:+ ")...");
       println (cr +:+ "[✓] Admin API (" +:+ effective_admin_addr config +:+ ")"); control_line status]
      ++ match name with
         | Some n => proxy_line net config n ++ check_local_service net config n
         | None => flat_map (fun p => match as_str p with
                                      | Some pname => check_local_service net config pname
                                      | None => []
                                      end) vs
         end.
Proof.
  intros Hs Hl Hst. pose proof (answer_status config k Hl) as Er.
  pose proof (get_answered net config k "api/v1/status" _ Hst Hs Er ltac:(done)) as Hg. cbn [rs_body] in Hg.
  destruct (json_status (if is_empty (k_run_id k) then "connecting"%string else "connected"%string) (cc_server_addr config)
    (cc_server_port config) (k_run_id k) (list_proxy_names (k_pm k))) as (v & vs & Ev & Est & _ & _ & Erun & Eps & Hvs).
  exists v, vs. split_and!; [done|done| |].
  - unfold control_line, str_or. rewrite Est, Erun. cbn [default from_option id].
    by destruct (is_empty (k_run_id k)).
  - unfold run_check. change (status_url config) with ("http://" +:+ effective_admin_addr config +:+ "/" +:+ "api/v1/status").
    rewrite Hg, Ev, Eps. by destruct name.
Qed.

(** [arpc check name] tells what the client knows.  When the admin API of a
    client with the same configuration answers, the check prints that the API is
    there, whether the control connection is up, with its run id, and whether
    the client has a proxy of that name, available or not; then it tries the
    local service.  The host of the API has no slash in it, its credentials let
    the command line in, and the name needs no escape in a path. *)
Theorem check_tells_state net config k name :
  ("/"%byte ∉ to_bytes (effective_admin_addr config)) → lets_in config → plain_name percent_decode name →
  answers net config k "/api/v1/status" → answers net config k ("/api/v1/proxies/" +:+ name) →
  run_check net config (Some name) =
    [print ("[.] Admin API (" +:+ effective_admin_addr config +:+ ")...");
     println (cr +:+ "[✓] Admin API (" +:+ effective_admin_addr config +:+ ")");
     println (if is_empty (k_run_id k) then "[✗] Control connection: connecting"
              else "[✓] Control connection: connected (run_id=" +:+ k_run_id k +:+ ")");
     println (match proxy_at k name with
              | Some p => if is_available p then "[✓] Proxy '" +:+ name +:+ "': registered and available"
                          else "[✗] Proxy '" +:+ name +:+ "': registered but NOT available"
              | None => "[✗] Proxy '" +:+ name +:+ "': not found"
              end)]
    ++ check_local_service net config name.
Proof.
  intros Hs Hl Hn Hst Hp. destruct (check_start net config k (Some name) Hs Hl Hst) as (st & vs & _ & _ & <- & ->).
  cbn [app]. do 3 f_equal. unfold proxy_line.
  change (proxy_url config name) with ("http://" +:+ effective_admin_addr config +:+ "/" +:+ ("api/v1/proxies/" +:+ name)).
  pose proof (answer_proxy config k name Hl Hn) as Er.
  rewrite (get_answered net config k ("api/v1/proxies/" +:+ name) _ Hp Hs Er) by (by destruct (proxy_at k name)).
  destruct (proxy_at k name) as [p|]; cbn [rs_body].
  - destruct (json_detail (cp_name p) (is_available p)) as (v & b & -> & -> & ->). cbn [default from_option id].
    by destruct (is_available p).
  - by destruct (json_action false ("proxy " +:+ name +:+ " not found") None) as (v & -> & ->).
Qed.
End CheckTruth.

(** What a check of the local service tries is not what it prints, and not what
    the client dials, when [local_ip] is a host name: it tries this host. *)
Lemma host_name_checks_loopback `{JsonRead} net config name p :
  List.find (fun p => bool_decide (pc_name p = name)) (cc_proxies config) = Some p →
  parse_socket_addr (pc_local_ip p +:+ ":" +:+ pretty (pc_local_port p)) = None →
  net_connect_timeout net (SAV4 127 0 0 1 (pc_local_port p)) = Ok 0 →
  check_local_service net config name =
    [println ("[✓] Local service '" +:+ name +:+ "' (" +:+ (pc_local_ip p +:+ ":" +:+ pretty (pc_local_port p))
              +:+ "): reachable (0ms)")].
Proof. intros Hf Hp Hc. unfold check_local_service, local_service_addr. by rewrite Hf, Hp, Hc. Qed.

(** ** Witnesses *)

Module ToyCli.
Import ToyClientControl.

(** Bodies as text: the binary digits of a number that stands for the body. *)
Fixpoint bits (p : positive) : bytes :=
  match p with xH => [] | xO p => "0"%byte :: bits p | xI p => "1"%byte :: bits p end.
Fixpoint unbits (l : bytes) : positive :=
  match l with [] => xH | b :: l => if bool_decide (b = "0"%byte) then xO (unbits l) else xI (unbits l) end.
Lemma unbits_bits p : unbits (bits p) = p.
Proof. induction p as [p IH|p IH|]; simpl; by rewrite ?IH. Qed.
Lemma bits_ascii p : is_ascii (of_bytes (bits p)) = true.
Proof. unfold is_ascii. rewrite to_of_bytes. by induction p. Qed.

#[export] Instance Body_eq_dec : EqDecision Body.
Proof. solve_decision. Defined.
#[export] Instance Body_countable : Countable Body.
Proof.
  refine (inj_countable'
    (fun b => match b with
              | ClientAdmin.StatusResp a b c d e => inl (a, b, c, d, e)
              | ProxiesResp a b => inr (inl (a, b))
              | ProxyDetailResp a b => inr (inr (inl (a, b)))
              | ActionResp a b c => inr (inr (inr (inl (a, b, c))))
              | Text a => inr (inr (inr (inr a)))
              end)
    (fun x => match x with
              | inl (a, b, c, d, e) => ClientAdmin.StatusResp a b c d e
              | inr (inl (a, b)) => ProxiesResp a b
              | inr (inr (inl (a, b))) => ProxyDetailResp a b
              | inr (inr (inr (inl (a, b, c)))) => ActionResp a b c
              | inr (inr (inr (inr a))) => Text a
              end) _).
  by intros [].
Defined.

Inductive val := VBody (b : Body) | VStr (s : string) | VNum (z : Z) | VBool (b : bool) | VList (l : list string).
Definition val_object (v : val) : option (gmap string val) :=
  match v with
  | VBody (ClientAdmin.StatusResp a b c d e) =>
      Some (list_to_map [("status", VStr a); ("server_addr", VStr b); ("server_port", VNum c); ("run_id", VStr d);
                         ("proxies", VList e)]%string)
  | VBody (ProxyDetailResp a b) => Some (list_to_map [("name", VStr a); ("available", VBool b)]%string)
  | VBody (ActionResp a b c) => Some (list_to_map [("ok", VBool a); ("message", VStr b)]%string)
  | _ => None
  end.
#[export] Instance json : Json := {|
  Value := val; as_object := val_object; as_str := fun v => match v with VStr s => Some s | _ => None end |}.
#[export] Instance make : JsonMake := {| json_str := VStr; json_obj := fun _ => VList [] |}.
#[export] Instance read : JsonRead := {|
  from_str := fun s => VBody <$> countable.decode (unbits (to_bytes s));
  as_u64 := fun v => match v with VNum z => Some z | _ => None end;
  as_array := fun v => match v with VList l => Some (VStr <$> l) | _ => None end;
  as_bool := fun v => match v with VBool b => Some b | _ => None end |}.
Lemma from_str_bits b : from_str (of_bytes (bits (countable.encode b))) = Some (VBody b).
Proof. cbn [from_str read]. by rewrite to_of_bytes, unbits_bits, countable.decode_encode. Qed.
#[export] Instance bodies : BodyJson.
Proof.
  refine {| body_json := fun b => of_bytes (bits (countable.encode b)) |}; intros; rewrite from_str_bits.
  - do 2 eexists. split_and!; [done..|]. rewrite <- list_fmap_compose. by apply list_fmap_ext.
  - do 2 eexists. by split_and!.
  - eexists. by split.
Defined.

Definition proxy : ProxyConfig := ToyClient.proxy "ssh" Tcp.
Definition config : ClientConfig :=
  mkClientConfig "example.org" 7000 "me" "" "" 0 AuthConfig_default ToyClientControl.transport "" 7400 "root" "pw"
    [proxy] [].
(** A control that is connected and has the proxy. *)
Definition k : CControl :=
  let c := client_control_new 1000 config (cpm_register_proxy 0 proxy cpm_new) in
  mkCControl (k_config c) "r1" (k_pm c) [] None None 0 false ∅ [] [].

Definition answer (path : string) : option Response :=
  match (admin_answer (fun _ => mret ""%string) (fun _ => mret tt) (fun _ => mret (0, 0)) [] (inl (400, ""%string)) Some
           config (authorization config) GET path k).2 with Ok r => Some r | Err _ => None end.
Definition respond (path : string) : bytes :=
  match answer path with
  | Some r => to_bytes ("HTTP/1.1 " +:+ pretty (rs_status r)) ++ CRLF ++ to_bytes "content-length: 9" ++ CRLF ++ CRLF
              ++ to_bytes (body_json (rs_body r))
  | None => []
  end.
Definition net : Net := mkNet (fun _ => Ok tt) (fun _ _ => Ok tt)
  (fun host request =>
     Ok (if bool_decide (request = request_text config host "/api/v1/status") then respond "/api/v1/status"
         else respond "/api/v1/proxies/ssh"))
  (fun _ => Ok 0).

Lemma respond_rendered path r :
  answer path = Some r → rs_status r = 200 → utf8_valid (respond path) = true →
  rendered r (body_json (rs_body r)) (respond path).
Proof.
  intros E Hr Hu. split; [|done]. exists (to_bytes "HTTP/1.1 200"), (to_bytes "content-length: 9"). split_and!.
  - unfold respond. by rewrite E, Hr.
  - by apply (bool_decide_unpack _).
  - reflexivity.
  - rewrite Hr. split; [|done]. vm_compute. by intros [].
Qed.

(** The check of a proxy that is registered, on a client that is connected. *)
Lemma check_tells_state_witness :
  run_check net config (Some "ssh"%string) =
    [print "[.] Admin API (127.0.0.1:7400)..."; println (cr +:+ "[✓] Admin API (127.0.0.1:7400)");
     println "[✓] Control connection: connected (run_id=r1)"; println "[✓] Proxy 'ssh': registered and available";
     println "[✓] Local service 'ssh' (127.0.0.1:22): reachable (0ms)"].
Proof.
  refine (check_tells_state (fun _ => mret ""%string) (fun _ => mret tt) (fun _ => mret (0, 0)) []
    (inl (400, ""%string)) Some net config k "ssh" _ _ _ _ _).
  - by apply (bool_decide_unpack _).
  - vm_compute. reflexivity.
  - split_and!; [done|by apply (bool_decide_unpack _)|done].
  - split; [done|]. split; [done|]. do 2 eexists. split; [reflexivity|]. split; [reflexivity|].
    apply (respond_rendered "/api/v1/status"); vm_compute; reflexivity.
  - split; [done|]. split; [done|]. do 2 eexists. split; [reflexivity|]. split; [reflexivity|].
    apply (respond_rendered "/api/v1/proxies/ssh"); vm_compute; reflexivity.
Defined.
End ToyCli.
