(* ===== verification/Main.v ===== *)
(** * The two programs (crates/arp-server/src/main.rs, crates/arp-client/src/main.rs)

    [main] of the server and of the client, over the parts of the other files:
    the configuration file, its validation, the log, the service.  Arguments
    come parsed, as clap gives them; reading files, the handshakes and signals
    are what a world record says. *)
From S2P Require Import Prelude RustString NetAddr Errors Protocol Config ConfigFile Crypto Auth Resource Vhost ProxyManager Hub Server Dashboard Listener Logging ClientService ClientAdmin ClientCli.
Local Open Scope Z_scope.

(** How [main] ends: with a result, with a panic, or not yet. *)
Inductive Exit := Exited (r : Result unit) | Crashed (p : Panic) | Running.

Definition exit_of (r : option (Result unit)) : Exit :=
  match r with Some r => Exited r | None => Running end.

(** The level both programs give to the log. *)
Definition log_level_of (verbose : bool) (configured : string) : string :=
  if verbose then "debug"%string else if is_empty configured then "info"%string else configured.

Section Main.
Context `{JsonRead} `{Primitives} `{UnicodeLower} `{DashIter} `{Chrono}.
(** The parameters of ConfigFile and of Logging. *)
Variable to_json : Toml → Value.
Variable parse : string → result string Toml.
Variable error_text : TomlError → string.
Context {EnvFilter : Type}.
Variable default_env : option EnvFilter.
Variable filter_new : string → EnvFilter.
Variable can_create : Path → bool.
Variable rolling_daily : Path → string → FS → FS * result Panic unit.
Variable now : Z.
Abbreviation init := (init_logging default_env filter_new can_create rolling_daily now).

(** ** The server *)

Record Args := mkArgs { ar_config : string; ar_verbose : bool }.

(** Reading a file, loading certificate and key, the clock when the service
    starts to run, binding the listener and what it then gives; and, when Ctrl-C comes before the listener ends, what the
    polls of the drain see. *)
Record ServerWorld := mkServerWorld {
  sw_read : string → result string string;
  sw_load : string → string → Result unit;
  sw_now : Z;
  sw_bound : Result unit;
  sw_events : list ListenEvent;
  sw_ctrl_c : option (list (Z * bool));
}.

Record ServerTrace := mkServerTrace {
  sv_exit : Exit; sv_fs : FS; sv_log : option (Subscriber (EnvFilter := EnvFilter));
  sv_service : option (Authenticator * Hub ResourceController);
  sv_dashboard : option (string * AdminInfo); sv_accepted : list Z;
}.

Definition server_logging (args : Args) (config : ServerConfig) : LogConfig :=
  mkLogConfig (log_level_of (ar_verbose args) (sc_log_level config)) (sc_log_file config) (sc_log_max_days config).

(** [service.run()] against Ctrl-C: the first of the two drops the other, so the
    accept loop is gone when the drain begins. *)
Definition server_select (w : ServerWorld) (config : ServerConfig) : list Z * Exit :=
  let '(accepted, ended) := service_listen config (sw_bound w) (sw_events w) in
  (accepted, match sw_ctrl_c w with
             | None => exit_of ended
             | Some polls => match graceful_shutdown polls with
                             | Some _ => Exited (Ok tt)
                             | None => Running
                             end
             end).

Definition server_main (args : Args) (w : ServerWorld) (fs : FS) : ServerTrace :=
  match server_from_file to_json parse error_text (sw_read w (ar_config args)) with
  | Err e => mkServerTrace (Exited (Err e)) fs None None None []
  | Ok config =>
      match server_validate config with
      | Err e => mkServerTrace (Exited (Err e)) fs None None None []
      | Ok _ =>
          match init (server_logging args config) fs with
          | (fs, Err p) => mkServerTrace (Crashed p) fs None None None []
          | (fs, Ok log) =>
              match service_new config (build_tls_acceptor (sw_load w) config) with
              | Err e => mkServerTrace (Exited (Err e)) fs (Some log) None None []
              | Ok service =>
                  let '(accepted, exit) := server_select w config in
                  mkServerTrace exit fs (Some log) (Some service) (dashboard_of (sw_now w) config) accepted
              end
          end
      end
  end.

(** ** The client *)

Inductive Commands := Run | Status | Check (name : option string).
Record Cli := mkCli { cl_config : string; cl_verbose : bool; cl_command : option Commands }.

Record ClientWorld := mkClientWorld {
  cw_read : string → result string string;
  cw_net : Net;
  cw_attempts : list Attempt;
  cw_ctrl_c : bool;                     (* before [run] returns *)
}.

Record ClientTrace := mkClientTrace {
  ct_exit : Exit; ct_fs : FS; ct_log : option (Subscriber (EnvFilter := EnvFilter));
  ct_printed : list Output; ct_service : option ServiceState;
}.

Definition client_logging (cli : Cli) (config : ClientConfig) : LogConfig :=
  mkLogConfig (log_level_of (cl_verbose cli) (cc_log_level config)) (cc_log_file config) (cc_log_max_days config).

Definition client_main (cli : Cli) (w : ClientWorld) (fs : FS) : ClientTrace :=
  match client_from_file parse error_text (cw_read w (cl_config cli)) with
  | Err e => mkClientTrace (Exited (Err e)) fs None [] None
  | Ok config =>
      match client_validate config with
      | Err e => mkClientTrace (Exited (Err e)) fs None [] None
      | Ok _ =>
          match cl_command cli with
          | Some Status => mkClientTrace (Exited (Ok tt)) fs None (run_status (cw_net w) config) None
          | Some (Check name) => mkClientTrace (Exited (Ok tt)) fs None (run_check (cw_net w) config name) None
          | Some Run | None =>
              match init (client_logging cli config) fs with
              | (fs, Err p) => mkClientTrace (Crashed p) fs None [] None
              | (fs, Ok log) =>
                  let '(s, ended) := service_run config (cw_attempts w) service_start in
                  mkClientTrace (if cw_ctrl_c w then Exited (Ok tt) else exit_of ended) fs (Some log) [] (Some s)
              end
          end
      end
  end.

(** ** Properties *)

(** The tokens of a configuration. *)
Definition tokens_of (c : AuthConfig) : list string :=
  ac_token c :: ac_additional_tokens c ++ (ar_token <$> ac_rules c).

Lemma verify_login_token c t0 msg token :
  verify_login (token_auth_new c) t0 msg = Ok token →
  token ∈ tokens_of c ∧ lm_privilege_key msg = sign token (pretty (lm_timestamp msg)).
Proof.
  unfold verify_login. intros ([] & _ & E)%bind_Ok. cbv zeta in E. apply bind_Ok in E as (t & Ht%ok_or_Ok & E).
  apply bind_Ok in E as ([] & _ & [= ->]). by apply find_matching_token_Some in Ht.
Qed.

(** The ports of a configuration; none stands for those from 10000 on. *)
Definition ports_of (config : ServerConfig) (p : Z) : Prop :=
  match sc_allow_ports config with [] => 10000 ≤ p ≤ 65535 | ranges => port_allowed ranges p end.

Lemma allowed_ports_of config p : is_port_allowed (resource_new config) p = true → ports_of config p.
Proof.
  unfold is_port_allowed, resource_new, ports_of. cbn [allow_ports]. destruct (sc_allow_ports config) as [|r rs].
  - simpl. rewrite orb_false_r, andb_true_iff, !Z.leb_le. lia.
  - rewrite existsb_True. intros ([a b] & (range & E & Hin)%list_elem_of_fmap & Hp). exists range. split; [done|].
    apply andb_true_iff in Hp as [Ha%Z.leb_le Hb%Z.leb_le]. destruct (Z.ltb_spec 0 (pr_single range)); simplify_eq; lia.
Qed.

Lemma allocate_allowed p rc rc' q : allocate_tcp_port p rc = (rc', Ok q) → is_port_allowed rc p = true.
Proof.
  unfold allocate_tcp_port. cbv [mbind st_bind st_get st_guard]. by destruct (is_port_allowed rc p).
Qed.

End Main.

(** ** Witnesses *)

Module ToyMain.
#[local] Existing Instances ToyCli.json ToyCli.read ToyCrypto.prims ToyProxyManager.iter ToyLogging.toy_chrono.
#[local] Instance lower : UnicodeLower := fun s => s.
Definition world (polls : option (list (Z * bool))) : ServerWorld :=
  mkServerWorld (fun path => if bool_decide (path = "server.toml"%string) then Ok "ok"%string else Err "no such file"%string)
    (fun _ _ => Ok tt) 1700000000 (Ok tt) [LAccepted 1; LAccepted 2] polls.
Definition run (config : string) (polls : option (list (Z * bool))) : ServerTrace :=
  server_main (fun _ => ToyCli.VNum 0) ToyConfigFile.parse (fun _ => ""%string) None (fun s => s) (fun _ => true)
    (fun _ _ fs => (fs, Ok tt)) 0 (mkArgs config true) (world polls) ∅.

(** A server that runs with two connections, one that is drained, and one
    without its file. *)
Example server_main_ex :
  sv_exit (run "server.toml" None) = Running ∧ sv_accepted (run "server.toml" None) = [1; 2] ∧
  (sub_filter <$> sv_log (run "server.toml" None)) = Some "debug"%string ∧
  sv_exit (run "server.toml" (Some [(2, false); (1, false); (1, true)])) = Exited (Ok tt) ∧
  sv_exit (run "other.toml" None) = Exited (Err (Error.Config "Failed to read config file: no such file")).
Proof. by vm_compute. Qed.
End ToyMain.
