(* ===== verification/UnitTests.v ===== *)
(** * The unit tests of the repository, run on the model

    The [#[test]] functions of arp-common and of proxy/vhost.rs as propositions
    about the definitions of this development, with the source's inputs and
    assertions, and the proof that they all pass.  What the tests take from the
    cryptographic libraries and from JSON is a hypothesis of that theorem.  The
    tests of the throttle wait on the clock: they are stated over the ticks of the
    refill task.  Left out are the tests that open sockets, and the one that
    expects AES-GCM to reject a key, which is a property of that library. *)
From S2P Require Import Prelude RustString NetAddr Errors Protocol Streams Links Config Crypto Auth VhostParse Vhost.
Local Open Scope Z_scope.

Definition is_err {E A} (r : result E A) : bool := negb (is_ok r).

(** ** config/mod.rs *)

Definition base_proxy (proxy_type : ProxyType) : ProxyConfig :=
  mkProxyConfig "p1" proxy_type "127.0.0.1" 8080 0 false false [] "" [] "" "" "" "" true "" "" ""
    HealthCheckConfig_default LoadBalancerConfig_default PluginConfig_default.
Definition with_proxy (local_port : Z) (encryption : bool) (domains : list string) (sk : string) (p : ProxyConfig)
  : ProxyConfig :=
  mkProxyConfig (pc_name p) (pc_proxy_type p) (pc_local_ip p) local_port (pc_remote_port p) encryption
    (pc_use_compression p) domains (pc_subdomain p) (pc_locations p) (pc_host_header_rewrite p) (pc_http_user p)
    (pc_http_pwd p) sk (pc_fallback_to_relay p) (pc_multiplexer p) (pc_bandwidth_limit p) (pc_bandwidth_limit_mode p)
    (pc_health_check p) (pc_load_balancer p) (pc_plugin p).

Definition test_http_proxy_requires_domain_or_subdomain : Prop :=
  is_err (proxy_validate (base_proxy Http)) = true ∧
  is_ok (proxy_validate (with_proxy 8080 false ["app.example.com"] "" (base_proxy Http))) = true.

Definition test_https_proxy_requires_local_port : Prop :=
  is_err (proxy_validate (with_proxy 0 false ["secure.example.com"] "" (base_proxy Https))) = true.

Definition test_encryption_requires_sk : Prop :=
  is_err (proxy_validate (with_proxy 8080 true [] "" (base_proxy Udp))) = true ∧
  is_ok (proxy_validate (with_proxy 8080 true [] "secret" (base_proxy Udp))) = true.

Definition test_stcp_sudp_require_sk : Prop :=
  Forall (fun t => is_err (proxy_validate (base_proxy t)) = true ∧
                   is_ok (proxy_validate (with_proxy 8080 false [] "secret" (base_proxy t))) = true) [Stcp; Sudp; Xtcp].

(** The transport of the three tests on WebSocket with TLS. *)
Definition ws_tls (ca : string) : TransportConfig :=
  let d := TransportConfig_default in
  mkTransportConfig TpWebsocket (tc_tcp_mux d) (tc_tcp_mux_keepalive_interval d) (tc_pool_count d)
    (tc_heartbeat_interval d) (tc_heartbeat_timeout d) (mkTlsConfig true "" "" ca "").
Definition ws_client (server_addr ca : string) (auth : AuthConfig) : ClientConfig :=
  mkClientConfig server_addr 7000 "" "" "" 1 auth (ws_tls ca) "" 0 "" "" [] [].
Definition ws_server `{Json} (auth : AuthConfig) : ServerConfig :=
  mkServerConfig _ "0.0.0.0" 7000 0 0 0 0 "" 0 "" "" "" "" 1 auth (ws_tls "") [] 0 0 "" false ∅.

Definition test_client_websocket_tls_requires_ca : Prop :=
  is_err (client_validate (ws_client "example.com" "" AuthConfig_default)) = true.
Definition test_client_websocket_tls_requires_server_name_for_ip : Prop :=
  is_err (client_validate (ws_client "127.0.0.1" "ca.pem" AuthConfig_default)) = true.
Definition test_server_websocket_tls_requires_cert_and_key `{Json} : Prop :=
  is_err (server_validate (ws_server AuthConfig_default)) = true.

(** ** auth/mod.rs *)

Definition token_config : AuthConfig :=
  mkAuthConfig "token" "root-token" ["extra-token"]
    [mkAuthRule "scoped-token" ["tcp"; "http"] [mkPortRange 6000 6010 0] ["example.com"] ["team-"] 2 0 0]
    OidcConfig_default.

Section AuthTests.
Context `{Json} `{Primitives} `{UnicodeLower}.
(** The clock when the message is made and when it is checked, and [json!({})]. *)
Variables ts now : Z.
Variable empty_object : Value.

Definition test_login (token : string) (pool_count : Z) : LoginMsg :=
  mkLoginMsg "0.1.0" "test" "linux" "x86_64" "test" "client-a" ts (sign token (pretty ts)) "" pool_count.
Definition proxy_msg (proxy_type : string) (remote_port : Z) (domains : list string) (subdomain : string) : NewProxyMsg :=
  mkNewProxyMsg "p1" proxy_type false false "127.0.0.1" 8080 remote_port domains subdomain [] "" "" "" true empty_object.

Definition test_token_auth_valid : Prop :=
  let auth := token_auth_new token_config in
  is_ok (verify_login auth now (test_login "root-token" 1)) = true ∧
  is_ok (verify_login auth now (test_login "extra-token" 1)) = true.
Definition test_token_auth_invalid : Prop :=
  is_err (verify_login (token_auth_new token_config) now (test_login "wrong-token" 1)) = true.
Definition test_rule_enforces_pool_count : Prop :=
  let auth := token_auth_new token_config in
  is_err (verify_login auth now (test_login "scoped-token" 3)) = true ∧
  is_ok (verify_login auth now (test_login "scoped-token" 2)) = true.
Definition test_rule_enforces_proxy_type_and_port : Prop :=
  let auth := token_auth_new token_config in
  is_err (authorize_proxy auth "scoped-token" 1 (proxy_msg "udp" 6001 [] "")) = true ∧
  is_err (authorize_proxy auth "scoped-token" 1 (proxy_msg "tcp" 7001 [] "")) = true ∧
  is_ok (authorize_proxy auth "scoped-token" 1 (proxy_msg "tcp" 6001 [] "")) = true.
Definition test_rule_enforces_domain_and_subdomain : Prop :=
  let auth := token_auth_new token_config in
  is_err (authorize_proxy auth "scoped-token" 1 (proxy_msg "http" 6001 ["bad.other.net"] "")) = true ∧
  is_ok (authorize_proxy auth "scoped-token" 1 (proxy_msg "http" 6001 ["app.example.com"] "")) = true ∧
  is_ok (authorize_proxy auth "scoped-token" 1 (proxy_msg "http" 6001 [] "team-api")) = true ∧
  is_err (authorize_proxy auth "scoped-token" 1 (proxy_msg "http" 6001 [] "other-api")) = true.
End AuthTests.

(** ** protocol/codec.rs *)

Section CodecTests.
Context `{Serde}.

Definition test_ping : Message := Ping (mkPingMsg 123456).
Definition test_login_msg : Message :=
  Login (mkLoginMsg "0.1.0" "test-host" "linux" "x86_64" "test-user" "client-a" 1234567890 "test-key" "" 5).

Definition test_codec_ping : Prop :=
  let '(buf, r) := encode test_ping [] in
  r = Ok tt ∧ ∃ ping, (decode buf).2 = Ok (Some (Ping ping)) ∧ ping_timestamp ping = 123456.
Definition test_codec_login : Prop :=
  let '(buf, r) := encode test_login_msg [] in
  r = Ok tt ∧ ∃ login, (decode buf).2 = Ok (Some (Login login)) ∧
    lm_version login = "0.1.0"%string ∧ lm_hostname login = "test-host"%string ∧ lm_pool_count login = 5.
Definition test_codec_partial_message : Prop :=
  let '(buf, r) := encode test_ping [] in
  r = Ok tt ∧
  let '(partial, first) := decode (take 5 buf) in
  first = Ok None ∧ ∃ m, (decode (partial ++ drop 5 buf)).2 = Ok (Some m).
Definition test_codec_rejects_too_large_message : Prop :=
  ∃ before after,
    (decode ("p"%byte :: be_bytes 8 (MAX_MESSAGE_SIZE + 1))).2
    = Err (Error.Protocol (before +:+ "exceeds max" +:+ after)).
End CodecTests.

(** ** crypto/mod.rs *)

Section CryptoTests.
Context `{Primitives}.

Definition compress_inputs : list bytes :=
  [to_bytes "Hello, World! This is a test message that should be compressed."; []].
Definition test_compress_decompress : Prop :=
  ∃ compressed, compress (to_bytes "Hello, World! This is a test message that should be compressed.") = Ok compressed ∧
    decompress compressed = Ok (to_bytes "Hello, World! This is a test message that should be compressed.") ∧
    compressed ≠ [].
Definition test_compress_empty : Prop :=
  ∃ compressed, compress [] = Ok compressed ∧ decompress compressed = Ok [].

(** For every nonce that is drawn. *)
Definition test_encrypt_decrypt (nonce : bytes) : Prop :=
  ∃ encrypted, packet_encrypt nonce (to_bytes "hello secure world") "test-secret" = Ok encrypted ∧
    packet_decrypt encrypted "test-secret" = Ok (to_bytes "hello secure world").
Definition test_session_cipher_encrypt_decrypt (nonce : bytes) : Prop :=
  ∃ cipher encrypted, session_new "session-secret" = Some cipher ∧
    session_encrypt cipher nonce (to_bytes "hello from session cipher") = Ok encrypted ∧
    session_decrypt cipher encrypted = Ok (to_bytes "hello from session cipher").
Definition test_session_cipher_compatible_with_packet_cipher (nonce : bytes) : Prop :=
  ∃ cipher encrypted, session_new "shared-secret" = Some cipher ∧
    session_encrypt cipher nonce (to_bytes "cross-compat test") = Ok encrypted ∧
    packet_decrypt encrypted "shared-secret" = Ok (to_bytes "cross-compat test").

Definition test_hmac_sign_and_verify : Prop :=
  let sig := sign "my-secret-token" "1700000000" in
  sig ≠ ""%string ∧ slen sig = 64 ∧ verify "my-secret-token" "1700000000" sig = true.
Definition test_hmac_rejects_wrong_token : Prop :=
  verify "wrong-token" "12345" (sign "correct-token" "12345") = false.
Definition test_hmac_rejects_wrong_message : Prop :=
  verify "token" "99999" (sign "token" "12345") = false.
(** The last character is replaced by another one. *)
Definition test_hmac_rejects_tampered_signature : Prop :=
  ∀ start last, to_bytes (sign "token" "12345") = start ++ [last] →
    verify "token" "12345" (of_bytes (start ++ [if bool_decide (last = "a"%byte) then "b"%byte else "a"%byte])) = false.
End CryptoTests.

(** ** transport/mod.rs *)

Definition test_connection_closed_is_retriable : Prop :=
  Forall (fun e => is_retriable e = true)
    [Error.ConnectionClosed; Error.Io (mkIoError BrokenPipe None ""); Error.Transport "test"; Error.Timeout "test"] ∧
  Forall (fun e => is_retriable e = false)
    [Error.Auth "bad token"; Error.Config "bad config"; Error.Proxy "rejected"].

(** A stream whose other end is gone: nothing is left to read. *)
Definition test_recv_returns_none_on_server_close `{Serde} : Prop :=
  (recv (from_stream (Framed0 := Buffered.buffered) ([] : list bytes))).2 = Ok None ∧
  is_retriable Error.ConnectionClosed = true.

(** ** proxy/vhost.rs *)

Definition test_extract_http_host `{UnicodeLower} : Prop :=
  let line s := to_bytes s ++ [x0d; x0a] in
  ∃ host, extract_http_host (line "GET / HTTP/1.1" ++ line "Host: Example.com:8080" ++ line "User-Agent: test" ++ line "")
          = Some host ∧ VhostParse.normalize_host host = "example.com"%string.

Definition build_test_client_hello (host : string) : bytes :=
  let host_bytes := to_bytes host in
  let ext := be_bytes 2 (1 + 2 + blen host_bytes) ++ [x00] ++ be_bytes 2 (blen host_bytes) ++ host_bytes in
  let extensions := be_bytes 2 0 ++ be_bytes 2 (blen ext) ++ ext in
  let body := [x03; x03] ++ replicate 32 x00 ++ [x00] ++ be_bytes 2 2 ++ [x00; x2f] ++ [x01] ++ [x00]
              ++ be_bytes 2 (blen extensions) ++ extensions in
  let len := blen body in
  let handshake := [x01] ++ [byte_of (Z.land (Z.shiftr len 16) 255); byte_of (Z.land (Z.shiftr len 8) 255);
                             byte_of (Z.land len 255)] ++ body in
  [x16] ++ [x03; x01] ++ be_bytes 2 (blen handshake) ++ handshake.
Definition test_parse_tls_sni : Prop :=
  parse_tls_sni (build_test_client_hello "api.example.com") = Some (Some "api.example.com"%string).

Definition test_http_routes_allow_multi_backend (tx1 tx2 : Sender) : Prop :=
  let t := add_routes (mkVhostTable ∅ ∅) ["app.example.com"]%string "run1:p1" "p1" tx1 in
  let t := add_routes t ["app.example.com"]%string "run2:p2" "p2" tx2 in
  ∃ routes, vt_routes t !! "app.example.com"%string = Some routes ∧ length routes = 2%nat.

(** ** They pass *)

Lemma config_tests_pass `{Json} :
  test_http_proxy_requires_domain_or_subdomain ∧ test_https_proxy_requires_local_port ∧ test_encryption_requires_sk ∧
  test_stcp_sudp_require_sk ∧ test_client_websocket_tls_requires_ca ∧
  test_client_websocket_tls_requires_server_name_for_ip ∧ test_server_websocket_tls_requires_cert_and_key.
Proof. split_and!; try done. repeat constructor. Qed.

(** What the signatures of the tests must not do: collide. *)
Definition distinct_signatures `{Primitives} (ts : Z) : Prop :=
  NoDup ((fun t => sign t (pretty ts)) <$> ["root-token"; "extra-token"; "scoped-token"; "wrong-token"]%string) ∧
  sign "wrong-token" "12345" ≠ sign "correct-token" "12345" ∧ sign "token" "99999" ≠ sign "token" "12345".

(** ** transport/throttle.rs *)

(** A small amount goes through without waiting. *)
Definition test_throttle_basic : Prop :=
  consume_now 2 1000000 (throttle_new 1000000) 1000 = Some 999000.

(** All the tokens are consumed, the refill task ticks [ticks] times, and 500
    more go through without waiting. *)
Definition test_throttle_refill (ticks : nat) : Prop :=
  consume_now 2 10000 (throttle_new 10000) 10000 = Some 0 ∧
  is_Some (consume_now 2 10000 (Nat.iter ticks (refill 10000) 0) 500).

Section Pass.
Context `{Json} `{Primitives} `{UnicodeLower}.

(** The token a login of the tests is checked under, and the check of its rule. *)
Lemma test_login_ok ts now token pool t :
  0 ≤ now < 2 ^ 62 → in_i 64 ts → Z.abs (now - ts) ≤ 300 →
  find_matching_token (token_auth_new token_config) (sign token (pretty ts)) (pretty ts) = t →
  verify_login (token_auth_new token_config) now (test_login ts token pool) =
  match t with
  | None => Err (Error.Auth "Invalid token (HMAC mismatch)")
  | Some t => match matching_rule (token_auth_new token_config) t with
              | Some rule => _ ← validate_rule_login rule (test_login ts token pool); Ok t
              | None => Ok t
              end
  end.
Proof.
  intros Hn Hts Hd Hf. unfold verify_login. cbn [lm_timestamp lm_privilege_key test_login].
  assert (check_timestamp now ts = Ok tt) as -> by (apply check_timestamp_Ok; auto).
  cbn [mbind result_bind]. rewrite Hf. destruct t as [t|]; [|done]. cbn [ok_or mbind result_bind].
  by destruct (matching_rule _ t).
Qed.

Lemma verify_sign token m sig : verify token m sig = bool_decide (sig = sign token m).
Proof. apply eq_true_iff_eq. by rewrite verify_iff, bool_decide_eq_true. Qed.

Lemma auth_tests_pass ts now v :
  0 ≤ now < 2 ^ 62 → in_i 64 ts → Z.abs (now - ts) ≤ 300 → distinct_signatures ts →
  test_token_auth_valid ts now ∧ test_token_auth_invalid ts now ∧ test_rule_enforces_pool_count ts now ∧
  test_rule_enforces_proxy_type_and_port v ∧ test_rule_enforces_domain_and_subdomain v.
Proof.
  intros Hn Hts Hd [Hs _]. rewrite !fmap_cons, fmap_nil, !NoDup_cons, !not_elem_of_cons in Hs.
  destruct Hs as ((N1 & N2 & N3 & _) & (N4 & N5 & _) & (N6 & _) & _ & _).
  assert (Hf : ∀ token, find_matching_token (token_auth_new token_config) (sign token (pretty ts)) (pretty ts) =
    if bool_decide (sign token (pretty ts) = sign "root-token" (pretty ts)) then Some "root-token"%string
    else if bool_decide (sign token (pretty ts) = sign "extra-token" (pretty ts)) then Some "extra-token"%string
    else if bool_decide (sign token (pretty ts) = sign "scoped-token" (pretty ts)) then Some "scoped-token"%string
    else None).
  { intros token. unfold find_matching_token. cbn [token_auth_new ta_token ta_additional_tokens ta_rules token_config
      ac_token ac_additional_tokens ac_rules List.find ar_token]. rewrite !verify_sign. by repeat case_bool_decide. }
  unfold test_token_auth_valid, test_token_auth_invalid, test_rule_enforces_pool_count.
  split_and!; try (rewrite (test_login_ok ts now _ _ _ Hn Hts Hd (Hf _));
    repeat case_bool_decide; by try congruence).
  all: vm_compute; try done.
Qed.

Lemma codec_tests_pass `{!Serde} :
  serde_ok test_ping → serde_ok test_login_msg →
  test_codec_ping ∧ test_codec_login ∧ test_codec_partial_message ∧ test_codec_rejects_too_large_message.
Proof.
  intros Hp Hl.
  assert (He : ∀ m, serde_ok m → encode m [] = (msg_frame m, Ok tt)).
  { intros m (json & Hv & Hlen & _). unfold encode, msg_frame. by rewrite Hv, (proj2 (Z.ltb_ge _ _)). }
  unfold test_codec_ping, test_codec_login, test_codec_partial_message. rewrite !He by done.
  pose proof (decode_msg_frame test_ping [] Hp) as Dp. pose proof (decode_msg_frame test_login_msg [] Hl) as Dl.
  rewrite app_nil_r in Dp, Dl. rewrite Dp, Dl. split_and!; [done|by eexists|done|by eexists|done| |].
  - rewrite decode_short by (unfold blen; rewrite length_take; lia). split; [done|]. exists test_ping.
    by rewrite take_drop, Dp.
  - exists "message length 8388609 "%string, " 8388608"%string. vm_compute. reflexivity.
Qed.

Lemma crypto_tests_pass `{!PrimLaws} nonce ts :
  length nonce = 12%nat → distinct_signatures ts →
  (∀ d, d ∈ compress_inputs → ∃ z, compress d = Ok z ∧ (d ≠ [] → z ≠ [])) →
  test_compress_decompress ∧ test_compress_empty ∧ test_encrypt_decrypt nonce ∧
  test_session_cipher_encrypt_decrypt nonce ∧ test_session_cipher_compatible_with_packet_cipher nonce ∧
  test_hmac_sign_and_verify ∧ test_hmac_rejects_wrong_token ∧ test_hmac_rejects_wrong_message ∧
  test_hmac_rejects_tampered_signature.
Proof.
  intros Hn (_ & Hw & Hm) Hz. split_and!.
  - destruct (Hz (to_bytes "Hello, World! This is a test message that should be compressed.")) as (z & Ez & Hne);
      [by left|]. exists z. split_and!; [done|by apply decompress_compress|by apply Hne].
  - destruct (Hz []) as (z & Ez & _); [by right; left|]. exists z. split; [done|]. by apply decompress_compress.
  - destruct (packet_session_roundtrip nonce (to_bytes "hello secure world") "test-secret" Hn)
      as (c & e & _ & He & _ & Hd & _); [done|done|]. by exists e.
  - destruct (packet_session_roundtrip nonce (to_bytes "hello from session cipher") "session-secret" Hn)
      as (c & e & Hc & _ & He & _ & Hd & _); [done|done|]. by exists c, e.
  - destruct (packet_session_roundtrip nonce (to_bytes "cross-compat test") "shared-secret" Hn)
      as (c & e & Hc & _ & He & Hd & _); [done|done|]. by exists c, e.
  - unfold test_hmac_sign_and_verify. cbv zeta.
    assert (slen (sign "my-secret-token" "1700000000") = 64) as Hl by (unfold sign; by rewrite length_hex_encode, length_hmac).
    split_and!; [|done|by apply verify_iff]. intros E. by rewrite E in Hl.
  - unfold test_hmac_rejects_wrong_token. by rewrite verify_sign, bool_decide_eq_false_2.
  - unfold test_hmac_rejects_wrong_message. by rewrite verify_sign, bool_decide_eq_false_2.
  - intros start last E. rewrite verify_sign, bool_decide_eq_false_2; [done|]. intros Ht.
    apply (f_equal to_bytes) in Ht. rewrite to_of_bytes, E in Ht. apply app_inj_2 in Ht as [_ Ht]; [|done].
    case_bool_decide; by simplify_eq.
Qed.

Lemma vhost_tests_pass tx1 tx2 :
  test_extract_http_host ∧ test_parse_tls_sni ∧ test_http_routes_allow_multi_backend tx1 tx2.
Proof. split_and!; [eexists|..|eexists]; vm_compute; [by split|done|by split]. Qed.
End Pass.

(** One tick of the refill task is enough for the test, more do no harm. *)
Lemma refill_ticks ticks : (0 < ticks)%nat → 1000 ≤ Nat.iter ticks (refill 10000) 0.
Proof.
  intros Ht. destruct ticks as [|n]; [lia|]. clear Ht. induction n as [|n IH]; [done|].
  change (Nat.iter (S (S n)) (refill 10000) 0) with (refill 10000 (Nat.iter (S n) (refill 10000) 0)).
  revert IH. generalize (Nat.iter (S n) (refill 10000) 0). intros p IH.
  unfold refill, refill_amount. change (Z.max (10000 / 10) 1) with 1000.
  destruct (Z.ltb_spec 0 (1000 `min` (0 `max` (10000 - p)))); lia.
Qed.
Lemma throttle_tests_pass ticks : (0 < ticks)%nat → test_throttle_basic ∧ test_throttle_refill ticks.
Proof.
  intros Ht%refill_ticks. split; [done|]. split; [done|].
  rewrite (consume_now_total 10000 _ 500 1) by lia. by eexists.
Qed.

(** The model passes the repository's own unit tests.  Given clocks within
    five minutes of each other, a JSON library that reads back the two messages
    of the codec tests, cryptographic primitives with their documented laws that
    do not collide on the inputs of the tests, and a compressor that accepts two
    short texts, every assertion of the tests of configuration, authentication,
    codec, cryptography, error classification, virtual hosts and the throttle
    holds, the last as soon as its refill task has ticked once. *)
Theorem unit_tests_pass `{Serde} `{Primitives} `{!PrimLaws} `{UnicodeLower} ts now v nonce tx1 tx2 ticks :
  (0 < ticks)%nat → 0 ≤ now < 2 ^ 62 → in_i 64 ts → Z.abs (now - ts) ≤ 300 → distinct_signatures ts →
  serde_ok test_ping → serde_ok test_login_msg → length nonce = 12%nat →
  (∀ d, d ∈ compress_inputs → ∃ z, compress d = Ok z ∧ (d ≠ [] → z ≠ [])) →
  (test_http_proxy_requires_domain_or_subdomain ∧ test_https_proxy_requires_local_port ∧ test_encryption_requires_sk ∧
   test_stcp_sudp_require_sk ∧ test_client_websocket_tls_requires_ca ∧
   test_client_websocket_tls_requires_server_name_for_ip ∧ test_server_websocket_tls_requires_cert_and_key) ∧
  (test_token_auth_valid ts now ∧ test_token_auth_invalid ts now ∧ test_rule_enforces_pool_count ts now ∧
   test_rule_enforces_proxy_type_and_port v ∧ test_rule_enforces_domain_and_subdomain v) ∧
  (test_codec_ping ∧ test_codec_login ∧ test_codec_partial_message ∧ test_codec_rejects_too_large_message) ∧
  (test_compress_decompress ∧ test_compress_empty ∧ test_encrypt_decrypt nonce ∧
   test_session_cipher_encrypt_decrypt nonce ∧ test_session_cipher_compatible_with_packet_cipher nonce ∧
   test_hmac_sign_and_verify ∧ test_hmac_rejects_wrong_token ∧ test_hmac_rejects_wrong_message ∧
   test_hmac_rejects_tampered_signature) ∧
  (test_recv_returns_none_on_server_close ∧ test_connection_closed_is_retriable) ∧
  (test_extract_http_host ∧ test_parse_tls_sni ∧ test_http_routes_allow_multi_backend tx1 tx2) ∧
  (test_throttle_basic ∧ test_throttle_refill ticks).
Proof.
  intros Hk Hn Ht Hd Hs Hp Hl Hnonce Hz. split; [apply config_tests_pass|]. split; [by apply auth_tests_pass|].
  split; [by apply codec_tests_pass|]. split; [by eapply crypto_tests_pass|].
  split; [split; [done|by repeat constructor]|]. split; [apply vhost_tests_pass|].
  by apply throttle_tests_pass.
Qed.

(** Three of them test nothing of what they are called after: an [AuthConfig] by
    default has an empty method, so the configuration is rejected for that,
    whatever its transport is.  With a token the rejections they mean are there. *)
Theorem websocket_tests_reject_the_auth_method `{Json} transport :
  (∀ addr, addr ≠ ""%string →
     client_validate (mkClientConfig addr 7000 "" "" "" 1 AuthConfig_default transport "" 0 "" "" [] [])
     = Err (Error.Config "unsupported auth.method: ")) ∧
  server_validate (mkServerConfig _ "0.0.0.0" 7000 0 0 0 0 "" 0 "" "" "" "" 1 AuthConfig_default transport [] 0 0 ""
                     false ∅) = Err (Error.Config "unsupported auth.method: ") ∧
  client_validate (ws_client "example.com" "" token_config)
    = Err (Error.Config "websocket + tls transport requires transport.tls.trusted_ca_file") ∧
  client_validate (ws_client "127.0.0.1" "ca.pem" token_config)
    = Err (Error.Config "websocket + tls transport with IP server_addr requires transport.tls.server_name") ∧
  server_validate (ws_server token_config)
    = Err (Error.Config "websocket + tls requires transport.tls.cert_file and transport.tls.key_file").
Proof.
  split_and!; try done. intros addr Ha. unfold client_validate. cbn [cc_server_addr].
  by rewrite (proj2 (is_empty_false _) Ha).
Qed.

(** ** Witness *)

Module ToyTests.
#[local] Existing Instances ToyCrypto.prims ToyCrypto.laws.
#[local] Instance json : Json := {| Value := unit; as_object := fun _ => None; as_str := fun _ => None |}.
#[local] Instance lower : UnicodeLower := fun s => s.
(** The two messages as one byte each. *)
#[local] Instance serde : Serde := {|
  to_vec := fun m => match m with Ping _ => Ok [x00] | Login _ => Ok [x01] | _ => Err "unsupported"%string end;
  from_slice := fun bs => match bs with [x00] => Ok test_ping | [x01] => Ok test_login_msg | _ => Err "bad"%string end |}.

Lemma unit_tests_pass_witness :
  test_token_auth_invalid 1700000000 1700000003 ∧ test_codec_login ∧ test_parse_tls_sni ∧ test_throttle_refill 2.
Proof.
  destruct (unit_tests_pass (H0 := serde) 1700000000 1700000003 tt (replicate 12 x07) 1 2 2)
    as (_ & (_ & Ha & _) & (_ & Hc & _) & _ & _ & (_ & Hv & _) & (_ & Hr)).
  - lia.
  - by split.
  - by split.
  - by vm_compute.
  - split; [|by split; vm_compute]. apply (bool_decide_unpack _). vm_compute. exact I.
  - exists [x00]. by vm_compute.
  - exists [x01]. by vm_compute.
  - reflexivity.
  - intros d Hd. exists d. split; [done|]. by intros Hne.
  - exact (conj Ha (conj Hc (conj Hv Hr))).
Defined.
End ToyTests.
